(* ===== verification/_CoqProject ===== *)
-Q . S2P
Prelude.v
Intent.v
Outbox.v
Codec.v
Runtime.v
Scheduler.v
SchedulerInv.v
SchedulerFail.v
Executor.v
ExecutorSafety.v
Chunks.v
CommittorProgram.v
Ephemeral.v
OutboxProgram.v
TokenPrograms.v
MagicContext.v
ScheduleCommon.v
Accept.v
Limits.v
Construction.v
Schedule.v
QueueInv.v
Tasks.v
Process.v
RpcClient.v
Strategist.v
ExecErrors.v
ExecClient.v
ConcreteExec.v
TaskBuilder.v
EstimateMatch.v
Runner.v
IntentExec.v
RunnerSafety.v
TaskSafety.v
RunnerInv.v
SettleOnce.v
Link.v
LinkResolve.v
LinkClient.v
FetchCloner.v
LinkPipeline.v
LinkClone.v
LinkUpdate.v
LinkSubs.v
LinkProcess.v
LinkLogic.v
LinkQuiet.v
LinkSafety.v
LinkEntry.v
LinkTotal.v
LinkClaims.v
LinkConcrete.v
LinkTracker.v
LinkRescue.v
LinkTakeover.v
LinkErrors.v
LinkCycle.v
Concurrent.v
Provider.v
ProviderFetch.v
ProviderReconcile.v
ProviderLocks.v
ProviderSettle.v
ProviderWaiters.v
ProviderLive.v
ProviderMatch.v
Tables.v
TableSafety.v
TableLive.v
TableMatch.v
TableReserve.v
