(* ===== verification/Prelude.v ===== *)
(** * Verification of the MagicBlock validator

    The validator runs an ephemeral ledger over accounts delegated from a base
    layer. Chainlink brings accounts in: it fetches and clones what transactions
    need, follows the base layer and starts delegation sessions. Programs on the
    ephemeral ledger schedule intents: commits of account
    states, undelegations and actions on the base layer. The validator moves the
    scheduled intents into an outbox, orders them by the accounts they touch, and
    settles each with one or two base layer transactions, across failures and
    restarts. This library models both paths, from the base layer into the
    validator and from the instruction that schedules an intent to the report that
    closes it, with the programs around them, and proves what makes them correct.

    ** Parts and files

    Scheduling, on the ephemeral ledger ([src/core/src/intent], [src/programs]):
    - [Intent]: the intent bundle, its accessors and fees ([core/src/intent/mod.rs],
      [types.rs]), validation of a constructed bundle;
    - [Limits]: the size check of [core/src/intent/limits.rs];
    - [Runtime]: the accounts of an instruction, lamport moves and account modes
      ([magic-program/src/utils]);
    - [TokenPrograms]: token accounts and their projection ([core/src/token_programs.rs]);
    - [Construction]: bundles from instruction arguments
      ([magic_scheduled_base_intent.rs], [magic-interface/src/args.rs]);
    - [ScheduleCommon], [Schedule], [QueueInv]: the scheduling instructions of
      [intent_bundles/schedule] as functions on the accounts, and the invariant of
      the queue they fill;
    - [MagicContext], [Accept]: the queue account ([magic_context.rs]) and the
      instruction that empties it into the outbox
      ([process_accept_scheduled_commits.rs]);
    - [Ephemeral]: accounts that exist only on the ephemeral ledger, with their rent
      vault ([ephemeral_accounts]).

    Outbox:
    - [Outbox]: the execution stage recorded for an intent and its transitions
      ([magic-interface/src/outbox.rs]), the committor's view of it ([progress.rs]);
    - [OutboxProgram]: the outbox intent program ([outbox_intent], [core/src/intent/outbox.rs])
      with its byte encoding;
    - [Codec]: byte codecs and their laws.

    Ordering, in the committor ([src/committor/src/execution]):
    - [Scheduler], [SchedulerInv], [SchedulerFail]: [scheduler.rs];
    - [Executor], [ExecutorSafety]: the loop of [worker.rs] as a transition system,
      and its refinement of an abstract machine.

    Settlement, in the committor:
    - [Process]: the monad of asynchronous code and its program logic;
    - [RpcClient]: errors, retries and outcomes of [src/rpc-client];
    - [Tasks], [Strategist]: settlement tasks and the transactions that carry them
      ([shared/tasks]);
    - [ExecErrors]: the errors of settlement and their classification;
    - [ExecClient], [TaskBuilder], [Runner], [IntentExec]: [client.rs],
      [task_builder.rs] and [account_state.rs], [transaction], [intent.rs] with the
      retries of [worker.rs];
    - [RunnerSafety], [RunnerInv], [SettleOnce], [TaskSafety], [EstimateMatch]: their
      theorems; [ConcreteExec]: a concrete base layer to evaluate them on.

    Chainlink ([src/chainlink/src/chainlink], [cloner], [src/aml]):
    - [Link], [LinkResolve]: remote images, clone requests, delegation records and their
      actions, programs, classification, token account projection and takeover, the
      tracker of colliding accounts, as pure functions;
    - [LinkClient]: the calls to the engine, the provider and the risk server, the
      cloner, subscriptions;
    - [FetchCloner], [LinkPipeline], [LinkClone]: fetching and cloning with companions,
      dependencies and rescue ([fetch_cloner/mod.rs], [pipeline.rs],
      [ata_projection.rs], [delegation.rs]);
    - [LinkUpdate], [LinkSubs], [LinkProcess]: requests, program reloads, sweeps,
      subscription updates, removals ([program_loader.rs], [chainlink/mod.rs]);
    - [LinkLogic], [LinkQuiet]: program logic; [LinkSafety], [LinkEntry], [LinkTotal],
      [LinkClaims]: what reaches the engine, over all entry points, and that the fuel
      of a clone is enough;
    - [LinkTracker], [LinkRescue], [LinkTakeover], [LinkErrors], [LinkCycle]: theorems on
      parts; [LinkConcrete]: a concrete engine and base layer.

    Components that many tasks use at once:
    - [Concurrent]: futures that share a state, run in any interleaving and dropped at
      any [await], with the proof methods for safety, progress and termination;
    - [Provider], [ProviderFetch], [ProviderReconcile]: the provider of remote accounts
      ([chainlink/src/remote_account_provider]): subscriptions and who holds them, claims,
      fetches, updates, repair, the bounded channels to its listeners;
    - [ProviderLocks], [ProviderSettle], [ProviderWaiters], [ProviderLive],
      [ProviderMatch]: its theorems;
    - [Tables]: lookup tables, their reservations and the collector ([src/table-mania]);
      [TableSafety], [TableLive], [TableMatch], [TableReserve]: its theorems.

    Committor program ([src/programs/committor-program], [committor-interface]):
    - [Chunks]: the bitfield of delivered chunks and the chunk arithmetic;
    - [CommittorProgram]: the buffer program and its instruction builders.

    ** Correspondence

    Definitions keep the names of the source. A Rust struct is a record, an enum an
    inductive type; [Result] is [result] and [?] is [let?]; code that may panic
    returns [failure]. Keys, hashes and signatures are [N]; machine integers are [Z]
    with wrapping, checking or saturating written out. Accounts are finite maps from
    keys, so accounts that alias are one. Loops are structural, or carry a fuel that
    is proved sufficient: the eviction loop of the scheduler, the search for
    placeholder payers, chunk iteration. A loop of asynchronous code makes a call in
    every iteration and is run with as much fuel as it may make calls ([Process]);
    [wp] includes that this fuel is never exhausted, and statements hold for every
    number of calls, so also for runs that do not end. Retry loops of futures count
    down the attempts that the code allows; waiting loops count down the time.

    Code outside the repository is a parameter: typeclasses [Codec], [OutboxCodec],
    [ContextCodec], [TokenEnv], [Engine], [Settlement], [TaskEnv], [TxEnv], [ExecEnv],
    [DlpErrors], [LinkApi], [Lru], [LinkEnv], [ProviderEnv] and [TableEnv] hold its
    functions, classes ending in [Laws] the documented behaviour that theorems use. Modules named [Concrete...] instantiate them, and
    witnesses evaluate the theorems there. In [ExecEnv] and [LinkEnv] every answer of the outside
    world is a function of the whole history of calls, so theorems hold for every
    behaviour of the base layer; a call may also be interrupted, by a timeout or by
    the end of the process. Other tasks of Chainlink run while one waits: its caches
    may then change arbitrarily ([interfere]), the engine's accounts are read anew.
    A clone recurses through the dependencies of its actions; every level makes
    calls, so the number of calls is fuel enough ([LinkTotal]).

    ** What the theorems show

    - Settlement ([SettleOnce]): over timeouts, crashes and restarts, commits are sent
      only when recorded and while no other commit transaction is alive; under the
      assumption the code makes about dead transactions, at most one lands; a restart
      finds the one in flight. [unfinalized_taken_for_dead] shows where the assumption
      can fail. [TaskSafety], [Strategist], [EstimateMatch]: tasks cover the intent,
      belong to live delegation sessions, are delivered complete and in order, and
      agree with the size check made when the intent was scheduled.
    - Ordering ([ExecutorSafety]): exclusive accounts, start order, cascades of
      failures, progress, refinement of an abstract machine.
    - Scheduling ([Schedule], [QueueInv], [Accept], [Intent], [Limits]): the effect of
      each instruction on all accounts, fees, the queue invariant;
      [undelegating_payer_not_charged] shows who escapes the fee.
    - Outbox ([OutboxProgram], [Outbox]): refinement of a map of records, authority,
      stage transitions.
    - Chainlink ([LinkClaims]): whatever arrives in whatever order, remote images only
      replace what they may, actions run only when their signers were checked, sessions
      start from the base layer's record and commit number. An activation that fails
      hands the account back ([LinkRescue]), across Chainlink and the Magic program; a
      takeover keeps balances ([LinkTakeover]); colliding updates are not lost
      ([LinkTracker]); subscriptions on error paths ([LinkErrors]);
      [cyclic_actions_never_settle] shows accounts that are never cloned.
    - Remote account provider: held keys are followed and only keys no one holds are
      given up ([ProviderLocks]); requests get one answer, as new as their fetch
      ([ProviderWaiters]); all tasks come to rest, and unless a channel is full all have
      returned ([ProviderLive], where [stale_listener_stuck] shows a full channel that is
      never emptied); accounts of one slot ([ProviderMatch]).
    - Lookup tables: reserved keys stay in active tables, only tables without reservations
      are deactivated and closed, all tasks end ([TableLive]); a successful reservation
      covers its keys ([TableReserve]), as do the tables handed out ([TableMatch]).
    - Programs ([CommittorProgram], [Chunks], [Ephemeral], [TokenPrograms]): complete
      uploads, conservation of lamports, round trips.

    ** Not modelled

    - In the committor: the implementation of the [TransactionPreparator] and
      [OutboxClient] traits (buffers, lookup tables, transactions to the outbox), which
      settlement calls as part of the outside world; clean-up of resources; metrics.
      Futures that the code joins run one after the other.
    - In Chainlink: the pubsub clients and [submux], network code that the provider calls
      as part of the outside world; fetches of undelegation requests and delegation
      statuses; spawned tasks of one batch run one after the other. The files [Link...]
      call the provider as part of the outside world.
    - [src/ledger], [src/storage-proto]: a store behind RocksDB and conversions to
      generated types; [src/task-scheduler], [src/services]: services over RPC and SQLite.
    - [src/aperture], [src/config], [src/metrics], [src/bins], [src/runtime]:
      servers, command lines, logging and process start-up.
    - Log messages, metrics and error texts everywhere. *)

From stdpp Require Import base gmap sets list strings sorting.
From Stdlib Require Import ZArith Lia.

(** ** Results

    Rust's [Result<T, E>] and the [?] operator. *)

Inductive result (T E : Type) : Type :=
| Ok (t : T)
| Err (e : E).
Arguments Ok {T E} t.
Arguments Err {T E} e.

Definition res_bind {A B E} (r : result A E) (f : A -> result B E) : result B E :=
  match r with Ok a => f a | Err e => Err e end.

Definition res_map_err {A E F} (f : E -> F) (r : result A E) : result A F :=
  match r with Ok a => Ok a | Err e => Err (f e) end.

Definition ok_or {A E} (o : option A) (e : E) : result A E :=
  match o with Some a => Ok a | None => Err e end.

Definition is_ok {A E} (r : result A E) : bool :=
  match r with Ok _ => true | Err _ => false end.

(** A failing call either returns an error value or panics. *)
Inductive failure (E : Type) : Type :=
| Error (e : E)
| Panic.
Arguments Error {E} e.
Arguments Panic {E}.

(** [assert!(b)]. *)
Definition assert_that {E} (b : bool) : result unit (failure E) :=
  if b then Ok tt else Err Panic.

Declare Scope mbv_scope.
Delimit Scope mbv_scope with mbv.
Notation "'let?' x := r 'in' k" := (res_bind r (fun x => k))
  (at level 10, x name, r at level 100, k at level 200) : mbv_scope.
Notation "'let?' ' p := r 'in' k" := (res_bind r (fun p => k))
  (at level 10, p strict pattern, r at level 100, k at level 200) : mbv_scope.
Notation "r ?; k" := (res_bind r (fun _ => k))
  (at level 100, k at level 200, right associativity) : mbv_scope.
Open Scope mbv_scope.

(** [iter().try_for_each(f)]: stops at the first error. *)
Fixpoint try_for_each {A E} (f : A -> result unit E) (l : list A) : result unit E :=
  match l with
  | [] => Ok tt
  | x :: r => f x ?; try_for_each f r
  end.

(** [iter().map(f).collect::<Result<Vec<_>, _>>()]. *)
Fixpoint try_collect {A B E} (f : A -> result B E) (l : list A) : result (list B) E :=
  match l with
  | [] => Ok []
  | x :: r => let? y := f x in let? ys := try_collect f r in Ok (y :: ys)
  end.

(** [iter().try_fold(init, f)]. *)
Fixpoint try_fold {A B E} (f : B -> A -> result B E) (acc : B) (l : list A) : result B E :=
  match l with
  | [] => Ok acc
  | x :: r => let? acc := f acc x in try_fold f acc r
  end.

(** ** Machine integers

    A [w]-bit unsigned integer is a [Z] in [0, 2^w). The plain operators wrap
    (the release profile has no overflow checks); the checked and saturating
    families are the source's own choices. *)

Section machine_integers.
Local Open Scope Z_scope.

Definition u8_max : Z := 2 ^ 8 - 1.
Definition u16_max : Z := 2 ^ 16 - 1.
Definition u32_max : Z := 2 ^ 32 - 1.
Definition u64_max : Z := 2 ^ 64 - 1.
Definition i64_max : Z := 2 ^ 63 - 1.

Definition wrap (w x : Z) : Z := x mod 2 ^ w.
Definition wadd (w a b : Z) : Z := wrap w (a + b).
Definition wsub (w a b : Z) : Z := wrap w (a - b).
Definition wmul (w a b : Z) : Z := wrap w (a * b).
Definition checked_add (max a b : Z) : option Z :=
  if a + b <=? max then Some (a + b) else None.
Definition checked_sub (a b : Z) : option Z :=
  if b <=? a then Some (a - b) else None.
Definition saturating_add (max a b : Z) : Z := Z.min (a + b) max.
Definition saturating_sub (a b : Z) : Z := Z.max 0 (a - b).
Definition div_ceil (a b : Z) : Z :=
  if 0 <? a mod b then a / b + 1 else a / b.

Lemma wrap_small w x : 0 <= x < 2 ^ w -> wrap w x = x.
Proof. apply Z.mod_small. Qed.

Lemma wrap_bound w x : 0 <= w -> 0 <= wrap w x < 2 ^ w.
Proof. intros. apply Z.mod_pos_bound, Z.pow_pos_nonneg; lia. Qed.

Lemma checked_add_Some max a b c :
  checked_add max a b = Some c <-> a + b <= max /\ c = a + b.
Proof. unfold checked_add. destruct (Z.leb_spec (a + b) max); split; intros; try destruct_and!; simplify_eq; auto; lia. Qed.

Lemma checked_sub_Some a b c :
  checked_sub a b = Some c <-> b <= a /\ c = a - b.
Proof. unfold checked_sub. destruct (Z.leb_spec b a); split; intros; try destruct_and!; simplify_eq; auto; lia. Qed.

Lemma div_ceil_spec a b :
  0 < b -> 0 <= a -> b * div_ceil a b - b < a <= b * div_ceil a b.
Proof.
  intros Hb Ha. unfold div_ceil.
  pose proof (Z.div_mod a b ltac:(lia)). pose proof (Z.mod_pos_bound a b Hb).
  destruct (Z.ltb_spec 0 (a mod b)); lia.
Qed.

Lemma div_ceil_nonneg a b : 0 < b -> 0 <= a -> 0 <= div_ceil a b.
Proof. intros Hb Ha. pose proof (div_ceil_spec a b Hb Ha). nia. Qed.

Lemma div_ceil_le a b : 0 < b -> 0 <= a -> div_ceil a b <= a.
Proof. intros Hb Ha. pose proof (div_ceil_spec a b Hb Ha). nia. Qed.

End machine_integers.

(** [uN::to_le_bytes] and [uN::from_le_bytes]. *)
Fixpoint to_le_bytes (n : nat) (x : Z) : list Z :=
  match n with O => [] | S n => (x mod 256)%Z :: to_le_bytes n (x / 256)%Z end.

Fixpoint from_le_bytes (l : list Z) : Z :=
  match l with [] => 0 | b :: r => b + 256 * from_le_bytes r end%Z.

Lemma to_le_bytes_length n x : length (to_le_bytes n x) = n.
Proof. revert x. induction n; intros; simpl; auto. Qed.

Lemma from_to_le_bytes n x :
  (0 <= x < 256 ^ Z.of_nat n)%Z -> from_le_bytes (to_le_bytes n x) = x.
Proof.
  revert x. induction n as [|n IH]; intros x Hx; simpl; [simpl in Hx; lia|].
  rewrite Nat2Z.inj_succ, Z.pow_succ_r in Hx by lia.
  rewrite IH; [pose proof (Z.div_mod x 256); lia|].
  split; [apply Z.div_pos; lia|]. apply Z.div_lt_upper_bound; lia.
Qed.

Lemma to_le_bytes_range n x : Forall (fun b => 0 <= b < 256)%Z (to_le_bytes n x).
Proof. revert x. induction n; intros; constructor; [apply Z.mod_pos_bound; lia|auto]. Qed.

(** ** Automation

    [mbv] holds the equations of the result combinators; [case_res] splits the
    result a hypothesis matches on and discards the impossible branches. *)

Create HintDb mbv discriminated.

Lemma res_bind_Ok {A B E} (r : result A E) (f : A -> result B E) b :
  res_bind r f = Ok b <-> exists a, r = Ok a /\ f a = Ok b.
Proof. destruct r; naive_solver. Qed.

Lemma ok_or_Ok {A E} (o : option A) (e : E) a : ok_or o e = Ok a <-> o = Some a.
Proof. destruct o; naive_solver. Qed.

Lemma res_map_err_Ok {A E F} (f : E -> F) (r : result A E) a :
  res_map_err f r = Ok a <-> r = Ok a.
Proof. destruct r; naive_solver. Qed.

Ltac res_inv :=
  repeat match goal with
  | H : res_bind _ _ = Ok _ |- _ => apply res_bind_Ok in H as (? & ? & ?)
  | H : ok_or _ _ = Ok _ |- _ => apply ok_or_Ok in H
  | H : res_map_err _ _ = Ok _ |- _ => apply res_map_err_Ok in H
  | H : checked_add _ _ _ = Some _ |- _ => apply checked_add_Some in H as [? ->]
  | H : checked_sub _ _ = Some _ |- _ => apply checked_sub_Some in H as [? ->]
  | _ => progress simplify_eq/=
  end.

(** Removes the wrap-arounds that provably do not happen, innermost first. *)
Ltac unwrap :=
  repeat match goal with
  | |- context [wrap ?w ?e] =>
      lazymatch e with
      | context [wrap _ _] => fail
      | _ => rewrite (wrap_small w e) by lia
      end
  end.

Ltac case_res :=
  repeat (res_inv; try (case_match; try discriminate; []));
  res_inv.

Lemma try_for_each_Ok {A E} (f : A -> result unit E) l :
  try_for_each f l = Ok tt <-> Forall (fun x => f x = Ok tt) l.
Proof.
  induction l as [|x l IH]; simpl; [done|].
  rewrite res_bind_Ok, Forall_cons, <- IH. split; [intros ([] & ? & ?); done | naive_solver].
Qed.

Lemma try_collect_Ok {A B E} (f : A -> result B E) l ys :
  try_collect f l = Ok ys <-> Forall2 (fun x y => f x = Ok y) l ys.
Proof.
  revert ys. induction l as [|x l IH]; intros ys; simpl.
  - split; [intros [= <-]; constructor | inversion 1; done].
  - split.
    + intros H. res_inv. constructor; [done|]. by apply IH.
    + inversion 1 as [|? y ? ys' Hy Hys]; subst. rewrite Hy. simpl.
      apply IH in Hys. by rewrite Hys.
Qed.

Lemma filter_none {A} (P : A -> Prop) `{!forall x, Decision (P x)} (l : list A) :
  (forall x, x ∈ l -> ~ P x) -> filter P l = [].
Proof.
  intros Hno. destruct (filter P l) as [|x r] eqn:E; [done|].
  assert (x ∈ filter P l) as [? ?]%list_elem_of_filter by (rewrite E; constructor).
  exfalso. by eapply Hno.
Qed.

Lemma not_or (P Q : Prop) : ~ (P \/ Q) <-> ~ P /\ ~ Q.
Proof. tauto. Qed.

Lemma filter_ext_in {A} (P Q : A -> Prop) `{!forall x, Decision (P x)} `{!forall x, Decision (Q x)}
    (l : list A) :
  (forall x, x ∈ l -> P x <-> Q x) -> filter P l = filter Q l.
Proof.
  induction l as [|x l IH]; intros Hpq; [done|]. rewrite !filter_cons.
  pose proof (Hpq x ltac:(set_solver)). rewrite IH by set_solver. by repeat case_decide; try tauto.
Qed.

(** ** Ordered collections of [u64]

    [VecDeque::binary_search] (the loop of [slice::binary_search_by]) and
    [BTreeSet<u64>] as its ascending sequence of elements. *)

Fixpoint bsearch_loop (fuel : nat) (l : list N) (x : N) (base size : nat) : nat :=
  match fuel with
  | O => base
  | S fuel =>
      if decide (1 < size) then
        let half := size / 2 in
        let mid := base + half in
        let base' :=
          match l !! mid with
          | Some e => if (x <? e)%N then base else mid
          | None => base
          end in
        bsearch_loop fuel l x base' (size - half)
      else base
  end.

Definition binary_search (l : list N) (x : N) : option nat :=
  if decide (length l = 0) then None
  else
    let base := bsearch_loop (length l) l x 0 (length l) in
    if decide (l !! base = Some x) then Some base else None.

Abbreviation ascending := (StronglySorted N.lt).

Lemma ascending_lookup_lt (l : list N) i j x y :
  ascending l -> l !! i = Some x -> l !! j = Some y -> i < j -> (x < y)%N.
Proof.
  intros Hl. revert i j. induction Hl as [|a l Hl IH Ha]; intros i j Hi Hj Hij; [done|].
  destruct j as [|j]; [lia|]. destruct i as [|i]; simplify_eq/=.
  - rewrite Forall_forall in Ha. apply Ha. by eapply list_elem_of_lookup_2.
  - eapply IH; eauto; lia.
Qed.

Lemma ascending_NoDup (l : list N) : ascending l -> NoDup l.
Proof.
  induction 1 as [|a l Hl IH Ha]; constructor; [|done].
  intros Hin. rewrite Forall_forall in Ha. specialize (Ha a Hin). lia.
Qed.

Lemma bsearch_loop_spec fuel (l : list N) x p base size :
  ascending l -> l !! p = Some x ->
  size <= fuel -> base <= p < base + size -> base + size <= length l ->
  bsearch_loop fuel l x base size = p.
Proof.
  intros Hl Hp. revert base size. induction fuel as [|fuel IH]; intros base size Hf Hb Hs; cbn [bsearch_loop].
  { lia. }
  destruct (decide (1 < size)) as [Hlt|]; [|lia].
  assert (Hhalf : 1 <= size / 2 /\ size / 2 <= size - size / 2).
  { pose proof (Nat.div_mod_eq size 2). pose proof (Nat.mod_upper_bound size 2). lia. }
  destruct (lookup_lt_is_Some_2 l (base + size / 2)) as [e He]; [lia|].
  cbv zeta. rewrite He. destruct (N.ltb_spec x e) as [Hxe|Hxe].
  - apply IH; try lia. split; [lia|].
    destruct (decide (base + size / 2 <= p)) as [Hge|]; [|lia].
    destruct (decide (base + size / 2 = p)) as [Heq|]; [assert (e = x) by congruence; lia|].
    pose proof (ascending_lookup_lt l (base + size / 2) p e x Hl He Hp ltac:(lia)). lia.
  - apply IH; try lia. split; [|lia].
    destruct (decide (p < base + size / 2)) as [Hge|]; [|lia].
    pose proof (ascending_lookup_lt l p (base + size / 2) x e Hl Hp He ltac:(lia)). lia.
Qed.

Lemma binary_search_found (l : list N) x p :
  ascending l -> l !! p = Some x -> binary_search l x = Some p.
Proof.
  intros Hl Hp. pose proof (lookup_lt_Some _ _ _ Hp). unfold binary_search.
  rewrite decide_False by lia.
  rewrite (bsearch_loop_spec _ l x p) by (done || lia). by rewrite decide_True.
Qed.

Lemma binary_search_sound (l : list N) x p :
  binary_search l x = Some p -> l !! p = Some x.
Proof. unfold binary_search. intros. repeat case_decide; naive_solver. Qed.

Lemma binary_search_None (l : list N) x :
  ascending l -> binary_search l x = None <-> x ∉ l.
Proof.
  intros Hl. split.
  - intros Hn [p Hp]%list_elem_of_lookup_1. apply binary_search_found in Hp; [|done]. congruence.
  - intros Hx. destruct (binary_search l x) as [p|] eqn:E; [|done].
    apply binary_search_sound, list_elem_of_lookup_2 in E. done.
Qed.

Fixpoint btree_insert (x : N) (l : list N) : list N :=
  match l with
  | [] => [x]
  | y :: r =>
      if (x <? y)%N then x :: l
      else if (x =? y)%N then l
      else y :: btree_insert x r
  end.

Definition btree_extend (l xs : list N) : list N :=
  fold_left (fun s x => btree_insert x s) xs l.

Lemma elem_of_btree_insert x y l : y ∈ btree_insert x l <-> y = x \/ y ∈ l.
Proof.
  induction l as [|z l IH]; simpl; [set_solver|].
  destruct (N.ltb_spec x z); [set_solver|]. destruct (N.eqb_spec x z); set_solver.
Qed.

Lemma btree_insert_ascending x l : ascending l -> ascending (btree_insert x l).
Proof.
  induction 1 as [|z l Hl IH Hz]; simpl; [repeat constructor|].
  destruct (N.ltb_spec x z).
  - constructor; [by constructor|]. constructor; [done|].
    eapply Forall_impl; [done|]. simpl. intros. lia.
  - destruct (N.eqb_spec x z); [by constructor|]. constructor; [done|].
    rewrite Forall_forall in Hz |- *. intros y [->|]%elem_of_btree_insert; [lia | auto].
Qed.

Lemma btree_insert_length x l : length (btree_insert x l) <= S (length l).
Proof. induction l; simpl; [lia|]. repeat case_match; simpl; lia. Qed.

Lemma elem_of_btree_extend l xs y : y ∈ btree_extend l xs <-> y ∈ l \/ y ∈ xs.
Proof.
  revert l. induction xs as [|x xs IH]; intros l; simpl; [set_solver|].
  rewrite IH, elem_of_btree_insert. set_solver.
Qed.

Lemma btree_extend_ascending l xs : ascending l -> ascending (btree_extend l xs).
Proof.
  revert l. induction xs as [|x xs IH]; intros l Hl; simpl; [done|].
  by apply IH, btree_insert_ascending.
Qed.

Lemma btree_extend_length l xs : length (btree_extend l xs) <= length l + length xs.
Proof.
  revert l. induction xs as [|x xs IH]; intros l; simpl; [lia|].
  pose proof (IH (btree_insert x l)). pose proof (btree_insert_length x l). lia.
Qed.

#[export] Hint Resolve ascending_NoDup btree_insert_ascending btree_extend_ascending : mbv.
