(* ===== verification/Intent.v ===== *)
(** * Intents

    The intent bundle a program schedules for settlement on the base chain
    ([core/src/intent/mod.rs], [core/src/intent/types.rs]) with its accessors and
    its fee, and the [ScheduledIntentBundle] wrapper of the magic program
    ([programs/magic-program/src/intent_bundles/magic_scheduled_base_intent.rs]). *)

From stdpp Require Import base gmap sets list strings.
From Stdlib Require Import ZArith Lia.
From S2P Require Import Prelude.

(** A public key is its 256-bit number; only equality of keys is observed. *)
Abbreviation Pubkey := N (only parsing).
Abbreviation Hash := N (only parsing).
Abbreviation Signature := N (only parsing).

(** [InstructionError] of the Solana runtime: the variants the sources return. *)
Inductive InstructionError :=
| GenericError
| InvalidArgument
| InvalidInstructionData
| InvalidAccountData
| AccountDataTooSmall
| InsufficientFunds
| IncorrectProgramId
| MissingRequiredSignature
| NotEnoughAccountKeys
| ReadonlyDataModified
| ArithmeticOverflow
| UnsupportedProgramId
| UnsupportedSysvar
| MissingAccount
| InvalidAccountOwner
| IllegalOwner
| IncorrectAuthority
| Immutable
| InvalidSeeds
| AccountBorrowFailed
| AccountAlreadyInitialized
| UninitializedAccount
| PrivilegeEscalation
| MaxInstructionTraceLengthExceeded
| Custom (code : Z).

#[export] Instance InstructionError_eq_dec : EqDecision InstructionError.
Proof. solve_decision. Defined.

(** ** Data *)

Record Account := mkAccount {
  lamports : Z;
  data : list Z;
  owner : Pubkey;
  executable : bool;
  rent_epoch : Z }.

Record CommittedAccount := mkCommittedAccount {
  ca_pubkey : Pubkey;
  ca_account : Account;
  ca_remote_slot : Z;
  ca_commit_id : Z }.

Record ShortAccountMeta := mkShortAccountMeta {
  sm_pubkey : Pubkey;
  sm_is_writable : bool }.

Record ProgramArgs := mkProgramArgs {
  escrow_index : Z;
  args_data : list Z }.

Record BaseActionCallback := mkBaseActionCallback {
  cb_destination_program : Pubkey;
  cb_discriminator : list Z;
  cb_payload : list Z;
  cb_compute_units : Z;
  cb_account_metas_per_program : list ShortAccountMeta }.

Record BaseAction := mkBaseAction {
  action_id : Z;
  compute_units : Z;
  destination_program : Pubkey;
  source_program : option Pubkey;
  escrow_authority : Pubkey;
  data_per_program : ProgramArgs;
  account_metas_per_program : list ShortAccountMeta;
  callback : option BaseActionCallback }.

Inductive CommitType :=
| CommitStandalone (committed_accounts : list CommittedAccount)
| CommitWithBaseActions (committed_accounts : list CommittedAccount)
    (base_actions : list BaseAction).

Inductive UndelegateType :=
| UndelegateStandalone
| UndelegateWithBaseActions (base_actions : list BaseAction).

Record CommitAndUndelegate := mkCommitAndUndelegate {
  commit_action : CommitType;
  undelegate_action : UndelegateType }.

Inductive MagicBaseIntent :=
| BaseActions (actions : list BaseAction)
| Commit (t : CommitType)
| CommitAndUndelegateIntent (t : CommitAndUndelegate)
| CommitFinalize (t : CommitType)
| CommitFinalizeAndUndelegate (t : CommitAndUndelegate).

Record MagicIntentBundle := mkMagicIntentBundle {
  commit : option CommitType;
  commit_and_undelegate : option CommitAndUndelegate;
  commit_finalize : option CommitType;
  commit_finalize_and_undelegate : option CommitAndUndelegate;
  standalone_actions : list BaseAction }.

Definition MagicIntentBundle_default : MagicIntentBundle :=
  mkMagicIntentBundle None None None None [].

(** [impl From<MagicBaseIntent> for MagicIntentBundle]. *)
Definition bundle_from_base_intent (value : MagicBaseIntent) : MagicIntentBundle :=
  match value with
  | BaseActions v => mkMagicIntentBundle None None None None ([] ++ v)
  | Commit v => mkMagicIntentBundle (Some v) None None None []
  | CommitAndUndelegateIntent v => mkMagicIntentBundle None (Some v) None None []
  | CommitFinalize v => mkMagicIntentBundle None None (Some v) None []
  | CommitFinalizeAndUndelegate v => mkMagicIntentBundle None None None (Some v) []
  end.

(** ** [CommitType], [UndelegateType], [CommitAndUndelegate] *)

Definition is_nil {A} (l : list A) : bool := match l with [] => true | _ => false end.

Definition has_callback (a : BaseAction) : bool :=
  match callback a with Some _ => true | None => false end.

Module CommitType.
Definition get_committed_accounts (t : CommitType) : list CommittedAccount :=
  match t with
  | CommitStandalone accounts => accounts
  | CommitWithBaseActions accounts _ => accounts
  end.

Definition get_committed_pubkeys (t : CommitType) : list Pubkey :=
  map ca_pubkey (get_committed_accounts t).

Definition is_empty (t : CommitType) : bool :=
  match t with
  | CommitStandalone accounts => is_nil accounts
  | CommitWithBaseActions accounts _ => is_nil accounts
  end.

Definition has_callbacks (t : CommitType) : bool :=
  match t with
  | CommitWithBaseActions _ base_actions => existsb has_callback base_actions
  | CommitStandalone _ => false
  end.
End CommitType.

(** [calculate_actions_fee]: micro-lamports accumulate with saturation and are
    rounded up to lamports. *)
Section fees.
Local Open Scope Z_scope.

Definition ACTUAL_COMMIT_LIMIT : Z := 25.
Definition COMMIT_FEE_LAMPORTS : Z := 1000000.
Definition COMPUTE_UNIT_PRICE_MICRO_LAMPORTS : Z := 50000.
Definition MICRO_LAMPORTS_PER_LAMPORT : Z := 1000000.
Definition MISSING_COMMIT_NONCE_ERR : Z := 0xA0000001.

Definition calculate_actions_fee (actions : list BaseAction) : Z :=
  let micro_lamports :=
    fold_left
      (fun acc action =>
         saturating_add u64_max acc
           (wmul 64 (compute_units action) COMPUTE_UNIT_PRICE_MICRO_LAMPORTS))
      actions 0 in
  div_ceil micro_lamports MICRO_LAMPORTS_PER_LAMPORT.

Definition calculate_commit_fee (accounts : list CommittedAccount) : result Z InstructionError :=
  try_fold
    (fun fee account =>
       if ca_commit_id account =? 0 then Err (Custom MISSING_COMMIT_NONCE_ERR)
       else Ok (wadd 64 fee
                  (if ca_commit_id account >? ACTUAL_COMMIT_LIMIT
                   then COMMIT_FEE_LAMPORTS else 0)))
    0 accounts.

Definition CommitType_calculate_fee (t : CommitType) : result Z InstructionError :=
  match t with
  | CommitStandalone accounts =>
      let? f := calculate_commit_fee accounts in Ok (wadd 64 0 f)
  | CommitWithBaseActions accounts base_actions =>
      let? f := calculate_commit_fee accounts in
      Ok (wadd 64 (wadd 64 0 f) (calculate_actions_fee base_actions))
  end.

Definition UndelegateType_calculate_fee (t : UndelegateType) : result Z InstructionError :=
  match t with
  | UndelegateStandalone => Ok 0
  | UndelegateWithBaseActions actions => Ok (calculate_actions_fee actions)
  end.

Definition CommitAndUndelegate_calculate_fee (t : CommitAndUndelegate)
    : result Z InstructionError :=
  let? f := CommitType_calculate_fee (commit_action t) in
  let? g := UndelegateType_calculate_fee (undelegate_action t) in
  Ok (wadd 64 (wadd 64 0 f) g).

(** [if let Some(ref x) = field { fee += x.calculate_fee()?; }]. *)
Definition add_fee {A} (calc : A -> result Z InstructionError) (o : option A) (fee : Z)
    : result Z InstructionError :=
  match o with
  | Some x => let? f := calc x in Ok (wadd 64 fee f)
  | None => Ok fee
  end.

Definition bundle_calculate_fee (b : MagicIntentBundle) : result Z InstructionError :=
  let? fee := add_fee CommitType_calculate_fee (commit b) 0 in
  let? fee := add_fee CommitAndUndelegate_calculate_fee (commit_and_undelegate b) fee in
  let? fee := add_fee CommitType_calculate_fee (commit_finalize b) fee in
  let? fee := add_fee CommitAndUndelegate_calculate_fee (commit_finalize_and_undelegate b) fee in
  Ok (wadd 64 fee (calculate_actions_fee (standalone_actions b))).
End fees.

Module CommitAndUndelegate.
Definition get_committed_accounts (t : CommitAndUndelegate) : list CommittedAccount :=
  CommitType.get_committed_accounts (commit_action t).

Definition get_committed_pubkeys (t : CommitAndUndelegate) : list Pubkey :=
  CommitType.get_committed_pubkeys (commit_action t).

Definition is_empty (t : CommitAndUndelegate) : bool :=
  CommitType.is_empty (commit_action t).

Definition has_callbacks (t : CommitAndUndelegate) : bool :=
  let x := CommitType.has_callbacks (commit_action t) in
  let y := match undelegate_action t with
           | UndelegateWithBaseActions actions => existsb has_callback actions
           | UndelegateStandalone => false
           end in
  x || y.
End CommitAndUndelegate.

(** ** [MagicIntentBundle] *)

Module Bundle.
Definition has_undelegate_intent (b : MagicIntentBundle) : bool :=
  bool_decide (is_Some (commit_and_undelegate b))
  || bool_decide (is_Some (commit_finalize_and_undelegate b)).

Definition get_commit_intent_accounts (b : MagicIntentBundle) : option (list CommittedAccount) :=
  CommitType.get_committed_accounts <$> commit b.

Definition get_undelegate_intent_accounts (b : MagicIntentBundle) : option (list CommittedAccount) :=
  CommitAndUndelegate.get_committed_accounts <$> commit_and_undelegate b.

Definition get_commit_finalize_intent_accounts (b : MagicIntentBundle)
    : option (list CommittedAccount) :=
  CommitType.get_committed_accounts <$> commit_finalize b.

Definition get_commit_finalize_and_undelegate_intent_accounts (b : MagicIntentBundle)
    : option (list CommittedAccount) :=
  CommitAndUndelegate.get_committed_accounts <$> commit_finalize_and_undelegate b.

Definition has_committed_accounts (b : MagicIntentBundle) : bool :=
  let nonempty o := default false ((fun el => negb (is_nil el)) <$> o) in
  nonempty (get_commit_intent_accounts b)
  || nonempty (get_undelegate_intent_accounts b)
  || nonempty (get_commit_finalize_intent_accounts b)
  || nonempty (get_commit_finalize_and_undelegate_intent_accounts b).

(** [[a, b, c, d].into_iter().flatten().flatten()]. *)
Definition flatten2 {A} (l : list (option (list A))) : list A :=
  concat (omap id l).

Definition get_all_committed_accounts (b : MagicIntentBundle) : list CommittedAccount :=
  flatten2 [get_commit_intent_accounts b; get_undelegate_intent_accounts b;
            get_commit_finalize_intent_accounts b;
            get_commit_finalize_and_undelegate_intent_accounts b].

Definition get_commit_intent_pubkeys (b : MagicIntentBundle) : option (list Pubkey) :=
  CommitType.get_committed_pubkeys <$> commit b.

Definition get_undelegate_intent_pubkeys (b : MagicIntentBundle) : option (list Pubkey) :=
  CommitAndUndelegate.get_committed_pubkeys <$> commit_and_undelegate b.

Definition get_commit_finalize_intent_pubkeys (b : MagicIntentBundle) : option (list Pubkey) :=
  CommitType.get_committed_pubkeys <$> commit_finalize b.

Definition get_commit_finalize_and_undelegate_intent_pubkeys (b : MagicIntentBundle)
    : option (list Pubkey) :=
  CommitAndUndelegate.get_committed_pubkeys <$> commit_finalize_and_undelegate b.

Definition get_all_committed_pubkeys (b : MagicIntentBundle) : list Pubkey :=
  flatten2 [get_commit_intent_pubkeys b; get_undelegate_intent_pubkeys b;
            get_commit_finalize_intent_pubkeys b;
            get_commit_finalize_and_undelegate_intent_pubkeys b].

Definition is_empty (b : MagicIntentBundle) : bool :=
  default true (CommitType.is_empty <$> commit b)
  && default true (CommitAndUndelegate.is_empty <$> commit_and_undelegate b)
  && default true (CommitType.is_empty <$> commit_finalize b)
  && default true (CommitAndUndelegate.is_empty <$> commit_finalize_and_undelegate b)
  && is_nil (standalone_actions b).

Definition has_callbacks (b : MagicIntentBundle) : bool :=
  default false (CommitType.has_callbacks <$> commit b)
  || default false (CommitAndUndelegate.has_callbacks <$> commit_and_undelegate b)
  || default false (CommitType.has_callbacks <$> commit_finalize b)
  || default false (CommitAndUndelegate.has_callbacks <$> commit_finalize_and_undelegate b)
  || existsb has_callback (standalone_actions b).

(** [get_action_mut(id)] returns a mutable reference to the first action with
    the id: the action and what writing through the reference gives. *)
Abbreviation Ref A B := (option (A * (A -> B))).

(** The reference seen from an enclosing value. *)
Definition within_ref {A B C} (wrap_ : B -> C) (r : Ref A B) : Ref A C :=
  match r with Some (a, w) => Some (a, fun a' => wrap_ (w a')) | None => None end.

(** [iter_mut().find(|a| a.id == id)]. *)
Fixpoint find_mut (id : Z) (l : list BaseAction) : Ref BaseAction (list BaseAction) :=
  match l with
  | [] => None
  | a :: r =>
      if (action_id a =? id)%Z then Some (a, fun a' => a' :: r)
      else within_ref (cons a) (find_mut id r)
  end.

Definition CommitType_get_action_mut (id : Z) (t : CommitType) : Ref BaseAction CommitType :=
  match t with
  | CommitWithBaseActions accounts base_actions =>
      within_ref (CommitWithBaseActions accounts) (find_mut id base_actions)
  | CommitStandalone _ => None
  end.

Definition UndelegateType_get_action_mut (id : Z) (t : UndelegateType)
    : Ref BaseAction UndelegateType :=
  match t with
  | UndelegateWithBaseActions actions => within_ref UndelegateWithBaseActions (find_mut id actions)
  | UndelegateStandalone => None
  end.

(** [if let Some(action) = r { return Some(action) }] *)
Definition or_else {A B} (r k : Ref A B) : Ref A B :=
  match r with Some x => Some x | None => k end.

Definition CommitAndUndelegate_get_action_mut (id : Z) (t : CommitAndUndelegate)
    : Ref BaseAction CommitAndUndelegate :=
  or_else
    (within_ref (fun c => mkCommitAndUndelegate c (undelegate_action t))
       (CommitType_get_action_mut id (commit_action t)))
    (within_ref (mkCommitAndUndelegate (commit_action t))
       (UndelegateType_get_action_mut id (undelegate_action t))).

Definition get_action_mut (id : Z) (b : MagicIntentBundle) : Ref BaseAction MagicIntentBundle :=
  let '(mkMagicIntentBundle c cau cf cfau acts) := b in
  or_else (within_ref (fun c' => mkMagicIntentBundle (Some c') cau cf cfau acts)
             (c ≫= CommitType_get_action_mut id))
  (or_else (within_ref (fun cau' => mkMagicIntentBundle c (Some cau') cf cfau acts)
              (cau ≫= CommitAndUndelegate_get_action_mut id))
  (or_else (within_ref (fun acts' => mkMagicIntentBundle c cau cf cfau acts') (find_mut id acts))
  (or_else (within_ref (fun cf' => mkMagicIntentBundle c cau (Some cf') cfau acts)
              (cf ≫= CommitType_get_action_mut id))
           (within_ref (fun cfau' => mkMagicIntentBundle c cau cf (Some cfau') acts)
              (cfau ≫= CommitAndUndelegate_get_action_mut id))))).
End Bundle.

(** ** [MagicBaseIntent] *)

Module BaseIntent.
Definition is_undelegate (i : MagicBaseIntent) : bool :=
  match i with
  | BaseActions _ => false
  | Commit _ => false
  | CommitAndUndelegateIntent _ => true
  | CommitFinalize _ => false
  | CommitFinalizeAndUndelegate _ => true
  end.

Definition is_commit_finalize (i : MagicBaseIntent) : bool :=
  match i with
  | BaseActions _ => false
  | Commit _ => false
  | CommitAndUndelegateIntent _ => false
  | CommitFinalize _ => true
  | CommitFinalizeAndUndelegate _ => true
  end.

Definition get_committed_accounts (i : MagicBaseIntent) : option (list CommittedAccount) :=
  match i with
  | BaseActions _ => None
  | Commit t => Some (CommitType.get_committed_accounts t)
  | CommitAndUndelegateIntent t => Some (CommitAndUndelegate.get_committed_accounts t)
  | CommitFinalize t => Some (CommitType.get_committed_accounts t)
  | CommitFinalizeAndUndelegate t => Some (CommitAndUndelegate.get_committed_accounts t)
  end.

Definition get_committed_pubkeys (i : MagicBaseIntent) : option (list Pubkey) :=
  map ca_pubkey <$> get_committed_accounts i.

Definition is_empty (i : MagicBaseIntent) : bool :=
  match i with
  | BaseActions actions => is_nil actions
  | Commit t => CommitType.is_empty t
  | CommitAndUndelegateIntent t => CommitAndUndelegate.is_empty t
  | CommitFinalize t => CommitType.is_empty t
  | CommitFinalizeAndUndelegate t => CommitAndUndelegate.is_empty t
  end.
End BaseIntent.

(** [BaseAction::validate_callback_destination]. *)
Definition validate_callback_destination (a : BaseAction) (destination : Pubkey)
    : result unit InstructionError :=
  if decide (source_program a = Some destination) then Ok tt else Err InvalidInstructionData.

(** ** [ScheduledIntentBundle] *)

Record ScheduledIntentBundle := mkScheduledIntentBundle {
  intent_id : N;
  intent_slot : Z;
  intent_blockhash : Hash;
  intent_payer : Pubkey;
  intent_bundle : MagicIntentBundle }.

Module ScheduledIntentBundle.
Definition calculate_fee (s : ScheduledIntentBundle) : result Z InstructionError :=
  let? f := bundle_calculate_fee (intent_bundle s) in Ok (wadd 64 0 f).

Definition get_all_committed_accounts (s : ScheduledIntentBundle) : list CommittedAccount :=
  Bundle.get_all_committed_accounts (intent_bundle s).

Definition get_all_committed_pubkeys (s : ScheduledIntentBundle) : list Pubkey :=
  Bundle.get_all_committed_pubkeys (intent_bundle s).

(** [a.into_iter().chain(b).flatten()]. *)
Definition get_undelegated_pubkeys (s : ScheduledIntentBundle) : list Pubkey :=
  Bundle.flatten2 [Bundle.get_undelegate_intent_pubkeys (intent_bundle s);
                   Bundle.get_commit_finalize_and_undelegate_intent_pubkeys (intent_bundle s)].
End ScheduledIntentBundle.

(** ** Post-validation of a constructed bundle

    [post_validate_magic_intent_bundle]: a bundle is not empty and no account
    is committed twice, whatever the intents it appears in. [seen] is the
    closure's captured set. *)
Fixpoint check_unique (seen : gset Pubkey) (accounts : list CommittedAccount)
    : result (gset Pubkey) InstructionError :=
  match accounts with
  | [] => Ok seen
  | el :: r =>
      if decide (ca_pubkey el ∈ seen) then Err InvalidInstructionData
      else check_unique ({[ca_pubkey el]} ∪ seen) r
  end.

Definition check_unique_opt (seen : gset Pubkey) (o : option (list CommittedAccount))
    : result (gset Pubkey) InstructionError :=
  match o with Some accounts => check_unique seen accounts | None => Ok seen end.

Definition post_validate_magic_intent_bundle (b : MagicIntentBundle)
    : result unit InstructionError :=
  if Bundle.is_empty b then Err InvalidInstructionData
  else
    let? seen := check_unique_opt ∅ (Bundle.get_commit_intent_accounts b) in
    let? seen := check_unique_opt seen (Bundle.get_undelegate_intent_accounts b) in
    let? seen := check_unique_opt seen (Bundle.get_commit_finalize_intent_accounts b) in
    let? seen := check_unique_opt seen
                   (Bundle.get_commit_finalize_and_undelegate_intent_accounts b) in
    Ok tt.

(** ** Theorems *)

(** *** Committed keys *)

Lemma get_all_committed_pubkeys_accounts b :
  Bundle.get_all_committed_pubkeys b = map ca_pubkey (Bundle.get_all_committed_accounts b).
Proof.
  destruct b as [[] [] [] [] ?]; cbn; unfold Bundle.get_all_committed_accounts, Bundle.flatten2;
    cbn; by rewrite ?map_app.
Qed.

Lemma check_unique_app seen l1 l2 :
  check_unique seen (l1 ++ l2) = let? s := check_unique seen l1 in check_unique s l2.
Proof. revert seen. induction l1; intros; simpl; [done|]. by case_decide. Qed.

Lemma check_unique_spec seen accounts :
  match check_unique seen accounts with
  | Ok _ => NoDup (map ca_pubkey accounts) /\ (forall k, k ∈ map ca_pubkey accounts -> k ∉ seen)
  | Err e => e = InvalidInstructionData
      /\ ~ (NoDup (map ca_pubkey accounts) /\ (forall k, k ∈ map ca_pubkey accounts -> k ∉ seen))
  end.
Proof.
  revert seen. induction accounts as [|a r IH]; intros seen; simpl.
  { split; [constructor | set_solver]. }
  case_decide as Hin.
  { split; [done|]. intros [_ H]. apply (H (ca_pubkey a)); set_solver. }
  specialize (IH ({[ca_pubkey a]} ∪ seen)). destruct (check_unique _ _) as [s|e]; rewrite NoDup_cons.
  - destruct IH as [? Hd]. split_and!; [|done|].
    + intros Hk. specialize (Hd _ Hk). set_solver.
    + intros k [->|Hk]%elem_of_cons; [done|]. specialize (Hd _ Hk). set_solver.
  - destruct IH as [-> Hn]. split; [done|]. intros [[Ha Hnd] Hd].
    apply Hn. split; [done|]. intros k Hk. set_unfold. naive_solver.
Qed.

(** The four calls of the [check] closure are one pass over all accounts. *)
Lemma post_validate_single_pass b :
  post_validate_magic_intent_bundle b =
  if Bundle.is_empty b then Err InvalidInstructionData
  else check_unique ∅ (Bundle.get_all_committed_accounts b) ?; Ok tt.
Proof.
  unfold post_validate_magic_intent_bundle. destruct (Bundle.is_empty b); [done|].
  destruct b as [[] [] [] [] ?]; unfold Bundle.get_all_committed_accounts, Bundle.flatten2; cbn;
    rewrite ?app_nil_r;
    repeat (rewrite ?check_unique_app; destruct (check_unique _ _); simpl; try done);
    done.
Qed.

(** A constructed bundle passes post-validation exactly when it is not empty
    and no account key is committed twice anywhere in the bundle; every other
    bundle is rejected with [InvalidInstructionData]. *)
Theorem post_validate_unique b :
  match post_validate_magic_intent_bundle b with
  | Ok _ => Bundle.is_empty b = false /\ NoDup (Bundle.get_all_committed_pubkeys b)
  | Err e => e = InvalidInstructionData
      /\ (Bundle.is_empty b = true \/ ~ NoDup (Bundle.get_all_committed_pubkeys b))
  end.
Proof.
  rewrite post_validate_single_pass, get_all_committed_pubkeys_accounts.
  destruct (Bundle.is_empty b); [by auto|].
  pose proof (check_unique_spec ∅ (Bundle.get_all_committed_accounts b)) as H.
  destruct (check_unique _ _); simpl.
  - naive_solver.
  - destruct H as [-> H]. split; [done|]. right. intros Hnd. apply H. set_solver.
Qed.

Lemma has_committed_accounts_pubkeys b :
  Bundle.has_committed_accounts b = negb (is_nil (Bundle.get_all_committed_pubkeys b)).
Proof.
  destruct b as [[c|] [u|] [cf|] [cfu|] ?]; cbn; unfold Bundle.has_committed_accounts; cbn;
    repeat match goal with t : CommitAndUndelegate |- _ => destruct t as [? ?] end; cbn;
    repeat match goal with t : CommitType |- _ => destruct t as [[|? ?]|[|? ?] ?] end; done.
Qed.

(** *** Fees *)

Section fee_theorems.
Local Open Scope Z_scope.

(** The mathematical fee: every committed account past the sponsored allowance
    pays [COMMIT_FEE_LAMPORTS]; every group of actions pays for its compute
    units, each group rounded up on its own. *)
Definition actions_of_commit (t : CommitType) : list BaseAction :=
  match t with CommitStandalone _ => [] | CommitWithBaseActions _ acts => acts end.

Definition actions_of_undelegate (t : UndelegateType) : list BaseAction :=
  match t with UndelegateStandalone => [] | UndelegateWithBaseActions acts => acts end.

Definition groups_of_commit (o : option CommitType) : list (list BaseAction) :=
  match o with Some t => [actions_of_commit t] | None => [] end.

Definition groups_of_cau (o : option CommitAndUndelegate) : list (list BaseAction) :=
  match o with
  | Some t => [actions_of_commit (commit_action t); actions_of_undelegate (undelegate_action t)]
  | None => []
  end.

Definition action_groups (b : MagicIntentBundle) : list (list BaseAction) :=
  groups_of_commit (commit b) ++ groups_of_cau (commit_and_undelegate b)
  ++ groups_of_commit (commit_finalize b) ++ groups_of_cau (commit_finalize_and_undelegate b)
  ++ [standalone_actions b].

Definition sumZ (l : list Z) : Z := foldr Z.add 0 l.

Definition actions_fee (acts : list BaseAction) : Z :=
  div_ceil (sumZ (map compute_units acts) * COMPUTE_UNIT_PRICE_MICRO_LAMPORTS)
           MICRO_LAMPORTS_PER_LAMPORT.

Definition is_charged (a : CommittedAccount) : bool := ca_commit_id a >? ACTUAL_COMMIT_LIMIT.

Definition commits_fee (accounts : list CommittedAccount) : Z :=
  COMMIT_FEE_LAMPORTS * Z.of_nat (length (List.filter is_charged accounts)).

Definition exact_fee (b : MagicIntentBundle) : Z :=
  commits_fee (Bundle.get_all_committed_accounts b) + sumZ (map actions_fee (action_groups b)).

(** Bounds that hold for every bundle a transaction can carry: accounts are
    addressed by [u8] indices and compute units are a [u32]. *)
Definition fee_bounded (b : MagicIntentBundle) : Prop :=
  Z.of_nat (length (Bundle.get_all_committed_accounts b)) <= 2 ^ 32
  /\ Forall (fun g => Z.of_nat (length g) <= 2 ^ 15
                      /\ Forall (fun a => 0 <= compute_units a <= u32_max) g)
            (action_groups b).

Lemma sumZ_app l1 l2 : sumZ (l1 ++ l2) = sumZ l1 + sumZ l2.
Proof. induction l1; simpl; lia. Qed.

Lemma sum_compute_units_bound acts :
  Forall (fun a => 0 <= compute_units a <= u32_max) acts ->
  0 <= sumZ (map compute_units acts) <= u32_max * Z.of_nat (length acts).
Proof. induction 1; simpl; lia. Qed.

Lemma actions_fold_exact acts acc :
  Forall (fun a => 0 <= compute_units a <= u32_max) acts ->
  0 <= acc ->
  acc + sumZ (map compute_units acts) * COMPUTE_UNIT_PRICE_MICRO_LAMPORTS <= u64_max ->
  fold_left
    (fun acc action =>
       saturating_add u64_max acc
         (wmul 64 (compute_units action) COMPUTE_UNIT_PRICE_MICRO_LAMPORTS)) acts acc
  = acc + sumZ (map compute_units acts) * COMPUTE_UNIT_PRICE_MICRO_LAMPORTS.
Proof.
  intros Hacts. revert acc. induction Hacts as [|a acts Ha Hacts IH]; intros acc Hacc Hle; simpl in *.
  { lia. }
  pose proof (sum_compute_units_bound acts Hacts).
  unfold wmul, saturating_add, u32_max, u64_max, COMPUTE_UNIT_PRICE_MICRO_LAMPORTS in *.
  rewrite wrap_small by lia. rewrite IH; lia.
Qed.

Lemma calculate_actions_fee_exact acts :
  Z.of_nat (length acts) <= 2 ^ 15 -> Forall (fun a => 0 <= compute_units a <= u32_max) acts ->
  calculate_actions_fee acts = actions_fee acts /\ 0 <= actions_fee acts <= 2 ^ 44.
Proof.
  intros Hlen Hacts. pose proof (sum_compute_units_bound acts Hacts) as Hb.
  unfold calculate_actions_fee, actions_fee.
  rewrite actions_fold_exact; unfold u32_max, u64_max, COMPUTE_UNIT_PRICE_MICRO_LAMPORTS,
    MICRO_LAMPORTS_PER_LAMPORT in *; try (done || lia).
  split; [done|]. set (x := sumZ _) in *.
  pose proof (div_ceil_spec (x * 50000) 1000000). lia.
Qed.

Lemma actions_fee_nil : actions_fee [] = 0.
Proof. done. Qed.

Definition missing_nonce (a : CommittedAccount) : bool := ca_commit_id a =? 0.

(** [Err MISSING_COMMIT_NONCE_ERR] when an account has no reserved commit id. *)
Definition fee_or_missing (accounts : list CommittedAccount) (fee : Z)
    : result Z InstructionError :=
  if existsb missing_nonce accounts then Err (Custom MISSING_COMMIT_NONCE_ERR) else Ok fee.

Lemma commits_fee_bound l : 0 <= commits_fee l <= COMMIT_FEE_LAMPORTS * Z.of_nat (length l).
Proof. unfold commits_fee. pose proof (filter_length_le is_charged l). unfold COMMIT_FEE_LAMPORTS. lia. Qed.

Lemma commits_fee_cons a l :
  commits_fee (a :: l) = (if is_charged a then COMMIT_FEE_LAMPORTS else 0) + commits_fee l.
Proof. unfold commits_fee. simpl. destruct (is_charged a); simpl length; lia. Qed.

Lemma commits_fee_app l1 l2 : commits_fee (l1 ++ l2) = commits_fee l1 + commits_fee l2.
Proof. unfold commits_fee. rewrite List.filter_app, length_app. lia. Qed.

Lemma commit_fold_exact accounts acc :
  0 <= acc -> acc + COMMIT_FEE_LAMPORTS * Z.of_nat (length accounts) <= u64_max ->
  try_fold
    (fun fee account =>
       if ca_commit_id account =? 0 then Err (Custom MISSING_COMMIT_NONCE_ERR)
       else Ok (wadd 64 fee
                  (if ca_commit_id account >? ACTUAL_COMMIT_LIMIT
                   then COMMIT_FEE_LAMPORTS else 0))) acc accounts
  = fee_or_missing accounts (acc + commits_fee accounts).
Proof.
  unfold fee_or_missing. revert acc. induction accounts as [|a l IH]; intros acc Hacc Hle; simpl in *.
  { f_equal. unfold commits_fee. simpl. lia. }
  rewrite commits_fee_cons. unfold missing_nonce at 1, is_charged.
  destruct (ca_commit_id a =? 0) eqn:E; simpl; [done|].
  set (c := if ca_commit_id a >? ACTUAL_COMMIT_LIMIT then COMMIT_FEE_LAMPORTS else 0).
  assert (0 <= c <= 1000000) by (subst c; unfold COMMIT_FEE_LAMPORTS; destruct (_ >? _); lia).
  unfold COMMIT_FEE_LAMPORTS, u64_max, wadd in *. rewrite Nat2Z.inj_succ in Hle.
  unwrap. rewrite IH by lia. destruct (existsb _ l); [done|]. f_equal. lia.
Qed.

Lemma CommitType_fee_exact t :
  Z.of_nat (length (CommitType.get_committed_accounts t)) <= 2 ^ 32 ->
  Z.of_nat (length (actions_of_commit t)) <= 2 ^ 15 ->
  Forall (fun a => 0 <= compute_units a <= u32_max) (actions_of_commit t) ->
  CommitType_calculate_fee t =
  fee_or_missing (CommitType.get_committed_accounts t)
    (commits_fee (CommitType.get_committed_accounts t) + actions_fee (actions_of_commit t))
  /\ 0 <= actions_fee (actions_of_commit t) <= 2 ^ 44.
Proof.
  intros Hl Ha1 Ha2. destruct (calculate_actions_fee_exact _ Ha1 Ha2) as [He Hb].
  split; [|done]. unfold calculate_commit_fee, CommitType_calculate_fee.
  destruct t as [l|l acts]; simpl in *; unfold calculate_commit_fee;
    pose proof (commits_fee_bound l);
    rewrite commit_fold_exact by (unfold COMMIT_FEE_LAMPORTS, u64_max; lia);
    unfold fee_or_missing, wadd, COMMIT_FEE_LAMPORTS in *;
    destruct (existsb _ l); simpl; try done; f_equal; rewrite ?He, ?actions_fee_nil;
    unwrap; lia.
Qed.

Lemma CommitAndUndelegate_fee_exact t :
  Z.of_nat (length (CommitAndUndelegate.get_committed_accounts t)) <= 2 ^ 32 ->
  Forall (fun g => Z.of_nat (length g) <= 2 ^ 15
                   /\ Forall (fun a => 0 <= compute_units a <= u32_max) g)
         (groups_of_cau (Some t)) ->
  CommitAndUndelegate_calculate_fee t =
  fee_or_missing (CommitAndUndelegate.get_committed_accounts t)
    (commits_fee (CommitAndUndelegate.get_committed_accounts t)
     + sumZ (map actions_fee (groups_of_cau (Some t))))
  /\ 0 <= sumZ (map actions_fee (groups_of_cau (Some t))) <= 2 ^ 45.
Proof.
  destruct t as [c u]. unfold CommitAndUndelegate.get_committed_accounts. simpl.
  intros Hl [[Hc1 Hc2] [[Hu1 Hu2] _]%Forall_cons]%Forall_cons.
  destruct (CommitType_fee_exact c Hl Hc1 Hc2) as [Hc Hcb].
  destruct (calculate_actions_fee_exact _ Hu1 Hu2) as [Hu Hub].
  split; [|lia]. unfold CommitAndUndelegate_calculate_fee. simpl. rewrite Hc.
  pose proof (commits_fee_bound (CommitType.get_committed_accounts c)).
  unfold fee_or_missing, wadd, COMMIT_FEE_LAMPORTS in *. destruct (existsb _ _); simpl; [done|].
  assert (UndelegateType_calculate_fee u = Ok (actions_fee (actions_of_undelegate u))) as ->
    by (destruct u; simpl in *; [done | by rewrite <- Hu]).
  simpl. f_equal. unwrap. lia.
Qed.

Abbreviation group_bounded :=
  (fun g => Z.of_nat (length g) <= 2 ^ 15
            /\ Forall (fun a => 0 <= compute_units a <= u32_max) g).

Lemma add_fee_commit o acc :
  let accounts := default [] (CommitType.get_committed_accounts <$> o) in
  Z.of_nat (length accounts) <= 2 ^ 32 -> Forall group_bounded (groups_of_commit o) ->
  0 <= acc <= 2 ^ 60 ->
  add_fee CommitType_calculate_fee o acc
  = fee_or_missing accounts
      (acc + commits_fee accounts + sumZ (map actions_fee (groups_of_commit o)))
  /\ 0 <= commits_fee accounts + sumZ (map actions_fee (groups_of_commit o)) <= 2 ^ 53.
Proof.
  intros accounts Hl Hg Hacc. subst accounts. destruct o as [t|]; simpl in *.
  - apply Forall_singleton in Hg as [Hg1 Hg2].
    destruct (CommitType_fee_exact t Hl Hg1 Hg2) as [-> Hb].
    pose proof (commits_fee_bound (CommitType.get_committed_accounts t)).
    unfold fee_or_missing, wadd, COMMIT_FEE_LAMPORTS in *. destruct (existsb _ _); simpl.
    + split; [done|lia].
    + unwrap. split; [f_equal|]; lia.
  - split; [|done]. unfold fee_or_missing. simpl. f_equal. unfold commits_fee. simpl. lia.
Qed.

Lemma add_fee_cau o acc :
  let accounts := default [] (CommitAndUndelegate.get_committed_accounts <$> o) in
  Z.of_nat (length accounts) <= 2 ^ 32 -> Forall group_bounded (groups_of_cau o) ->
  0 <= acc <= 2 ^ 60 ->
  add_fee CommitAndUndelegate_calculate_fee o acc
  = fee_or_missing accounts
      (acc + commits_fee accounts + sumZ (map actions_fee (groups_of_cau o)))
  /\ 0 <= commits_fee accounts + sumZ (map actions_fee (groups_of_cau o)) <= 2 ^ 53.
Proof.
  intros accounts Hl Hg Hacc. subst accounts. destruct o as [t|].
  - destruct (CommitAndUndelegate_fee_exact t Hl Hg) as [He Hb]. cbn [add_fee]. rewrite He.
    pose proof (commits_fee_bound (CommitAndUndelegate.get_committed_accounts t)). simpl in *.
    unfold fee_or_missing, wadd, COMMIT_FEE_LAMPORTS in *. destruct (existsb _ _); simpl.
    + split; [done|lia].
    + unwrap. split; [f_equal|]; lia.
  - split; [|done]. unfold fee_or_missing. simpl. f_equal. unfold commits_fee. simpl. lia.
Qed.

Lemma all_committed_accounts_concat b :
  Bundle.get_all_committed_accounts b =
  default [] (Bundle.get_commit_intent_accounts b)
  ++ default [] (Bundle.get_undelegate_intent_accounts b)
  ++ default [] (Bundle.get_commit_finalize_intent_accounts b)
  ++ default [] (Bundle.get_commit_finalize_and_undelegate_intent_accounts b).
Proof.
  destruct b as [[] [] [] [] ?]; unfold Bundle.get_all_committed_accounts, Bundle.flatten2; cbn;
    by rewrite ?app_nil_r.
Qed.

(** The fee of a bundle is exact. Within the bounds of a transaction no sum
    wraps or saturates: the fee is [COMMIT_FEE_LAMPORTS] per account past the
    sponsored allowance plus each group of actions priced by its compute units
    and rounded up, and the only error is a committed account without a
    reserved commit id. *)
Theorem bundle_fee_exact b :
  fee_bounded b ->
  bundle_calculate_fee b = fee_or_missing (Bundle.get_all_committed_accounts b) (exact_fee b).
Proof.
  intros [Hlen Hg]. unfold bundle_calculate_fee, exact_fee, action_groups in *.
  rewrite all_committed_accounts_concat in *. rewrite !length_app in Hlen.
  rewrite !Forall_app in Hg. destruct Hg as (Hg1 & Hg2 & Hg3 & Hg4 & [Hs1 Hs2]%Forall_singleton).
  rewrite !map_app, !sumZ_app, !commits_fee_app.
  unfold Bundle.get_commit_intent_accounts, Bundle.get_undelegate_intent_accounts,
    Bundle.get_commit_finalize_intent_accounts,
    Bundle.get_commit_finalize_and_undelegate_intent_accounts in *.
  destruct (add_fee_commit (commit b) 0 ltac:(lia) Hg1 ltac:(lia)) as [-> Hb1].
  unfold fee_or_missing. rewrite !existsb_app. destruct (existsb _ (default [] _)); simpl; [done|].
  edestruct (add_fee_cau (commit_and_undelegate b)) as [-> Hb2]; [lia|done|..|].
  { split; [lia|]. simpl in *. lia. }
  unfold fee_or_missing. destruct (existsb _ (default [] _)); simpl; [done|].
  edestruct (add_fee_commit (commit_finalize b)) as [-> Hb3]; [lia|done|lia|].
  unfold fee_or_missing. destruct (existsb _ (default [] _)); simpl; [done|].
  edestruct (add_fee_cau (commit_finalize_and_undelegate b)) as [-> Hb4]; [lia|done|lia|].
  unfold fee_or_missing. destruct (existsb _ (default [] _)); simpl; [done|].
  destruct (calculate_actions_fee_exact _ Hs1 Hs2) as [-> Hb5].
  f_equal. unfold wadd. unwrap. lia.
Qed.

(** A bundle past the sponsored allowance with one 100,000 CU action: one commit
    fee plus 5,000 lamports. *)
Lemma bundle_fee_exact_witness :
  let acc := mkCommittedAccount 1 (mkAccount 0 [] 0 false 0) 0 26 in
  let act := mkBaseAction 0 100000 1 None 2 (mkProgramArgs 0 []) [] None in
  bundle_calculate_fee (bundle_from_base_intent (Commit (CommitWithBaseActions [acc] [act])))
  = Ok 1005000.
Proof.
  intros acc act.
  rewrite (bundle_fee_exact (bundle_from_base_intent (Commit (CommitWithBaseActions [acc] [act])))).
  - reflexivity.
  - split; simpl; [lia|].
    repeat first [apply List.Forall_nil | apply List.Forall_cons | split]; cbn; unfold u32_max; lia.
Defined.
End fee_theorems.
