(* ===== verification/Outbox.v ===== *)
(** * Outbox intents and execution progress

    The execution stage stored in an outbox record and its transitions
    ([programs/magic-interface/src/outbox.rs]), the outbox record itself with
    its account encoding
    ([programs/magic-program/src/outbox_intent/outbox_intent_bundles.rs]), the
    committor's view of the stored stage
    ([committor/src/shared/outbox/progress.rs]) and its in-memory progress
    ([committor/src/execution/progress.rs]). *)

From stdpp Require Import base gmap sets list strings relations.
From Stdlib Require Import ZArith Lia.
From S2P Require Import Prelude Intent.

(** ** Stored execution stage *)

Record PendingTransaction := mkPendingTransaction {
  pt_signature : Signature;
  pt_blockhash : Hash }.

Inductive TwoStageProgress :=
| Committing (pending : PendingTransaction)
| Finalizing (commit : Signature) (finalize : PendingTransaction).

Inductive ExecutionStage :=
| SingleStage (pending : PendingTransaction)
| TwoStage (progress : TwoStageProgress).

Inductive StageTransitionError :=
| SingleStageToFinalizingError
| TwoStageToSingleStageError
| CommitSignatureMismatchError
| CommitSignatureReplacementError
| FinalizingToCommittingDowngradeError.

#[export] Instance PendingTransaction_eq_dec : EqDecision PendingTransaction.
Proof. solve_decision. Defined.
#[export] Instance TwoStageProgress_eq_dec : EqDecision TwoStageProgress.
Proof. solve_decision. Defined.
#[export] Instance ExecutionStage_eq_dec : EqDecision ExecutionStage.
Proof. solve_decision. Defined.

(** The methods take [&mut self] and write it only on success; the model
    returns the new value. *)
Definition TwoStageProgress_apply (this stage : TwoStageProgress)
    : result TwoStageProgress StageTransitionError :=
  match this, stage with
  | Committing _, Committing new_sig => Ok (Committing new_sig)
  | Committing this_pending, Finalizing commit finalize =>
      if decide (pt_signature this_pending = commit)
      then Ok (Finalizing commit finalize)
      else Err CommitSignatureMismatchError
  | Finalizing this_commit _, Finalizing commit finalize =>
      if decide (this_commit = commit)
      then Ok (Finalizing commit finalize)
      else Err CommitSignatureReplacementError
  | Finalizing _ _, Committing _ => Err FinalizingToCommittingDowngradeError
  end.

Definition ExecutionStage_apply (this stage : ExecutionStage)
    : result ExecutionStage StageTransitionError :=
  match this, stage with
  | SingleStage _, SingleStage sig => Ok (SingleStage sig)
  | SingleStage _, TwoStage (Committing p) => Ok (TwoStage (Committing p))
  | SingleStage _, TwoStage (Finalizing _ _) => Err SingleStageToFinalizingError
  | TwoStage this, TwoStage value =>
      let? t := TwoStageProgress_apply this value in Ok (TwoStage t)
  | TwoStage _, SingleStage _ => Err TwoStageToSingleStageError
  end.

Definition TwoStage_pending_transaction (t : TwoStageProgress) : PendingTransaction :=
  match t with
  | Committing pending => pending
  | Finalizing _ finalize => finalize
  end.

Definition pending_transaction (s : ExecutionStage) : PendingTransaction :=
  match s with
  | SingleStage pending => pending
  | TwoStage value => TwoStage_pending_transaction value
  end.

(** ** The outbox record *)

Inductive OutboxIntentBundleStatus :=
| Accepted
| Executing (stage : ExecutionStage).

Inductive OutboxStageTransitionError :=
| AcceptedToFinalizingError
| StageError (e : StageTransitionError).

#[export] Instance OutboxIntentBundleStatus_eq_dec : EqDecision OutboxIntentBundleStatus.
Proof. solve_decision. Defined.

Definition Status_apply (this : OutboxIntentBundleStatus) (stage : ExecutionStage)
    : result OutboxIntentBundleStatus OutboxStageTransitionError :=
  match this, stage with
  | Accepted, TwoStage stage =>
      match stage with
      | Committing _ => Ok (Executing (TwoStage stage))
      | Finalizing _ _ => Err AcceptedToFinalizingError
      end
  | Accepted, SingleStage _ => Ok (Executing stage)
  | Executing this, stage =>
      let? s := res_map_err StageError (ExecutionStage_apply this stage) in Ok (Executing s)
  end.

Record OutboxIntentBundle := mkOutboxIntentBundle {
  inner : ScheduledIntentBundle;
  status : OutboxIntentBundleStatus;
  recovery_commit_nonces : list (Pubkey * Z);
  bump : Z }.

Definition accepted (intent_bundle : ScheduledIntentBundle) (bump : Z) : OutboxIntentBundle :=
  mkOutboxIntentBundle intent_bundle Accepted [] bump.

Definition is_final_stage (b : OutboxIntentBundle) : bool :=
  match status b with
  | Executing (SingleStage _) => true
  | Executing (TwoStage (Finalizing _ _)) => true
  | _ => false
  end.

(** [apply_stage_transition]: the nonces are replaced before the status is
    checked, so the record returned with an error already carries them. *)
Definition apply_stage_transition (b : OutboxIntentBundle) (stage : ExecutionStage)
    (nonces : list (Pubkey * Z))
    : OutboxIntentBundle * result unit OutboxStageTransitionError :=
  let b' := match nonces with
            | [] => b
            | _ => mkOutboxIntentBundle (inner b) (status b) nonces (bump b)
            end in
  match Status_apply (status b') stage with
  | Ok s => (mkOutboxIntentBundle (inner b') s (recovery_commit_nonces b') (bump b'), Ok tt)
  | Err e => (b', Err e)
  end.

(** [Deref for OutboxIntentBundle]: the accessors the committor uses. *)
Definition ob_intent_id (b : OutboxIntentBundle) : N := intent_id (inner b).
Definition ob_committed_pubkeys (b : OutboxIntentBundle) : list Pubkey :=
  ScheduledIntentBundle.get_all_committed_pubkeys (inner b).
Definition ob_committed_accounts (b : OutboxIntentBundle) : list CommittedAccount :=
  ScheduledIntentBundle.get_all_committed_accounts (inner b).
Definition ob_undelegated_pubkeys (b : OutboxIntentBundle) : list Pubkey :=
  ScheduledIntentBundle.get_undelegated_pubkeys (inner b).

(** ** [PendingExecution]: the committor's view of a stored stage *)

Record PendingExecution := mkPendingExecution {
  pe_transaction : PendingTransaction;
  pe_confirmed_commit : option Signature;
  pe_has_follow_up : bool }.

Definition from_status (s : OutboxIntentBundleStatus) : option PendingExecution :=
  match s with
  | Accepted => None
  | Executing stage => Some
      match stage with
      | SingleStage transaction => mkPendingExecution transaction None false
      | TwoStage (Committing transaction) => mkPendingExecution transaction None true
      | TwoStage (Finalizing commit finalize) => mkPendingExecution finalize (Some commit) false
      end
  end.

Definition into_stage (p : PendingExecution) : ExecutionStage :=
  match pe_confirmed_commit p with
  | Some commit => TwoStage (Finalizing commit (pe_transaction p))
  | None =>
      if pe_has_follow_up p then TwoStage (Committing (pe_transaction p))
      else SingleStage (pe_transaction p)
  end.

(** ** [ExecutionProgress]: what has happened to the current transaction *)

Inductive TransactionProgress :=
| Preparing
| Prepared (s : Signature)
| Submitted (s : Signature)
| Rejected (s : Signature)
| Confirmed (s : Signature).

Definition progress_signature (p : TransactionProgress) : option Signature :=
  match p with
  | Preparing => None
  | Prepared s | Submitted s | Rejected s | Confirmed s => Some s
  end.

Record ExecutionProgress := mkExecutionProgress {
  confirmed_commit : option Signature;
  transaction : TransactionProgress }.

Definition can_retry (p : ExecutionProgress) : bool :=
  bool_decide (confirmed_commit p = None)
  && match transaction p with Submitted _ | Confirmed _ => false | _ => true end.

(** [o.filter(p)]. *)
Definition opt_filter {A} (p : A -> bool) (o : option A) : option A :=
  match o with Some a => if p a then Some a else None | None => None end.

(** [error_signature] is [error.and_then(IntentExecutorError::signature)]. *)
Definition signatures (p : ExecutionProgress) (error_signature : option Signature)
    : list Signature :=
  let committed := confirmed_commit p in
  let current :=
    opt_filter (fun s => bool_decide (Some s <> committed)) (progress_signature (transaction p)) in
  let failed :=
    opt_filter (fun s => bool_decide (Some s <> committed) && bool_decide (Some s <> current))
      error_signature in
  omap id [committed; current; failed].

(** ** Theorems *)

(** *** The stage machine *)

Definition stage_step (s s' : OutboxIntentBundleStatus) : Prop :=
  exists stage, Status_apply s stage = Ok s'.

Definition stage_rank (s : OutboxIntentBundleStatus) : nat :=
  match s with
  | Accepted => 0
  | Executing (SingleStage _) => 1
  | Executing (TwoStage (Committing _)) => 2
  | Executing (TwoStage (Finalizing _ _)) => 3
  end.

Ltac stage_cases :=
  repeat match goal with
  | s : OutboxIntentBundleStatus |- _ => destruct s as [|[?|[?|? ?]]]
  | s : ExecutionStage |- _ => destruct s as [?|[?|? ?]]
  end.

Lemma stage_step_rank s s' : stage_step s s' -> stage_rank s <= stage_rank s'.
Proof.
  intros [stage H]. stage_cases; simpl in *; repeat case_decide; simplify_eq/=; lia.
Qed.

Lemma stage_step_finalizing s c f :
  stage_step s (Executing (TwoStage (Finalizing c f))) ->
  (exists p, s = Executing (TwoStage (Committing p)) /\ pt_signature p = c)
  \/ exists f', s = Executing (TwoStage (Finalizing c f')).
Proof.
  intros [stage H]. stage_cases; simpl in *; repeat case_decide; simplify_eq/=; eauto.
Qed.

Lemma stage_step_from_finalizing c f s :
  stage_step (Executing (TwoStage (Finalizing c f))) s ->
  exists f', s = Executing (TwoStage (Finalizing c f')).
Proof.
  intros [stage H]. stage_cases; simpl in *; repeat case_decide; simplify_eq/=; eauto.
Qed.

Lemma finalizing_from_committing c s :
  rtc stage_step Accepted s -> forall f, s = Executing (TwoStage (Finalizing c f)) ->
  exists p, rtc stage_step Accepted (Executing (TwoStage (Committing p)))
            /\ rtc stage_step (Executing (TwoStage (Committing p))) s /\ pt_signature p = c.
Proof.
  revert s. apply (rtc_ind_r (fun s => forall f, s = _ -> _)).
  { done. }
  intros s s' Hr Hs IH f ->.
  destruct (stage_step_finalizing _ _ _ Hs) as [(p & -> & Hp)|(f' & ->)].
  - exists p. split_and!; [done | by apply rtc_once | done].
  - destruct (IH f' eq_refl) as (p & ? & ? & ?). exists p.
    split_and!; [done | by eapply rtc_r | done].
Qed.

Lemma finalizing_stable c s' s :
  rtc stage_step s s' -> forall f, s = Executing (TwoStage (Finalizing c f)) ->
  stage_rank s <= stage_rank s' /\ exists f', s' = Executing (TwoStage (Finalizing c f')).
Proof.
  induction 1 as [s|s s1 s' H1 Hs IH]; intros f ->; [naive_solver|].
  pose proof (stage_step_rank _ _ H1). destruct (stage_step_from_finalizing _ _ _ H1) as [f1 ->].
  destruct (IH f1 eq_refl) as [? ?]. split; [lia|done].
Qed.

(** an outbox record that reached [Finalizing] records the signature of a
    commit transaction that was pending in an earlier [Committing] stage of the
    same record; the stage never regresses, and from then on the recorded commit
    signature never changes. *)
Theorem commit_signature_pinned s c f :
  rtc stage_step Accepted s -> s = Executing (TwoStage (Finalizing c f)) ->
  (exists p, rtc stage_step Accepted (Executing (TwoStage (Committing p)))
             /\ rtc stage_step (Executing (TwoStage (Committing p))) s /\ pt_signature p = c)
  /\ forall s', rtc stage_step s s' ->
       stage_rank s <= stage_rank s' /\ exists f', s' = Executing (TwoStage (Finalizing c f')).
Proof.
  intros Hr ->. split.
  - by eapply finalizing_from_committing.
  - intros s' Hs. by apply (finalizing_stable c s' _ Hs f).
Qed.

Lemma commit_signature_pinned_witness :
  let p2 := mkPendingTransaction 9 2 in
  exists p, rtc stage_step Accepted (Executing (TwoStage (Committing p))) /\ pt_signature p = 7%N.
Proof.
  intros p2. set (p1 := mkPendingTransaction 7 1).
  assert (rtc stage_step Accepted (Executing (TwoStage (Finalizing 7%N p2)))) as Hr.
  { apply rtc_l with (Executing (TwoStage (Committing p1))).
    { exists (TwoStage (Committing p1)). reflexivity. }
    apply rtc_once. exists (TwoStage (Finalizing 7%N p2)). reflexivity. }
  destruct (commit_signature_pinned _ 7 p2 Hr eq_refl) as [(p & ? & _ & ?) _]. eauto.
Defined.

(** every transition the record accepts stores exactly the requested stage,
    keeps the intent and the bump, and replaces the recovery nonces only when
    some are supplied. *)
Theorem apply_stage_transition_stores b stage nonces b' :
  apply_stage_transition b stage nonces = (b', Ok tt) ->
  status b' = Executing stage /\ inner b' = inner b /\ bump b' = bump b
  /\ recovery_commit_nonces b' =
       match nonces with [] => recovery_commit_nonces b | _ => nonces end.
Proof.
  unfold apply_stage_transition. intros H.
  assert (forall s s', Status_apply s stage = Ok s' -> s' = Executing stage) as Hst.
  { intros s s' Hs. clear H. stage_cases; simpl in *; repeat case_decide; simplify_eq/=; congruence. }
  destruct nonces; destruct (Status_apply _ _) as [s|e] eqn:E; simplify_eq/=;
    apply Hst in E as ->; done.
Qed.

Lemma apply_stage_transition_stores_witness :
  let i := mkScheduledIntentBundle 3 0 0 0 MagicIntentBundle_default in
  let b := accepted i 255 in
  let b' := fst (apply_stage_transition b (SingleStage (mkPendingTransaction 5 6)) [(1%N, 2%Z)]) in
  status b' = Executing (SingleStage (mkPendingTransaction 5 6)).
Proof.
  intros i b b'.
  apply (apply_stage_transition_stores b (SingleStage (mkPendingTransaction 5 6)) [(1%N, 2%Z)] b').
  reflexivity.
Defined.

(** *** Round trip through the stored encoding *)

(** The committor's [PendingExecution] and the stored stage are two views of
    the same value: reading a stored stage and storing it back is the identity,
    and storing a pending execution and reading it back is the identity unless
    it claims a follow-up after a confirmed commit, which the encoding drops. *)
Theorem pending_execution_roundtrip :
  (forall stage p, from_status (Executing stage) = Some p -> into_stage p = stage)
  /\ forall p, from_status (Executing (into_stage p)) =
       Some match pe_confirmed_commit p with
            | Some c => mkPendingExecution (pe_transaction p) (Some c) false
            | None => p
            end.
Proof.
  split.
  - intros [t|[t|c t]] p [= <-]; done.
  - intros [t [c|] []]; done.
Qed.

(** *** Reported signatures *)

(** the reported signatures list every known signature (confirmed commit,
    current transaction, the one carried by the error) exactly once, starting
    with the confirmed commit. *)
Theorem signatures_complete_unique p e :
  NoDup (signatures p e)
  /\ (forall s, s ∈ signatures p e <->
        confirmed_commit p = Some s \/ progress_signature (transaction p) = Some s \/ e = Some s)
  /\ (forall s, confirmed_commit p = Some s -> head (signatures p e) = Some s).
Proof.
  destruct p as [c t]. unfold signatures. simpl. generalize (progress_signature t) as cur. clear t.
  intros cur. destruct c as [c|], cur as [cur|], e as [e|]; simpl;
    repeat (case_bool_decide; simpl); simplify_eq/=;
    split_and!; try (repeat constructor; set_solver); try (intros; set_unfold; naive_solver);
    naive_solver.
Qed.
