(* ===== verification/Codec.v ===== *)
(** * Binary encodings

    The account data of the magic program is written with the [wincode] crate
    through derived schemas. The crate is a parameter of the development: [Codec]
    is its serializer and deserializer for one type and [RoundTrip] what the code
    relies on. [Bincode] instantiates it with the crate's documented default
    layout (fixed-width little-endian integers, eight-byte lengths, four-byte
    enum tags, one-byte option tags, fields in order), which shows that the
    assumptions can be met by one encoding of all the types of the sources. *)

From stdpp Require Import base gmap sets list.
From Stdlib Require Import ZArith Lia.
From S2P Require Import Prelude Intent Outbox.

(** [encode] fails with a write error as [None]; [decode] fails with a read error
    as [None] and otherwise returns the value and the bytes it did not read. *)
Class Codec (A : Type) := {
  encode : A -> option (list Z);
  decode : list Z -> option (A * list Z) }.
#[global] Hint Mode Codec ! : typeclass_instances.

Class RoundTrip (A : Type) `{Codec A} :=
  decode_encode : forall (x : A) bs rest, encode x = Some bs -> decode (bs ++ rest) = Some (x, rest).

Definition serialized_size {A} `{Codec A} (x : A) : option nat := length <$> encode x.

(** [deserialize] accepts trailing bytes. *)
Definition deserialize {A} `{Codec A} (bs : list Z) : option A := fst <$> decode bs.

(** [serialize_into] a slice: a write past its end is an error, and the bytes
    after the encoding keep their value. *)
Definition serialize_into {A} `{Codec A} (slice : list Z) (x : A) : option (list Z) :=
  bs ← encode x;
  if decide (length bs <= length slice) then Some (bs ++ drop (length bs) slice) else None.

Lemma deserialize_serialize {A} `{RoundTrip A} (x : A) bs rest :
  encode x = Some bs -> deserialize (bs ++ rest) = Some x.
Proof. intros Hx. unfold deserialize. by rewrite (decode_encode x bs rest Hx). Qed.

Lemma serialize_into_Some {A} `{Codec A} (slice : list Z) (x : A) out :
  serialize_into slice x = Some out ->
  length out = length slice /\ exists bs rest, encode x = Some bs /\ out = bs ++ rest.
Proof.
  unfold serialize_into. destruct (encode x) as [bs|] eqn:E; simpl; [|done].
  case_decide; [|done]. intros [= <-]. rewrite length_app, length_drop. split; [lia|eauto].
Qed.

(** ** The documented layout *)

Module Bincode.
Definition uint (n : nat) : Codec Z := {|
  encode x := if decide (0 <= x < 256 ^ Z.of_nat n)%Z then Some (to_le_bytes n x) else None;
  decode bs := if decide (n <= length bs) then Some (from_le_bytes (take n bs), drop n bs)
               else None |}.

Definition iso {A B} (f : B -> A) (g : A -> B) (c : Codec A) : Codec B := {|
  encode x := encode (f x);
  decode bs := '(a, r) ← decode bs; Some (g a, r) |}.

Definition pair {A B} (ca : Codec A) (cb : Codec B) : Codec (A * B) := {|
  encode x := a ← encode (x.1); b ← encode (x.2); Some (a ++ b);
  decode bs := '(a, r) ← decode bs; '(b, r) ← decode r; Some ((a, b), r) |}.

Definition unit_ : Codec unit := {| encode _ := Some []; decode bs := Some (tt, bs) |}.

(** Two alternatives behind a tag of [n] bytes. *)
Definition sum (n : nat) {A B} (ca : Codec A) (cb : Codec B) : Codec (A + B) := {|
  encode x :=
    match x with
    | inl a => t ← @encode _ (uint n) 0%Z; b ← encode a; Some (t ++ b)
    | inr a => t ← @encode _ (uint n) 1%Z; b ← encode a; Some (t ++ b)
    end;
  decode bs :=
    '(t, r) ← @decode _ (uint n) bs;
    if (t =? 0)%Z then '(a, r) ← decode r; Some (inl a, r)
    else if (t =? 1)%Z then '(b, r) ← decode r; Some (inr b, r) else None |}.

Definition option_to {A} (o : option A) : unit + A :=
  match o with Some a => inr a | None => inl tt end.
Definition option_of {A} (s : unit + A) : option A :=
  match s with inr a => Some a | inl _ => None end.
Definition option_ {A} (c : Codec A) : Codec (option A) := iso option_to option_of (sum 1 unit_ c).

Fixpoint encode_list {A} `{Codec A} (l : list A) : option (list Z) :=
  match l with [] => Some [] | x :: r => a ← encode x; b ← encode_list r; Some (a ++ b) end.
Fixpoint decode_list {A} `{Codec A} (n : nat) (bs : list Z) : option (list A * list Z) :=
  match n with
  | O => Some ([], bs)
  | S n => '(x, r) ← decode bs; '(l, r) ← decode_list n r; Some (x :: l, r)
  end.
Definition vec {A} (c : Codec A) : Codec (list A) := {|
  encode l := t ← @encode _ (uint 8) (Z.of_nat (length l)); b ← encode_list l; Some (t ++ b);
  decode bs := '(n, r) ← @decode _ (uint 8) bs; decode_list (Z.to_nat n) r |}.

(** *** Correctness of the combinators *)

Lemma uint_rt n : @RoundTrip _ (uint n).
Proof.
  intros x bs rest. simpl. case_decide as Hx; intros; simplify_eq.
  assert (length (to_le_bytes n x) = n) as Hl by apply to_le_bytes_length.
  rewrite decide_True by (rewrite length_app; lia).
  rewrite take_app_length', drop_app_length', from_to_le_bytes by done. done.
Qed.

Lemma iso_rt {A B} (f : B -> A) (g : A -> B) (c : Codec A) :
  (forall x, g (f x) = x) -> @RoundTrip _ c -> @RoundTrip _ (iso f g c).
Proof. intros Hgf Hc x bs rest. simpl. intros H. rewrite (Hc _ _ rest H). simpl. by rewrite Hgf. Qed.

Lemma pair_rt {A B} (ca : Codec A) (cb : Codec B) :
  @RoundTrip _ ca -> @RoundTrip _ cb -> @RoundTrip _ (pair ca cb).
Proof.
  intros Ha Hb [a b] bs rest. simpl. intros H.
  destruct (encode a) as [x|] eqn:Ea; [|done]. simpl in H.
  destruct (encode b) as [y|] eqn:Eb; [|done]. simpl in H. simplify_eq.
  rewrite <- app_assoc, (Ha _ _ _ Ea). simpl. by rewrite (Hb _ _ _ Eb).
Qed.

Lemma unit_rt : @RoundTrip _ unit_.
Proof. intros [] bs rest [= <-]. done. Qed.

Lemma sum_rt n {A B} (ca : Codec A) (cb : Codec B) :
  @RoundTrip _ ca -> @RoundTrip _ cb -> @RoundTrip _ (sum n ca cb).
Proof.
  intros Ha Hb [a|b] bs rest H; cbn [encode sum] in H.
  - destruct (@encode _ (uint n) 0%Z) as [t|] eqn:Et; [|done]. cbn in H.
    destruct (encode a) as [x|] eqn:Ea; [|done]. cbn in H. simplify_eq. rewrite <- app_assoc.
    cbn [decode sum]. rewrite (uint_rt n _ _ (x ++ rest) Et). cbn. by rewrite (Ha _ _ _ Ea).
  - destruct (@encode _ (uint n) 1%Z) as [t|] eqn:Et; [|done]. cbn in H.
    destruct (encode b) as [x|] eqn:Eb; [|done]. cbn in H. simplify_eq. rewrite <- app_assoc.
    cbn [decode sum]. rewrite (uint_rt n _ _ (x ++ rest) Et). cbn. by rewrite (Hb _ _ _ Eb).
Qed.

Lemma option_rt {A} (c : Codec A) : @RoundTrip _ c -> @RoundTrip _ (option_ c).
Proof. intros Hc. apply iso_rt; [by intros []|]. by apply sum_rt; [apply unit_rt|]. Qed.

Lemma decode_list_rt {A} (c : Codec A) (l : list A) bs rest :
  @RoundTrip _ c -> encode_list l = Some bs -> decode_list (length l) (bs ++ rest) = Some (l, rest).
Proof.
  intros Hc. revert bs. induction l as [|x l IH]; simpl; intros bs H; [by simplify_eq|].
  destruct (encode x) as [a|] eqn:Ea; [|done]. simpl in H.
  destruct (encode_list l) as [b|] eqn:Eb; [|done]. simpl in H. simplify_eq.
  rewrite <- app_assoc, (Hc _ _ _ Ea). simpl. by rewrite (IH _ eq_refl).
Qed.

Lemma vec_rt {A} (c : Codec A) : @RoundTrip _ c -> @RoundTrip _ (vec c).
Proof.
  intros Hc l bs rest H. cbn [encode vec] in H.
  destruct (@encode _ (uint 8) _) as [t|] eqn:Et; [|done]. cbn in H.
  destruct (encode_list l) as [b|] eqn:Eb; [|done]. cbn in H. simplify_eq. rewrite <- app_assoc.
  cbn [decode vec]. rewrite (uint_rt 8 _ _ (b ++ rest) Et). cbn. rewrite Nat2Z.id.
  by apply decode_list_rt.
Qed.

(** *** The types of the sources *)

Definition as_N (n : nat) : Codec N := iso Z.of_N Z.to_N (uint n).
Definition key : Codec N := as_N 32.
Definition sig : Codec N := as_N 64.
Definition id_ : Codec N := as_N 8.
Definition bytes : Codec (list Z) := vec (uint 1).
Definition bool_ : Codec bool :=
  iso (fun b : bool => if b then inr tt else inl tt)
    (fun s => match s with inr _ => true | inl _ => false end) (sum 1 unit_ unit_).
Definition account_ : Codec Account :=
  iso (fun x : Account => (lamports x, (data x, (owner x, (executable x, rent_epoch x)))))
    (fun '(a0, (a1, (a2, (a3, a4)))) => mkAccount a0 a1 a2 a3 a4)
    (pair (uint 8) (pair bytes (pair key (pair bool_ (uint 8))))).
Definition committed : Codec CommittedAccount :=
  iso (fun x : CommittedAccount => (ca_pubkey x, (ca_account x, (ca_remote_slot x, ca_commit_id x))))
    (fun '(a0, (a1, (a2, a3))) => mkCommittedAccount a0 a1 a2 a3)
    (pair key (pair account_ (pair (uint 8) (uint 8)))).
Definition meta : Codec ShortAccountMeta :=
  iso (fun x : ShortAccountMeta => (sm_pubkey x, sm_is_writable x))
    (fun '(a0, a1) => mkShortAccountMeta a0 a1)
    (pair key bool_).
Definition program_args : Codec ProgramArgs :=
  iso (fun x : ProgramArgs => (escrow_index x, args_data x))
    (fun '(a0, a1) => mkProgramArgs a0 a1)
    (pair (uint 1) bytes).
Definition callback_ : Codec BaseActionCallback :=
  iso (fun x : BaseActionCallback => (cb_destination_program x, (cb_discriminator x, (cb_payload x, (cb_compute_units x, cb_account_metas_per_program x)))))
    (fun '(a0, (a1, (a2, (a3, a4)))) => mkBaseActionCallback a0 a1 a2 a3 a4)
    (pair key (pair bytes (pair bytes (pair (uint 4) (vec meta))))).
Definition action : Codec BaseAction :=
  iso (fun x : BaseAction => (action_id x, (compute_units x, (destination_program x, (source_program x, (escrow_authority x, (data_per_program x, (account_metas_per_program x, callback x))))))))
    (fun '(a0, (a1, (a2, (a3, (a4, (a5, (a6, a7))))))) => mkBaseAction a0 a1 a2 a3 a4 a5 a6 a7)
    (pair (uint 8) (pair (uint 4) (pair key (pair (option_ key) (pair key (pair program_args (pair (vec meta) (option_ callback_)))))))).
Definition commit_type : Codec CommitType :=
  iso (fun x => match x with CommitStandalone l => inl l | CommitWithBaseActions l a => inr (l, a) end)
    (fun s => match s with inl l => CommitStandalone l | inr (l, a) => CommitWithBaseActions l a end)
    (sum 4 (vec committed) (pair (vec committed) (vec action))).
Definition undelegate_type : Codec UndelegateType :=
  iso (fun x => match x with UndelegateStandalone => inl tt | UndelegateWithBaseActions a => inr a end)
    (fun s => match s with inl _ => UndelegateStandalone | inr a => UndelegateWithBaseActions a end)
    (sum 4 unit_ (vec action)).
Definition cau : Codec CommitAndUndelegate :=
  iso (fun x : CommitAndUndelegate => (commit_action x, undelegate_action x))
    (fun '(a0, a1) => mkCommitAndUndelegate a0 a1)
    (pair commit_type undelegate_type).
Definition bundle : Codec MagicIntentBundle :=
  iso (fun x : MagicIntentBundle => (commit x, (commit_and_undelegate x, (commit_finalize x, (commit_finalize_and_undelegate x, standalone_actions x)))))
    (fun '(a0, (a1, (a2, (a3, a4)))) => mkMagicIntentBundle a0 a1 a2 a3 a4)
    (pair (option_ commit_type) (pair (option_ cau) (pair (option_ commit_type) (pair (option_ cau) (vec action))))).
Definition scheduled : Codec ScheduledIntentBundle :=
  iso (fun x : ScheduledIntentBundle => (intent_id x, (intent_slot x, (intent_blockhash x, (intent_payer x, intent_bundle x)))))
    (fun '(a0, (a1, (a2, (a3, a4)))) => mkScheduledIntentBundle a0 a1 a2 a3 a4)
    (pair id_ (pair (uint 8) (pair key (pair key bundle)))).
Definition pending : Codec PendingTransaction :=
  iso (fun x : PendingTransaction => (pt_signature x, pt_blockhash x))
    (fun '(a0, a1) => mkPendingTransaction a0 a1)
    (pair sig key).
Definition two_stage : Codec TwoStageProgress :=
  iso (fun x => match x with Committing p => inl p | Finalizing c p => inr (c, p) end)
    (fun s => match s with inl p => Committing p | inr (c, p) => Finalizing c p end)
    (sum 4 pending (pair sig pending)).
Definition stage_ : Codec ExecutionStage :=
  iso (fun x => match x with SingleStage p => inl p | TwoStage t => inr t end)
    (fun s => match s with inl p => SingleStage p | inr t => TwoStage t end)
    (sum 4 pending two_stage).
Definition status_ : Codec OutboxIntentBundleStatus :=
  iso (fun x => match x with Accepted => inl tt | Executing e => inr e end)
    (fun s => match s with inl _ => Accepted | inr e => Executing e end)
    (sum 4 unit_ stage_).
Definition nonces : Codec (list (Pubkey * Z)) := vec (pair key (uint 8)).
Definition outbox : Codec OutboxIntentBundle :=
  iso (fun x : OutboxIntentBundle => (inner x, (status x, (recovery_commit_nonces x, bump x))))
    (fun '(a0, (a1, (a2, a3))) => mkOutboxIntentBundle a0 a1 a2 a3)
    (pair scheduled (pair status_ (pair nonces (uint 1)))).

Create HintDb codec.
#[export] Hint Resolve uint_rt pair_rt unit_rt sum_rt option_rt vec_rt : codec.

Lemma as_N_rt n : @RoundTrip _ (as_N n).
Proof. apply iso_rt; [apply N2Z.id|apply uint_rt]. Qed.
Lemma bool_rt : @RoundTrip _ bool_.
Proof. apply iso_rt; [by intros []|auto with codec]. Qed.
#[export] Hint Resolve as_N_rt bool_rt : codec.

Ltac codec_rt :=
  apply iso_rt; [by intros []|];
  repeat first [apply pair_rt | apply sum_rt | apply vec_rt | apply option_rt | apply uint_rt
               | apply unit_rt | apply as_N_rt | apply bool_rt | solve [auto with codec nocore]].

Lemma account_rt : @RoundTrip _ account_.
Proof. codec_rt. Qed.
#[export] Hint Resolve account_rt : codec.
Lemma committed_rt : @RoundTrip _ committed.
Proof. codec_rt. Qed.
#[export] Hint Resolve committed_rt : codec.
Lemma meta_rt : @RoundTrip _ meta.
Proof. codec_rt. Qed.
#[export] Hint Resolve meta_rt : codec.
Lemma program_args_rt : @RoundTrip _ program_args.
Proof. codec_rt. Qed.
#[export] Hint Resolve program_args_rt : codec.
Lemma callback_rt : @RoundTrip _ callback_.
Proof. codec_rt. Qed.
#[export] Hint Resolve callback_rt : codec.
Lemma action_rt : @RoundTrip _ action.
Proof. codec_rt. Qed.
#[export] Hint Resolve action_rt : codec.
Lemma commit_type_rt : @RoundTrip _ commit_type.
Proof. codec_rt. Qed.
#[export] Hint Resolve commit_type_rt : codec.
Lemma undelegate_type_rt : @RoundTrip _ undelegate_type.
Proof. codec_rt. Qed.
#[export] Hint Resolve undelegate_type_rt : codec.
Lemma cau_rt : @RoundTrip _ cau.
Proof. codec_rt. Qed.
#[export] Hint Resolve cau_rt : codec.
Lemma bundle_rt : @RoundTrip _ bundle.
Proof. codec_rt. Qed.
#[export] Hint Resolve bundle_rt : codec.
Lemma scheduled_rt : @RoundTrip _ scheduled.
Proof. codec_rt. Qed.
#[export] Hint Resolve scheduled_rt : codec.
Lemma pending_rt : @RoundTrip _ pending.
Proof. codec_rt. Qed.
#[export] Hint Resolve pending_rt : codec.
Lemma two_stage_rt : @RoundTrip _ two_stage.
Proof. codec_rt. Qed.
#[export] Hint Resolve two_stage_rt : codec.
Lemma stage_rt : @RoundTrip _ stage_.
Proof. codec_rt. Qed.
#[export] Hint Resolve stage_rt : codec.
Lemma status_rt : @RoundTrip _ status_.
Proof. codec_rt. Qed.
#[export] Hint Resolve status_rt : codec.
Lemma nonces_rt : @RoundTrip _ nonces.
Proof. apply vec_rt, pair_rt; [apply as_N_rt|apply uint_rt]. Qed.
#[export] Hint Resolve nonces_rt : codec.
Lemma outbox_rt : @RoundTrip _ outbox.
Proof. codec_rt. Qed.
End Bincode.
