(* ===== verification/Runtime.v ===== *)
(** * Instruction execution

    What the magic program's instruction processors see: the accounts of the
    transaction, the accounts the current instruction names, the caller and the
    signers ([programs/magic-program/src/utils/accounts.rs] and
    [account_actions.rs]). An instruction maps the accounts to new accounts or
    fails with an [InstructionError], in which case nothing is kept.

    The account type and its lifecycle rules come from the engine's account
    crate: [lifecycle] is the transition relation of [set_lifecycle], a
    parameter. *)

From stdpp Require Import base gmap sets list.
From Stdlib Require Import ZArith Lia.
From S2P Require Import Prelude Intent.

(** The account modes the sources name; any other one is [OtherMode]. *)
Inductive AccountMode :=
| Missing
| Mirrored
| Magic
| Delegated
| Undelegating
| Closed
| OtherMode (n : N).

#[export] Instance AccountMode_eq_dec : EqDecision AccountMode.
Proof. solve_decision. Defined.

Record SharedAccount := mkSharedAccount {
  sa_lamports : Z;
  sa_data : list Z;
  sa_owner : Pubkey;
  sa_mode : AccountMode;
  sa_rent_funded : bool;
  sa_slot : Z;
  sa_commit_seq : Z;
  sa_executable : bool;
  sa_rent_epoch : Z }.

Definition no_account : SharedAccount := mkSharedAccount 0 [] 0 Missing false 0 0 false 0.

Definition with_lamports (l : Z) (a : SharedAccount) : SharedAccount :=
  mkSharedAccount l (sa_data a) (sa_owner a) (sa_mode a) (sa_rent_funded a) (sa_slot a)
    (sa_commit_seq a) (sa_executable a) (sa_rent_epoch a).
Definition with_data (d : list Z) (a : SharedAccount) : SharedAccount :=
  mkSharedAccount (sa_lamports a) d (sa_owner a) (sa_mode a) (sa_rent_funded a) (sa_slot a)
    (sa_commit_seq a) (sa_executable a) (sa_rent_epoch a).
Definition with_owner (o : Pubkey) (a : SharedAccount) : SharedAccount :=
  mkSharedAccount (sa_lamports a) (sa_data a) o (sa_mode a) (sa_rent_funded a) (sa_slot a)
    (sa_commit_seq a) (sa_executable a) (sa_rent_epoch a).
Definition with_mode (m : AccountMode) (a : SharedAccount) : SharedAccount :=
  mkSharedAccount (sa_lamports a) (sa_data a) (sa_owner a) m (sa_rent_funded a) (sa_slot a)
    (sa_commit_seq a) (sa_executable a) (sa_rent_epoch a).
Definition with_rent_funded (f : bool) (a : SharedAccount) : SharedAccount :=
  mkSharedAccount (sa_lamports a) (sa_data a) (sa_owner a) (sa_mode a) f (sa_slot a)
    (sa_commit_seq a) (sa_executable a) (sa_rent_epoch a).
Definition with_commit_seq (c : Z) (a : SharedAccount) : SharedAccount :=
  mkSharedAccount (sa_lamports a) (sa_data a) (sa_owner a) (sa_mode a) (sa_rent_funded a)
    (sa_slot a) c (sa_executable a) (sa_rent_epoch a).

(** [Vec::resize(n, 0)] on the account data. *)
Definition resize_zero (n : nat) (d : list Z) : list Z := take n d ++ replicate (n - length d) 0%Z.

(** An instruction account: key, signer and writable flags. *)
Record IxMeta := mkIxMeta {
  im_pubkey : Pubkey;
  im_signer : bool;
  im_writable : bool }.

Record InvokeContext := mkInvokeContext {
  ic_program_id : Pubkey;
  ic_caller : option Pubkey;
  ic_metas : list IxMeta;
  ic_signers : gset N;
  ic_authority : Pubkey;
  ic_slot : Z;
  ic_blockhash : Hash }.

Abbreviation accounts := (gmap N SharedAccount).
Abbreviation IResult A := (result A InstructionError).

Definition account (t : accounts) (k : Pubkey) : SharedAccount := default no_account (t !! k).
Definition put (t : accounts) (k : Pubkey) (a : SharedAccount) : accounts := <[k := a]> t.

Definition EPHEMERAL_VAULT_PUBKEY : Pubkey :=
  0xb88fe03e5071767ba68887c24f857fca4e542242704c29f06118c5e024b44505.
Definition MAGIC_PROGRAM_ID : Pubkey :=
  0x403abbdfd612ea928ee7b69128d777c3ded6b9ec9570dab024b44505.
Definition MAGIC_CONTEXT_PUBKEY : Pubkey :=
  0x8054948b3ff797dcd2c1ab38bb8e8252442f03b45fbf28a5c424b44505.
Definition OUTBOX_INTENT_PROGRAM_ID : Pubkey :=
  0x80ba06fade3285ffd62ba7c49d926e56939e189cc838640af90d85040c.
Definition DELEGATION_PROGRAM_ID : Pubkey :=
  0x3ea78093187e62cc9819e58ceb0635b897cf4a34012206ccc03a57f2e100b7b5.
Definition system_program_id : Pubkey := 0.

(** ** Instruction accounts *)

Section instruction_accounts.
Context (ic : InvokeContext).

(** An index past the instruction's accounts is [MissingAccount]. *)
Definition get_meta (idx : nat) : IResult IxMeta := ok_or (ic_metas ic !! idx) MissingAccount.

Definition get_instruction_pubkey_with_idx (idx : nat) : IResult Pubkey :=
  let? m := get_meta idx in Ok (im_pubkey m).

Definition is_instruction_account_signer (idx : nat) : IResult bool :=
  let? m := get_meta idx in Ok (im_signer m).

Definition get_writable_with_idx (idx : nat) : IResult bool :=
  let? m := get_meta idx in Ok (im_writable m).

Definition get_instruction_account_short_meta_with_idx (idx : nat) : IResult ShortAccountMeta :=
  let? m := get_meta idx in Ok (mkShortAccountMeta (im_pubkey m) (im_writable m)).

Definition get_instruction_account_owner_with_idx (t : accounts) (idx : nat) : IResult Pubkey :=
  let? k := get_instruction_pubkey_with_idx idx in Ok (sa_owner (account t k)).

Definition debit_instruction_account_at_index (t : accounts) (idx : nat) (amount : Z)
    : IResult accounts :=
  let? k := get_instruction_pubkey_with_idx idx in
  let? new_lamports := ok_or (checked_sub (sa_lamports (account t k)) amount) InsufficientFunds in
  Ok (put t k (with_lamports new_lamports (account t k))).

Definition credit_instruction_account_at_index (t : accounts) (idx : nat) (amount : Z)
    : IResult accounts :=
  let? k := get_instruction_pubkey_with_idx idx in
  let? new_lamports :=
    ok_or (checked_add u64_max (sa_lamports (account t k)) amount) ArithmeticOverflow in
  Ok (put t k (with_lamports new_lamports (account t k))).

End instruction_accounts.

(** ** Account actions *)

Section account_actions.
Context (lifecycle : AccountMode -> AccountMode -> bool).

Definition set_account_mode (a : SharedAccount) (mode : AccountMode) : IResult SharedAccount :=
  if lifecycle (sa_mode a) mode then Ok (with_mode mode a) else Err InvalidArgument.

Definition mark_account_as_undelegated (t : accounts) (k : Pubkey) : IResult accounts :=
  let? a := set_account_mode (with_owner DELEGATION_PROGRAM_ID (account t k)) Undelegating in
  Ok (put t k a).

Definition charge_delegated_payer (t : accounts) (payer fee_vault : Pubkey) (fee : Z)
    : IResult accounts :=
  if decide (sa_mode (account t payer) <> Delegated) then Err IllegalOwner
  else if decide (sa_mode (account t fee_vault) <> Delegated) then Err IllegalOwner
  else if decide (fee = 0%Z) then Ok t
  else
    let? l := ok_or (checked_sub (sa_lamports (account t payer)) fee) InsufficientFunds in
    let t := put t payer (with_lamports l (account t payer)) in
    let? l := ok_or (checked_add u64_max (sa_lamports (account t fee_vault)) fee)
                ArithmeticOverflow in
    Ok (put t fee_vault (with_lamports l (account t fee_vault))).
End account_actions.

(** ** Lemmas *)

Lemma account_put t k k' a :
  account (put t k a) k' = if decide (k = k') then a else account t k'.
Proof. unfold account, put. rewrite lookup_insert. by case_decide. Qed.

Lemma account_put_eq t k a : account (put t k a) k = a.
Proof. by rewrite account_put, decide_True. Qed.

Lemma account_put_ne t k k' a : k <> k' -> account (put t k a) k' = account t k'.
Proof. intros. by rewrite account_put, decide_False. Qed.

(** Lamports held by all accounts of the transaction. *)
Definition total_lamports (t : accounts) : Z :=
  map_fold (fun _ a n => sa_lamports a + n)%Z 0%Z t.

Section sums.
Context (w : SharedAccount -> Z).
Hypothesis w_no_account : w no_account = 0%Z.

(** The sum of a quantity over all accounts, an absent account counting zero. *)
Definition total (t : accounts) : Z := map_fold (fun _ a n => w a + n)%Z 0%Z t.

Lemma total_insert_fresh t k a : t !! k = None -> total (<[k := a]> t) = (w a + total t)%Z.
Proof.
  intros Hk. unfold total. apply (map_fold_insert_L (fun _ a n => (w a + n)%Z)); [|done].
  intros. lia.
Qed.

Lemma total_put t k a : total (put t k a) = (total t - w (account t k) + w a)%Z.
Proof.
  unfold put, account. destruct (t !! k) as [b|] eqn:Hk; simpl.
  - rewrite <- (insert_delete_id t k b) at 2 by done. rewrite <- insert_delete_eq.
    rewrite !total_insert_fresh by apply lookup_delete_eq. lia.
  - rewrite total_insert_fresh, w_no_account by done. lia.
Qed.

Lemma total_nonneg t : (forall a, 0 <= w a)%Z -> (0 <= total t)%Z.
Proof.
  intros Hw. unfold total. induction t as [|k a t Hk Hf IH] using map_first_key_ind.
  - by rewrite map_fold_empty.
  - rewrite (map_fold_insert_L (fun _ a n => (w a + n)%Z)); [|intros; lia|done].
    specialize (Hw a). lia.
Qed.

Lemma total_ge t k : (forall a, 0 <= w a)%Z -> (w (account t k) <= total t)%Z.
Proof.
  intros Hw. pose proof (total_put t k no_account) as H. rewrite w_no_account in H.
  pose proof (total_nonneg (put t k no_account) Hw). lia.
Qed.
End sums.

Lemma total_lamports_put t k a :
  total_lamports (put t k a) = (total_lamports t - sa_lamports (account t k) + sa_lamports a)%Z.
Proof. apply (total_put sa_lamports). reflexivity. Qed.
