(* ===== verification/Scheduler.v ===== *)
(** * The intent scheduler

    [committor/src/execution/scheduler.rs]: mutually exclusive access to the
    committed accounts of intents. [blocked_keys] holds a FIFO queue of intent
    ids per account, [blocked_intents] the intents that wait, [poisoned_keys]
    the accounts of failed and voided intents. *)

From stdpp Require Import base gmap sets list strings relations sorting.
From Stdlib Require Import ZArith Lia.
From S2P Require Import Prelude Intent Outbox.

Abbreviation IntentID := N (only parsing).

Record IntentMeta := mkIntentMeta {
  num_keys : nat;
  meta_intent : OutboxIntentBundle }.

Record IntentScheduler := mkIntentScheduler {
  blocked_keys : gmap N (list N);
  blocked_intents : gmap N IntentMeta;
  poisoned_keys : gset N }.

Inductive IntentSchedulerError :=
| NonScheduledMessage
| CorruptedIntent
| CompletingBlockedIntent
| IntentPoisoned (keys : list Pubkey).

Module IntentScheduler.

Definition new : IntentScheduler := mkIntentScheduler ∅ ∅ ∅.

(** [self.blocked_keys.entry(pubkey).or_default().push_back(intent_id)] for
    every key. *)
Definition push_back (id : IntentID) (bk : gmap N (list N)) (pubkey : Pubkey) : gmap N (list N) :=
  <[pubkey := default [] (bk !! pubkey) ++ [id]]> bk.

Definition push_all (id : IntentID) (pubkeys : list Pubkey) (bk : gmap N (list N))
    : gmap N (list N) :=
  fold_left (push_back id) pubkeys bk.

Definition is_duplicate (s : IntentScheduler) (id : IntentID) : bool :=
  if decide (is_Some (blocked_intents s !! id)) then true
  else
    existsb
      (fun '(_, queue) =>
         match head queue with
         | Some executing_id => (id =? executing_id)%N
         | None => false
         end)
      (map_to_list (blocked_keys s)).

Definition schedule (s : IntentScheduler) (b : OutboxIntentBundle)
    : IntentScheduler * option OutboxIntentBundle :=
  let id := ob_intent_id b in
  let pubkeys := ob_committed_pubkeys b in
  if is_nil pubkeys then (s, Some b)
  else if is_duplicate s id then (s, None)
  else
    let is_poisoned := existsb (fun el => bool_decide (el ∈ poisoned_keys s)) pubkeys in
    if is_poisoned then
      (mkIntentScheduler (blocked_keys s) (blocked_intents s)
         (poisoned_keys s ∪ list_to_set pubkeys), None)
    else
      let is_conflicting :=
        existsb (fun k => bool_decide (is_Some (blocked_keys s !! k))) pubkeys in
      let bk := push_all id pubkeys (blocked_keys s) in
      if is_conflicting then
        (mkIntentScheduler bk
           (<[id := mkIntentMeta (length pubkeys) b]> (blocked_intents s)) (poisoned_keys s),
         None)
      else (mkIntentScheduler bk (blocked_intents s) (poisoned_keys s), Some b).

(** One iteration of the loop over the keys, on [(all_front, some_front)]. *)
Definition front_step (s : IntentScheduler) (id : IntentID) (flags : bool * bool)
    (pubkey : Pubkey) : bool * bool :=
  let '(all_front, some_front) := flags in
  match blocked_keys s !! pubkey ≫= head with
  | Some front => if (front =? id)%N then (all_front, true) else (false, some_front)
  | None => (false, some_front)
  end.

Definition front_flags (s : IntentScheduler) (id : IntentID) (pubkeys : list Pubkey)
    : bool * bool :=
  fold_left (front_step s id) pubkeys (true, false).

Definition found_in_front (s : IntentScheduler) (id : IntentID) : nat :=
  length (List.filter (fun '(_, queue) => bool_decide (head queue = Some id))
            (map_to_list (blocked_keys s))).

Definition validate_executing (s : IntentScheduler) (id : IntentID) (pubkeys : list Pubkey)
    : result unit IntentSchedulerError :=
  if decide (is_Some (blocked_intents s !! id)) then Err CompletingBlockedIntent
  else
    let '(all_front, some_front) := front_flags s id pubkeys in
    (if all_front then Ok tt
     else if some_front then Err CorruptedIntent
     else Err NonScheduledMessage) ?;
    if decide (found_in_front s id <> length pubkeys) then Err CorruptedIntent else Ok tt.

(** The release loop of [complete]; an early error leaves the queues popped so
    far. *)
Fixpoint pop_fronts (pubkeys : list Pubkey) (bk : gmap N (list N))
    : gmap N (list N) * result unit IntentSchedulerError :=
  match pubkeys with
  | [] => (bk, Ok tt)
  | pubkey :: r =>
      match bk !! pubkey with
      | None => (bk, Err CorruptedIntent)
      | Some queue =>
          let queue' := tail queue in
          if is_nil queue' then pop_fronts r (delete pubkey bk)
          else pop_fronts r (<[pubkey := queue']> bk)
      end
  end.

Definition complete (s : IntentScheduler) (b : OutboxIntentBundle)
    : IntentScheduler * result unit IntentSchedulerError :=
  let id := ob_intent_id b in
  let pubkeys := ob_committed_pubkeys b in
  if is_nil pubkeys then (s, Ok tt)
  else
    match validate_executing s id pubkeys with
    | Err e => (s, Err e)
    | Ok _ =>
        let '(bk, r) := pop_fronts pubkeys (blocked_keys s) in
        (mkIntentScheduler bk (blocked_intents s) (poisoned_keys s), r)
    end.

(** First loop of [failed]: poison the keys, remove their queues and collect
    everything behind the failed intent. *)
Fixpoint seed_worklist (pubkeys : list Pubkey) (bk : gmap N (list N)) (poisoned : gset N)
    (worklist : list N)
    : gmap N (list N) * gset N * result (list N) IntentSchedulerError :=
  match pubkeys with
  | [] => (bk, poisoned, Ok worklist)
  | pubkey :: r =>
      let poisoned := {[pubkey]} ∪ poisoned in
      match bk !! pubkey with
      | None => (bk, poisoned, Err CorruptedIntent)
      | Some queue =>
          seed_worklist r (delete pubkey bk) poisoned (btree_extend worklist (drop 1 queue))
      end
  end.

(** Inner loop of [failed]: drain the queue of every key of a voided intent
    from the intent's own position. *)
Fixpoint drain_queues (id : IntentID) (pubkeys : list Pubkey) (bk : gmap N (list N))
    (worklist : list N) : gmap N (list N) * list N :=
  match pubkeys with
  | [] => (bk, worklist)
  | pubkey :: r =>
      match bk !! pubkey with
      | None => drain_queues id r bk worklist
      | Some queue =>
          match binary_search queue id with
          | None => drain_queues id r bk worklist
          | Some pos =>
              let worklist := btree_extend worklist (drop 1 (drop pos queue)) in
              let rest := take pos queue in
              if is_nil rest then drain_queues id r (delete pubkey bk) worklist
              else drain_queues id r (<[pubkey := rest]> bk) worklist
          end
      end
  end.

(** The worklist loop of [failed], [None] when the fuel runs out. *)
Fixpoint void_loop (fuel : nat) (s : IntentScheduler) (worklist : list N)
    (poisoned : list OutboxIntentBundle) : option (IntentScheduler * list OutboxIntentBundle) :=
  match worklist with
  | [] => Some (s, poisoned)
  | id :: worklist =>
      match fuel with
      | O => None
      | S fuel =>
          match blocked_intents s !! id with
          | None => void_loop fuel s worklist poisoned
          | Some meta =>
              let pubkeys := ob_committed_pubkeys (meta_intent meta) in
              let '(bk, worklist) := drain_queues id pubkeys (blocked_keys s) worklist in
              void_loop fuel
                (mkIntentScheduler bk (delete id (blocked_intents s))
                   (poisoned_keys s ∪ list_to_set pubkeys))
                worklist (poisoned ++ [meta_intent meta])
          end
      end
  end.

(** Ids held by the queues: with the worklist, an upper bound on the number of
    iterations of [void_loop]. *)
Definition total_queued (bk : gmap N (list N)) : nat :=
  map_fold (fun _ queue n => length queue + n) 0 bk.

Definition failed (s : IntentScheduler) (b : OutboxIntentBundle)
    : option (IntentScheduler * result (list OutboxIntentBundle) IntentSchedulerError) :=
  let id := ob_intent_id b in
  let pubkeys := ob_committed_pubkeys b in
  if is_nil pubkeys then Some (s, Ok [])
  else
    match validate_executing s id pubkeys with
    | Err e => Some (s, Err e)
    | Ok _ =>
        let '(bk, poisoned, r) := seed_worklist pubkeys (blocked_keys s) (poisoned_keys s) [] in
        let s' := mkIntentScheduler bk (blocked_intents s) poisoned in
        match r with
        | Err e => Some (s', Err e)
        | Ok worklist =>
            '(s'', voided) ← void_loop (length worklist + total_queued bk) s' worklist [];
            Some (s'', Ok voided)
        end
    end.

(** [execute_candidates]: how many queues each id is at the front of. *)
Definition execute_candidates (s : IntentScheduler) : gmap N nat :=
  map_fold
    (fun _ queue (m : gmap N nat) =>
       match head queue with
       | Some id => <[id := S (default 0 (m !! id))]> m
       | None => m
       end)
    ∅ (blocked_keys s).

(** [find_map] over the candidates in the iteration order of the hash map,
    which is unspecified: [order] is any enumeration of the candidates. *)
Fixpoint pop_first_ready (s : IntentScheduler) (order : list (N * nat))
    : IntentScheduler * option OutboxIntentBundle :=
  match order with
  | [] => (s, None)
  | (id, ready_keys) :: r =>
      match blocked_intents s !! id with
      | Some meta =>
          if decide (num_keys meta = ready_keys) then
            (mkIntentScheduler (blocked_keys s) (delete id (blocked_intents s)) (poisoned_keys s),
             Some (meta_intent meta))
          else pop_first_ready s r
      | None => pop_first_ready s r
      end
  end.

Definition pop_next_scheduled_intent (order : list (N * nat) -> list (N * nat))
    (s : IntentScheduler) : IntentScheduler * option OutboxIntentBundle :=
  pop_first_ready s (order (map_to_list (execute_candidates s))).

Definition intents_blocked (s : IntentScheduler) : nat := size (blocked_intents s).
Definition poisoned_keys_count (s : IntentScheduler) : nat := size (poisoned_keys s).

End IntentScheduler.

Import IntentScheduler.

(** ** Queues

    [qof bk k] is the queue of a key, empty when the map has no entry. The code
    never keeps an entry with an empty queue ([no_empty]). *)

Definition qof (bk : gmap N (list N)) (k : N) : list N := default [] (bk !! k).

Definition no_empty (bk : gmap N (list N)) : Prop := forall k, bk !! k <> Some [].

Lemma qof_insert bk k q k' :
  qof (<[k := q]> bk) k' = if decide (k = k') then q else qof bk k'.
Proof. unfold qof. rewrite lookup_insert. by case_decide. Qed.

Lemma qof_delete bk k k' :
  qof (delete k bk) k' = if decide (k = k') then [] else qof bk k'.
Proof. unfold qof. rewrite lookup_delete. by case_decide. Qed.

Lemma no_empty_insert bk k q : no_empty bk -> q <> [] -> no_empty (<[k := q]> bk).
Proof. intros H Hq k'. rewrite lookup_insert. case_decide; [congruence | apply H]. Qed.

Lemma no_empty_delete bk k : no_empty bk -> no_empty (delete k bk).
Proof. intros H k'. rewrite lookup_delete. case_decide; [done | apply H]. Qed.

Lemma qof_Some bk k q : bk !! k = Some q -> qof bk k = q.
Proof. unfold qof. by intros ->. Qed.

Lemma qof_nonempty bk k : qof bk k <> [] -> bk !! k = Some (qof bk k).
Proof. unfold qof. by destruct (bk !! k). Qed.

Lemma is_Some_qof bk k : no_empty bk -> is_Some (bk !! k) <-> qof bk k <> [].
Proof.
  intros H. unfold qof. specialize (H k). destruct (bk !! k) as [q|]; simpl.
  - split; [intros _ ->; done | eauto].
  - split; [by intros [] | done].
Qed.

#[export] Hint Resolve no_empty_insert no_empty_delete : mbv.

Lemma is_nil_true {A} (l : list A) : is_nil l = true <-> l = [].
Proof. by destruct l. Qed.

Lemma is_nil_false {A} (l : list A) : is_nil l = false <-> l <> [].
Proof. by destruct l. Qed.

Lemma push_all_spec id ks bk :
  NoDup ks -> no_empty bk ->
  no_empty (push_all id ks bk)
  /\ forall k, qof (push_all id ks bk) k =
       if decide (k ∈ ks) then qof bk k ++ [id] else qof bk k.
Proof.
  unfold push_all. intros Hnd. revert bk. induction Hnd as [|x ks Hx Hnd IH]; intros bk Hne; cbn [fold_left].
  { split; [done|]. intros k. rewrite decide_False; [done|set_solver]. }
  destruct (IH (push_back id bk x)) as [Hne' Hq].
  { apply no_empty_insert; [done|]. by destruct (default [] _). }
  split; [done|]. intros k. rewrite Hq. unfold push_back. rewrite qof_insert.
  repeat case_decide; subst; set_solver.
Qed.

Lemma pop_fronts_spec ks bk :
  NoDup ks -> no_empty bk -> (forall k, k ∈ ks -> qof bk k <> []) ->
  exists bk', pop_fronts ks bk = (bk', Ok tt) /\ no_empty bk'
  /\ forall k, qof bk' k = if decide (k ∈ ks) then tail (qof bk k) else qof bk k.
Proof.
  intros Hnd. revert bk. induction Hnd as [|x ks Hx Hnd IH]; intros bk Hne Hin; cbn [pop_fronts].
  { exists bk. split_and!; [done|done|]. intros k. rewrite decide_False; [done|set_solver]. }
  rewrite (qof_nonempty bk x) by (apply Hin; set_solver).
  set (bk1 := if is_nil (tail (qof bk x)) then delete x bk else <[x := tail (qof bk x)]> bk).
  assert (Hq1 : forall k, qof bk1 k = if decide (x = k) then tail (qof bk x) else qof bk k).
  { intros k. subst bk1. destruct (is_nil _) eqn:E.
    - rewrite qof_delete. case_decide; [|done]. by apply is_nil_true in E as ->.
    - by rewrite qof_insert. }
  destruct (IH bk1) as (bk' & Hp & Hne' & Hq').
  { subst bk1. destruct (is_nil _) eqn:E; [auto with mbv|].
    apply is_nil_false in E. auto with mbv. }
  { intros k Hk. rewrite Hq1. rewrite decide_False by set_solver. apply Hin. set_solver. }
  exists bk'. split_and!; [|done|].
  { subst bk1. by destruct (is_nil _). }
  intros k. rewrite Hq', Hq1. repeat case_decide; subst; set_solver.
Qed.

Definition cut (id : N) (q : list N) : list N :=
  if decide (id ∈ q) then filter (fun x => (x < id)%N) q else q.

Lemma cut_split (q : list N) pos id :
  ascending q -> q !! pos = Some id ->
  take pos q = filter (fun x => (x < id)%N) q
  /\ forall x, x ∈ drop 1 (drop pos q) <-> x ∈ q /\ (id < x)%N.
Proof.
  intros Hq. revert pos. induction Hq as [|a q Hq IH Ha]; intros pos Hp; [done|].
  rewrite Forall_forall in Ha. destruct pos as [|pos]; simpl in Hp.
  - injection Hp as ->. cbn [take drop]. rewrite drop_0. split.
    + symmetry. rewrite filter_cons_False by lia. apply filter_none.
      intros x Hin. specialize (Ha x Hin). lia.
    + intros x. split; [intros Hx; split; [set_solver|auto]|].
      intros [[->|Hx]%elem_of_cons Hlt]; [lia|done].
  - destruct (IH pos Hp) as [Ht Hd]. cbn [take drop].
    pose proof (Ha id (list_elem_of_lookup_2 _ _ _ Hp)). split.
    + rewrite filter_cons_True by lia. by rewrite Ht.
    + intros x. rewrite Hd, elem_of_cons. split; [naive_solver|].
      intros [[->|?] ?]; [lia|done].
Qed.

Lemma ascending_filter P `{!forall x, Decision (P x)} (q : list N) :
  ascending q -> ascending (filter P q).
Proof.
  induction 1 as [|a q Hq IH Ha]; [constructor|]. rewrite filter_cons. case_decide; [|done].
  constructor; [done|]. rewrite Forall_forall in Ha |- *.
  intros x [_ Hx]%list_elem_of_filter. auto.
Qed.

Lemma cut_ascending id q : ascending q -> ascending (cut id q).
Proof. unfold cut. intros. case_decide; [by apply ascending_filter | done]. Qed.

Lemma elem_of_cut id q x : x ∈ cut id q <-> x ∈ q /\ (id ∈ q -> (x < id)%N).
Proof. unfold cut. case_decide; [rewrite list_elem_of_filter|]; naive_solver. Qed.

#[export] Hint Resolve cut_ascending : mbv.

Lemma total_queued_delete bk k q :
  bk !! k = Some q -> total_queued bk = length q + total_queued (delete k bk).
Proof.
  intros Hk. unfold total_queued.
  apply (map_fold_delete_L (fun _ q n => length q + n)); [|done]. intros. lia.
Qed.

Lemma total_queued_insert bk k q q' :
  bk !! k = Some q -> total_queued (<[k := q']> bk) = length q' + total_queued (delete k bk).
Proof.
  intros Hk. rewrite (total_queued_delete _ k q') by apply lookup_insert_eq.
  by rewrite delete_insert_eq.
Qed.

Lemma seed_worklist_spec ks bk P wl :
  NoDup ks -> no_empty bk -> (forall k, k ∈ ks -> qof bk k <> []) ->
  exists bk' wl', seed_worklist ks bk P wl = (bk', list_to_set ks ∪ P, Ok wl')
  /\ no_empty bk'
  /\ (forall k, qof bk' k = if decide (k ∈ ks) then [] else qof bk k)
  /\ (ascending wl -> ascending wl')
  /\ (forall x, x ∈ wl' <-> x ∈ wl \/ exists k, k ∈ ks /\ x ∈ drop 1 (qof bk k)).
Proof.
  intros Hnd. revert bk P wl. induction Hnd as [|y ks Hy Hnd IH]; intros bk P wl Hne Hin;
    cbn [seed_worklist].
  { exists bk, wl. split_and!; [f_equal; f_equal; set_solver|done| |done|set_solver].
    intros k. rewrite decide_False; [done|set_solver]. }
  rewrite (qof_nonempty bk y) by (apply Hin; set_solver).
  destruct (IH (delete y bk) ({[y]} ∪ P) (btree_extend wl (drop 1 (qof bk y))))
    as (bk' & wl' & -> & Hne' & Hq & Has & Hwl); [auto with mbv| |].
  { intros k Hk. rewrite qof_delete, decide_False by set_solver. apply Hin. set_solver. }
  exists bk', wl'. split_and!; [f_equal; f_equal; set_solver|done| |auto with mbv|].
  - intros k. rewrite Hq, qof_delete. repeat case_decide; set_solver.
  - intros x. rewrite Hwl, elem_of_btree_extend. setoid_rewrite elem_of_cons.
    setoid_rewrite qof_delete. split.
    + intros [[?|?]|(k & ? & Hx)]; [auto|eauto|]. case_decide; [set_solver|eauto].
    + intros [?|(k & [->|?] & ?)]; [auto|auto|]. right. exists k. split; [done|].
      rewrite decide_False by set_solver. done.
Qed.

(** One key of a voided intent. *)
Definition drain_one (id y : N) (bk : gmap N (list N)) (wl : list N) : gmap N (list N) * list N :=
  match bk !! y with
  | None => (bk, wl)
  | Some queue =>
      match binary_search queue id with
      | None => (bk, wl)
      | Some pos =>
          (if is_nil (take pos queue) then delete y bk else <[y := take pos queue]> bk,
           btree_extend wl (drop 1 (drop pos queue)))
      end
  end.

Lemma drain_queues_cons id y ks bk wl :
  drain_queues id (y :: ks) bk wl =
  let '(bk1, wl1) := drain_one id y bk wl in drain_queues id ks bk1 wl1.
Proof.
  cbn [drain_queues]. unfold drain_one. destruct (bk !! y) as [queue|]; [|done].
  destruct (binary_search queue id); [|done]. by destruct (is_nil _).
Qed.

Lemma drain_one_spec id y bk wl bk' wl' :
  drain_one id y bk wl = (bk', wl') ->
  no_empty bk -> (forall k, ascending (qof bk k)) ->
  no_empty bk'
  /\ (forall k, qof bk' k = if decide (y = k) then cut id (qof bk k) else qof bk k)
  /\ (ascending wl -> ascending wl')
  /\ (forall x, x ∈ wl' <-> x ∈ wl \/ (id ∈ qof bk y /\ x ∈ qof bk y /\ (id < x)%N))
  /\ length wl' + total_queued bk' <= length wl + total_queued bk.
Proof.
  unfold drain_one. intros Hd Hne Has.
  destruct (bk !! y) as [q|] eqn:Hy; last first.
  { simplify_eq. assert (qof bk' y = []) as Hq by (unfold qof; by rewrite Hy).
    split_and!; [done| |done|rewrite Hq; set_solver|lia].
    intros k. case_decide as Hk; [|done]. subst k. by rewrite Hq. }
  pose proof (qof_Some _ _ _ Hy) as Hq. pose proof (Has y) as Hasq. rewrite Hq in Hasq.
  destruct (binary_search q id) as [pos|] eqn:Hb; last first.
  { injection Hd as <- <-. apply binary_search_None in Hb; [|done]. rewrite Hq.
    split_and!; [done| |done|set_solver|lia].
    intros k. case_decide as Hk; [|done]. subst k. unfold cut. by rewrite Hq, decide_False. }
  apply binary_search_sound in Hb. destruct (cut_split q pos id Hasq Hb) as [Ht Hdrop].
  assert (id ∈ q) as Hid by (by eapply list_elem_of_lookup_2).
  pose proof (btree_extend_length wl (drop 1 (drop pos q))).
  pose proof (lookup_lt_Some _ _ _ Hb). rewrite !length_drop in *.
  pose proof (total_queued_delete _ _ _ Hy) as Htd.
  injection Hd as <- <-. rewrite Hq. split_and!.
  - destruct (is_nil _) eqn:E; [auto with mbv|]. apply is_nil_false in E. auto with mbv.
  - intros k. assert (cut id q = take pos q) as Hc by (unfold cut; by rewrite decide_True, Ht).
    destruct (is_nil _) eqn:E; rewrite ?qof_delete, ?qof_insert; case_decide as Hk; try done;
      subst k; rewrite Hq, Hc; [|done]. by apply is_nil_true in E.
  - auto with mbv.
  - intros x. rewrite elem_of_btree_extend, Hdrop. naive_solver.
  - destruct (is_nil _); [lia|]. erewrite total_queued_insert by done. rewrite length_take. lia.
Qed.

Lemma drain_queues_spec id ks bk wl bk' wl' :
  drain_queues id ks bk wl = (bk', wl') ->
  no_empty bk -> (forall k, ascending (qof bk k)) ->
  no_empty bk'
  /\ (forall k, qof bk' k = if decide (k ∈ ks) then cut id (qof bk k) else qof bk k)
  /\ (ascending wl -> ascending wl')
  /\ (forall x, x ∈ wl' <->
        x ∈ wl \/ exists k, k ∈ ks /\ id ∈ qof bk k /\ x ∈ qof bk k /\ (id < x)%N)
  /\ length wl' + total_queued bk' <= length wl + total_queued bk.
Proof.
  revert bk wl. induction ks as [|y ks IH]; intros bk wl Hd Hne Has.
  { cbn [drain_queues] in Hd. simplify_eq. split_and!; [done| |done|set_solver|lia].
    intros k. rewrite decide_False; [done|set_solver]. }
  rewrite drain_queues_cons in Hd. destruct (drain_one id y bk wl) as [bk1 wl1] eqn:H1.
  destruct (drain_one_spec _ _ _ _ _ _ H1 Hne Has) as (Hne1 & Hq1 & Ha1 & Hw1 & Ht1).
  destruct (IH bk1 wl1 Hd Hne1) as (Hne2 & Hq2 & Ha2 & Hw2 & Ht2).
  { intros k. rewrite Hq1. case_decide; auto with mbv. }
  assert (Hcc : forall q, cut id (cut id q) = cut id q).
  { intros q. unfold cut at 1. rewrite decide_False; [done|]. rewrite elem_of_cut. naive_solver lia. }
  split_and!; [done| |auto| |lia].
  - intros k. rewrite Hq2, Hq1. repeat case_decide; subst; rewrite ?Hcc; set_solver.
  - intros x. rewrite Hw2, Hw1. setoid_rewrite elem_of_cons. setoid_rewrite Hq1. split.
    + intros [[?|?]|(k & ? & Hk & Hx & ?)]; [auto|eauto|]. right. exists k.
      destruct (decide (y = k)); [|auto]. rewrite elem_of_cut in Hk, Hx. naive_solver.
    + intros [?|(k & [->|?] & Hk & Hx & ?)]; [auto|auto|].
      destruct (decide (y = k)) as [->|Hne']; [auto|]. right. exists k.
      rewrite decide_False by done. auto.
Qed.

(** ** The invariant

    [live] are the intents the scheduler tracks, [running] those it handed out.
    The queues are the ascending index of [live] by key; the waiting intents
    are the live ones that do not run; a running intent is at the front of all
    its queues. *)

Abbreviation keys := ob_committed_pubkeys.

Record inv (s : IntentScheduler) (live : gmap N OutboxIntentBundle) (running : gset N) : Prop :=
  mkInv {
    inv_live : forall id b, live !! id = Some b ->
      ob_intent_id b = id /\ NoDup (keys b) /\ keys b <> [];
    inv_running : forall id, id ∈ running -> is_Some (live !! id);
    inv_no_empty : no_empty (blocked_keys s);
    inv_ascending : forall k, ascending (qof (blocked_keys s) k);
    inv_member : forall k id,
      id ∈ qof (blocked_keys s) k <-> exists b, live !! id = Some b /\ k ∈ keys b;
    inv_blocked : forall id m, blocked_intents s !! id = Some m <->
      exists b, live !! id = Some b /\ (id ∉ running) /\ m = mkIntentMeta (length (keys b)) b;
    inv_front : forall id b k, id ∈ running -> live !! id = Some b -> k ∈ keys b ->
      head (qof (blocked_keys s) k) = Some id }.

Lemma inv_new : inv new ∅ ∅.
Proof.
  split; simpl; intros.
  - by rewrite lookup_empty in *.
  - set_solver.
  - intros k. by rewrite lookup_empty.
  - constructor.
  - unfold qof. rewrite lookup_empty. simpl. split; [by intros ?%elem_of_nil|].
    intros (b & Hb & _). by rewrite lookup_empty in Hb.
  - rewrite lookup_empty. split; [done|]. intros (b & Hb & _). by rewrite lookup_empty in Hb.
  - set_solver.
Qed.

Lemma head_elem_of {A} (l : list A) x : head l = Some x -> x ∈ l.
Proof. destruct l; simpl; [done|]. intros [= ->]. constructor. Qed.

Lemma head_least (l : list N) x y : ascending l -> head l = Some x -> y ∈ l -> y = x \/ (x < y)%N.
Proof.
  inversion 1 as [|a q Hq Ha]; simpl; [done|]. intros [= ->] [->|Hy]%elem_of_cons; [auto|].
  rewrite Forall_forall in Ha. auto.
Qed.

(** A live id is the front of a queue exactly when no smaller live id shares
    the key. *)
Lemma front_iff_least s live running k id b :
  inv s live running -> live !! id = Some b -> k ∈ keys b ->
  head (qof (blocked_keys s) k) = Some id <->
  forall id' b', live !! id' = Some b' -> k ∈ keys b' -> (id <= id')%N.
Proof.
  intros I Hb Hk. split.
  - intros Hh id' b' Hb' Hk'.
    assert (id' ∈ qof (blocked_keys s) k) as Hin by (apply (inv_member _ _ _ I); eauto).
    destruct (head_least _ _ _ (inv_ascending _ _ _ I k) Hh Hin); [subst|]; lia.
  - intros Hmin.
    assert (id ∈ qof (blocked_keys s) k) as Hin by (apply (inv_member _ _ _ I); eauto).
    destruct (head (qof (blocked_keys s) k)) as [h|] eqn:Hh; last first.
    { destruct (qof (blocked_keys s) k); [by apply elem_of_nil in Hin | done]. }
    pose proof (head_elem_of _ _ Hh) as (b' & Hb' & Hk')%(inv_member _ _ _ I).
    specialize (Hmin _ _ Hb' Hk').
    destruct (head_least _ _ _ (inv_ascending _ _ _ I k) Hh Hin); [by subst|lia].
Qed.

Lemma running_exclusive s live running i j bi bj k :
  inv s live running -> i ∈ running -> j ∈ running ->
  live !! i = Some bi -> live !! j = Some bj -> k ∈ keys bi -> k ∈ keys bj -> i = j.
Proof.
  intros I Hi Hj Hbi Hbj Hki Hkj.
  pose proof (inv_front _ _ _ I _ _ _ Hi Hbi Hki). pose proof (inv_front _ _ _ I _ _ _ Hj Hbj Hkj).
  congruence.
Qed.

Lemma is_duplicate_spec s live running id :
  inv s live running -> is_duplicate s id = true <-> is_Some (live !! id).
Proof.
  intros I. unfold is_duplicate. case_decide as Hb.
  { split; [intros _|done]. destruct Hb as [m Hm]. apply (inv_blocked _ _ _ I) in Hm as (b & ? & _). eauto. }
  rewrite existsb_exists. split.
  - intros ([k q] & Hin & Hh). apply list_elem_of_In, elem_of_map_to_list in Hin.
    destruct (head q) as [h|] eqn:Eh; [|done]. apply N.eqb_eq in Hh as <-.
    apply head_elem_of in Eh. rewrite <- (qof_Some _ _ _ Hin) in Eh.
    apply (inv_member _ _ _ I) in Eh as (b & ? & _). eauto.
  - intros [b Hl]. destruct (inv_live _ _ _ I _ _ Hl) as (_ & _ & Hne).
    assert (id ∈ running) as Hr.
    { destruct (decide (id ∈ running)); [done|]. destruct Hb. eexists.
      apply (inv_blocked _ _ _ I). eauto. }
    destruct (keys b) as [|k ks] eqn:Ek; [done|].
    pose proof (inv_front _ _ _ I _ _ k Hr Hl ltac:(rewrite Ek; set_solver)) as Hh.
    exists (k, qof (blocked_keys s) k). split; [|rewrite Hh; apply N.eqb_refl].
    apply list_elem_of_In, elem_of_map_to_list. apply qof_nonempty. by intros Hq; rewrite Hq in Hh.
Qed.
