(* ===== verification/SchedulerInv.v ===== *)
(** * The scheduler's operations preserve its invariant

    For every operation of [Scheduler.v]: its result and the live and running
    intents after it. *)

From stdpp Require Import base gmap sets list strings relations sorting.
From Stdlib Require Import ZArith Lia.
From S2P Require Import Prelude Intent Outbox Scheduler.
Import IntentScheduler.

(** ** [schedule] *)

Section schedule.
Context (s : IntentScheduler) (live : gmap N OutboxIntentBundle) (running : gset N).
Context (b : OutboxIntentBundle).
Hypothesis I : inv s live running.
Hypothesis Hnd : NoDup (keys b).
Hypothesis Hfresh : forall j, is_Some (live !! j) -> (j < ob_intent_id b)%N.

Definition conflicts : bool :=
  existsb (fun k => bool_decide (is_Some (blocked_keys s !! k))) (keys b).

Definition poisoned_by : bool :=
  existsb (fun k => bool_decide (k ∈ poisoned_keys s)) (keys b).

Lemma conflicts_spec :
  conflicts = true <-> exists k id b', k ∈ keys b /\ live !! id = Some b' /\ k ∈ keys b'.
Proof.
  unfold conflicts. rewrite existsb_exists. split.
  - intros (k & Hk & Hs%bool_decide_eq_true). apply list_elem_of_In in Hk.
    apply is_Some_qof in Hs; [|apply (inv_no_empty _ _ _ I)].
    destruct (qof (blocked_keys s) k) as [|id q] eqn:E; [done|].
    assert (id ∈ qof (blocked_keys s) k) as (b' & ? & ?)%(inv_member _ _ _ I) by (rewrite E; constructor).
    eauto 6.
  - intros (k & id & b' & Hk & Hl & Hk'). exists k. split; [by apply list_elem_of_In|].
    apply bool_decide_eq_true, is_Some_qof; [apply (inv_no_empty _ _ _ I)|].
    assert (id ∈ qof (blocked_keys s) k) as Hin by (apply (inv_member _ _ _ I); eauto).
    intros Hq. rewrite Hq in Hin. by apply elem_of_nil in Hin.
Qed.

Lemma not_duplicate : is_duplicate s (ob_intent_id b) = false.
Proof.
  apply not_true_is_false. rewrite (is_duplicate_spec s live running) by done.
  intros H. pose proof (Hfresh _ H). lia.
Qed.

Lemma schedule_eq :
  schedule s b =
  if is_nil (keys b) then (s, Some b)
  else if poisoned_by then
    (mkIntentScheduler (blocked_keys s) (blocked_intents s)
       (poisoned_keys s ∪ list_to_set (keys b)), None)
  else if conflicts then
    (mkIntentScheduler (push_all (ob_intent_id b) (keys b) (blocked_keys s))
       (<[ob_intent_id b := mkIntentMeta (length (keys b)) b]> (blocked_intents s))
       (poisoned_keys s), None)
  else
    (mkIntentScheduler (push_all (ob_intent_id b) (keys b) (blocked_keys s))
       (blocked_intents s) (poisoned_keys s), Some b).
Proof. unfold schedule. rewrite not_duplicate. done. Qed.

(** The live intents after an admission, whether the intent runs or waits. *)
Lemma admit_inv (bi : gmap N IntentMeta) (runs : bool) pk :
  keys b <> [] ->
  (runs = true -> conflicts = false) ->
  bi = (if runs then blocked_intents s
        else <[ob_intent_id b := mkIntentMeta (length (keys b)) b]> (blocked_intents s)) ->
  inv (mkIntentScheduler (push_all (ob_intent_id b) (keys b) (blocked_keys s)) bi pk)
    (<[ob_intent_id b := b]> live) (if runs then {[ob_intent_id b]} ∪ running else running).
Proof.
  intros Hk Hruns ->. set (id := ob_intent_id b).
  assert (live !! id = None) as Hid.
  { destruct (live !! id) eqn:E; [|done]. pose proof (Hfresh id ltac:(eauto)). subst id. lia. }
  assert (id ∉ running) as Hnr.
  { intros Hr%(inv_running _ _ _ I). rewrite Hid in Hr. by destruct Hr. }
  destruct (push_all_spec id (keys b) (blocked_keys s) Hnd (inv_no_empty _ _ _ I)) as [Hne Hq].
  split; simpl.
  - intros j b'. rewrite lookup_insert. case_decide; [intros [= <-]; by subst | apply (inv_live _ _ _ I)].
  - intros j Hj. rewrite lookup_insert. case_decide; [eauto|].
    apply (inv_running _ _ _ I). destruct runs; set_solver.
  - done.
  - intros k. rewrite Hq. case_decide; [|apply (inv_ascending _ _ _ I)].
    apply StronglySorted_app_2; [|apply (inv_ascending _ _ _ I)|repeat constructor].
    intros x y (b' & Hl & _)%(inv_member _ _ _ I) ->%list_elem_of_singleton.
    apply Hfresh. eauto.
  - intros k j. rewrite Hq. setoid_rewrite lookup_insert.
    destruct (decide (k ∈ keys b)) as [Hkb|Hkb].
    + rewrite elem_of_app, list_elem_of_singleton, (inv_member _ _ _ I).
      destruct (decide (id = j)) as [<-|Hj]; [rewrite Hid|]; naive_solver.
    + rewrite (inv_member _ _ _ I).
      destruct (decide (id = j)) as [<-|Hj]; [rewrite Hid|]; naive_solver.
  - intros j m. setoid_rewrite lookup_insert. destruct runs.
    + rewrite (inv_blocked _ _ _ I). destruct (decide (id = j)) as [<-|Hj]; [rewrite Hid|]; set_solver.
    + rewrite lookup_insert. destruct (decide (id = j)) as [<-|Hj]; [naive_solver|].
      apply (inv_blocked _ _ _ I).
  - intros j b' k Hj. rewrite lookup_insert, Hq. destruct (decide (id = j)) as [<-|Hne'].
    + intros [= <-] Hkb. rewrite decide_True by done. destruct runs; [|done].
      assert (qof (blocked_keys s) k = []) as ->; [|done].
      destruct (qof (blocked_keys s) k) as [|x q] eqn:E; [done|].
      assert (x ∈ qof (blocked_keys s) k) as (b' & ? & ?)%(inv_member _ _ _ I) by (rewrite E; constructor).
      rewrite (proj2 conflicts_spec) in Hruns by eauto 6. by specialize (Hruns eq_refl).
    + intros Hl Hkb. assert (j ∈ running) as Hjr by (destruct runs; set_solver).
      pose proof (inv_front _ _ _ I j b' k Hjr Hl Hkb) as Hh.
      case_decide; [|done]. by destruct (qof (blocked_keys s) k).
Qed.

(** What [schedule] returns and keeps, case by case. *)
Lemma schedule_inv s' r :
  schedule s b = (s', r) ->
  if is_nil (keys b) then s' = s /\ r = Some b
  else if poisoned_by then
    inv s' live running /\ r = None /\ poisoned_keys s' = poisoned_keys s ∪ list_to_set (keys b)
  else
    inv s' (<[ob_intent_id b := b]> live)
        (if conflicts then running else {[ob_intent_id b]} ∪ running)
    /\ r = (if conflicts then None else Some b) /\ poisoned_keys s' = poisoned_keys s.
Proof.
  rewrite schedule_eq. destruct (is_nil (keys b)) eqn:Hk; [naive_solver|].
  apply is_nil_false in Hk. destruct poisoned_by.
  { intros [= <- <-]. split_and!; [|done|done]. by destruct I. }
  destruct conflicts eqn:Hc; intros [= <- <-]; (split_and!; [|done|done]).
  - by apply (admit_inv _ false).
  - by apply (admit_inv _ true).
Qed.
End schedule.

(** ** [validate_executing] and [complete] *)

(** The keys at whose front an id stands. *)
Lemma found_in_front_keys bk (id : N) (ks : list N) :
  NoDup ks -> (forall k, k ∈ ks <-> head (qof bk k) = Some id) ->
  length (List.filter (fun '(_, queue) => bool_decide (head queue = Some id)) (map_to_list bk))
  = length ks.
Proof.
  intros Hks Hiff. rewrite <- (length_map fst). apply Permutation_length, NoDup_Permutation.
  - set (l := map_to_list bk). assert (NoDup l.*1) as Hl by apply NoDup_fst_map_to_list.
    clearbody l. induction l as [|[k q] l IH]; simpl; [constructor|].
    apply NoDup_cons in Hl as [Hk Hl]. specialize (IH Hl).
    case_bool_decide; simpl; [|done]. constructor; [|done].
    intros ([k' q'] & Heq & [Hin _]%List.filter_In)%list_elem_of_In%in_map_iff.
    apply Hk, list_elem_of_fmap. exists (k', q'). split; [done|]. by apply list_elem_of_In.
  - done.
  - intros k. rewrite Hiff, list_elem_of_In, in_map_iff. split.
    + intros ([k' q] & <- & [Hin%list_elem_of_In Hh]%List.filter_In).
      apply elem_of_map_to_list in Hin. simpl. rewrite (qof_Some _ _ _ Hin).
      by apply bool_decide_eq_true in Hh.
    + intros Hh. exists (k, qof bk k). split; [done|]. apply List.filter_In.
      split; [|by apply bool_decide_eq_true]. apply list_elem_of_In, elem_of_map_to_list, qof_nonempty.
      intros Hq. by rewrite Hq in Hh.
Qed.

Lemma qof_bind_head bk k : bk !! k ≫= head = head (qof bk k).
Proof. unfold qof. by destruct (bk !! k). Qed.

Lemma front_flags_all s id ks :
  (forall k, k ∈ ks -> head (qof (blocked_keys s) k) = Some id) ->
  fst (front_flags s id ks) = true.
Proof.
  unfold front_flags. assert (forall sf,
    (forall k, k ∈ ks -> head (qof (blocked_keys s) k) = Some id) ->
    fst (fold_left (front_step s id) ks (true, sf)) = true) as H; [|auto].
  induction ks as [|k ks IH]; intros sf H; cbn [fold_left]; [done|].
  unfold front_step at 2. rewrite qof_bind_head, (H k), N.eqb_refl by set_solver.
  apply IH. set_solver.
Qed.

Lemma front_flags_none s id ks :
  ks <> [] -> (forall k, k ∈ ks -> head (qof (blocked_keys s) k) <> Some id) ->
  front_flags s id ks = (false, false).
Proof.
  unfold front_flags. intros Hne. assert (forall af,
    (forall k, k ∈ ks -> head (qof (blocked_keys s) k) <> Some id) ->
    fold_left (front_step s id) ks (af, false) = (af && is_nil ks, false)) as H.
  { clear Hne. induction ks as [|k ks IH]; intros af H; cbn [fold_left]; [by rewrite andb_true_r|].
    unfold front_step at 2. rewrite qof_bind_head, andb_false_r.
    pose proof (H k ltac:(set_solver)) as Hk. destruct (head _) as [h|].
    - destruct (N.eqb_spec h id) as [->|]; [done|]. by rewrite IH by set_solver.
    - by rewrite IH by set_solver. }
  intros Hk. rewrite H by done. by destruct ks.
Qed.

Lemma ascending_tail_elem (q : list N) id x :
  ascending q -> head q = Some id -> x ∈ tail q <-> x ∈ q /\ x <> id.
Proof.
  intros Hq Hh. destruct q as [|y q]; [done|]. simpl in *. simplify_eq.
  apply ascending_NoDup, NoDup_cons in Hq as [? _]. set_solver.
Qed.

Lemma ascending_tail (q : list N) : ascending q -> ascending (tail q).
Proof. destruct 1; [constructor | done]. Qed.

Section executing.
Context (s : IntentScheduler) (live : gmap N OutboxIntentBundle) (running : gset N).
Hypothesis I : inv s live running.

Lemma front_keys id b :
  live !! id = Some b -> id ∈ running ->
  forall k, k ∈ keys b <-> head (qof (blocked_keys s) k) = Some id.
Proof.
  intros Hl Hr k. split; [by apply (inv_front _ _ _ I)|].
  intros Hh%head_elem_of. apply (inv_member _ _ _ I) in Hh as (b' & ? & ?). by simplify_eq.
Qed.

(** An intent completes or fails exactly when it is running; waiting intents
    and unknown ones are told apart by the error. *)
Lemma validate_executing_spec b :
  NoDup (keys b) -> keys b <> [] ->
  match live !! ob_intent_id b with
  | Some b' =>
      if decide (ob_intent_id b ∈ running)
      then keys b' = keys b -> validate_executing s (ob_intent_id b) (keys b) = Ok tt
      else validate_executing s (ob_intent_id b) (keys b) = Err CompletingBlockedIntent
  | None => validate_executing s (ob_intent_id b) (keys b) = Err NonScheduledMessage
  end.
Proof.
  intros Hnd Hne. set (id := ob_intent_id b). unfold validate_executing.
  destruct (live !! id) as [b'|] eqn:Hl.
  - case_decide as Hr.
    + intros Hk. rewrite decide_False; last first.
      { intros [m (b2 & _ & Hn & _)%(inv_blocked _ _ _ I)]. done. }
      pose proof (front_keys id b' Hl Hr) as Hf. rewrite Hk in Hf.
      pose proof (front_flags_all s id (keys b) (fun k Hk => proj1 (Hf k) Hk)) as Hff.
      destruct (front_flags s id (keys b)) as [af sf]. simpl in Hff. subst af. simpl.
      rewrite decide_False; [done|]. unfold found_in_front.
      rewrite (found_in_front_keys _ id (keys b)) by done. lia.
    + rewrite decide_True; [done|]. eexists. apply (inv_blocked _ _ _ I). eauto.
  - rewrite decide_False; last first.
    { intros [m (b2 & ? & _)%(inv_blocked _ _ _ I)]. congruence. }
    rewrite front_flags_none; [done|done|].
    intros k _ Hh%head_elem_of. apply (inv_member _ _ _ I) in Hh as (b2 & ? & _). congruence.
Qed.

Lemma complete_inv b :
  ob_intent_id b ∈ running -> live !! ob_intent_id b = Some b ->
  exists s', complete s b = (s', Ok tt)
  /\ inv s' (delete (ob_intent_id b) live) (running ∖ {[ob_intent_id b]})
  /\ poisoned_keys s' = poisoned_keys s.
Proof.
  intros Hr Hl. destruct (inv_live _ _ _ I _ _ Hl) as (_ & Hnd & Hne).
  pose proof (validate_executing_spec b Hnd Hne) as Hv. rewrite Hl, decide_True in Hv by done.
  pose proof (front_keys _ _ Hl Hr) as Hf.
  unfold complete. rewrite (proj2 (is_nil_false _) Hne), (Hv eq_refl).
  destruct (pop_fronts_spec (keys b) (blocked_keys s) Hnd (inv_no_empty _ _ _ I))
    as (bk' & -> & Hne' & Hq).
  { intros k Hk Hq. apply Hf in Hk. by rewrite Hq in Hk. }
  eexists. split; [done|]. split; [|done]. set (id := ob_intent_id b) in *.
  split; simpl.
  - intros j b'. rewrite lookup_delete. case_decide; [done|]. apply (inv_live _ _ _ I).
  - intros j Hj. rewrite lookup_delete_ne by set_solver. apply (inv_running _ _ _ I). set_solver.
  - done.
  - intros k. rewrite Hq. pose proof (inv_ascending _ _ _ I k). case_decide; [by apply ascending_tail|done].
  - intros k j. rewrite Hq. setoid_rewrite lookup_delete. case_decide as Hk.
    + rewrite (ascending_tail_elem _ id), (inv_member _ _ _ I); [|apply (inv_ascending _ _ _ I)|by apply Hf].
      destruct (decide (id = j)) as [<-|]; naive_solver.
    + rewrite (inv_member _ _ _ I). destruct (decide (id = j)) as [<-|]; naive_solver.
  - intros j m. rewrite (inv_blocked _ _ _ I). setoid_rewrite lookup_delete.
    destruct (decide (id = j)) as [<-|]; set_solver.
  - intros j b' k [Hj Hji%not_elem_of_singleton]%elem_of_difference. rewrite lookup_delete_ne by done.
    intros Hlj Hk. rewrite Hq. pose proof (inv_front _ _ _ I _ _ _ Hj Hlj Hk) as Hh.
    case_decide as Hkb; [|done]. apply Hf in Hkb. congruence.
Qed.
End executing.

(** ** [pop_next_scheduled_intent] *)

Definition front_count (bk : gmap N (list N)) (id : N) : nat :=
  length (List.filter (fun '(_, queue) => bool_decide (head queue = Some id)) (map_to_list bk)).

Lemma filter_length_perm {A} (f : A -> bool) l1 l2 :
  l1 ≡ₚ l2 -> length (List.filter f l1) = length (List.filter f l2).
Proof. induction 1; simpl; repeat case_match; simpl; congruence. Qed.

Lemma front_count_insert bk k q id :
  bk !! k = None ->
  front_count (<[k := q]> bk) id = (if decide (head q = Some id) then 1 else 0) + front_count bk id.
Proof.
  intros Hk. unfold front_count. rewrite (filter_length_perm _ _ _ (map_to_list_insert _ _ q Hk)).
  simpl. case_bool_decide; case_decide; done.
Qed.

Lemma execute_candidates_spec s id :
  execute_candidates s !! id =
  if decide (found_in_front s id = 0) then None else Some (found_in_front s id).
Proof.
  change (found_in_front s id) with (front_count (blocked_keys s) id).
  unfold execute_candidates. generalize (blocked_keys s) as bk. revert id.
  assert (forall bk id, map_fold
    (fun _ queue (m : gmap N nat) =>
       match head queue with
       | Some id => <[id := S (default 0 (m !! id))]> m
       | None => m
       end) ∅ bk !! id
    = if decide (front_count bk id = 0) then None else Some (front_count bk id)) as H; [|auto].
  apply (map_fold_weak_ind (fun (m : gmap N nat) bk =>
           forall id, m !! id = if decide (front_count bk id = 0) then None
                                else Some (front_count bk id))).
  { intros id. rewrite lookup_empty. unfold front_count. by rewrite map_to_list_empty. }
  intros k q bk m Hk IH id. rewrite front_count_insert by done.
  destruct (head q) as [h|].
  - rewrite lookup_insert. destruct (decide (h = id)) as [<-|Hne].
    + rewrite IH. rewrite (decide_True (P := Some h = Some h)) by done.
      destruct (decide (front_count bk h = 0)) as [->|]; done.
    + rewrite IH. rewrite (decide_False (P := Some h = Some id)) by congruence. done.
  - rewrite IH. rewrite (decide_False (P := None = Some id)) by done. done.
Qed.

Lemma pop_first_ready_Some s order s' b :
  pop_first_ready s order = (s', Some b) ->
  exists id meta, (id, num_keys meta) ∈ order /\ blocked_intents s !! id = Some meta
  /\ meta_intent meta = b
  /\ s' = mkIntentScheduler (blocked_keys s) (delete id (blocked_intents s)) (poisoned_keys s).
Proof.
  induction order as [|[id n] order IH]; simpl; [done|].
  destruct (blocked_intents s !! id) as [meta|] eqn:Hm.
  - case_decide as Hn.
    + intros [= <- <-]. exists id, meta. subst n. split_and!; [set_solver|done|done|done].
    + intros H. destruct (IH H) as (id' & m & ? & ?). exists id', m. split; [by right | done].
  - intros H. destruct (IH H) as (id' & m & ? & ?). exists id', m. split; [by right | done].
Qed.

Lemma pop_first_ready_None s order s' :
  pop_first_ready s order = (s', None) ->
  s' = s /\ forall id n meta, (id, n) ∈ order -> blocked_intents s !! id = Some meta -> num_keys meta <> n.
Proof.
  induction order as [|[id n] order IH]; simpl.
  { intros [= <-]. split; [done|]. intros ??? []%elem_of_nil. }
  destruct (blocked_intents s !! id) as [meta|] eqn:Hm.
  - case_decide as Hn; [done|]. intros [-> H]%IH. split; [done|].
    intros id' n' m [[= -> ->]|Hin]%elem_of_cons Hm'; [congruence|eauto].
  - intros [-> H]%IH. split; [done|].
    intros id' n' m [[= -> ->]|Hin]%elem_of_cons Hm'; [congruence|eauto].
Qed.

Section pop.
Context (s : IntentScheduler) (live : gmap N OutboxIntentBundle) (running : gset N).
Hypothesis I : inv s live running.
Context (order : list (N * nat) -> list (N * nat)).
Hypothesis Horder : forall l, order l ≡ₚ l.

Lemma in_order id n :
  (id, n) ∈ order (map_to_list (execute_candidates s)) <->
  n = found_in_front s id /\ n <> 0.
Proof.
  rewrite (Horder _), elem_of_map_to_list, execute_candidates_spec.
  case_decide; naive_solver lia.
Qed.

(** The keys an id is at the front of are among its own keys, so it is ready
    exactly when their number is the number of its keys. *)
Lemma ready_iff id b :
  live !! id = Some b ->
  found_in_front s id = length (keys b) <->
  forall k, k ∈ keys b -> head (qof (blocked_keys s) k) = Some id.
Proof.
  intros Hl. destruct (inv_live _ _ _ I _ _ Hl) as (_ & Hnd & _).
  set (fk := filter (fun k => head (qof (blocked_keys s) k) = Some id) (keys b)).
  assert (found_in_front s id = length fk) as ->.
  { apply found_in_front_keys; [by apply NoDup_filter|]. intros k. subst fk.
    rewrite list_elem_of_filter. split; [tauto|]. intros Hh. split; [done|].
    apply head_elem_of, (inv_member _ _ _ I) in Hh as (b' & ? & ?). by simplify_eq. }
  split.
  - intros Hlen k Hk. destruct (decide (head (qof (blocked_keys s) k) = Some id)) as [|Hn]; [done|].
    pose proof (length_filter_lt (fun k => head (qof (blocked_keys s) k) = Some id) _ _ Hk Hn).
    subst fk. lia.
  - intros Hall. subst fk. f_equal. clear -Hall. induction (keys b) as [|k ks IH]; [done|].
    rewrite filter_cons_True by (apply Hall; set_solver). f_equal. apply IH. set_solver.
Qed.

Lemma pop_inv s' r :
  pop_next_scheduled_intent order s = (s', r) ->
  match r with
  | Some b =>
      let id := ob_intent_id b in
      live !! id = Some b /\ (id ∉ running) /\ inv s' live ({[id]} ∪ running)
      /\ poisoned_keys s' = poisoned_keys s
  | None =>
      s' = s /\ forall id b, live !! id = Some b -> id ∉ running ->
        exists k, k ∈ keys b /\ head (qof (blocked_keys s) k) <> Some id
  end.
Proof.
  unfold pop_next_scheduled_intent. intros Hp. destruct r as [b|].
  - apply pop_first_ready_Some in Hp as (id & meta & Hin & Hm & Hb & ->).
    apply in_order in Hin as [Hn _].
    apply (inv_blocked _ _ _ I) in Hm as (b' & Hl & Hnr & ->). simpl in *. subst b'.
    destruct (inv_live _ _ _ I _ _ Hl) as (Hid & _ & _). rewrite Hid. symmetry in Hn.
    rewrite (ready_iff _ _ Hl) in Hn. split_and!; [done|done| |done].
    split; simpl; try apply I.
    + intros j [->%elem_of_singleton|Hj]%elem_of_union; [eauto|]. by apply (inv_running _ _ _ I).
    + intros j m. rewrite lookup_delete. case_decide as Hj; [set_solver|].
      rewrite (inv_blocked _ _ _ I). set_solver.
    + intros j b' k [->%elem_of_singleton|Hj]%elem_of_union Hlj Hk.
      * simplify_eq. auto.
      * by eapply (inv_front _ _ _ I).
  - apply pop_first_ready_None in Hp as [-> H]. split; [done|]. intros id b Hl Hnr.
    destruct (inv_live _ _ _ I _ _ Hl) as (_ & Hnd & Hne).
    destruct (decide (Forall (fun k => head (qof (blocked_keys s) k) = Some id) (keys b)))
      as [Hall|Hn]; last first.
    { apply not_Forall_Exists, Exists_exists in Hn; [done|apply _]. }
    rewrite Forall_forall, <- (ready_iff _ _ Hl) in Hall. exfalso.
    eapply (H id (found_in_front s id) (mkIntentMeta (length (keys b)) b)); simpl; [| |done].
    + apply in_order. split; [done|]. rewrite Hall. by destruct (keys b).
    + apply (inv_blocked _ _ _ I). eauto.
Qed.
End pop.
