(* ===== verification/SchedulerFail.v ===== *)
(** * Failure: the voided intents are exactly the reachable ones

    [IntentScheduler::failed]: its worklist loop terminates within the fuel of
    the model, voids exactly the intents reachable from the failed one, and
    leaves the invariant on the rest. *)

From stdpp Require Import base gmap sets list strings relations sorting.
From Stdlib Require Import ZArith Lia.
From S2P Require Import Prelude Intent Outbox Scheduler SchedulerInv.
Import IntentScheduler.

(** [u] is queued before [v] on a shared key. *)
Definition dep (live : gmap N OutboxIntentBundle) (u v : N) : Prop :=
  exists bu bv k, live !! u = Some bu /\ live !! v = Some bv
                  /\ k ∈ keys bu /\ k ∈ keys bv /\ (u < v)%N.

(** Reachable from [f]: the dependency chains of the source's comment. *)
Definition reachable (live : gmap N OutboxIntentBundle) (f v : N) : Prop := tc (dep live) f v.

Abbreviation vids := (fun acc : list OutboxIntentBundle => ob_intent_id <$> acc).

(** The live intents that survive the failure of [fb]. *)
Definition survivors (live : gmap N OutboxIntentBundle) (fb : OutboxIntentBundle)
    (voided : list OutboxIntentBundle) : gmap N OutboxIntentBundle :=
  filter (fun p => (p.1 ∉ ob_intent_id fb :: vids voided)) live.

Lemma survivors_lookup live fb voided x b :
  survivors live fb voided !! x = Some b <->
  live !! x = Some b /\ (x ∉ vids voided) /\ x <> ob_intent_id fb.
Proof. unfold survivors. rewrite map_lookup_filter_Some. simpl. set_solver. Qed.

Section failed.
Context (s0 : IntentScheduler) (live : gmap N OutboxIntentBundle) (running : gset N).
Hypothesis I : inv s0 live running.
Context (fb : OutboxIntentBundle).
Hypothesis Hfl : live !! ob_intent_id fb = Some fb.
Hypothesis Hfr : ob_intent_id fb ∈ running.
Local Abbreviation f := (ob_intent_id fb).


(** The state of the worklist loop. *)
Record loop_inv (s : IntentScheduler) (wl : list N) (acc : list OutboxIntentBundle) : Prop := {
  li_no_empty : no_empty (blocked_keys s);
  li_ascending : forall k, ascending (qof (blocked_keys s) k);
  li_wl : ascending wl;
  li_sub : forall k x, x ∈ qof (blocked_keys s) k ->
    (exists b, live !! x = Some b /\ k ∈ keys b) /\ (x ∉ vids acc) /\ x <> f;
  li_cover : forall k x b, live !! x = Some b -> k ∈ keys b ->
    x ∈ qof (blocked_keys s) k \/ x ∈ wl \/ x ∈ vids acc \/ x = f;
  li_suffix : forall k x y bx, live !! x = Some bx -> k ∈ keys bx -> (x < y)%N ->
    y ∈ qof (blocked_keys s) k -> x ∈ qof (blocked_keys s) k;
  li_doomed : forall x, x ∈ wl \/ x ∈ vids acc -> reachable live f x;
  li_closed : forall v w, v ∈ vids acc \/ v = f -> dep live v w -> w ∈ wl \/ w ∈ vids acc;
  li_blocked : forall id m, blocked_intents s !! id = Some m <->
    exists b, live !! id = Some b /\ (id ∉ running) /\ (id ∉ vids acc)
              /\ m = mkIntentMeta (length (keys b)) b;
  li_acc : forall b, b ∈ acc -> live !! ob_intent_id b = Some b;
  li_order : ascending (vids acc) /\ forall v w, v ∈ vids acc -> w ∈ wl -> (v < w)%N;
  li_poisoned : forall k, k ∈ poisoned_keys s <->
    k ∈ poisoned_keys s0 \/ k ∈ keys fb \/ exists b, b ∈ acc /\ k ∈ keys b }.

Lemma failed_least k b' id' :
  k ∈ keys fb -> live !! id' = Some b' -> k ∈ keys b' -> (f <= id')%N.
Proof.
  intros Hk Hl Hk'.
  pose proof (inv_front _ _ _ I _ _ _ Hfr Hfl Hk) as Hh.
  rewrite (front_iff_least s0 live running k f fb I Hfl Hk) in Hh. eauto.
Qed.

Lemma dep_not_running u v : dep live u v -> v ∉ running.
Proof.
  intros (bu & bv & k & Hu & Hv & Hku & Hkv & Hlt) Hr.
  pose proof (inv_front _ _ _ I _ _ _ Hr Hv Hkv) as Hh.
  rewrite (front_iff_least s0 live running k v bv I Hv Hkv) in Hh.
  specialize (Hh _ _ Hu Hku). lia.
Qed.

Lemma reachable_last v : reachable live f v -> exists u, dep live u v.
Proof. unfold reachable. generalize f. by induction 1; eauto. Qed.

Lemma reachable_blocked v :
  reachable live f v -> (v ∉ running) /\ exists b, live !! v = Some b.
Proof.
  intros [u Hu]%reachable_last. split; [by eapply dep_not_running|].
  destruct Hu as (? & ? & ? & _ & ? & _). eauto.
Qed.

(** After the first loop of [failed]. *)
Lemma seed_loop_inv bk wl :
  no_empty bk ->
  (forall k, qof bk k = if decide (k ∈ keys fb) then [] else qof (blocked_keys s0) k) ->
  ascending wl ->
  (forall x, x ∈ wl <-> exists k, k ∈ keys fb /\ x ∈ drop 1 (qof (blocked_keys s0) k)) ->
  loop_inv (mkIntentScheduler bk (blocked_intents s0) (list_to_set (keys fb) ∪ poisoned_keys s0)) wl [].
Proof.
  intros Hne Hq Has Hwl.
  assert (Hbehind : forall k x, k ∈ keys fb ->
    x ∈ drop 1 (qof (blocked_keys s0) k) <-> x ∈ qof (blocked_keys s0) k /\ x <> f).
  { intros k x Hk. apply (ascending_tail_elem (qof (blocked_keys s0) k) f x);
      [apply (inv_ascending _ _ _ I)|by apply (inv_front _ _ _ I f fb)]. }
  assert (Hdep : forall x, x ∈ wl <-> dep live f x).
  { intros x. rewrite Hwl. split.
    - intros (k & Hk & [Hx Hxf]%Hbehind); [|done]. apply (inv_member _ _ _ I) in Hx as (b & Hb & Hkb).
      pose proof (failed_least _ _ _ Hk Hb Hkb). exists fb, b, k. split_and!; try done. lia.
    - intros (b1 & b & k & ? & Hb & Hk & Hkb & Hlt). simplify_eq. exists k. split; [done|].
      apply Hbehind; [done|]. split; [apply (inv_member _ _ _ I); eauto|lia]. }
  split; simpl; try done.
  - intros k. rewrite Hq. case_decide; [constructor|apply (inv_ascending _ _ _ I)].
  - intros k x. rewrite Hq. case_decide as Hk; [by intros ?%elem_of_nil|].
    rewrite (inv_member _ _ _ I). intros (b & ? & ?). split_and!; [eauto|by intros ?%elem_of_nil|].
    intros ->. by simplify_eq.
  - intros k x b Hb Hk. rewrite Hq. case_decide as Hkf.
    + destruct (decide (x = f)); [auto|]. right; left. apply Hwl. exists k. split; [done|].
      apply Hbehind; [done|]. split; [apply (inv_member _ _ _ I); eauto|done].
    + left. apply (inv_member _ _ _ I). eauto.
  - intros k x y bx Hb Hk _. rewrite Hq. case_decide; [by intros ?%elem_of_nil|].
    intros _. apply (inv_member _ _ _ I). eauto.
  - intros x [Hx%Hdep|[]%elem_of_nil]. by apply tc_once.
  - intros v w [[]%elem_of_nil| ->] Hd. left. by apply Hdep.
  - intros id m. rewrite (inv_blocked _ _ _ I). split; intros (b & ?); exists b; set_solver.
  - intros b []%elem_of_nil.
  - split; [constructor|]. intros v w []%elem_of_nil.
  - intros k. rewrite elem_of_union, elem_of_list_to_set. set_solver.
Qed.

(** A worklist entry is not yet voided, so it still waits. *)
Lemma pop_waiting s id wl acc :
  loop_inv s (id :: wl) acc ->
  exists b, live !! id = Some b /\ (id ∉ running) /\ (id ∉ vids acc) /\ ob_intent_id b = id
  /\ blocked_intents s !! id = Some (mkIntentMeta (length (keys b)) b).
Proof.
  intros L. destruct (reachable_blocked id) as (Hr & b & Hb).
  { apply (li_doomed _ _ _ L). left. constructor. }
  assert (id ∉ vids acc) as Hv.
  { intros Hin. pose proof (proj2 (li_order _ _ _ L) id id Hin ltac:(constructor)). lia. }
  exists b. split_and!; try done.
  - by apply (inv_live _ _ _ I).
  - apply (li_blocked _ _ _ L). eauto.
Qed.

Section void_step.
Context (s : IntentScheduler) (id : N) (wl : list N) (acc : list OutboxIntentBundle).
Hypothesis L : loop_inv s (id :: wl) acc.
Context (b : OutboxIntentBundle).
Hypothesis Hb : live !! id = Some b.
Hypothesis Hid : ob_intent_id b = id.
Context (bk' : gmap N (list N)) (wl' : list N).
Hypothesis Hd : drain_queues id (keys b) (blocked_keys s) wl = (bk', wl').

Local Abbreviation spec :=
  (drain_queues_spec _ _ _ _ _ _ Hd (li_no_empty _ _ _ L) (li_ascending _ _ _ L)).

Lemma vids_snoc x : x ∈ vids (acc ++ [b]) <-> x ∈ vids acc \/ x = id.
Proof. rewrite fmap_app, elem_of_app. cbn. rewrite Hid. set_solver. Qed.

Lemma wl_split : ascending wl /\ forall x, x ∈ wl -> (id < x)%N.
Proof.
  pose proof (li_wl _ _ _ L) as H. inversion H as [|? ? ? Hf]. subst.
  rewrite Forall_forall in Hf. auto.
Qed.

Lemma drained_cover k x b' :
  live !! x = Some b' -> k ∈ keys b' ->
  x ∈ qof bk' k \/ x ∈ wl' \/ x ∈ vids (acc ++ [b]) \/ x = f.
Proof.
  destruct spec as (_ & Hq & _ & Hw & _). intros Hx Hk. rewrite vids_snoc, Hq.
  destruct (li_cover _ _ _ L k x b' Hx Hk) as [Hin|[[->|Hin]%elem_of_cons|[?|?]]]; auto.
  - case_decide as Hkb; [|auto]. rewrite elem_of_cut, Hw.
    destruct (decide (id ∈ qof (blocked_keys s) k)); [|naive_solver].
    destruct (N.lt_trichotomy x id) as [?|[?|?]]; naive_solver.
  - rewrite Hw. auto.
Qed.

Lemma drained_closed v w :
  v ∈ vids (acc ++ [b]) \/ v = f -> dep live v w -> w ∈ wl' \/ w ∈ vids (acc ++ [b]).
Proof.
  destruct spec as (_ & _ & _ & Hw & _). rewrite !vids_snoc, Hw. intros Hv Hdep.
  assert (v = id \/ (v ∈ vids acc \/ v = f)) as [->|Hv'] by tauto; last first.
  { destruct (li_closed _ _ _ L v w Hv' Hdep) as [[->|?]%elem_of_cons|?]; auto. }
  destruct Hdep as (bv & bw & k & Hbv & Hbw & Hkv & Hkw & Hlt). simplify_eq.
  destruct (li_cover _ _ _ L k w bw Hbw Hkw) as [Hin|[[->|?]%elem_of_cons|[?| ->]]]; auto; [|].
  - left; right. exists k. split_and!; try done. by eapply (li_suffix _ _ _ L).
  - simplify_eq. pose proof (failed_least k b (ob_intent_id b) Hkw Hb Hkv). lia.
Qed.

Lemma void_step_inv :
  loop_inv (mkIntentScheduler bk' (delete id (blocked_intents s))
              (poisoned_keys s ∪ list_to_set (keys b))) wl' (acc ++ [b]).
Proof.
  destruct spec as (Hne & Hq & Has & Hw & _). destruct wl_split as [Hwa Hwlt].
  split; simpl; try done.
  - intros k. rewrite Hq. pose proof (li_ascending _ _ _ L k). case_decide; auto with mbv.
  - auto.
  - intros k x Hx. rewrite vids_snoc. rewrite Hq in Hx.
    assert (x ∈ qof (blocked_keys s) k /\ x <> id) as [Hx' Hxid].
    { case_decide as Hk; [apply elem_of_cut in Hx as [? Hlt]; naive_solver lia|].
      split; [done|]. intros ->. apply (li_sub _ _ _ L) in Hx as [(b' & ? & ?) _]. naive_solver. }
    destruct (li_sub _ _ _ L k x Hx') as (? & ? & ?). naive_solver.
  - apply drained_cover.
  - intros k x y bx Hx Hk Hlt. rewrite Hq. case_decide; [rewrite !elem_of_cut|by eapply (li_suffix _ _ _ L)].
    intros [Hy Hyid]. split; [by eapply (li_suffix _ _ _ L)|]. intros Hin. specialize (Hyid Hin). lia.
  - intros x. rewrite vids_snoc, Hw.
    assert (reachable live f id) by (apply (li_doomed _ _ _ L); left; constructor).
    intros [[Hx|(k & Hk & _ & Hx & Hlt)]|[Hx| ->]]; [| | |done].
    + apply (li_doomed _ _ _ L). left. by right.
    + apply (li_sub _ _ _ L) in Hx as [(b' & ? & ?) _].
      eapply tc_r; [done|]. exists b, b', k. done.
    + apply (li_doomed _ _ _ L). auto.
  - apply drained_closed.
  - intros j m. rewrite lookup_delete. setoid_rewrite vids_snoc. case_decide as Hj; [naive_solver|].
    rewrite (li_blocked _ _ _ L). split; intros (b' & ? & ? & ? & ?); exists b'; naive_solver.
  - intros b' [?| ->%list_elem_of_singleton]%elem_of_app; [by apply (li_acc _ _ _ L)|by rewrite Hid].
  - destruct (li_order _ _ _ L) as [Ho Hlt]. split.
    + rewrite fmap_app. apply StronglySorted_app_2; [|done|repeat constructor].
      intros x y Hx. cbn. rewrite Hid. intros ->%list_elem_of_singleton. apply Hlt; [done|constructor].
    + intros v w. rewrite vids_snoc, Hw. intros Hv Hwin.
      assert (id < w)%N by (destruct Hwin as [?|(? & ? & ? & ? & ?)]; auto).
      destruct Hv as [Hv| ->]; [|done]. pose proof (Hlt v id Hv ltac:(constructor)). lia.
  - intros k. rewrite elem_of_union, elem_of_list_to_set, (li_poisoned _ _ _ L).
    assert (Hs : forall b', b' ∈ acc ++ [b] <-> b' ∈ acc \/ b' = b) by set_solver.
    setoid_rewrite Hs. naive_solver.
Qed.
End void_step.

(** The loop ends within its fuel, with an empty worklist. *)
Lemma void_loop_inv fuel s wl acc :
  loop_inv s wl acc -> length wl + total_queued (blocked_keys s) <= fuel ->
  exists s' acc', void_loop fuel s wl acc = Some (s', acc') /\ loop_inv s' [] acc'.
Proof.
  revert s wl acc. induction fuel as [|fuel IH]; intros s wl acc L Hm.
  { destruct wl; [|simpl in Hm; lia]. exists s, acc. done. }
  destruct wl as [|id wl]; [exists s, acc; done|]. cbn [void_loop].
  destruct (pop_waiting _ _ _ _ L) as (b & Hb & _ & _ & Hid & ->). cbn [meta_intent].
  destruct (drain_queues id (keys b) (blocked_keys s) wl) as [bk' wl'] eqn:Hd.
  apply IH; [by eapply void_step_inv|].
  destruct (drain_queues_spec _ _ _ _ _ _ Hd (li_no_empty _ _ _ L) (li_ascending _ _ _ L))
    as (_ & _ & _ & _ & Ht). simpl in *. lia.
Qed.

Lemma voided_reachable s acc :
  loop_inv s [] acc -> forall x, x ∈ vids acc <-> reachable live f x.
Proof.
  intros L x. split; [intros Hx; apply (li_doomed _ _ _ L); auto|].
  assert (Hstep : forall v w, v ∈ vids acc \/ v = f -> dep live v w -> w ∈ vids acc).
  { intros v w Hv Hd. by destruct (li_closed _ _ _ L v w Hv Hd) as [[]%elem_of_nil|]. }
  assert (Htc : forall v, reachable live v x -> v ∈ vids acc \/ v = f -> x ∈ vids acc).
  { unfold reachable. induction 1 as [v w Hd|v w z Hd Ht IH]; intros Hv; eauto. }
  intros Hr. apply (Htc f); auto.
Qed.

Lemma ascending_head (q : list N) x :
  ascending q -> x ∈ q -> (forall y, y ∈ q -> (x <= y)%N) -> head q = Some x.
Proof.
  intros Hq Hx Hmin. destruct q as [|y q]; [by apply elem_of_nil in Hx|]. simpl.
  pose proof (Hmin y ltac:(constructor)).
  destruct (head_least _ y x Hq eq_refl Hx); [by subst|lia].
Qed.

Lemma final_inv s acc :
  loop_inv s [] acc -> inv s (survivors live fb acc) (running ∖ {[f]}).
Proof.
  intros L.
  assert (Hmem : forall k x, x ∈ qof (blocked_keys s) k <->
    exists b, survivors live fb acc !! x = Some b /\ k ∈ keys b).
  { intros k x. setoid_rewrite survivors_lookup. split.
    - intros Hx. destruct (li_sub _ _ _ L k x Hx) as ((b & ? & ?) & ? & ?). eauto 6.
    - intros (b & (Hl & Hv & Hf) & Hk).
      by destruct (li_cover _ _ _ L k x b Hl Hk) as [|[[]%elem_of_nil|[?|?]]]. }
  assert (Hkeep : forall x b, x ∈ running ∖ {[f]} -> live !! x = Some b -> survivors live fb acc !! x = Some b).
  { intros x b [Hr Hf%not_elem_of_singleton]%elem_of_difference Hl. apply survivors_lookup.
    split_and!; [done| |done]. intros Hv%(voided_reachable _ _ L). by apply reachable_blocked in Hv as [? _]. }
  split; try apply L.
  - intros x b [? _]%survivors_lookup. by apply (inv_live _ _ _ I).
  - intros x Hx. destruct (inv_running _ _ _ I x ltac:(set_solver)) as [b Hb]. eauto.
  - done.
  - intros x m. rewrite (li_blocked _ _ _ L). setoid_rewrite survivors_lookup.
    split; intros (b & Hlb); exists b; [|set_solver].
    destruct Hlb as (? & ? & ? & ?). assert (x <> f) by (by intros ->). set_solver.
  - intros x b k Hx [Hl _]%survivors_lookup Hk. apply ascending_head; [apply L| |].
    + apply Hmem. eauto.
    + intros y (b' & [Hl' _]%survivors_lookup & Hk')%Hmem.
      pose proof (inv_front _ _ _ I x b k ltac:(set_solver) Hl Hk) as Hh.
      rewrite (front_iff_least s0 live running k x b I Hl Hk) in Hh. eauto.
Qed.

(** [failed] on a running intent: it always returns, the voided bundles are
    exactly the reachable ones, in id order, and the rest keeps the invariant. *)
Lemma failed_inv :
  exists s' voided, failed s0 fb = Some (s', Ok voided)
  /\ inv s' (survivors live fb voided) (running ∖ {[f]})
  /\ ascending (vids voided)
  /\ (forall b, b ∈ voided <-> live !! ob_intent_id b = Some b /\ reachable live f (ob_intent_id b))
  /\ (forall k, k ∈ poisoned_keys s' <->
        k ∈ poisoned_keys s0 \/ k ∈ keys fb \/ exists b, b ∈ voided /\ k ∈ keys b).
Proof.
  destruct (inv_live _ _ _ I _ _ Hfl) as (_ & Hnd & Hne).
  pose proof (validate_executing_spec _ _ _ I fb Hnd Hne) as Hv. rewrite Hfl, decide_True in Hv by done.
  unfold failed. rewrite (proj2 (is_nil_false _) Hne), (Hv eq_refl).
  destruct (seed_worklist_spec (keys fb) (blocked_keys s0) (poisoned_keys s0) [] Hnd
              (inv_no_empty _ _ _ I)) as (bk & wl & -> & Hne' & Hq & Has & Hwl).
  { intros k Hk Hqe. pose proof (inv_front _ _ _ I _ _ _ Hfr Hfl Hk) as Hh. by rewrite Hqe in Hh. }
  set (s1 := mkIntentScheduler bk (blocked_intents s0) (list_to_set (keys fb) ∪ poisoned_keys s0)).
  assert (loop_inv s1 wl []) as L.
  { apply seed_loop_inv; [done|done|apply Has; constructor|]. intros x. rewrite Hwl. set_solver. }
  destruct (void_loop_inv (length wl + total_queued bk) s1 wl [] L ltac:(done)) as (s' & acc & -> & L').
  exists s', acc. split_and!; [done|by apply final_inv|apply L'| |apply L'].
  intros b. rewrite <- (voided_reachable _ _ L'). split.
  - intros Hb. split; [by apply (li_acc _ _ _ L')|]. apply list_elem_of_fmap. eauto.
  - intros [Hl (b' & Heq & Hb')%list_elem_of_fmap].
    pose proof (li_acc _ _ _ L' _ Hb'). rewrite Heq in Hl. by simplify_eq.
Qed.
End failed.
