(* ===== verification/Executor.v ===== *)
(** * The intent executor's scheduling loop

    [committor/src/execution/worker.rs]: [IntentExecutor::main_loop],
    [next_scheduled_intent] and the scheduler calls of [execute], as a
    transition system over the scheduler of [Scheduler.v]. Every [select!]
    branch is a transition; the bias of the [select!] only removes behaviours.

    The abstract specification [Spec] has no queues: it keeps the live
    intents, the running ones and the poisoned keys. The executor refines it. *)

From stdpp Require Import base gmap sets list strings relations sorting.
From Stdlib Require Import ZArith Lia.
From S2P Require Import Prelude Intent Outbox Scheduler SchedulerInv SchedulerFail.
Import IntentScheduler.

Definition SCHEDULER_CAPACITY : nat := Z.to_nat 3000.
Definition SCHEDULER_HARD_CAPACITY : nat := Z.to_nat 6000.

(** The admission rule at the head of [next_scheduled_intent]. *)
Definition can_receive (blocked available_permits : nat) : bool :=
  (blocked <? SCHEDULER_CAPACITY)
  || ((blocked <? SCHEDULER_HARD_CAPACITY) && (0 <? available_permits)).

(** [ex_handed] are the intents given to executor tasks that have not reported
    back, [ex_unreaped] the tasks that reported and were not joined yet,
    [ex_next] a bound above the ids already admitted (the intake hands intents
    over in id order). *)
Record Executor := mkExecutor {
  ex_sched : IntentScheduler;
  ex_handed : gmap N OutboxIntentBundle;
  ex_next : N;
  ex_needs_drain : bool;
  ex_unreaped : nat }.

Definition executor_new : Executor := mkExecutor new ∅ 0 false 0.

Inductive event :=
| EvSchedule (b : OutboxIntentBundle) (r : option OutboxIntentBundle)
| EvPop (r : option OutboxIntentBundle)
| EvReap
| EvComplete (b : OutboxIntentBundle) (r : result unit IntentSchedulerError)
| EvFail (b : OutboxIntentBundle) (r : result (list OutboxIntentBundle) IntentSchedulerError).

Definition hand (handed : gmap N OutboxIntentBundle) (r : option OutboxIntentBundle)
    : gmap N OutboxIntentBundle :=
  match r with Some b => <[ob_intent_id b := b]> handed | None => handed end.

Inductive step : Executor -> event -> Executor -> Prop :=
| step_schedule ex b permits s' r :
    can_receive (intents_blocked (ex_sched ex)) permits = true ->
    NoDup (keys b) -> (ex_next ex <= ob_intent_id b)%N ->
    schedule (ex_sched ex) b = (s', r) ->
    step ex (EvSchedule b r)
      (mkExecutor s' (hand (ex_handed ex) r) (N.succ (ob_intent_id b))
         (ex_needs_drain ex) (ex_unreaped ex))
| step_pop ex order s' r :
    ex_needs_drain ex = true -> (forall l, order l ≡ₚ l) ->
    pop_next_scheduled_intent order (ex_sched ex) = (s', r) ->
    step ex (EvPop r)
      (mkExecutor s' (hand (ex_handed ex) r) (ex_next ex)
         (match r with Some _ => true | None => false end) (ex_unreaped ex))
| step_reap ex n :
    ex_unreaped ex = S n ->
    step ex EvReap (mkExecutor (ex_sched ex) (ex_handed ex) (ex_next ex) true n)
| step_complete ex b s' r :
    ex_handed ex !! ob_intent_id b = Some b ->
    complete (ex_sched ex) b = (s', r) ->
    step ex (EvComplete b r)
      (mkExecutor s' (delete (ob_intent_id b) (ex_handed ex)) (ex_next ex)
         (ex_needs_drain ex) (S (ex_unreaped ex)))
| step_fail ex b s' r :
    ex_handed ex !! ob_intent_id b = Some b ->
    failed (ex_sched ex) b = Some (s', r) ->
    step ex (EvFail b r)
      (mkExecutor s' (delete (ob_intent_id b) (ex_handed ex)) (ex_next ex)
         (ex_needs_drain ex) (S (ex_unreaped ex))).

(** Runs between two states, with the events in order. *)
Inductive steps (ex0 : Executor) : list event -> Executor -> Prop :=
| steps_nil : steps ex0 [] ex0
| steps_snoc tr ex e ex' : steps ex0 tr ex -> step ex e ex' -> steps ex0 (tr ++ [e]) ex'.

(** Executions of the process. *)
Abbreviation exec := (steps executor_new).

(** The intents of the scheduler, running or waiting. *)
Definition ex_live (ex : Executor) : gmap N OutboxIntentBundle :=
  filter (fun p => keys p.2 <> []) (ex_handed ex) ∪ (meta_intent <$> blocked_intents (ex_sched ex)).

(** The intents handed to executor tasks that touch the account [k], in order. *)
Definition start_of (e : event) : option OutboxIntentBundle :=
  match e with EvSchedule _ r | EvPop r => r | _ => None end.

Definition starts (k : Pubkey) (tr : list event) : list N :=
  ob_intent_id <$> filter (fun b => k ∈ keys b) (omap start_of tr).

(** ** Specification *)

Module Spec.

Record t := mk {
  live : gmap N OutboxIntentBundle;
  running : gset N;
  poisoned : gset N }.

Definition empty : t := mk ∅ ∅ ∅.

Definition conflicting (sp : t) (b : OutboxIntentBundle) : Prop :=
  exists id b' k, live sp !! id = Some b' /\ k ∈ keys b /\ k ∈ keys b'.

(** Nothing live with a smaller id shares an account with [id]. *)
Definition ready (sp : t) (id : N) : Prop :=
  exists b, live sp !! id = Some b /\ (id ∉ running sp) /\
  forall id' b' k, live sp !! id' = Some b' -> k ∈ keys b -> k ∈ keys b' -> (id <= id')%N.

Inductive step : t -> event -> t -> Prop :=
| schedule_keyless sp b : keys b = [] -> step sp (EvSchedule b (Some b)) sp
| schedule_poisoned sp b k :
    k ∈ keys b -> k ∈ poisoned sp ->
    step sp (EvSchedule b None) (mk (live sp) (running sp) (poisoned sp ∪ list_to_set (keys b)))
| schedule_wait sp b :
    (forall k, k ∈ keys b -> k ∉ poisoned sp) -> conflicting sp b ->
    step sp (EvSchedule b None) (mk (<[ob_intent_id b := b]> (live sp)) (running sp) (poisoned sp))
| schedule_run sp b :
    keys b <> [] -> (forall k, k ∈ keys b -> k ∉ poisoned sp) -> ~ conflicting sp b ->
    step sp (EvSchedule b (Some b))
      (mk (<[ob_intent_id b := b]> (live sp)) ({[ob_intent_id b]} ∪ running sp) (poisoned sp))
| pop_some sp b :
    live sp !! ob_intent_id b = Some b -> ready sp (ob_intent_id b) ->
    step sp (EvPop (Some b)) (mk (live sp) ({[ob_intent_id b]} ∪ running sp) (poisoned sp))
| pop_none sp : (forall id, ~ ready sp id) -> step sp (EvPop None) sp
| reap sp : step sp EvReap sp
| finish_keyless sp b : keys b = [] -> step sp (EvComplete b (Ok tt)) sp
| complete_running sp b :
    keys b <> [] -> ob_intent_id b ∈ running sp -> live sp !! ob_intent_id b = Some b ->
    step sp (EvComplete b (Ok tt))
      (mk (delete (ob_intent_id b) (live sp)) (running sp ∖ {[ob_intent_id b]}) (poisoned sp))
| fail_keyless sp b : keys b = [] -> step sp (EvFail b (Ok [])) sp
| fail_running sp b voided P :
    keys b <> [] -> ob_intent_id b ∈ running sp -> live sp !! ob_intent_id b = Some b ->
    ascending (vids voided) ->
    (forall b', b' ∈ voided <-> live sp !! ob_intent_id b' = Some b'
                               /\ reachable (live sp) (ob_intent_id b) (ob_intent_id b')) ->
    (forall k, k ∈ P <-> k ∈ poisoned sp \/ k ∈ keys b \/ exists b', b' ∈ voided /\ k ∈ keys b') ->
    step sp (EvFail b (Ok voided))
      (mk (survivors (live sp) b voided) (running sp ∖ {[ob_intent_id b]}) P).

Inductive exec : list event -> t -> Prop :=
| exec_new : exec [] empty
| exec_step tr sp e sp' : exec tr sp -> step sp e sp' -> exec (tr ++ [e]) sp'.

End Spec.

(** The simulation relation. *)
Record refines (ex : Executor) (sp : Spec.t) : Prop := {
  rf_inv : inv (ex_sched ex) (Spec.live sp) (Spec.running sp);
  rf_poisoned : poisoned_keys (ex_sched ex) = Spec.poisoned sp;
  rf_handed : forall id b, ex_handed ex !! id = Some b ->
    ob_intent_id b = id
    /\ (keys b <> [] -> id ∈ Spec.running sp /\ Spec.live sp !! id = Some b);
  rf_running : forall id b, id ∈ Spec.running sp -> Spec.live sp !! id = Some b ->
    ex_handed ex !! id = Some b;
  rf_next : forall id, is_Some (Spec.live sp !! id) \/ is_Some (ex_handed ex !! id) ->
    (id < ex_next ex)%N;
  (** no lost wake-up *)
  rf_drain : ex_needs_drain ex = false -> ex_unreaped ex = 0 -> forall id, ~ Spec.ready sp id }.

(** ** Simulation *)

Lemma refines_new : refines executor_new Spec.empty.
Proof.
  split; simpl; [apply inv_new|done|set_solver|set_solver| |].
  - intros id [[]|[]]; by rewrite lookup_empty in *.
  - intros _ _ id (b & Hl & _). simpl in Hl. by rewrite lookup_empty in Hl.
Qed.

Lemma not_ready_insert sp id b rn P :
  (forall j, is_Some (Spec.live sp !! j) -> (j < id)%N) ->
  (rn = {[id]} ∪ Spec.running sp
   \/ rn = Spec.running sp /\ Spec.conflicting sp b) ->
  (forall j, ~ Spec.ready sp j) ->
  forall j, ~ Spec.ready (Spec.mk (<[id := b]> (Spec.live sp)) rn P) j.
Proof.
  intros Hfresh Hrn Hn j (bj & Hl & Hr & Hmin). simpl in *.
  rewrite lookup_insert in Hl. destruct (decide (id = j)) as [<-|Hne].
  - injection Hl as <-. destruct Hrn as [->|[-> (i & bi & k & Hi & Hk & Hki)]]; [set_solver|].
    pose proof (Hfresh i ltac:(eauto)). 
    specialize (Hmin i bi k). rewrite lookup_insert_ne in Hmin by lia.
    specialize (Hmin Hi Hk Hki). lia.
  - apply (Hn j). exists bj. split_and!; [done|destruct Hrn as [->|[-> _]]; set_solver|].
    intros i bi k Hi. apply Hmin. rewrite lookup_insert_ne; [done|].
    intros <-. pose proof (Hfresh id ltac:(eauto)). lia.
Qed.

Lemma conflicts_conflicting s sp b :
  inv s (Spec.live sp) (Spec.running sp) -> conflicts s b = true <-> Spec.conflicting sp b.
Proof.
  intros I. rewrite (conflicts_spec _ _ _ _ I). unfold Spec.conflicting.
  split; [intros (k & id & b' & ? & ? & ?) | intros (id & b' & k & ? & ? & ?)]; eauto 8.
Qed.

Lemma poisoned_by_spec s b :
  poisoned_by s b = true <-> exists k, k ∈ keys b /\ k ∈ poisoned_keys s.
Proof.
  unfold poisoned_by. rewrite existsb_exists. setoid_rewrite bool_decide_eq_true.
  setoid_rewrite <- list_elem_of_In. done.
Qed.

Section sim_schedule.
Context (ex : Executor) (sp : Spec.t) (b : OutboxIntentBundle).
Hypothesis R : refines ex sp.
Hypothesis Hnd : NoDup (keys b).
Hypothesis Hid : (ex_next ex <= ob_intent_id b)%N.
Local Abbreviation id := (ob_intent_id b).
Local Abbreviation after s' r :=
  (mkExecutor s' (hand (ex_handed ex) r) (N.succ id) (ex_needs_drain ex) (ex_unreaped ex)).

Lemma live_below j : is_Some (Spec.live sp !! j) -> (j < id)%N.
Proof. intros Hj. pose proof (rf_next _ _ R j (or_introl Hj)). lia. Qed.

Lemma handed_below j : is_Some (ex_handed ex !! j) -> (j < id)%N.
Proof. intros Hj. pose proof (rf_next _ _ R j (or_intror Hj)). lia. Qed.

Lemma next_below j :
  is_Some (Spec.live sp !! j) \/ is_Some (ex_handed ex !! j) -> (j < N.succ id)%N.
Proof. intros [?%live_below|?%handed_below]; lia. Qed.

Lemma handed_ne j b' : ex_handed ex !! j = Some b' -> id <> j.
Proof. intros Hj <-. pose proof (handed_below id ltac:(eauto)). lia. Qed.

Lemma sim_keyless :
  keys b = [] -> refines (after (ex_sched ex) (Some b)) sp.
Proof.
  intros Hk. split; simpl; try apply R.
  - intros j b'. rewrite lookup_insert. case_decide; [intros [= <-]; naive_solver|apply R].
  - intros j b' Hj Hl. rewrite lookup_insert_ne; [by apply (rf_running _ _ R)|].
    intros <-. pose proof (live_below id ltac:(eauto)). lia.
  - intros j [Hj|Hj]; [by apply next_below; left|]. rewrite lookup_insert in Hj.
    case_decide; [subst; lia|]. apply next_below. auto.
Qed.

Lemma sim_reject s' :
  inv s' (Spec.live sp) (Spec.running sp) ->
  poisoned_keys s' = poisoned_keys (ex_sched ex) ∪ list_to_set (keys b) ->
  refines (after s' None)
    (Spec.mk (Spec.live sp) (Spec.running sp) (Spec.poisoned sp ∪ list_to_set (keys b))).
Proof.
  intros I' Hp'. split; simpl; try apply R; [done| |apply next_below].
  by rewrite Hp', (rf_poisoned _ _ R).
Qed.

Lemma sim_wait s' :
  inv s' (<[id := b]> (Spec.live sp)) (Spec.running sp) ->
  poisoned_keys s' = poisoned_keys (ex_sched ex) -> Spec.conflicting sp b ->
  refines (after s' None)
    (Spec.mk (<[id := b]> (Spec.live sp)) (Spec.running sp) (Spec.poisoned sp)).
Proof.
  intros I' Hp' Hc. split; simpl; try apply R; [done| | | | |].
  - by rewrite Hp', (rf_poisoned _ _ R).
  - intros j b' Hj. rewrite lookup_insert_ne by (by eapply handed_ne). by apply (rf_handed _ _ R).
  - intros j b' Hj. rewrite lookup_insert_ne; [by apply (rf_running _ _ R)|].
    intros <-. pose proof (live_below id (inv_running _ _ _ (rf_inv _ _ R) _ Hj)). lia.
  - intros j. rewrite lookup_insert. case_decide; [subst; lia|]. apply next_below.
  - intros Hd Hu. apply not_ready_insert; [apply live_below|by auto|by apply (rf_drain _ _ R)].
Qed.

Lemma sim_run s' :
  inv s' (<[id := b]> (Spec.live sp)) ({[id]} ∪ Spec.running sp) ->
  poisoned_keys s' = poisoned_keys (ex_sched ex) ->
  refines (after s' (Some b))
    (Spec.mk (<[id := b]> (Spec.live sp)) ({[id]} ∪ Spec.running sp) (Spec.poisoned sp)).
Proof.
  intros I' Hp'. split; simpl; [done| | | | |].
  - by rewrite Hp', (rf_poisoned _ _ R).
  - intros j b'. rewrite !lookup_insert. case_decide; [intros [= <-]; set_solver|].
    intros Hj. destruct (rf_handed _ _ R _ _ Hj). set_solver.
  - intros j b' Hj. rewrite !lookup_insert. case_decide; [done|]. apply (rf_running _ _ R). set_solver.
  - intros j. rewrite !lookup_insert. case_decide; [subst; lia|]. apply next_below.
  - intros Hd Hu. apply not_ready_insert; [apply live_below|by auto|by apply (rf_drain _ _ R)].
Qed.

Lemma sim_schedule s' r :
  schedule (ex_sched ex) b = (s', r) ->
  exists sp', Spec.step sp (EvSchedule b r) sp' /\ refines (after s' r) sp'.
Proof.
  intros Hs. pose proof (rf_inv _ _ R) as I.
  pose proof (schedule_inv _ _ _ b I Hnd live_below _ _ Hs) as H.
  destruct (is_nil (keys b)) eqn:Hk.
  { destruct H as [-> ->]. apply is_nil_true in Hk. eauto using Spec.step, sim_keyless. }
  apply is_nil_false in Hk. destruct (poisoned_by (ex_sched ex) b) eqn:Hp.
  { destruct H as (I' & -> & Hp'). apply poisoned_by_spec in Hp as (k & Hkb & Hkp).
    rewrite (rf_poisoned _ _ R) in Hkp. eauto using Spec.step, sim_reject. }
  assert (Hnp : forall k, k ∈ keys b -> k ∉ Spec.poisoned sp).
  { intros k Hkb Hkp. rewrite <- (rf_poisoned _ _ R) in Hkp.
    assert (poisoned_by (ex_sched ex) b = true) by (apply poisoned_by_spec; eauto). congruence. }
  pose proof (conflicts_conflicting _ _ b I) as Hc.
  destruct (conflicts (ex_sched ex) b) eqn:Hcb; destruct H as (I' & -> & Hp').
  - assert (Spec.conflicting sp b) by (by apply Hc). eauto using Spec.step, sim_wait.
  - assert (~ Spec.conflicting sp b) by (intros ?%Hc; done). eauto using Spec.step, sim_run.
Qed.
End sim_schedule.

(** For a waiting intent, being at the front of all its queues is being ready. *)
Lemma ready_fronts s sp id b :
  inv s (Spec.live sp) (Spec.running sp) ->
  Spec.live sp !! id = Some b -> id ∉ Spec.running sp ->
  Spec.ready sp id <-> forall k, k ∈ keys b -> head (qof (blocked_keys s) k) = Some id.
Proof.
  intros I Hl Hr. split.
  - intros (b' & Hl' & _ & Hmin) k Hk. simplify_eq.
    rewrite (front_iff_least _ _ _ _ _ _ I Hl Hk). eauto.
  - intros Hall. exists b. split_and!; [done|done|]. intros id' b' k Hl' Hk Hk'.
    pose proof (Hall k Hk) as Hh. rewrite (front_iff_least _ _ _ _ _ _ I Hl Hk) in Hh. eauto.
Qed.

(** [pop_next_scheduled_intent] hands out a ready intent, and nothing only when
    none is ready. *)
Lemma pop_ready s sp order s' r :
  inv s (Spec.live sp) (Spec.running sp) -> (forall l, order l ≡ₚ l) ->
  pop_next_scheduled_intent order s = (s', r) ->
  match r with
  | Some b => Spec.live sp !! ob_intent_id b = Some b /\ Spec.ready sp (ob_intent_id b)
  | None => forall id, ~ Spec.ready sp id
  end.
Proof.
  intros I Ho Hp. pose proof (pop_inv _ _ _ I order Ho _ _ Hp) as H. destruct r as [b|].
  - destruct H as (Hl & Hr & I' & _). split; [done|].
    rewrite (ready_fronts s) by done. intros k Hk.
    apply pop_first_ready_Some in Hp as (? & ? & _ & _ & _ & Hs').
    rewrite <- (inv_front _ _ _ I' _ b k); [by rewrite Hs'|set_solver|done|done].
  - destruct H as [-> Hnf]. intros id (b & Hl & Hr & ?).
    destruct (Hnf id b Hl Hr) as (k & Hk & Hh). apply Hh.
    rewrite (front_iff_least _ _ _ _ _ _ I Hl Hk). eauto.
Qed.

Lemma sim_pop ex sp order s' r :
  refines ex sp -> (forall l, order l ≡ₚ l) ->
  pop_next_scheduled_intent order (ex_sched ex) = (s', r) ->
  exists sp', Spec.step sp (EvPop r) sp'
  /\ refines (mkExecutor s' (hand (ex_handed ex) r) (ex_next ex)
                (match r with Some _ => true | None => false end) (ex_unreaped ex)) sp'.
Proof.
  intros R Ho Hp. pose proof (rf_inv _ _ R) as I.
  pose proof (pop_inv _ _ _ I order Ho _ _ Hp) as H.
  pose proof (pop_ready _ _ order _ _ I Ho Hp) as Hrd. destruct r as [b|].
  - destruct H as (Hl & Hr & I' & Hpk). destruct Hrd as [_ Hrd].
    eexists. split; [by apply Spec.pop_some|]. split; simpl; try done.
    + by rewrite Hpk, (rf_poisoned _ _ R).
    + intros j b'. rewrite lookup_insert. case_decide; [intros [= <-]; set_solver|].
      intros Hj. destruct (rf_handed _ _ R _ _ Hj). set_solver.
    + intros j b' Hj Hlj. rewrite lookup_insert. case_decide; [congruence|].
      apply (rf_running _ _ R); [set_solver|done].
    + intros j. rewrite lookup_insert. case_decide; [subst|by apply R]. intros _. apply (rf_next _ _ R). eauto.
  - destruct H as [-> _]. exists sp. split; [by constructor|]. split; simpl; try apply R. done.
Qed.

Section sim_finish.
Context (ex : Executor) (sp : Spec.t) (b : OutboxIntentBundle).
Hypothesis R : refines ex sp.
Hypothesis Hh : ex_handed ex !! ob_intent_id b = Some b.
Local Abbreviation id := (ob_intent_id b).
Local Abbreviation after s' :=
  (mkExecutor s' (delete id (ex_handed ex)) (ex_next ex) (ex_needs_drain ex) (S (ex_unreaped ex))).

Lemma sim_finish s' live' P :
  inv s' live' (Spec.running sp ∖ {[id]}) -> poisoned_keys s' = P ->
  (forall j b', Spec.live sp !! j = Some b' -> j ∈ Spec.running sp ∖ {[id]} ->
     live' !! j = Some b') ->
  (forall j b', live' !! j = Some b' -> Spec.live sp !! j = Some b') ->
  refines (after s') (Spec.mk live' (Spec.running sp ∖ {[id]}) P).
Proof.
  intros I' Hp Hkeep Hsub. split; simpl; try done.
  - intros j b'. rewrite lookup_delete. case_decide; [done|]. intros Hj.
    destruct (rf_handed _ _ R _ _ Hj) as [? Hj']. split; [done|]. intros Hk.
    destruct (Hj' Hk). assert (j ∈ Spec.running sp ∖ {[id]}) by set_solver. auto.
  - intros j b' Hj Hl. rewrite lookup_delete_ne by set_solver.
    apply (rf_running _ _ R); [set_solver|auto].
  - intros j Hj. apply (rf_next _ _ R). rewrite lookup_delete in Hj.
    destruct Hj as [[b' ?]|Hj]; [eauto|]. case_decide; [by destruct Hj|auto].
Qed.

Lemma sim_finish_keyless : keys b = [] -> refines (after (ex_sched ex)) sp.
Proof.
  intros Hk. split; simpl; try apply R; try done.
  - intros j b'. rewrite lookup_delete. case_decide; [done|]. apply R.
  - intros j b' Hj Hl. pose proof (rf_running _ _ R _ _ Hj Hl).
    rewrite lookup_delete_ne; [done|]. intros <-. simplify_eq.
    by destruct (inv_live _ _ _ (rf_inv _ _ R) _ _ Hl) as (_ & _ & ?).
  - intros j Hj. apply (rf_next _ _ R). rewrite lookup_delete in Hj.
    destruct Hj as [?|Hj]; [auto|]. case_decide; [by destruct Hj|auto].
Qed.

Lemma sim_complete s' r :
  complete (ex_sched ex) b = (s', r) ->
  exists sp', Spec.step sp (EvComplete b r) sp' /\ refines (after s') sp'.
Proof.
  intros Hc. destruct (is_nil (keys b)) eqn:Hk.
  { unfold complete in Hc. rewrite Hk in Hc. injection Hc as <- <-. apply is_nil_true in Hk.
    eauto using Spec.step, sim_finish_keyless. }
  apply is_nil_false in Hk. destruct (rf_handed _ _ R _ _ Hh) as [_ H]. destruct (H Hk) as [Hr Hl].
  destruct (complete_inv _ _ _ (rf_inv _ _ R) b Hr Hl) as (s1 & Hc' & I' & Hp).
  rewrite Hc' in Hc. injection Hc as <- <-.
  eexists. split; [by apply Spec.complete_running|]. apply sim_finish; [done| | |].
  - by rewrite Hp, (rf_poisoned _ _ R).
  - intros j b' Hj Hr'. rewrite lookup_delete_ne; [done|set_solver].
  - intros j b'. rewrite lookup_delete. by case_decide.
Qed.

Lemma sim_failed s' r :
  failed (ex_sched ex) b = Some (s', r) ->
  exists sp', Spec.step sp (EvFail b r) sp' /\ refines (after s') sp'.
Proof.
  intros Hf. destruct (is_nil (keys b)) eqn:Hk.
  { unfold failed in Hf. rewrite Hk in Hf. injection Hf as <- <-. apply is_nil_true in Hk.
    eauto using Spec.step, sim_finish_keyless. }
  apply is_nil_false in Hk. destruct (rf_handed _ _ R _ _ Hh) as [_ H]. destruct (H Hk) as [Hr Hl].
  pose proof (rf_inv _ _ R) as I.
  destruct (failed_inv _ _ _ I b Hl Hr) as (s1 & voided & Hf' & I' & Hasc & Hv & Hp).
  rewrite Hf' in Hf. injection Hf as <- <-. rewrite (rf_poisoned _ _ R) in Hp.
  eexists. split; [by eapply Spec.fail_running|]. apply sim_finish; [done|done| |].
  - intros j b' Hj [Hjr Hne%not_elem_of_singleton]%elem_of_difference. rewrite survivors_lookup.
    split_and!; [done| |done]. intros (b2 & -> & Hb2)%list_elem_of_fmap.
    apply Hv in Hb2 as [_ Hre]. by apply (reachable_blocked _ _ _ I b) in Hre as [? _].
  - intros j b'. rewrite survivors_lookup. tauto.
Qed.
End sim_finish.

Lemma simulation ex e ex' sp :
  refines ex sp -> step ex e ex' -> exists sp', Spec.step sp e sp' /\ refines ex' sp'.
Proof.
  intros R Hs. destruct Hs.
  - by apply sim_schedule.
  - by eapply sim_pop.
  - exists sp. split; [constructor|]. split; try apply R. done.
  - by apply sim_complete.
  - by apply sim_failed.
Qed.

Lemma exec_refines_spec tr ex : exec tr ex -> exists sp, Spec.exec tr sp /\ refines ex sp.
Proof.
  induction 1 as [|tr ex e ex' _ (sp & Hsp & R) Hs].
  - eauto using Spec.exec, refines_new.
  - destruct (simulation _ _ _ _ R Hs) as (sp' & ? & ?). eauto using Spec.exec.
Qed.
