(* ===== verification/ExecutorSafety.v ===== *)
(** * Safety and progress of intent execution

    What the executor of [Executor.v] guarantees on every execution: exclusive
    access to accounts, per-account FIFO starts, exact voiding on failure,
    permanence of poisoned accounts, bounded admission, and no lost wake-ups. *)

From stdpp Require Import base gmap sets list strings relations sorting.
From Stdlib Require Import ZArith Lia.
From S2P Require Import Prelude Intent Outbox Scheduler SchedulerInv SchedulerFail Executor.
Import IntentScheduler.

Lemma exec_refines tr ex : exec tr ex -> exists sp, refines ex sp.
Proof. intros (sp & _ & R)%exec_refines_spec. eauto. Qed.

(** ** The live intents, concretely *)

Lemma ex_live_lookup ex sp id b :
  refines ex sp -> ex_live ex !! id = Some b <-> Spec.live sp !! id = Some b.
Proof.
  intros R. pose proof (rf_inv _ _ R) as I. unfold ex_live.
  rewrite lookup_union_Some_raw, map_lookup_filter_Some, map_lookup_filter_None, lookup_fmap.
  simpl. split.
  - intros [[Hh Hk]|[_ Hb]]; [by apply (rf_handed _ _ R _ _ Hh)|].
    apply fmap_Some in Hb as (m & Hm & ->).
    apply (inv_blocked _ _ _ I) in Hm as (b & Hl & _ & ->). done.
  - intros Hl. destruct (inv_live _ _ _ I _ _ Hl) as (_ & _ & Hk).
    destruct (decide (id ∈ Spec.running sp)) as [Hr|Hr].
    + left. split; [by apply (rf_running _ _ R)|done].
    + right. split.
      * right. intros b' Hh Hk'. by destruct (rf_handed _ _ R _ _ Hh) as [_ []].
      * apply fmap_Some. exists (mkIntentMeta (length (keys b)) b). split; [|done].
        apply (inv_blocked _ _ _ I). eauto.
Qed.

Lemma ex_live_eq ex sp : refines ex sp -> ex_live ex = Spec.live sp.
Proof.
  intros R. apply map_eq. intros id. apply option_eq. intros b. by apply ex_live_lookup.
Qed.

Lemma steps_refines ex tr ex' sp :
  refines ex sp -> steps ex tr ex' -> exists sp', refines ex' sp'.
Proof.
  intros R. induction 1 as [|tr ex1 e ex2 _ [sp1 R1] Hs]; [eauto|].
  destruct (simulation _ _ _ _ R1 Hs) as (sp2 & _ & ?). eauto.
Qed.

(** ** Waiting intents *)

(** A waiting intent that is not ready has a smaller live intent in front of it
    on one of its accounts. *)
Lemma not_ready_blocker s sp id b :
  inv s (Spec.live sp) (Spec.running sp) -> ~ Spec.ready sp id ->
  Spec.live sp !! id = Some b -> id ∉ Spec.running sp ->
  exists h, is_Some (Spec.live sp !! h) /\ dep (Spec.live sp) h id.
Proof.
  intros I Hn Hl Hr. rewrite (ready_fronts s sp id b I Hl Hr) in Hn.
  destruct (decide (Forall (fun k => head (qof (blocked_keys s) k) = Some id) (keys b))) as [Hall|Hex].
  { rewrite Forall_forall in Hall. done. }
  apply not_Forall_Exists, Exists_exists in Hex as (k & Hk & Hh); [|apply _].
  assert (id ∈ qof (blocked_keys s) k) as Hin by (apply (inv_member _ _ _ I); eauto).
  destruct (head (qof (blocked_keys s) k)) as [h|] eqn:E; last first.
  { destruct (qof (blocked_keys s) k); [by apply elem_of_nil in Hin|done]. }
  pose proof (head_elem_of _ _ E) as (bh & Hlh & Hkh)%(inv_member _ _ _ I).
  destruct (head_least _ _ _ (inv_ascending _ _ _ I k) E Hin) as [->|Hlt]; [congruence|].
  exists h. split; [eauto|]. exists bh, b, k. done.
Qed.

(** With no ready intent, every waiting one hangs on a running one. *)
Lemma waiting_chain s sp id :
  inv s (Spec.live sp) (Spec.running sp) -> (forall j, ~ Spec.ready sp j) ->
  is_Some (Spec.live sp !! id) -> id ∉ Spec.running sp ->
  exists j, j ∈ Spec.running sp /\ reachable (Spec.live sp) j id.
Proof.
  intros I Hn. induction id as [id IH] using (well_founded_induction N.lt_wf_0). intros [b Hl] Hr.
  destruct (not_ready_blocker s sp id b I (Hn id) Hl Hr) as (h & Hs & Hd).
  assert (h < id)%N as Hlt by (by destruct Hd as (? & ? & ? & ? & ? & ? & ? & ?)).
  destruct (decide (h ∈ Spec.running sp)) as [Hhr|Hhr].
  - exists h. split; [done|]. by apply tc_once.
  - destruct (IH h Hlt Hs Hhr) as (j & ? & ?). exists j. split; [done|]. by eapply tc_r.
Qed.

(** ** Start order *)

Lemma starts_snoc k tr e :
  starts k (tr ++ [e]) =
  starts k tr ++ match start_of e with
                 | Some b => if decide (k ∈ keys b) then [ob_intent_id b] else []
                 | None => []
                 end.
Proof.
  unfold starts. rewrite omap_app. cbn [omap list_omap].
  destruct (start_of e) as [b|]; [|by rewrite app_nil_r, app_nil_r].
  rewrite filter_app, fmap_app. f_equal. rewrite filter_cons. by case_decide.
Qed.

Record order_inv (k : Pubkey) (tr : list event) (ex : Executor) (sp : Spec.t) : Prop := {
  oi_ascending : ascending (starts k tr);
  oi_waiting : forall x y b, x ∈ starts k tr -> Spec.live sp !! y = Some b -> k ∈ keys b ->
    y ∉ Spec.running sp -> (x < y)%N;
  oi_next : forall x, x ∈ starts k tr -> (x < ex_next ex)%N }.

Lemma order_inv_silent k tr e ex ex' sp sp' :
  order_inv k tr ex sp -> start_of e = None -> (ex_next ex <= ex_next ex')%N ->
  (forall y b, Spec.live sp' !! y = Some b -> y ∉ Spec.running sp' ->
     (Spec.live sp !! y = Some b /\ (y ∉ Spec.running sp)) \/ (ex_next ex <= y)%N) ->
  order_inv k (tr ++ [e]) ex' sp'.
Proof.
  intros O He Hn Hold.
  assert (starts k (tr ++ [e]) = starts k tr) as Hs by (by rewrite starts_snoc, He, app_nil_r).
  split; rewrite Hs.
  - apply O.
  - intros x y b Hx Hy Hk Hr. destruct (Hold y b Hy Hr) as [[? ?]|?].
    + by eapply (oi_waiting _ _ _ _ O).
    + pose proof (oi_next _ _ _ _ O x Hx). lia.
  - intros x Hx. pose proof (oi_next _ _ _ _ O x Hx). lia.
Qed.

(** Starting [b]: it comes after the earlier starts and before what waits. *)
Lemma order_inv_start k tr e b ex ex' sp sp' :
  order_inv k tr ex sp -> start_of e = Some b -> (ex_next ex <= ex_next ex')%N ->
  (k ∈ keys b -> (ob_intent_id b < ex_next ex')%N) ->
  (k ∈ keys b -> forall x, x ∈ starts k tr -> (x < ob_intent_id b)%N) ->
  (forall y b', Spec.live sp' !! y = Some b' -> k ∈ keys b' -> y ∉ Spec.running sp' ->
     Spec.live sp !! y = Some b' /\ (y ∉ Spec.running sp)
     /\ (k ∈ keys b -> (ob_intent_id b < y)%N)) ->
  order_inv k (tr ++ [e]) ex' sp'.
Proof.
  intros O He Hn Hb Hlt Hold.
  pose proof (starts_snoc k tr e) as Hs. rewrite He in Hs. split; rewrite Hs.
  - case_decide as Hk; [|rewrite app_nil_r; apply O].
    apply StronglySorted_app_2; [|apply O|repeat constructor].
    intros x y Hx ->%list_elem_of_singleton. auto.
  - intros x y b' Hx Hy Hk' Hr. destruct (Hold y b' Hy Hk' Hr) as (Hy' & Hr' & Hby).
    apply elem_of_app in Hx as [Hx|Hx]; [by eapply (oi_waiting _ _ _ _ O)|].
    case_decide; [apply list_elem_of_singleton in Hx as ->; auto|by apply elem_of_nil in Hx].
  - intros x [Hx|Hx]%elem_of_app; [pose proof (oi_next _ _ _ _ O x Hx); lia|].
    case_decide; [apply list_elem_of_singleton in Hx as ->; auto|by apply elem_of_nil in Hx].
Qed.

Lemma order_inv_schedule k tr ex sp b r sp' ex' :
  order_inv k tr ex sp -> Spec.step sp (EvSchedule b r) sp' ->
  (ex_next ex <= ob_intent_id b)%N -> ex_next ex' = N.succ (ob_intent_id b) ->
  order_inv k (tr ++ [EvSchedule b r]) ex' sp'.
Proof.
  intros O Hsp Hid Hn.
  assert (Hlt : forall x, x ∈ starts k tr -> (x < ob_intent_id b)%N).
  { intros x Hx%(oi_next _ _ _ _ O). lia. }
  inversion Hsp as [? ? Hk|? ? ? ?|? ? ? ?|? ? ? ? Hnc| | | | | | |]; subst.
  - eapply order_inv_start; [exact O|done|lia|lia|auto|]. rewrite Hk. set_solver.
  - eapply order_inv_silent; [exact O|done|lia|auto].
  - eapply order_inv_silent; [exact O|done|lia|]. simpl. intros y b'. rewrite lookup_insert.
    case_decide; [subst; auto|auto].
  - eapply order_inv_start; [exact O|done|lia|lia|auto|]. simpl.
    intros y b' Hy Hk' Hr. rewrite lookup_insert_ne in Hy by set_solver.
    split_and!; [done|set_solver|]. intros Hk. destruct Hnc. exists y, b', k. done.
Qed.

Lemma order_inv_pop k tr ex sp r sp' ex' :
  refines ex sp -> order_inv k tr ex sp -> Spec.step sp (EvPop r) sp' -> ex_next ex' = ex_next ex ->
  order_inv k (tr ++ [EvPop r]) ex' sp'.
Proof.
  intros R O Hsp Hn. inversion Hsp as [| | | |? b Hl (b' & Hl' & Hr & Hmin)| | | | | |]; subst; last first.
  { eapply order_inv_silent; [exact O|done|lia|auto]. }
  assert (b' = b) as -> by congruence.
  eapply order_inv_start; [exact O|done|lia| | |]; simpl.
  - intros _. rewrite Hn. apply (rf_next _ _ R). eauto.
  - intros Hk x Hx. by eapply (oi_waiting _ _ _ _ O).
  - intros y by' Hy Hky Hyr. split_and!; [done|set_solver|]. intros Hk.
    pose proof (Hmin y by' k Hy Hk Hky). assert (y <> ob_intent_id b) by set_solver. lia.
Qed.

Lemma order_inv_step k tr ex e ex' sp sp' :
  refines ex sp -> order_inv k tr ex sp -> step ex e ex' -> Spec.step sp e sp' ->
  order_inv k (tr ++ [e]) ex' sp'.
Proof.
  intros R O Hs Hsp. inversion Hs; subst.
  - by eapply order_inv_schedule.
  - by eapply order_inv_pop.
  - inversion Hsp; subst. eapply order_inv_silent; [exact O|done|simpl; lia|auto].
  - inversion Hsp; subst; (eapply order_inv_silent; [exact O|done|simpl; lia|]); simpl; [auto|].
    intros y b'. rewrite lookup_delete. case_decide; [done|]. set_solver.
  - inversion Hsp; subst; (eapply order_inv_silent; [exact O|done|simpl; lia|]); simpl; [auto|].
    intros y b'. rewrite survivors_lookup. set_solver.
Qed.

Lemma exec_order k tr ex :
  exec tr ex -> exists sp, refines ex sp /\ order_inv k tr ex sp.
Proof.
  induction 1 as [|tr ex e ex' _ (sp & R & O) Hs].
  - exists Spec.empty. split; [apply refines_new|]. split; [constructor| |]; set_solver.
  - destruct (simulation _ _ _ _ R Hs) as (sp' & Hsp & R'). exists sp'. split; [done|].
    eauto using order_inv_step.
Qed.

(** ** Bounded admission *)

Lemma capacity_lt : (SCHEDULER_CAPACITY < SCHEDULER_HARD_CAPACITY)%nat.
Proof. apply Nat.ltb_lt. by vm_compute. Qed.

Lemma can_receive_hard blocked permits :
  can_receive blocked permits = true -> (blocked < SCHEDULER_HARD_CAPACITY)%nat.
Proof.
  pose proof capacity_lt. unfold can_receive.
  rewrite orb_true_iff, andb_true_iff, !Nat.ltb_lt. lia.
Qed.

Lemma intents_blocked_shrinks s s' live running live' running' :
  inv s live running -> inv s' live' running' ->
  (forall id b, live' !! id = Some b -> id ∉ running' -> live !! id = Some b /\ (id ∉ running)) ->
  (intents_blocked s' <= intents_blocked s)%nat.
Proof.
  intros I I' Hsub. unfold intents_blocked. apply map_subseteq_size.
  apply map_subseteq_spec. intros id m (b & Hl & Hr & ->)%(inv_blocked _ _ _ I').
  apply (inv_blocked _ _ _ I). destruct (Hsub id b Hl Hr). eauto.
Qed.

Lemma schedule_blocked s b s' r :
  schedule s b = (s', r) -> (intents_blocked s' <= S (intents_blocked s))%nat.
Proof.
  unfold schedule, intents_blocked. intros H. repeat case_match; simplify_eq; simpl; try lia.
  rewrite map_size_insert. case_match; simpl; lia.
Qed.

Lemma step_blocked ex e ex' sp :
  refines ex sp -> step ex e ex' ->
  (intents_blocked (ex_sched ex) <= SCHEDULER_HARD_CAPACITY)%nat ->
  (intents_blocked (ex_sched ex') <= SCHEDULER_HARD_CAPACITY)%nat.
Proof.
  intros R Hs Hle. destruct (simulation _ _ _ _ R Hs) as (sp' & Hsp & R').
  pose proof (rf_inv _ _ R) as I. pose proof (rf_inv _ _ R') as I'.
  assert (Hshrink : (forall id b, Spec.live sp' !! id = Some b -> id ∉ Spec.running sp' ->
    Spec.live sp !! id = Some b /\ (id ∉ Spec.running sp)) ->
    (intents_blocked (ex_sched ex') <= SCHEDULER_HARD_CAPACITY)%nat).
  { intros Hsub. pose proof (intents_blocked_shrinks _ _ _ _ _ _ I I' Hsub). lia. }
  destruct Hs as [? ? ? ? ? Hcr%can_receive_hard ? ? Hs| | | |].
  { apply schedule_blocked in Hs. simpl. lia. }
  all: apply Hshrink; inversion Hsp; subst; simpl; try tauto.
  - set_solver.
  - intros id b'. rewrite lookup_delete. case_decide; [done|]. set_solver.
  - intros id b'. rewrite survivors_lookup. set_solver.
Qed.

(** ** A concrete execution

    Intent 1 commits accounts 1 and 2 and runs, intent 2 commits 2 and 3 and
    waits behind it, intent 3 commits account 3 and waits behind intent 2. *)

Module Example.

Definition account (k : N) : CommittedAccount :=
  mkCommittedAccount k (mkAccount 0 [] 0 false 0) 0 0.

Definition bundle (id : N) (ks : list N) : OutboxIntentBundle :=
  accepted (mkScheduledIntentBundle id 0 0 0
    (bundle_from_base_intent (Commit (CommitStandalone (account <$> ks))))) 0.

Definition b1 := bundle 1 [1; 2]%N.
Definition b2 := bundle 2 [2; 3]%N.
Definition b3 := bundle 3 [3]%N.

(** The state after admitting, and after failing, a bundle. *)
Definition admit_intent (ex : Executor) (b : OutboxIntentBundle) : Executor :=
  let '(s', r) := schedule (ex_sched ex) b in
  mkExecutor s' (hand (ex_handed ex) r) (N.succ (ob_intent_id b))
    (ex_needs_drain ex) (ex_unreaped ex).

Definition fail_intent (ex : Executor) (b : OutboxIntentBundle) : Executor :=
  match failed (ex_sched ex) b with
  | Some (s', _) =>
      mkExecutor s' (delete (ob_intent_id b) (ex_handed ex)) (ex_next ex)
        (ex_needs_drain ex) (S (ex_unreaped ex))
  | None => ex
  end.

Definition ex1 := admit_intent executor_new b1.
Definition ex2 := admit_intent ex1 b2.
Definition ex3 := admit_intent ex2 b3.
Definition ex4 := fail_intent ex3 b1.

(** Instead, intent 1 completes: intent 2 can run next. *)
Definition ex5 : Executor :=
  mkExecutor (fst (complete (ex_sched ex3) b1)) (delete 1%N (ex_handed ex3)) 4 false 1.

Definition trace : list event :=
  [EvSchedule b1 (Some b1); EvSchedule b2 None; EvSchedule b3 None].

End Example.
Import Example.

Lemma example_step ex b r :
  keys b = remove_dups (keys b) -> (ex_next ex <=? ob_intent_id b)%N = true ->
  (intents_blocked (ex_sched ex) <? 3)%nat = true ->
  snd (schedule (ex_sched ex) b) = r ->
  step ex (EvSchedule b r) (admit_intent ex b).
Proof.
  intros Hnd Hid Hb Hr. unfold admit_intent. destruct (schedule (ex_sched ex) b) as [s' r'] eqn:Hs.
  simpl in Hr. subst r'. apply (step_schedule ex b 0); [| |by apply N.leb_le|done].
  - unfold can_receive. rewrite (proj2 (Nat.ltb_lt _ _)); [done|].
    apply Nat.ltb_lt in Hb. eapply Nat.lt_trans; [exact Hb|]. apply Nat.ltb_lt. by vm_compute.
  - rewrite Hnd. apply NoDup_remove_dups.
Qed.

Lemma example_exec : exec trace ex3.
Proof.
  apply (steps_snoc _ [_; _] ex2); [apply (steps_snoc _ [_] ex1); [apply (steps_snoc _ [] executor_new)|]|];
    [constructor|by apply example_step..].
Qed.

(** ** Theorems *)

(** C3: the executor refines its specification: every execution of the loop,
    with its queues, hash maps and arbitrary iteration orders, is a trace of
    the abstract machine that keeps only the live intents, the running set and
    the poisoned accounts, and the final states correspond. *)
Theorem executor_refines_spec tr ex :
  exec tr ex ->
  exists sp, Spec.exec tr sp /\ ex_live ex = Spec.live sp
  /\ poisoned_keys (ex_sched ex) = Spec.poisoned sp
  /\ (forall id, id ∈ Spec.running sp <->
        exists b, ex_handed ex !! id = Some b /\ keys b <> []).
Proof.
  intros (sp & Hsp & R)%exec_refines_spec. exists sp.
  split_and!; [done|by apply ex_live_eq|apply R|]. intros id. split.
  - intros Hr. destruct (inv_running _ _ _ (rf_inv _ _ R) _ Hr) as [b Hl].
    exists b. split; [by apply (rf_running _ _ R)|]. by apply (inv_live _ _ _ (rf_inv _ _ R) _ _ Hl).
  - intros (b & Hh & Hk). by apply (rf_handed _ _ R _ _ Hh).
Qed.

Lemma executor_refines_spec_witness :
  exists sp, Spec.exec trace sp /\ ex_live ex3 = Spec.live sp.
Proof.
  destruct (executor_refines_spec trace ex3 example_exec) as (sp & ? & ? & _). eauto.
Defined.

(** C24: no two intents that commit the same account execute at the same time. *)
Theorem handed_exclusive tr ex i j bi bj k :
  exec tr ex -> ex_handed ex !! i = Some bi -> ex_handed ex !! j = Some bj ->
  k ∈ keys bi -> k ∈ keys bj -> i = j.
Proof.
  intros [sp R]%exec_refines Hi Hj Hki Hkj.
  destruct (rf_handed _ _ R _ _ Hi) as [_ [Hri Hli]]; [by eapply elem_of_not_nil|].
  destruct (rf_handed _ _ R _ _ Hj) as [_ [Hrj Hlj]]; [by eapply elem_of_not_nil|].
  by eapply running_exclusive; [apply R|..].
Qed.

Lemma handed_exclusive_witness : (1 = 1)%N.
Proof.
  apply (handed_exclusive trace ex3 1 1 b1 b1 2 example_exec);
    (reflexivity || by apply (bool_decide_unpack _); vm_compute).
Defined.

(** C25: on every account, intents start in the order of their ids, which is the
    order in which they were scheduled: an intent never overtakes an earlier one
    that commits the same account, whatever the hash-map iteration orders. *)
Theorem starts_in_id_order tr ex k : exec tr ex -> ascending (starts k tr).
Proof. intros (sp & _ & O)%(exec_order k). apply O. Qed.

Lemma starts_in_id_order_witness : ascending (starts 2 trace) /\ starts 2 trace = [1%N].
Proof. split; [apply (starts_in_id_order trace ex3 2 example_exec) | reflexivity]. Defined.

(** C28: an executor task can always report: [complete] succeeds on every intent
    that was handed out, and [failed] terminates and succeeds on it, so the
    "scheduler state is inconsistent" branches of [execute] are never taken. *)
Theorem handed_intents_report tr ex id b :
  exec tr ex -> ex_handed ex !! id = Some b ->
  (exists s', complete (ex_sched ex) b = (s', Ok tt))
  /\ (exists s' voided, failed (ex_sched ex) b = Some (s', Ok voided)).
Proof.
  intros [sp R]%exec_refines Hh. destruct (rf_handed _ _ R _ _ Hh) as [<- Hk].
  destruct (is_nil (keys b)) eqn:E.
  { unfold complete, failed. rewrite E. eauto. }
  apply is_nil_false in E. destruct (Hk E) as [Hr Hl]. split.
  - destruct (complete_inv _ _ _ (rf_inv _ _ R) b Hr Hl) as (s' & ? & _). eauto.
  - destruct (failed_inv _ _ _ (rf_inv _ _ R) b Hl Hr) as (s' & v & ? & _). eauto.
Qed.

Lemma handed_intents_report_witness : exists s', complete (ex_sched ex3) b1 = (s', Ok tt).
Proof. apply (handed_intents_report trace ex3 1 b1 example_exec eq_refl). Defined.

(** C26: a failure voids exactly the waiting intents reachable from the failed one
    through chains of shared accounts, in id order, poisons exactly their
    accounts and its own, and leaves every other intent as it was. *)
Theorem failure_voids_reachable tr ex b r ex' :
  exec tr ex -> step ex (EvFail b r) ex' -> keys b <> [] ->
  exists voided, r = Ok voided
  /\ ascending (vids voided)
  /\ (forall b', b' ∈ voided <->
        ex_live ex !! ob_intent_id b' = Some b'
        /\ reachable (ex_live ex) (ob_intent_id b) (ob_intent_id b'))
  /\ (forall k, k ∈ poisoned_keys (ex_sched ex') <->
        k ∈ poisoned_keys (ex_sched ex) \/ k ∈ keys b \/ exists b', b' ∈ voided /\ k ∈ keys b')
  /\ ex_live ex' = survivors (ex_live ex) b voided.
Proof.
  intros [sp R]%exec_refines Hs Hk. destruct (simulation _ _ _ _ R Hs) as (sp' & Hsp & R').
  rewrite (ex_live_eq _ _ R), (ex_live_eq _ _ R'), (rf_poisoned _ _ R), (rf_poisoned _ _ R').
  inversion Hsp; subst; [done|]. eauto 8.
Qed.

Lemma failure_voids_reachable_witness :
  ex_live ex4 = survivors (ex_live ex3) b1 [b2; b3].
Proof.
  destruct (failure_voids_reachable trace ex3 b1 (Ok [b2; b3]) ex4) as (v & [= <-] & _ & _ & _ & H);
    [exact example_exec| |done|exact H].
  apply (step_fail ex3 b1 (ex_sched ex4)); by vm_compute.
Defined.

(** a poisoned account stays poisoned, and no intent admitted afterwards is
    ever queued or run on it: a live intent on a poisoned account was already
    live when the account was poisoned. *)
Theorem poisoned_account_closed tr ex tr' ex' k :
  exec tr ex -> steps ex tr' ex' -> k ∈ poisoned_keys (ex_sched ex) ->
  k ∈ poisoned_keys (ex_sched ex')
  /\ forall id b, ex_live ex' !! id = Some b -> k ∈ keys b -> ex_live ex !! id = Some b.
Proof.
  intros [sp R]%exec_refines Hs Hk.
  assert (exists sp', refines ex' sp' /\ k ∈ Spec.poisoned sp'
    /\ forall id b, Spec.live sp' !! id = Some b -> k ∈ keys b -> Spec.live sp !! id = Some b)
    as (sp' & R' & Hk' & Hl); last first.
  { rewrite (rf_poisoned _ _ R'), (ex_live_eq _ _ R), (ex_live_eq _ _ R'). done. }
  rewrite (rf_poisoned _ _ R) in Hk.
  induction Hs as [|tr1 ex1 e ex2 _ (sp1 & R1 & Hk1 & Hl1) Hs]; [eauto|].
  destruct (simulation _ _ _ _ R1 Hs) as (sp2 & Hsp & R2). exists sp2. split; [done|].
  inversion Hsp; subst; simpl in *; try done.
  - set_solver.
  - split; [done|]. intros id b'. rewrite lookup_insert. case_decide; [naive_solver|eauto].
  - split; [done|]. intros id b'. rewrite lookup_insert. case_decide; [naive_solver|eauto].
  - split; [done|]. intros id b'. rewrite lookup_delete. case_decide; [done|eauto].
  - split; [match goal with H : forall k, k ∈ P <-> _ |- _ => apply H end; auto|].
    intros id b'. rewrite survivors_lookup. intros [? _]. auto.
Qed.

Lemma example_fail : step ex3 (EvFail b1 (Ok [b2; b3])) ex4.
Proof. apply (step_fail ex3 b1 (ex_sched ex4)); by vm_compute. Qed.

Lemma poisoned_account_closed_witness :
  2%N ∈ poisoned_keys (ex_sched (admit_intent ex4 (bundle 4 [2; 5]%N))).
Proof.
  apply (poisoned_account_closed (trace ++ [EvFail b1 (Ok [b2; b3])]) ex4
           [EvSchedule (bundle 4 [2; 5]%N) None]).
  - exact (steps_snoc _ _ _ _ _ example_exec example_fail).
  - apply (steps_snoc _ [] ex4); [constructor|]. by apply example_step.
  - by apply (bool_decide_unpack _); vm_compute.
Defined.

(** The waiting set never exceeds the hard admission limit. *)
Theorem blocked_bounded tr ex :
  exec tr ex -> intents_blocked (ex_sched ex) <= SCHEDULER_HARD_CAPACITY.
Proof.
  intros Hex. induction Hex as [|tr ex e ex' Hex IH Hs]; [by apply Nat.le_0_l|].
  destruct (exec_refines _ _ Hex) as [sp R]. by eapply step_blocked.
Qed.

Lemma blocked_bounded_witness : intents_blocked (ex_sched ex3) <= SCHEDULER_HARD_CAPACITY.
Proof. apply (blocked_bounded trace ex3 example_exec). Defined.

(** C27: no wake-up is lost: when the loop neither owes a drain nor has a finished
    task to join, every waiting intent is behind an executing one through a
    chain of shared accounts, so some future completion reaches it. *)
Theorem no_lost_wakeup tr ex id m :
  exec tr ex -> ex_needs_drain ex = false -> ex_unreaped ex = 0 ->
  blocked_intents (ex_sched ex) !! id = Some m ->
  exists j b, ex_handed ex !! j = Some b /\ reachable (ex_live ex) j id.
Proof.
  intros [sp R]%exec_refines Hd Hu Hm. pose proof (rf_inv _ _ R) as I.
  apply (inv_blocked _ _ _ I) in Hm as (b & Hl & Hr & _).
  destruct (waiting_chain _ _ id I (rf_drain _ _ R Hd Hu) ltac:(eauto) Hr) as (j & Hj & Hreach).
  destruct (inv_running _ _ _ I _ Hj) as [bj Hlj].
  rewrite (ex_live_eq _ _ R). eauto using rf_running.
Qed.

Lemma no_lost_wakeup_witness :
  exists j b, ex_handed ex3 !! j = Some b /\ reachable (ex_live ex3) j 3.
Proof.
  apply (no_lost_wakeup trace ex3 3 (mkIntentMeta 1 b3) example_exec); reflexivity.
Defined.

(** the scheduler is never stuck: if intents wait and none with accounts is
    executing, the next drain hands one of them out, in any iteration order. *)
Theorem drain_progress tr ex id m order s' r :
  exec tr ex -> blocked_intents (ex_sched ex) !! id = Some m ->
  (forall j b, ex_handed ex !! j = Some b -> keys b = []) ->
  (forall l, order l ≡ₚ l) ->
  pop_next_scheduled_intent order (ex_sched ex) = (s', r) ->
  exists b, r = Some b /\ ex_live ex !! ob_intent_id b = Some b.
Proof.
  intros [sp R]%exec_refines Hm Hno Ho Hp. pose proof (rf_inv _ _ R) as I.
  pose proof (pop_ready _ _ order _ _ I Ho Hp) as Hr. destruct r as [b|].
  { exists b. rewrite (ex_live_eq _ _ R). split; [done|]. apply Hr. }
  apply (inv_blocked _ _ _ I) in Hm as (b & Hl & Hnr & _).
  destruct (waiting_chain _ _ id I Hr ltac:(eauto) Hnr) as (j & Hj & _).
  destruct (inv_running _ _ _ I _ Hj) as [bj Hlj]. exfalso.
  apply (inv_live _ _ _ I _ _ Hlj). apply (Hno j). by apply (rf_running _ _ R).
Qed.

Lemma drain_progress_witness :
  snd (pop_next_scheduled_intent (fun l => l) (ex_sched ex5)) = Some b2
  /\ exists b, Some b2 = Some b /\ ex_live ex5 !! ob_intent_id b = Some b.
Proof.
  split; [by vm_compute|].
  apply (drain_progress (trace ++ [EvComplete b1 (Ok tt)]) ex5 2 (mkIntentMeta 2 b2) (fun l => l)
           (fst (pop_next_scheduled_intent (fun l => l) (ex_sched ex5)))).
  - apply (steps_snoc _ _ _ _ _ example_exec).
    apply (step_complete ex3 b1 (ex_sched ex5)); by vm_compute.
  - by vm_compute.
  - intros j b. change (ex_handed ex5) with (∅ : gmap N OutboxIntentBundle).
    by rewrite lookup_empty.
  - done.
  - by vm_compute.
Defined.

(** completions and failures the scheduler did not hand out are refused
    without changing it: a waiting intent with [CompletingBlockedIntent], an
    unknown one with [NonScheduledMessage]. *)
Theorem foreign_reports_refused tr ex b :
  exec tr ex -> NoDup (keys b) -> keys b <> [] -> ex_handed ex !! ob_intent_id b = None ->
  let e := if decide (is_Some (blocked_intents (ex_sched ex) !! ob_intent_id b))
           then CompletingBlockedIntent else NonScheduledMessage in
  complete (ex_sched ex) b = (ex_sched ex, Err e)
  /\ failed (ex_sched ex) b = Some (ex_sched ex, Err e).
Proof.
  intros [sp R]%exec_refines Hnd Hk Hh. pose proof (rf_inv _ _ R) as I. simpl.
  pose proof (validate_executing_spec _ _ _ I b Hnd Hk) as Hv.
  assert (ob_intent_id b ∉ Spec.running sp) as Hr.
  { intros Hr. destruct (inv_running _ _ _ I _ Hr) as [b' Hl].
    rewrite (rf_running _ _ R _ _ Hr Hl) in Hh. done. }
  unfold complete, failed. rewrite (proj2 (is_nil_false _) Hk).
  destruct (Spec.live sp !! ob_intent_id b) as [b'|] eqn:Hl.
  - rewrite decide_False in Hv by done. rewrite Hv, decide_True; [done|].
    eexists. apply (inv_blocked _ _ _ I). eauto.
  - rewrite Hv, decide_False; [done|]. intros [m (b' & ? & _)%(inv_blocked _ _ _ I)]. congruence.
Qed.

Lemma foreign_reports_refused_witness :
  complete (ex_sched ex3) b2 = (ex_sched ex3, Err CompletingBlockedIntent).
Proof.
  apply (foreign_reports_refused trace ex3 b2 example_exec); [|done|done].
  by apply (bool_decide_unpack _); vm_compute.
Defined.
