(* ===== verification/Chunks.v ===== *)
(** * Chunk tracking for large commits

    [programs/committor-interface/src/state/chunks.rs] and
    [changeset_chunks.rs]: the bitfield of delivered chunks and the iterators
    that cut account data into chunks; [instruction_chunks.rs]: grouping realloc
    instructions into transactions. *)

From stdpp Require Import base gmap sets list.
From Stdlib Require Import ZArith Lia.
From S2P Require Import Prelude.

Definition BITS_PER_BYTE : nat := 8.
Definition MAX_ACCOUNT_ALLOC_PER_INSTRUCTION_SIZE : nat := Z.to_nat 10240.
Definition MAX_INSTRUCTION_LENGTH : nat := 11.
Definition MAX_INSTRUCTION_DATA_SIZE : Z := 1028.

(** [usize::div_ceil]; division by zero panics. *)
Definition usize_div_ceil (a b : nat) : result nat (failure unit) :=
  if decide (b = 0) then Err Panic
  else Ok (if decide (a mod b = 0) then a / b else S (a / b)).

Inductive ChunksError :=
| OutOfBoundsError
| InvalidOffsetError (offset chunk_size : nat).

(** Bytes are [Z] in [0, 256); counts and offsets in memory are [nat]. *)
Record Chunks := mkChunks {
  bits : list Z;
  count : nat;
  chunk_size : nat }.

Module Chunks.

Definition count_to_bitfield_bytes (count : nat) : nat :=
  if decide (count mod BITS_PER_BYTE = 0) then count / BITS_PER_BYTE
  else S (count / BITS_PER_BYTE).

Definition struct_size (count : nat) : nat := 4 + count_to_bitfield_bytes count + 8 + 2.

Definition serialized_size (c : Chunks) : nat := struct_size (count c).

Definition new {E} (chunk_count chunk_size : nat) : result Chunks (failure E) :=
  assert_that (struct_size chunk_count <? MAX_ACCOUNT_ALLOC_PER_INSTRUCTION_SIZE) ?;
  Ok (mkChunks (replicate (count_to_bitfield_bytes chunk_count) 0%Z) chunk_count chunk_size).

Definition from_data_length (data_len chunk_size : nat) : result Chunks (failure unit) :=
  let? chunk_count := usize_div_ceil data_len chunk_size in
  new chunk_count chunk_size.

(** Indexing the byte vector panics out of range. *)
Definition is_chunk_delivered {E} (c : Chunks) (idx : nat) : result (option bool) (failure E) :=
  if decide (count c <= idx) then Ok None
  else
    let vec_idx := idx / BITS_PER_BYTE in
    let bit_idx := idx mod BITS_PER_BYTE in
    match bits c !! vec_idx with
    | None => Err Panic
    | Some byte =>
        Ok (Some (negb (Z.land byte (Z.shiftl 1 (Z.of_nat bit_idx)) =? 0)%Z))
    end.

Definition set_chunk_delivered (c : Chunks) (idx : nat) : result Chunks (failure ChunksError) :=
  if decide (idx < count c) then
    let vec_idx := idx / BITS_PER_BYTE in
    let bit_idx := idx mod BITS_PER_BYTE in
    match bits c !! vec_idx with
    | None => Err Panic
    | Some byte =>
        Ok (mkChunks (<[vec_idx := Z.lor byte (Z.shiftl 1 (Z.of_nat bit_idx))]> (bits c))
              (count c) (chunk_size c))
    end
  else Err (Error OutOfBoundsError).

(** A zero [chunk_size] makes the remainder panic. *)
Definition set_offset_delivered (c : Chunks) (offset : nat) : result Chunks (failure ChunksError) :=
  if decide (chunk_size c = 0) then Err Panic
  else if decide (offset mod chunk_size c <> 0) then
    Err (Error (InvalidOffsetError offset (chunk_size c)))
  else set_chunk_delivered c (offset / chunk_size c).

Definition is_offset_delivered (c : Chunks) (offset : nat) : result bool (failure ChunksError) :=
  if decide (chunk_size c = 0) then Err Panic
  else if decide (offset mod chunk_size c <> 0) then
    Err (Error (InvalidOffsetError offset (chunk_size c)))
  else
    let? d := is_chunk_delivered c (offset / chunk_size c) in
    ok_or d (Error OutOfBoundsError).

(** [(0..count).filter(..).collect::<HashSet<_>>()]. *)
Fixpoint missing_from {E} (c : Chunks) (ids : list nat) : result (gset nat) (failure E) :=
  match ids with
  | [] => Ok ∅
  | i :: r =>
      let? d := is_chunk_delivered c i in
      match d with
      | None => Err Panic
      | Some d => let? m := missing_from c r in Ok (if d then m else {[i]} ∪ m)
      end
  end.

Definition get_missing_chunks {E} (c : Chunks) : result (gset nat) (failure E) :=
  missing_from c (seq 0 (count c)).

Definition is_complete {E} (c : Chunks) : result bool (failure E) :=
  let? m := get_missing_chunks c in Ok (bool_decide (m = ∅)).

(** [From<(Vec<bool>, u16)>]. *)
Fixpoint set_flags (c : Chunks) (i : nat) (flags : list bool) : result Chunks (failure ChunksError) :=
  match flags with
  | [] => Ok c
  | d :: r =>
      let? c := if d then res_map_err (fun _ => Panic) (set_chunk_delivered c i) else Ok c in
      set_flags c (S i) r
  end.

Definition from_flags (flags : list bool) (chunk_size : nat) : result Chunks (failure ChunksError) :=
  let? this := new (length flags) chunk_size in set_flags this 0 flags.

End Chunks.

(** ** Cutting data into chunks *)

Record ChangesetChunk := mkChangesetChunk {
  cc_offset : Z;
  cc_data_chunk : list Z;
  cc_chunk_size : nat }.

(** Slicing [data[from..to]] panics when the range is not inside the slice. *)
Definition slice {A E} (l : list A) (from to : nat) : result (list A) (failure E) :=
  if decide (from <= to /\ to <= length l) then Ok (take (to - from) (drop from l)) else Err Panic.

Module ChangesetChunk.

Definition from {E} (data : list Z) (offset : Z) (chunk_size : nat)
    : result ChangesetChunk (failure E) :=
  let end_ := Nat.min (Z.to_nat (wadd 32 offset (Z.of_nat chunk_size))) (length data) in
  let? data_chunk := slice data (Z.to_nat offset) end_ in
  Ok (mkChangesetChunk offset data_chunk chunk_size).

Definition chunk_idx {E} (c : ChangesetChunk) : result nat (failure E) :=
  if decide (cc_chunk_size c = 0) then Err Panic
  else Ok (Z.to_nat (cc_offset c / Z.of_nat (cc_chunk_size c))).

End ChangesetChunk.

Record ChangesetChunksIter := mkChangesetChunksIter {
  it_data : list Z;
  it_chunk_size : nat;
  it_chunk_count : nat;
  it_filter : option (gset nat);
  it_idx : nat }.

Module ChangesetChunksIter.

(** The [while] loop of [next], with the number of remaining chunks as fuel. *)
Fixpoint skip (fuel : nat) (filter : gset nat) (chunk_count idx : nat) : nat :=
  match fuel with
  | O => idx
  | S fuel =>
      if decide (idx < chunk_count) then
        if decide (idx ∈ filter) then idx else skip fuel filter chunk_count (S idx)
      else idx
  end.

Definition next (it : ChangesetChunksIter)
    : result (option ChangesetChunk * ChangesetChunksIter) (failure unit) :=
  let idx :=
    match it_filter it with
    | Some filter => skip (it_chunk_count it - it_idx it) filter (it_chunk_count it) (it_idx it)
    | None => it_idx it
    end in
  let moved i :=
    mkChangesetChunksIter (it_data it) (it_chunk_size it) (it_chunk_count it) (it_filter it) i in
  if decide (it_chunk_count it <= idx) then Ok (None, moved idx)
  else
    let offset := idx * it_chunk_size it in
    assert_that (offset <? length (it_data it)) ?;
    let? chunk := ChangesetChunk.from (it_data it) (wrap 32 (Z.of_nat offset)) (it_chunk_size it) in
    Ok (Some chunk, moved (S idx)).

(** Consuming the iterator: [None] when the fuel runs out first. *)
Fixpoint collect (fuel : nat) (it : ChangesetChunksIter)
    : option (result (list ChangesetChunk) (failure unit)) :=
  match fuel with
  | O => None
  | S fuel =>
      match next it with
      | Err e => Some (Err e)
      | Ok (None, _) => Some (Ok [])
      | Ok (Some c, it') =>
          match collect fuel it' with
          | Some (Ok cs) => Some (Ok (c :: cs))
          | r => r
          end
      end
  end.

End ChangesetChunksIter.

Module ChangesetChunks.

Definition assert_sizes (chunks : Chunks) (chunk_size : nat) (data : list Z)
    : result unit (failure unit) :=
  let chunks_len := count chunks * chunk_size in
  assert_that (length data <=? chunks_len) ?;
  assert_that (chunks_len <? length data + chunk_size).

Definition iter (chunks : Chunks) (chunk_size : nat) (data : list Z)
    : result ChangesetChunksIter (failure unit) :=
  assert_sizes chunks chunk_size data ?;
  Ok (mkChangesetChunksIter data chunk_size (count chunks) None 0).

Definition iter_missing (chunks : Chunks) (chunk_size : nat) (data : list Z)
    : result ChangesetChunksIter (failure unit) :=
  assert_sizes chunks chunk_size data ?;
  let? missing := Chunks.get_missing_chunks chunks in
  Ok (mkChangesetChunksIter data chunk_size (count chunks) (Some missing) 0).

End ChangesetChunks.

(** ** Grouping realloc instructions *)

Definition IX_INIT_SIZE : Z := 32 + 8 + 8 + 8 + 1 + 1 + 8 + 2 + 6.
Definition IX_REALLOC_SIZE : Z := 32 + 8 + 8 + 1 + 2 + 6.

Section chunk_realloc_ixs.
Context {T : Type}.

(** [add_reallocs]: the reversed vector is popped from its end, here a list
    consumed from its head. *)
Fixpoint add_reallocs (chunk reallocs : list T) (total_size : Z) : list T * list T :=
  match reallocs with
  | [] => (chunk, [])
  | realloc :: rest =>
      if decide (wadd 16 total_size IX_REALLOC_SIZE < MAX_INSTRUCTION_DATA_SIZE
                 /\ Z.of_nat (length chunk) < Z.of_nat MAX_INSTRUCTION_LENGTH)%Z
      then add_reallocs (chunk ++ [realloc]) rest (wadd 16 total_size IX_REALLOC_SIZE)
      else (chunk, reallocs)
  end.

(** The loop over the remaining reallocs; each round consumes at least one. *)
Fixpoint realloc_chunks (fuel : nat) (reallocs : list T) : option (list (list T)) :=
  match reallocs with
  | [] => Some []
  | realloc :: rest =>
      match fuel with
      | O => None
      | S fuel =>
          let '(chunk, rest) := add_reallocs [realloc] rest IX_REALLOC_SIZE in
          chunks ← realloc_chunks fuel rest; Some (chunk :: chunks)
      end
  end.

Definition chunk_realloc_ixs (reallocs : list T) (init_ix : option T) : option (list (list T)) :=
  match init_ix with
  | Some init_ix =>
      let '(chunk, rest) := add_reallocs [init_ix] reallocs IX_INIT_SIZE in
      chunks ← realloc_chunks (length rest) rest; Some (chunk :: chunks)
  | None => realloc_chunks (length reallocs) reallocs
  end.
End chunk_realloc_ixs.

(** ** The bitfield *)

Lemma max_alloc : Z.of_nat MAX_ACCOUNT_ALLOC_PER_INSTRUCTION_SIZE = 10240%Z.
Proof. reflexivity. Qed.

Definition chunks_wf (c : Chunks) : Prop :=
  length (bits c) = Chunks.count_to_bitfield_bytes (count c)
  /\ Forall (fun b => 0 <= b < 256)%Z (bits c).

(** The delivered flag of a chunk, read off the bits. *)
Definition delivered (c : Chunks) (idx : nat) : bool :=
  match bits c !! (idx / BITS_PER_BYTE) with
  | Some byte => Z.testbit byte (Z.of_nat (idx mod BITS_PER_BYTE))
  | None => false
  end.

Lemma bitfield_index n i :
  i < n -> i / BITS_PER_BYTE < Chunks.count_to_bitfield_bytes n.
Proof.
  unfold Chunks.count_to_bitfield_bytes, BITS_PER_BYTE. intros Hi.
  pose proof (Nat.div_mod_eq i 8). pose proof (Nat.div_mod_eq n 8).
  pose proof (Nat.mod_upper_bound i 8). pose proof (Nat.mod_upper_bound n 8).
  case_decide; lia.
Qed.

Lemma land_bit byte n :
  (0 <= byte)%Z ->
  negb (Z.land byte (Z.shiftl 1 (Z.of_nat n)) =? 0)%Z = Z.testbit byte (Z.of_nat n).
Proof.
  intros Hb. assert (Hp : Z.shiftl 1 (Z.of_nat n) = (2 ^ Z.of_nat n)%Z)
    by (rewrite Z.shiftl_mul_pow2; lia).
  rewrite Hp. destruct (Z.testbit byte (Z.of_nat n)) eqn:Ht.
  - apply negb_true_iff, Z.eqb_neq. intros H0.
    assert (Z.testbit (Z.land byte (2 ^ Z.of_nat n)) (Z.of_nat n) = true) as Hl.
    { rewrite Z.land_spec, Ht, Z.pow2_bits_true by lia. done. }
    rewrite H0, Z.bits_0 in Hl. done.
  - apply negb_false_iff, Z.eqb_eq. apply Z.bits_inj'. intros k Hk.
    rewrite Z.land_spec, Z.bits_0, Z.pow2_bits_eqb by lia.
    destruct (Z.eqb_spec (Z.of_nat n) k) as [<-|]; [by rewrite Ht | apply andb_false_r].
Qed.

Lemma lor_bit_byte byte n :
  (0 <= byte < 256)%Z -> n < 8 ->
  (0 <= Z.lor byte (Z.shiftl 1 (Z.of_nat n)) < 256)%Z.
Proof.
  intros Hb Hn. rewrite Z.shiftl_mul_pow2 by lia. rewrite Z.mul_1_l.
  pose proof (Z.pow_pos_nonneg 2 (Z.of_nat n)).
  split; [apply Z.lor_nonneg; lia|].
  destruct (Z.eq_dec (Z.lor byte (2 ^ Z.of_nat n)) 0) as [->|Hne]; [lia|].
  assert (0 <= Z.lor byte (2 ^ Z.of_nat n))%Z by (apply Z.lor_nonneg; lia).
  change 256%Z with (2 ^ 8)%Z. apply Z.log2_lt_pow2; [lia|]. rewrite Z.log2_lor by lia.
  apply Z.max_lub_lt.
  - destruct (Z.eq_dec byte 0) as [->|]; [simpl; lia|]. apply Z.log2_lt_pow2; lia.
  - rewrite Z.log2_pow2; lia.
Qed.

Lemma lor_bit_spec byte n k :
  Z.testbit (Z.lor byte (Z.shiftl 1 (Z.of_nat n))) (Z.of_nat k) =
  Z.testbit byte (Z.of_nat k) || (n =? k)%nat.
Proof.
  rewrite Z.lor_spec, Z.shiftl_mul_pow2, Z.mul_1_l, Z.pow2_bits_eqb by lia. f_equal.
  destruct (Z.eqb_spec (Z.of_nat n) (Z.of_nat k)), (Nat.eqb_spec n k); lia || done.
Qed.

Section bitfield.
Context (c : Chunks).
Hypothesis W : chunks_wf c.

Lemma bits_lookup idx :
  idx < count c -> exists byte, bits c !! (idx / BITS_PER_BYTE) = Some byte /\ (0 <= byte < 256)%Z.
Proof.
  intros Hi. destruct W as [Hl Hb].
  destruct (lookup_lt_is_Some_2 (bits c) (idx / BITS_PER_BYTE)) as [byte Hbyte].
  { rewrite Hl. by apply bitfield_index. }
  exists byte. split; [done|]. rewrite Forall_forall in Hb. apply Hb. by eapply list_elem_of_lookup_2.
Qed.

Lemma is_chunk_delivered_spec {E} idx :
  Chunks.is_chunk_delivered (E := E) c idx =
  Ok (if decide (idx < count c) then Some (delivered c idx) else None).
Proof.
  unfold Chunks.is_chunk_delivered, delivered. case_decide as Hi.
  { by rewrite decide_False by lia. }
  rewrite decide_True by lia. destruct (bits_lookup idx) as (byte & -> & Hb); [lia|].
  by rewrite land_bit by lia.
Qed.

Lemma set_chunk_delivered_spec idx :
  idx < count c ->
  exists c', Chunks.set_chunk_delivered c idx = Ok c' /\ chunks_wf c'
  /\ count c' = count c /\ chunk_size c' = chunk_size c
  /\ forall j, j < count c -> delivered c' j = delivered c j || (j =? idx)%nat.
Proof.
  intros Hi. unfold Chunks.set_chunk_delivered. rewrite decide_True by done.
  destruct (bits_lookup idx Hi) as (byte & Hbyte & Hb). rewrite Hbyte. destruct W as [Hl Hbs].
  eexists. split; [done|]. split_and!; [|done|done|].
  - split; cbn [bits count]; [by rewrite length_insert|]. apply Forall_insert; [done|].
    apply lor_bit_byte; [done|]. apply Nat.mod_upper_bound. done.
  - intros j Hj. unfold delivered. cbn [bits].
    assert (Hdm : (j =? idx)%nat = true <-> idx / BITS_PER_BYTE = j / BITS_PER_BYTE /\ idx mod BITS_PER_BYTE = j mod BITS_PER_BYTE).
    { rewrite Nat.eqb_eq. unfold BITS_PER_BYTE.
      pose proof (Nat.div_mod_eq j 8). pose proof (Nat.div_mod_eq idx 8). naive_solver lia. }
    destruct (decide (idx / BITS_PER_BYTE = j / BITS_PER_BYTE)) as [Heq|Hne].
    + rewrite <- Heq, list_lookup_insert_eq, Hbyte by (by eapply lookup_lt_Some).
      rewrite lor_bit_spec. f_equal. apply eq_true_iff_eq. rewrite Hdm, Nat.eqb_eq. tauto.
    + rewrite list_lookup_insert_ne by done.
      destruct (bits c !! (j / BITS_PER_BYTE)); destruct (j =? idx)%nat eqn:E; try tauto;
        try (by rewrite orb_false_r); exfalso; tauto.
Qed.

Lemma missing_from_spec {E} ids :
  Forall (fun i => i < count c) ids ->
  Chunks.missing_from (E := E) c ids =
  Ok (list_to_set (filter (fun i => delivered c i = false) ids)).
Proof.
  induction 1 as [|i ids Hi Hids IH]; cbn [Chunks.missing_from]; [done|].
  rewrite is_chunk_delivered_spec, decide_True by done. simpl. rewrite IH. simpl.
  rewrite filter_cons. destruct (delivered c i) eqn:E'; [rewrite decide_False by done | rewrite decide_True by done]; done.
Qed.

Lemma get_missing_chunks_spec {E} :
  exists m, Chunks.get_missing_chunks (E := E) c = Ok m
  /\ forall i, i ∈ m <-> i < count c /\ delivered c i = false.
Proof.
  unfold Chunks.get_missing_chunks. rewrite missing_from_spec.
  - eexists. split; [done|]. intros i. rewrite elem_of_list_to_set, list_elem_of_filter, elem_of_seq.
    naive_solver lia.
  - apply Forall_forall. intros i Hi%elem_of_seq. lia.
Qed.

Lemma is_complete_spec {E} :
  exists b, Chunks.is_complete (E := E) c = Ok b
  /\ (b = true <-> forall i, i < count c -> delivered c i = true).
Proof.
  unfold Chunks.is_complete. destruct (get_missing_chunks_spec (E := E)) as (m & -> & Hm).
  eexists. split; [done|]. simpl. rewrite bool_decide_eq_true. split.
  - intros -> i Hi. apply not_false_is_true. intros Hd. assert (i ∈ (∅ : gset nat)) by (by apply Hm). set_solver.
  - intros Hall. apply set_eq. intros i. rewrite Hm. split; [|set_solver]. intros [Hi Hd].
    rewrite Hall in Hd by done. done.
Qed.
End bitfield.

(** ** The iterators *)

Definition chunk_at (data : list Z) (size i : nat) : ChangesetChunk :=
  mkChangesetChunk (Z.of_nat (i * size)) (take size (drop (i * size) data)) size.

(** What [assert_sizes] checks, with offsets that fit a [u32]. *)
Definition sizes_ok (n size : nat) (data : list Z) : Prop :=
  0 < size /\ length data <= n * size < length data + size
  /\ (Z.of_nat (length data + size) < 2 ^ 32)%Z.

Lemma sizes_ok_offset n size data i :
  sizes_ok n size data -> i < n -> i * size < length data.
Proof. intros (? & ? & ?) Hi. nia. Qed.

Lemma from_chunk_at {E} n size data i :
  sizes_ok n size data -> i < n ->
  ChangesetChunk.from (E := E) data (wrap 32 (Z.of_nat (i * size))) size = Ok (chunk_at data size i).
Proof.
  intros Hs Hi. pose proof (sizes_ok_offset _ _ _ _ Hs Hi) as Hoff. destruct Hs as (H0 & H1 & H2).
  rewrite wrap_small by lia. unfold ChangesetChunk.from, wadd, slice.
  rewrite wrap_small by lia. rewrite Nat2Z.id, <- Nat2Z.inj_add, Nat2Z.id.
  rewrite decide_True by lia. simpl. unfold chunk_at. do 2 f_equal.
  destruct (decide (i * size + size <= length data)).
  - rewrite Nat.min_l by lia. f_equal. lia.
  - rewrite Nat.min_r by lia. by rewrite !take_ge by (rewrite length_drop; lia).
Qed.

(** The indices the iterator still visits. *)
Definition remaining (filter_ : option (gset nat)) (n idx : nat) : list nat :=
  match filter_ with
  | Some f => filter (fun i => i ∈ f) (seq idx (n - idx))
  | None => seq idx (n - idx)
  end.

Lemma seq_split_head n idx : idx < n -> seq idx (n - idx) = idx :: seq (S idx) (n - S idx).
Proof. intros. replace (n - idx) with (S (n - S idx)) by lia. done. Qed.

Lemma skip_spec fuel f n idx :
  n - idx <= fuel ->
  let r := ChangesetChunksIter.skip fuel f n idx in
  filter (fun i => i ∈ f) (seq idx (n - idx)) = filter (fun i => i ∈ f) (seq r (n - r))
  /\ (r < n -> r ∈ f).
Proof.
  revert idx. induction fuel as [|fuel IH]; intros idx Hf; cbn [ChangesetChunksIter.skip].
  { split; [done|lia]. }
  destruct (decide (idx < n)) as [Hi|Hi]; [|split; [done|lia]].
  destruct (decide (idx ∈ f)) as [Hin|Hin]; [done|].
  rewrite (seq_split_head n idx), filter_cons_False by done. apply IH. lia.
Qed.

Section iteration.
Context (data : list Z) (size n : nat).
Hypothesis S0 : sizes_ok n size data.

Lemma next_spec filter_ idx :
  let it := mkChangesetChunksIter data size n filter_ idx in
  match remaining filter_ n idx with
  | [] => exists it', ChangesetChunksIter.next it = Ok (None, it')
  | i :: rest =>
      ChangesetChunksIter.next it =
        Ok (Some (chunk_at data size i), mkChangesetChunksIter data size n filter_ (S i))
      /\ idx <= i < n /\ rest = remaining filter_ n (S i)
  end.
Proof.
  assert (Hyield : forall r, r < n ->
    (assert_that (r * size <? length data) ?;
     let? chunk := ChangesetChunk.from data (wrap 32 (Z.of_nat (r * size))) size in
     Ok (Some chunk, mkChangesetChunksIter data size n filter_ (S r)))
    = Ok (Some (chunk_at data size r), mkChangesetChunksIter data size n filter_ (S r))
      :> result _ (failure unit)).
  { intros r Hr. rewrite (proj2 (Nat.ltb_lt _ _)) by (by eapply sizes_ok_offset).
    simpl. by rewrite (from_chunk_at n). }
  intros it. unfold ChangesetChunksIter.next. subst it. simpl.
  destruct filter_ as [f|]; simpl.
  - destruct (skip_spec (n - idx) f n idx ltac:(done)) as [Heq Hr].
    assert (Hle : idx <= ChangesetChunksIter.skip (n - idx) f n idx).
    { clear. generalize (n - idx). intros fuel. revert idx. induction fuel as [|fuel IH]; intros idx;
        simpl; [done|]. repeat case_decide; try done. specialize (IH (S idx)). lia. }
    set (r := ChangesetChunksIter.skip (n - idx) f n idx) in *. rewrite Heq.
    case_decide as Hn; [replace (n - r) with 0 by lia; simpl; eauto|].
    rewrite (seq_split_head n r) by lia. rewrite filter_cons_True by (apply Hr; lia).
    rewrite Hyield by lia. split_and!; [done|lia|lia|done].
  - case_decide as Hn; [replace (n - idx) with 0 by lia; simpl; eauto|].
    rewrite seq_split_head by lia. rewrite Hyield by lia. split_and!; [done|lia|lia|done].
Qed.

Lemma collect_spec fuel filter_ idx :
  n - idx < fuel ->
  ChangesetChunksIter.collect fuel (mkChangesetChunksIter data size n filter_ idx) =
  Some (Ok (chunk_at data size <$> remaining filter_ n idx)).
Proof.
  revert idx. induction fuel as [|fuel IH]; intros idx Hf; [lia|]. cbn [ChangesetChunksIter.collect].
  pose proof (next_spec filter_ idx) as Hn. simpl in Hn. destruct (remaining filter_ n idx) as [|i rest].
  - destruct Hn as [it' ->]. done.
  - destruct Hn as (-> & Hi & ->). rewrite IH by lia. done.
Qed.
End iteration.

Lemma concat_chunks data size k m :
  0 < size -> length data <= (k + m) * size ->
  concat (cc_data_chunk <$> (chunk_at data size <$> seq k m)) = drop (k * size) data.
Proof.
  intros Hs. revert k. induction m as [|m IH]; intros k Hl; cbn [seq].
  - simpl. rewrite drop_ge; [done|lia].
  - rewrite !fmap_cons. cbn [concat]. rewrite IH by lia. cbn [chunk_at cc_data_chunk].
    rewrite <- (take_drop size (drop (k * size) data)) at 2. f_equal.
    rewrite drop_drop. f_equal. lia.
Qed.

(** ** Grouping *)

Section grouping.
Context {T : Type}.
Implicit Types (chunk reallocs rest : list T) (size : Z).

(** The instruction-count limit always binds before the data-size limit. *)
Definition size_ok chunk size : Prop :=
  (IX_REALLOC_SIZE * Z.of_nat (length chunk) <= size
   <= IX_INIT_SIZE + IX_REALLOC_SIZE * (Z.of_nat (length chunk) - 1))%Z.

Lemma add_reallocs_spec chunk reallocs size chunk' rest :
  1 <= length chunk <= 11 -> size_ok chunk size ->
  add_reallocs chunk reallocs size = (chunk', rest) ->
  chunk' ++ rest = chunk ++ reallocs
  /\ length chunk <= length chunk' <= 11 /\ (rest <> [] -> length chunk' = 11)
  /\ length rest <= length reallocs.
Proof.
  revert chunk size. induction reallocs as [|r reallocs IH]; intros chunk size Hc Hs; simpl.
  { intros [= <- <-]. rewrite app_nil_r. repeat split; done || lia. }
  unfold size_ok, IX_REALLOC_SIZE, IX_INIT_SIZE, wadd in *.
  rewrite wrap_small by lia. unfold MAX_INSTRUCTION_DATA_SIZE, MAX_INSTRUCTION_LENGTH.
  case_decide as Hd.
  - intros Ha. apply IH in Ha as (Heq & Hlen & Hfull & Hrest).
    + rewrite length_app in Hlen. simpl in *. rewrite Heq, <- app_assoc. repeat split; auto; lia.
    + rewrite length_app. simpl. lia.
    + rewrite length_app. simpl. lia.
  - intros [= <- <-]. repeat split; try lia. simpl. lia.
Qed.

Lemma realloc_chunks_spec fuel reallocs :
  length reallocs <= fuel ->
  exists chunks, realloc_chunks fuel reallocs = Some chunks
  /\ concat chunks = reallocs
  /\ Forall (fun c => 1 <= length c <= 11) chunks
  /\ (forall i c, S i < length chunks -> chunks !! i = Some c -> length c = 11).
Proof.
  revert reallocs. induction fuel as [|fuel IH]; intros [|r rs] Hf; simpl in Hf; try lia.
  - exists []. by repeat split.
  - exists []. by repeat split.
  - cbn [realloc_chunks]. destruct (add_reallocs [r] rs IX_REALLOC_SIZE) as [chunk rest] eqn:Ha.
    apply add_reallocs_spec in Ha as (Heq & Hlen & Hfull & Hrest); [|simpl; lia|done].
    destruct (IH rest) as (chunks & -> & Hc & Hall & Hfull'); [lia|].
    exists (chunk :: chunks). split_and!; [done| | |].
    + rewrite concat_cons, Hc, Heq. done.
    + constructor; [simpl in Hlen; lia|done].
    + intros [|i] c Hi Hl; simpl in *; [|eapply Hfull'; [|done]; lia]. simplify_eq.
      apply Hfull. intros Hn. destruct chunks as [|c' cs]; simpl in *; [lia|].
      apply Forall_cons in Hall as [? _]. destruct c'; simpl in *; [lia|done].
Qed.
End grouping.

(** ** Theorems *)

(** The bitfield is a set of chunk indices. On a well-formed tracker no call
    panics; marking an index makes exactly that index delivered, an index out of
    range is refused, and the missing set and the completeness flag are the
    complement of the delivered set. *)
Theorem bitfield_tracks_chunks c idx :
  chunks_wf c ->
  (forall E, Chunks.is_chunk_delivered (E := E) c idx =
     Ok (if decide (idx < count c) then Some (delivered c idx) else None))
  /\ match Chunks.set_chunk_delivered c idx with
     | Ok c' => idx < count c /\ chunks_wf c' /\ count c' = count c /\ chunk_size c' = chunk_size c
         /\ forall j, j < count c -> delivered c' j = delivered c j || (j =? idx)%nat
     | Err e => count c <= idx /\ e = Error OutOfBoundsError
     end
  /\ (exists m, Chunks.get_missing_chunks (E := unit) c = Ok m
        /\ forall i, i ∈ m <-> i < count c /\ delivered c i = false)
  /\ (exists b, Chunks.is_complete (E := unit) c = Ok b
        /\ (b = true <-> forall i, i < count c -> delivered c i = true)).
Proof.
  intros W. split_and!; [intros E; by apply is_chunk_delivered_spec| |
    by apply get_missing_chunks_spec|by apply is_complete_spec].
  destruct (decide (idx < count c)) as [Hi|Hi].
  - destruct (set_chunk_delivered_spec c W idx Hi) as (c' & -> & ? & ? & ? & ?). done.
  - unfold Chunks.set_chunk_delivered. rewrite decide_False by done. split; [lia|done].
Qed.

Lemma bitfield_tracks_chunks_witness :
  exists b, Chunks.is_complete (E := unit) (mkChunks [255; 3]%Z 10 128) = Ok b
  /\ (b = true <-> forall i, i < 10 -> delivered (mkChunks [255; 3]%Z 10 128) i = true).
Proof.
  apply (bitfield_tracks_chunks (mkChunks [255; 3]%Z 10 128) 9).
  split; [reflexivity|]. repeat constructor; lia.
Defined.

(** splitting realloc instructions into transactions always terminates, keeps
    every instruction in order with the init instruction first, fills each
    transaction but the last to the 11-instruction limit, and so uses as few
    transactions as that limit allows. *)
Theorem chunk_realloc_ixs_partition {T} (reallocs : list T) init_ix :
  exists chunks, chunk_realloc_ixs reallocs init_ix = Some chunks
  /\ concat chunks = option_list init_ix ++ reallocs
  /\ Forall (fun c => 1 <= length c <= MAX_INSTRUCTION_LENGTH) chunks
  /\ (forall i c, S i < length chunks -> chunks !! i = Some c -> length c = MAX_INSTRUCTION_LENGTH).
Proof.
  destruct init_ix as [init|]; simpl; [|by apply realloc_chunks_spec].
  destruct (add_reallocs [init] reallocs IX_INIT_SIZE) as [chunk rest] eqn:Ha.
  apply add_reallocs_spec in Ha as (Heq & Hlen & Hfull & Hrest); [|simpl; lia|done].
  destruct (realloc_chunks_spec (length rest) rest) as (chunks & -> & Hc & Hall & Hfull'); [done|].
  exists (chunk :: chunks). split_and!; [done| | |].
  - rewrite concat_cons, Hc, Heq. done.
  - constructor; [simpl in Hlen; unfold MAX_INSTRUCTION_LENGTH; lia|done].
  - intros [|i] c Hi Hl; simpl in *; [|eapply Hfull'; [|done]; lia]. simplify_eq.
    apply Hfull. intros Hn. destruct chunks as [|c' cs]; simpl in *; [lia|].
    apply Forall_cons in Hall as [? _]. destruct c'; simpl in *; [lia|done].
Qed.

Lemma assert_sizes_ok c size data :
  sizes_ok (count c) size data -> ChangesetChunks.assert_sizes c size data = Ok tt.
Proof.
  intros (? & ? & ?). unfold ChangesetChunks.assert_sizes, assert_that.
  rewrite (proj2 (Nat.leb_le _ _)), (proj2 (Nat.ltb_lt _ _)) by lia. done.
Qed.

(** the chunk iterators are exact. Iterating all chunks terminates without a
    panic and the chunks concatenate to the data; iterating the missing ones
    yields, in order, precisely the chunks whose delivered bit is clear, each
    with the offset its index stands for. *)
Theorem chunk_iterators_exact c size data :
  chunks_wf c -> sizes_ok (count c) size data ->
  (exists it chunks, ChangesetChunks.iter c size data = Ok it
     /\ ChangesetChunksIter.collect (S (count c)) it = Some (Ok chunks)
     /\ concat (cc_data_chunk <$> chunks) = data)
  /\ (exists it, ChangesetChunks.iter_missing c size data = Ok it
     /\ ChangesetChunksIter.collect (S (count c)) it =
          Some (Ok (chunk_at data size <$> filter (fun i => delivered c i = false) (seq 0 (count c)))))
  /\ (forall i, i < count c ->
        ChangesetChunk.chunk_idx (E := unit) (chunk_at data size i) = Ok i).
Proof.
  intros W Hs. pose proof Hs as (Hpos & Hsum & _). split_and!.
  - unfold ChangesetChunks.iter. rewrite assert_sizes_ok by done. eexists _, _.
    split; [reflexivity|]. rewrite (collect_spec data size (count c) Hs) by lia. split; [done|].
    unfold remaining. rewrite Nat.sub_0_r, concat_chunks by lia. done.
  - unfold ChangesetChunks.iter_missing. rewrite assert_sizes_ok by done.
    destruct (get_missing_chunks_spec c W (E := unit)) as (m & -> & Hm).
    eexists. split; [reflexivity|]. rewrite (collect_spec data size (count c) Hs) by lia.
    unfold remaining. rewrite Nat.sub_0_r. do 3 f_equal. apply filter_ext_in.
    intros i Hi%elem_of_seq. rewrite Hm. intuition lia.
  - intros i Hi. unfold ChangesetChunk.chunk_idx, chunk_at. cbn [cc_chunk_size cc_offset].
    rewrite decide_False by lia. f_equal.
    rewrite <- Nat2Z.inj_div, Nat2Z.id, Nat.div_mul by lia. done.
Qed.

Lemma chunk_iterators_exact_witness :
  exists it, ChangesetChunks.iter_missing (mkChunks [5]%Z 3 2) 2 [1; 2; 3; 4; 5]%Z = Ok it
  /\ ChangesetChunksIter.collect 4 it =
       Some (Ok (chunk_at [1; 2; 3; 4; 5]%Z 2 <$>
                 filter (fun i => delivered (mkChunks [5]%Z 3 2) i = false) (seq 0 3))).
Proof.
  apply (chunk_iterators_exact (mkChunks [5]%Z 3 2) 2 [1; 2; 3; 4; 5]%Z).
  - split; [reflexivity|]. repeat constructor; lia.
  - repeat split; simpl; lia.
Defined.
