(* ===== verification/CommittorProgram.v ===== *)
(** * The committor program

    [programs/committor-program/src/processor.rs] with its [utils], and the
    client side of [programs/committor-interface]: [instruction.rs],
    [pdas.rs], [error.rs] and [instruction_builder/]. The program uploads the
    data of a large commit into a buffer account chunk by chunk.

    Parameters stand for what the sources only call: address derivation, the
    Borsh encodings, rent, [AccountInfo::resize] and the system program. *)

From stdpp Require Import base gmap sets list.
From Stdlib Require Import ZArith Lia.
From S2P Require Import Prelude Intent Chunks.

Inductive CommittorError :=
| UnableToSerializeChangeSet
| PubkeyError
| OffsetMustBeMultipleOfChunkSize (offset chunk_size : nat)
| OffsetChunkOutOfRange (len : nat) (offset : Z) (buffer : nat)
| CommittorOutOfBounds.

Inductive ProgramError :=
| PE_Custom (code : Z)
| PE_NotEnoughAccountKeys
| PE_MissingRequiredSignature
| PE_AccountAlreadyInitialized
| PE_IncorrectProgramId
| PE_ArithmeticOverflow
| PE_BorshIoError
| PE_External (code : N).

(** [From<ChunksError> for CommittorError]. *)
Definition committor_error_of_chunks (value : ChunksError) : CommittorError :=
  match value with
  | OutOfBoundsError => CommittorOutOfBounds
  | InvalidOffsetError offset chunk_size => OffsetMustBeMultipleOfChunkSize offset chunk_size
  end.

(** [From<CommittorError> for ProgramError]. *)
Definition program_error_of_committor (e : CommittorError) : ProgramError :=
  PE_Custom
    match e with
    | UnableToSerializeChangeSet => 0x69000
    | PubkeyError => 0x69001
    | OffsetMustBeMultipleOfChunkSize _ _ => 0x69002
    | OffsetChunkOutOfRange _ _ _ => 0x69003
    | CommittorOutOfBounds => 0x69004
    end%Z.

Inductive CommittorInstruction :=
| Init (pubkey : Pubkey) (chunks_account_size buffer_account_size commit_id : Z)
    (chunks_bump buffer_bump : Z) (chunk_count chunk_size : nat)
| ReallocBuffer (pubkey : Pubkey) (buffer_account_size commit_id buffer_bump invocation_count : Z)
| Write (pubkey : Pubkey) (commit_id chunks_bump buffer_bump offset : Z) (data_chunk : list Z)
| Close (pubkey : Pubkey) (commit_id chunks_bump buffer_bump : Z).

(** ** Accounts

    The accounts live in a store; an [AccountInfo] names one, so that two
    infos with the same key are the same account. An instruction that fails
    leaves the store as it was. *)

Record AccountState := mkAccountState {
  a_lamports : Z;
  a_data : list Z;
  a_owner : Pubkey }.

Abbreviation store := (gmap N AccountState).

Record AccountInfo := mkAccountInfo {
  ai_key : Pubkey;
  ai_is_signer : bool }.

Definition empty_account : AccountState := mkAccountState 0 [] 0.
Definition acct (st : store) (k : Pubkey) : AccountState := default empty_account (st !! k).
Definition set_data (st : store) (k : Pubkey) (d : list Z) : store :=
  <[k := mkAccountState (a_lamports (acct st k)) d (a_owner (acct st k))]> st.
Definition set_lamports (st : store) (k : Pubkey) (l : Z) : store :=
  <[k := mkAccountState l (a_data (acct st k)) (a_owner (acct st k))]> st.

Abbreviation PResult A := (result A (failure ProgramError)).
Definition raise {A} (e : ProgramError) : PResult A := Err (Error e).

(** A seed of a derived address. *)
Inductive Seed := SKey (k : Pubkey) | SLabel (chunks : bool) | SBytes (b : list Z).

(** [slice::copy_from_slice] panics on different lengths. *)
Definition copy_from_slice (dst src : list Z) : PResult (list Z) :=
  if decide (length dst = length src) then Ok src else Err Panic.

#[local] Opaque MAX_ACCOUNT_ALLOC_PER_INSTRUCTION_SIZE.

(** The trackers whose fields fit their Rust types. *)
Definition representable (c : Chunks) : Prop :=
  Forall (fun b => 0 <= b < 256)%Z (bits c) /\ (Z.of_nat (length (bits c)) < 2 ^ 32)%Z
  /\ (Z.of_nat (count c) < 2 ^ 64)%Z /\ (Z.of_nat (chunk_size c) < 2 ^ 16)%Z.

Lemma wf_representable c :
  chunks_wf c -> Chunks.struct_size (count c) < MAX_ACCOUNT_ALLOC_PER_INSTRUCTION_SIZE ->
  (Z.of_nat (chunk_size c) < 2 ^ 16)%Z -> representable c.
Proof.
  intros [Hl Hb] Hs Hc.
  pose proof max_alloc as HM.
  unfold Chunks.struct_size in Hs.
  assert (count c <= 8 * Chunks.count_to_bitfield_bytes (count c)).
  { unfold Chunks.count_to_bitfield_bytes, BITS_PER_BYTE. pose proof (Nat.div_mod_eq (count c) 8).
    pose proof (Nat.mod_upper_bound (count c) 8). case_decide; lia. }
  split_and!; [done|lia|lia|done].
Qed.

Section program.
Context (ID : Pubkey).
Context (create_program_address : list Seed -> Pubkey -> option Pubkey).
Context (find_program_address : list Seed -> Pubkey -> Pubkey * Z).
Context (to_vec : Chunks -> list Z) (chunks_try_from_slice : list Z -> option Chunks).
Context (encode : CommittorInstruction -> list Z) (decode : list Z -> option CommittorInstruction).
Context (minimum_balance : Z -> Z).
Context (resize : list Z -> nat -> PResult (list Z)).
(** [create_account payer account lamports space owner] through [invoke_signed]. *)
Context (create_account : store -> Pubkey -> Pubkey -> Z -> Z -> Pubkey -> PResult store).

(** *** Address derivation *)

Definition seeds (chunks : bool) (validator_auth pubkey : Pubkey) (commit_id_slice : list Z)
    : list Seed :=
  [SKey ID; SLabel chunks; SKey validator_auth; SKey pubkey; SBytes commit_id_slice].

Definition seeds_with_bump (chunks : bool) (validator_auth pubkey : Pubkey)
    (commit_id_slice bump : list Z) : list Seed :=
  [SKey ID; SLabel chunks; SKey validator_auth; SKey pubkey; SBytes commit_id_slice; SBytes bump].

Definition pda (chunks : bool) (validator_auth pubkey : Pubkey) (commit_id_slice : list Z)
    : Pubkey * Z :=
  find_program_address (seeds chunks validator_auth pubkey commit_id_slice) ID.

(** *** Checks *)

Definition verify_pda (account : AccountInfo) (seeds : list Seed) : PResult unit :=
  match create_program_address seeds ID with
  | None => raise (program_error_of_committor PubkeyError)
  | Some expected => if decide (ai_key account = expected) then Ok tt else raise (PE_Custom 1)
  end.

Definition assert_account_unallocated (st : store) (account : AccountInfo) : PResult unit :=
  if decide (length (a_data (acct st (ai_key account))) = 0) then Ok tt
  else raise PE_AccountAlreadyInitialized.

Definition assert_is_signer (account : AccountInfo) : PResult unit :=
  if ai_is_signer account then Ok tt else raise PE_MissingRequiredSignature.

Definition assert_program_id (program_id : Pubkey) : PResult unit :=
  if decide (program_id = ID) then Ok tt else raise PE_IncorrectProgramId.

Definition verify_seeds_and_pdas (authority_info chunks_account_info buffer_account_info : AccountInfo)
    (pubkey : Pubkey) (commit_id chunks_bump buffer_bump : Z) : PResult unit :=
  let commit_id_slice := to_le_bytes 8 commit_id in
  verify_pda chunks_account_info
    (seeds_with_bump true (ai_key authority_info) pubkey commit_id_slice [chunks_bump]) ?;
  verify_pda buffer_account_info
    (seeds_with_bump false (ai_key authority_info) pubkey commit_id_slice [buffer_bump]).

Definition close_and_refund_authority (st : store) (authority account : AccountInfo) : PResult store :=
  let? d := resize (a_data (acct st (ai_key account))) 0 in
  let st := set_data st (ai_key account) d in
  match checked_add u64_max (a_lamports (acct st (ai_key authority)))
          (a_lamports (acct st (ai_key account))) with
  | None => raise PE_ArithmeticOverflow
  | Some l =>
      let st := set_lamports st (ai_key authority) l in
      Ok (set_lamports st (ai_key account) 0)
  end.

(** *** Instruction handlers *)

Definition process_init (st : store) (program_id : Pubkey) (accounts : list AccountInfo)
    (pubkey : Pubkey) (chunks_account_size buffer_account_size commit_id : Z)
    (chunks_bump buffer_bump : Z) (chunk_count chunk_size : nat) : PResult store :=
  match accounts with
  | [authority_info; chunks_account_info; buffer_account_info; _system_program] =>
      assert_is_signer authority_info ?;
      let commit_id_slice := to_le_bytes 8 commit_id in
      verify_pda chunks_account_info
        (seeds_with_bump true (ai_key authority_info) pubkey commit_id_slice [chunks_bump]) ?;
      verify_pda buffer_account_info
        (seeds_with_bump false (ai_key authority_info) pubkey commit_id_slice [buffer_bump]) ?;
      assert_account_unallocated st chunks_account_info ?;
      assert_account_unallocated st buffer_account_info ?;
      let? st := create_account st (ai_key authority_info) (ai_key chunks_account_info)
                   (minimum_balance chunks_account_size) chunks_account_size program_id in
      let initial_alloc_size :=
        Z.min buffer_account_size (Z.of_nat MAX_ACCOUNT_ALLOC_PER_INSTRUCTION_SIZE) in
      let? st := create_account st (ai_key authority_info) (ai_key buffer_account_info)
                   (minimum_balance buffer_account_size) initial_alloc_size program_id in
      let? chunks := Chunks.new chunk_count chunk_size in
      let? d := copy_from_slice (a_data (acct st (ai_key chunks_account_info))) (to_vec chunks) in
      Ok (set_data st (ai_key chunks_account_info) d)
  | _ => raise PE_NotEnoughAccountKeys
  end.

Definition process_realloc_buffer (st : store) (accounts : list AccountInfo) (pubkey : Pubkey)
    (buffer_account_size commit_id buffer_bump : Z) : PResult store :=
  match accounts with
  | [authority_info; buffer_account_info] =>
      let data := a_data (acct st (ai_key buffer_account_info)) in
      if decide (buffer_account_size <= Z.of_nat (length data))%Z then Ok st
      else
        assert_is_signer authority_info ?;
        verify_pda buffer_account_info
          (seeds_with_bump false (ai_key authority_info) pubkey (to_le_bytes 8 commit_id)
             [buffer_bump]) ?;
        let current_buffer_size := Z.of_nat (length data) in
        let next_alloc_size :=
          Z.min buffer_account_size
            (wadd 64 current_buffer_size (Z.of_nat MAX_ACCOUNT_ALLOC_PER_INSTRUCTION_SIZE)) in
        let? d := resize data (Z.to_nat next_alloc_size) in
        Ok (set_data st (ai_key buffer_account_info) d)
  | _ => raise PE_NotEnoughAccountKeys
  end.

Definition process_write (st : store) (accounts : list AccountInfo) (pubkey : Pubkey)
    (offset : Z) (data_chunk : list Z) (commit_id chunks_bump buffer_bump : Z) : PResult store :=
  match accounts with
  | [authority_info; chunks_account_info; buffer_account_info] =>
      assert_is_signer authority_info ?;
      verify_seeds_and_pdas authority_info chunks_account_info buffer_account_info
        pubkey commit_id chunks_bump buffer_bump ?;
      let buffer_data := a_data (acct st (ai_key buffer_account_info)) in
      let out_of_range :=
        program_error_of_committor
          (OffsetChunkOutOfRange (length data_chunk) offset (length buffer_data)) in
      let? end_offset :=
        ok_or (checked_add u32_max offset (wrap 32 (Z.of_nat (length data_chunk))))
          (Error out_of_range) in
      if decide (Z.of_nat (length buffer_data) < end_offset)%Z then raise out_of_range
      else
        let from := Z.to_nat offset in
        let to := from + length data_chunk in
        if decide (length buffer_data < to) then Err Panic
        else
          let st := set_data st (ai_key buffer_account_info)
                      (take from buffer_data ++ data_chunk ++ drop to buffer_data) in
          (* the buffer is still mutably borrowed *)
          if decide (ai_key chunks_account_info = ai_key buffer_account_info) then Err Panic
          else
            let chunks_data := a_data (acct st (ai_key chunks_account_info)) in
            let? chunks := ok_or (chunks_try_from_slice chunks_data) (Error PE_BorshIoError) in
            let? chunks :=
              res_map_err
                (fun e => match e with
                          | Error e => Error (program_error_of_committor (committor_error_of_chunks e))
                          | Panic => Panic
                          end)
                (Chunks.set_offset_delivered chunks (Z.to_nat offset)) in
            let? d := copy_from_slice chunks_data (to_vec chunks) in
            Ok (set_data st (ai_key chunks_account_info) d)
  | _ => raise PE_NotEnoughAccountKeys
  end.

Definition process_close (st : store) (accounts : list AccountInfo) (pubkey : Pubkey)
    (commit_id chunks_bump buffer_bump : Z) : PResult store :=
  match accounts with
  | [authority_info; chunks_account_info; buffer_account_info] =>
      assert_is_signer authority_info ?;
      verify_seeds_and_pdas authority_info chunks_account_info buffer_account_info
        pubkey commit_id chunks_bump buffer_bump ?;
      let? st := close_and_refund_authority st authority_info chunks_account_info in
      close_and_refund_authority st authority_info buffer_account_info
  | _ => raise PE_NotEnoughAccountKeys
  end.

Definition process (st : store) (program_id : Pubkey) (accounts : list AccountInfo)
    (instruction_data : list Z) : PResult store :=
  assert_program_id program_id ?;
  let? ix := ok_or (decode instruction_data) (Error PE_BorshIoError) in
  match ix with
  | Init pubkey chunks_account_size buffer_account_size commit_id chunks_bump buffer_bump
      chunk_count chunk_size =>
      process_init st program_id accounts pubkey chunks_account_size buffer_account_size
        commit_id chunks_bump buffer_bump chunk_count chunk_size
  | ReallocBuffer pubkey buffer_account_size commit_id buffer_bump _ =>
      process_realloc_buffer st accounts pubkey buffer_account_size commit_id buffer_bump
  | Write pubkey commit_id chunks_bump buffer_bump offset data_chunk =>
      process_write st accounts pubkey offset data_chunk commit_id chunks_bump buffer_bump
  | Close pubkey commit_id chunks_bump buffer_bump =>
      process_close st accounts pubkey commit_id chunks_bump buffer_bump
  end.

(** *** Instruction builders *)

Record Instruction := mkInstruction {
  ix_program_id : Pubkey;
  ix_accounts : list AccountInfo;
  ix_data : list Z }.

Definition create_init_ix (system_program authority pubkey : Pubkey)
    (chunks_account_size buffer_account_size commit_id : Z) (chunk_count chunk_size : nat)
    : Instruction * Pubkey * Pubkey :=
  let '(chunks_pda, chunks_bump) := pda true authority pubkey (to_le_bytes 8 commit_id) in
  let '(buffer_pda, buffer_bump) := pda false authority pubkey (to_le_bytes 8 commit_id) in
  (mkInstruction ID
     [mkAccountInfo authority true; mkAccountInfo chunks_pda false; mkAccountInfo buffer_pda false;
      mkAccountInfo system_program false]
     (encode (Init pubkey chunks_account_size buffer_account_size commit_id chunks_bump buffer_bump
                chunk_count chunk_size)),
   chunks_pda, buffer_pda).

Definition create_realloc_buffer_ix (authority pubkey : Pubkey) (buffer_account_size commit_id : Z)
    (invocation_count : Z) : Instruction :=
  let '(buffer_pda, buffer_bump) := pda false authority pubkey (to_le_bytes 8 commit_id) in
  mkInstruction ID [mkAccountInfo authority true; mkAccountInfo buffer_pda false]
    (encode (ReallocBuffer pubkey buffer_account_size commit_id buffer_bump invocation_count)).

Definition create_realloc_buffer_ixs_to_add_remaining (authority pubkey : Pubkey)
    (buffer_account_size commit_id remaining_size : Z) : list Instruction :=
  let remaining_invocation_count :=
    div_ceil remaining_size (Z.of_nat MAX_ACCOUNT_ALLOC_PER_INSTRUCTION_SIZE) in
  (fun i => create_realloc_buffer_ix authority pubkey buffer_account_size commit_id
              (wrap 16 (Z.of_nat i)))
  <$> seq 1 (Z.to_nat remaining_invocation_count).

Definition create_realloc_buffer_ixs (authority pubkey : Pubkey) (buffer_account_size commit_id : Z)
    : list Instruction :=
  if decide (buffer_account_size <= Z.of_nat MAX_ACCOUNT_ALLOC_PER_INSTRUCTION_SIZE)%Z then []
  else
    create_realloc_buffer_ixs_to_add_remaining authority pubkey buffer_account_size commit_id
      (buffer_account_size - Z.of_nat MAX_ACCOUNT_ALLOC_PER_INSTRUCTION_SIZE).

Definition create_write_ix (authority pubkey : Pubkey) (offset : Z) (data_chunk : list Z)
    (commit_id : Z) : Instruction :=
  let '(chunks_pda, chunks_bump) := pda true authority pubkey (to_le_bytes 8 commit_id) in
  let '(buffer_pda, buffer_bump) := pda false authority pubkey (to_le_bytes 8 commit_id) in
  mkInstruction ID
    [mkAccountInfo authority true; mkAccountInfo chunks_pda false; mkAccountInfo buffer_pda false]
    (encode (Write pubkey commit_id chunks_bump buffer_bump offset data_chunk)).

Definition create_close_ix (authority pubkey : Pubkey) (commit_id : Z) : Instruction :=
  let '(chunks_pda, chunks_bump) := pda true authority pubkey (to_le_bytes 8 commit_id) in
  let '(buffer_pda, buffer_bump) := pda false authority pubkey (to_le_bytes 8 commit_id) in
  mkInstruction ID
    [mkAccountInfo authority true; mkAccountInfo chunks_pda false; mkAccountInfo buffer_pda false]
    (encode (Close pubkey commit_id chunks_bump buffer_bump)).

(** A transaction's instructions, in order. *)
Definition run (st : store) (ixs : list Instruction) : PResult store :=
  try_fold (fun st ix => process st (ix_program_id ix) (ix_accounts ix) (ix_data ix)) st ixs.

(** ** Documented behaviour of the callees *)

Hypothesis find_creates : forall s p k b,
  find_program_address s p = (k, b) -> create_program_address (s ++ [SBytes [b]]) p = Some k.
Hypothesis codec : forall ix, decode (encode ix) = Some ix.
Hypothesis borsh_roundtrip : forall c, representable c -> chunks_try_from_slice (to_vec c) = Some c.
Hypothesis borsh_length : forall c, length (to_vec c) = 4 + length (bits c) + 8 + 2.
Hypothesis resize_grows : forall d n,
  length d <= n <= length d + MAX_ACCOUNT_ALLOC_PER_INSTRUCTION_SIZE ->
  resize d n = Ok (d ++ replicate (n - length d) 0%Z).
Hypothesis resize_closes : forall d, resize d 0 = Ok [].
Hypothesis create_account_ok : forall st payer to l space owner,
  payer <> to -> a_lamports (acct st to) = 0%Z -> a_data (acct st to) = [] ->
  (0 <= l <= a_lamports (acct st payer))%Z ->
  (0 <= space <= Z.of_nat MAX_ACCOUNT_ALLOC_PER_INSTRUCTION_SIZE)%Z ->
  create_account st payer to l space owner =
  Ok (<[to := mkAccountState l (replicate (Z.to_nat space) 0%Z) owner]>
        (set_lamports st payer (a_lamports (acct st payer) - l))).

Lemma acct_insert st k k' a :
  acct (<[k := a]> st) k' = if decide (k = k') then a else acct st k'.
Proof. unfold acct. rewrite lookup_insert. by case_decide. Qed.

Lemma acct_set_data st k k' d :
  acct (set_data st k d) k' =
  if decide (k = k') then mkAccountState (a_lamports (acct st k)) d (a_owner (acct st k))
  else acct st k'.
Proof. apply acct_insert. Qed.

Lemma acct_set_lamports st k k' l :
  acct (set_lamports st k l) k' =
  if decide (k = k') then mkAccountState l (a_data (acct st k)) (a_owner (acct st k))
  else acct st k'.
Proof. apply acct_insert. Qed.

Lemma acct_insert_eq st k a : acct (<[k := a]> st) k = a.
Proof. by rewrite acct_insert, decide_True. Qed.

Lemma acct_insert_ne st k k' a : k <> k' -> acct (<[k := a]> st) k' = acct st k'.
Proof. intros. by rewrite acct_insert, decide_False. Qed.

Lemma acct_set_lamports_ne st k k' l : k <> k' -> acct (set_lamports st k l) k' = acct st k'.
Proof. apply acct_insert_ne. Qed.

Lemma acct_set_data_ne st k k' d : k <> k' -> acct (set_data st k d) k' = acct st k'.
Proof. apply acct_insert_ne. Qed.

Lemma close_one_spec st a k :
  ai_key a <> ai_key k ->
  (a_lamports (acct st (ai_key a)) + a_lamports (acct st (ai_key k)) <= u64_max)%Z ->
  exists st', close_and_refund_authority st a k = Ok st'
  /\ a_lamports (acct st' (ai_key a)) =
       (a_lamports (acct st (ai_key a)) + a_lamports (acct st (ai_key k)))%Z
  /\ (a_lamports (acct st' (ai_key k)) = 0%Z /\ a_data (acct st' (ai_key k)) = [])
  /\ (forall k', k' <> ai_key a -> k' <> ai_key k -> acct st' k' = acct st k').
Proof.
  intros Hne Hle. unfold close_and_refund_authority. rewrite resize_closes. cbn [res_bind].
  rewrite (acct_set_data_ne _ (ai_key k) (ai_key a)) by congruence.
  rewrite acct_set_data, decide_True by done. cbn [a_lamports].
  unfold checked_add. rewrite (proj2 (Z.leb_le _ _)) by lia. eexists. split; [reflexivity|].
  split_and!.
  - rewrite acct_set_lamports_ne, acct_set_lamports, decide_True by congruence. reflexivity.
  - rewrite acct_set_lamports, decide_True by done. reflexivity.
  - rewrite acct_set_lamports, decide_True by done. cbn [a_data].
    rewrite acct_set_lamports_ne, acct_set_data, decide_True by congruence. reflexivity.
  - intros k' Ha Hk. rewrite !acct_set_lamports_ne, acct_set_data_ne by congruence. reflexivity.
Qed.

Section session.
Context (authority pubkey : Pubkey) (commit_id : Z).
Local Abbreviation cpda := (pda true authority pubkey (to_le_bytes 8 commit_id)).
Local Abbreviation bpda := (pda false authority pubkey (to_le_bytes 8 commit_id)).
Local Abbreviation ckey := (fst cpda).
Local Abbreviation bkey := (fst bpda).
Hypothesis keys_distinct : ckey <> bkey /\ authority <> ckey /\ authority <> bkey.

Lemma verify_pda_ok (chunks : bool) :
  verify_pda (mkAccountInfo (fst (pda chunks authority pubkey (to_le_bytes 8 commit_id))) false)
    (seeds_with_bump chunks authority pubkey (to_le_bytes 8 commit_id)
       [snd (pda chunks authority pubkey (to_le_bytes 8 commit_id))]) = Ok tt.
Proof.
  unfold verify_pda, pda. destruct (find_program_address _ ID) as [k b] eqn:Hf. simpl.
  apply find_creates in Hf. simpl in Hf. unfold seeds_with_bump. rewrite Hf.
  by rewrite decide_True.
Qed.

Lemma process_built st accounts ix :
  process st ID accounts (encode ix) =
  match ix with
  | Init pubkey chunks_account_size buffer_account_size commit_id chunks_bump buffer_bump
      chunk_count chunk_size =>
      process_init st ID accounts pubkey chunks_account_size buffer_account_size
        commit_id chunks_bump buffer_bump chunk_count chunk_size
  | ReallocBuffer pubkey buffer_account_size commit_id buffer_bump _ =>
      process_realloc_buffer st accounts pubkey buffer_account_size commit_id buffer_bump
  | Write pubkey commit_id chunks_bump buffer_bump offset data_chunk =>
      process_write st accounts pubkey offset data_chunk commit_id chunks_bump buffer_bump
  | Close pubkey commit_id chunks_bump buffer_bump =>
      process_close st accounts pubkey commit_id chunks_bump buffer_bump
  end.
Proof. unfold process, assert_program_id. rewrite decide_True by done. simpl. by rewrite codec. Qed.

(** *** Writing a chunk *)

Definition splice (l d : list Z) (from : nat) : list Z :=
  take from l ++ d ++ drop (from + length d) l.

Lemma splice_length l d from : from + length d <= length l -> length (splice l d from) = length l.
Proof. intros. unfold splice. rewrite !length_app, length_take, length_drop. lia. Qed.

Lemma splice_lookup l d from j :
  from + length d <= length l ->
  splice l d from !! j = if decide (from <= j < from + length d) then d !! (j - from) else l !! j.
Proof.
  intros Hl. unfold splice. case_decide as Hj.
  - rewrite lookup_app_r, length_take by (rewrite length_take; lia).
    rewrite Nat.min_l by lia. by rewrite lookup_app_l by lia.
  - destruct (decide (j < from)).
    + rewrite lookup_app_l by (rewrite length_take; lia). by rewrite lookup_take_lt.
    + rewrite lookup_app_r by (rewrite length_take; lia). rewrite length_take, Nat.min_l by lia.
      rewrite lookup_app_r by lia. rewrite lookup_drop. f_equal. lia.
Qed.

Lemma write_ix_spec st c i d size :
  chunks_wf c -> Chunks.struct_size (count c) < MAX_ACCOUNT_ALLOC_PER_INSTRUCTION_SIZE ->
  (Z.of_nat size < 2 ^ 16)%Z -> a_data (acct st ckey) = to_vec c -> chunk_size c = size -> 0 < size ->
  i < count c -> i * size + length d <= length (a_data (acct st bkey)) ->
  (Z.of_nat (i * size + length d) < 2 ^ 32)%Z ->
  exists st' c',
    run st [create_write_ix authority pubkey (Z.of_nat (i * size)) d commit_id] = Ok st'
  /\ chunks_wf c' /\ count c' = count c /\ chunk_size c' = size
  /\ (forall j, j < count c -> delivered c' j = delivered c j || (j =? i)%nat)
  /\ a_data (acct st' ckey) = to_vec c'
  /\ a_data (acct st' bkey) = splice (a_data (acct st bkey)) d (i * size)
  /\ (forall k, k <> ckey -> k <> bkey -> acct st' k = acct st k)
  /\ (forall k, a_lamports (acct st' k) = a_lamports (acct st k)).
Proof.
  intros W Hst Hu16 Hc Hs Hpos Hi Hlen Hu32. destruct keys_distinct as (Hcb & _ & _).
  destruct (set_chunk_delivered_spec c W i Hi) as (c' & Hset & W' & Hcount & Hsize & Hdel).
  unfold run, create_write_ix. pose proof (verify_pda_ok true) as Hvc. pose proof (verify_pda_ok false) as Hvb.
  destruct cpda as [ck cb], bpda as [bk bb]. simpl in *. rewrite process_built.
  unfold process_write, verify_seeds_and_pdas. simpl. rewrite Hvc, Hvb. simpl.
  rewrite wrap_small by lia. unfold checked_add, u32_max.
  rewrite (proj2 (Z.leb_le _ _)) by lia. simpl.
  rewrite decide_False by lia. rewrite Nat2Z.id. rewrite decide_False by lia.
  rewrite decide_False by done. rewrite acct_set_data, decide_False by done.
  rewrite Hc, borsh_roundtrip by (apply wf_representable; congruence). simpl.
  unfold Chunks.set_offset_delivered.
  rewrite Hs. rewrite decide_False by lia. rewrite Nat.Div0.mod_mul, decide_False by lia.
  rewrite Nat.div_mul, Hset by lia. simpl. unfold copy_from_slice.
  rewrite decide_True; last first.
  { destruct W as [Hl _], W' as [Hl' _]. rewrite !borsh_length, Hl, Hl', Hcount. done. }
  simpl. eexists _, c'. split; [done|]. split_and!; try done; [congruence|..].
  - by rewrite acct_set_data, decide_True.
  - by rewrite acct_set_data, decide_False, acct_set_data, decide_True by done.
  - intros k Hk1 Hk2. by rewrite !acct_set_data, !decide_False by done.
  - intros k. rewrite acct_set_data. case_decide; [subst|]; simpl; rewrite ?acct_set_data;
      case_decide; subst; done.
Qed.

Lemma run_app st l1 l2 :
  run st (l1 ++ l2) = let? st := run st l1 in run st l2.
Proof.
  unfold run. revert st. induction l1 as [|ix l1 IH]; intros st; simpl; [done|].
  destruct (process _ _ _ _); simpl; [apply IH|done].
Qed.

(** *** Writing all chunks *)

Record upload_inv (st : store) (data : list Z) (size n : nat) (written : gset nat) (c : Chunks)
    : Prop := {
  ui_wf : chunks_wf c;
  ui_count : count c = n;
  ui_size : chunk_size c = size;
  ui_struct : Chunks.struct_size n < MAX_ACCOUNT_ALLOC_PER_INSTRUCTION_SIZE;
  ui_u16 : (Z.of_nat size < 2 ^ 16)%Z;
  ui_tracker : a_data (acct st ckey) = to_vec c;
  ui_delivered : forall i, i < n -> delivered c i = true <-> i ∈ written;
  ui_length : length (a_data (acct st bkey)) = length data;
  ui_bytes : forall j, j < length data -> j / size ∈ written ->
    a_data (acct st bkey) !! j = data !! j }.

Definition write_ixs (data : list Z) (size : nat) (l : list nat) : list Instruction :=
  (fun i => let ch := chunk_at data size i in
            create_write_ix authority pubkey (cc_offset ch) (cc_data_chunk ch) commit_id) <$> l.

Lemma chunk_at_length data size i :
  length (cc_data_chunk (chunk_at data size i)) = Nat.min size (length data - i * size).
Proof. simpl. by rewrite length_take, length_drop. Qed.

Lemma upload_step st data size n written c i :
  sizes_ok n size data -> upload_inv st data size n written c -> i < n ->
  exists st' c', run st (write_ixs data size [i]) = Ok st'
  /\ upload_inv st' data size n ({[i]} ∪ written) c'
  /\ (forall k, a_lamports (acct st' k) = a_lamports (acct st k)).
Proof.
  intros Hs U Hi. destruct U as [W Hn Hsz Hst Hu16 Ht Hd Hl Hb].
  pose proof (sizes_ok_offset _ _ _ _ Hs Hi) as Hoff. destruct Hs as (Hpos & Hsum & Hu32).
  pose proof (chunk_at_length data size i) as Hlen.
  destruct (write_ix_spec st c i (cc_data_chunk (chunk_at data size i)) size) as
    (st' & c' & Hrun & W' & Hn' & Hsz' & Hd' & Ht' & Hb' & _ & Hlam); try done; [congruence|lia|lia|lia|].
  exists st', c'. split_and!; [done| |done]. split; try done; [congruence| | |].
  - intros j Hj. rewrite Hd', orb_true_iff, Hd, Nat.eqb_eq by lia. set_solver.
  - rewrite Hb', splice_length by lia. done.
  - intros j Hj Hw. rewrite Hb', splice_lookup by lia. rewrite Hlen.
    pose proof (Nat.div_mod_eq j size). pose proof (Nat.mod_upper_bound j size ltac:(lia)).
    case_decide as Hr.
    + simpl. rewrite lookup_take_lt by lia. rewrite lookup_drop. f_equal. lia.
    + apply Hb; [done|]. assert (j / size <> i) by nia. set_solver.
Qed.

Lemma upload_chunks st data size n written c l :
  sizes_ok n size data -> upload_inv st data size n written c -> Forall (fun i => i < n) l ->
  exists st' c', run st (write_ixs data size l) = Ok st'
  /\ upload_inv st' data size n (list_to_set l ∪ written) c'
  /\ (forall k, a_lamports (acct st' k) = a_lamports (acct st k)).
Proof.
  intros Hs U Hl. revert st written c U. induction Hl as [|i l Hi Hl IH]; intros st written c U.
  { exists st, c. split_and!; [done| |done]. by rewrite list_to_set_nil, union_empty_l_L. }
  destruct (upload_step st data size n written c i Hs U Hi) as (st1 & c1 & Hr1 & U1 & Hlam1).
  destruct (IH st1 _ c1 U1) as (st2 & c2 & Hr2 & U2 & Hlam2).
  exists st2, c2. split_and!; [|by rewrite list_to_set_cons, <- union_assoc_L, (union_comm_L {[i]}), <- union_assoc_L, (union_comm_L written)|congruence].
  change (write_ixs data size (i :: l)) with (write_ixs data size [i] ++ write_ixs data size l).
  rewrite run_app, Hr1. done.
Qed.

(** *** Growing the buffer *)

Lemma realloc_ix_spec st size k :
  (0 <= size < 2 ^ 32)%Z -> (Z.of_nat (length (a_data (acct st bkey))) <= size)%Z ->
  exists st', run st [create_realloc_buffer_ix authority pubkey size commit_id k] = Ok st'
  /\ (forall k, k <> bkey -> acct st' k = acct st k)
  /\ a_lamports (acct st' bkey) = a_lamports (acct st bkey)
  /\ Z.of_nat (length (a_data (acct st' bkey))) =
       Z.min size (Z.of_nat (length (a_data (acct st bkey)))
                   + Z.of_nat MAX_ACCOUNT_ALLOC_PER_INSTRUCTION_SIZE).
Proof.
  intros Hsz Hle. unfold run, create_realloc_buffer_ix. pose proof (verify_pda_ok false) as Hvb.
  destruct bpda as [bk bb]. simpl in *. rewrite process_built. unfold process_realloc_buffer. simpl.
  pose proof max_alloc as HM.
  set (data := a_data (acct st bk)) in *. case_decide as Hd.
  { simpl. exists st. split_and!; [reflexivity..|]. fold data. lia. }
  rewrite Hvb. simpl. unfold wadd. rewrite HM. rewrite wrap_small by lia.
  rewrite resize_grows by lia. simpl. eexists. split; [done|]. split_and!.
  - intros k' Hk'. by rewrite acct_set_data, decide_False by done.
  - by rewrite acct_set_data, decide_True.
  - rewrite acct_set_data, decide_True by done. simpl. rewrite length_app, length_replicate. lia.
Qed.

Lemma realloc_ixs_spec st size (ks : list Z) :
  (0 <= size < 2 ^ 32)%Z -> (Z.of_nat (length (a_data (acct st bkey))) <= size)%Z ->
  exists st', run st ((fun k => create_realloc_buffer_ix authority pubkey size commit_id k) <$> ks) = Ok st'
  /\ (forall k, k <> bkey -> acct st' k = acct st k)
  /\ a_lamports (acct st' bkey) = a_lamports (acct st bkey)
  /\ Z.of_nat (length (a_data (acct st' bkey))) =
       Z.min size (Z.of_nat (length (a_data (acct st bkey)))
                   + Z.of_nat (length ks) * Z.of_nat MAX_ACCOUNT_ALLOC_PER_INSTRUCTION_SIZE).
Proof.
  intros Hsz. revert st. induction ks as [|k ks IH]; intros st Hle.
  { exists st. split_and!; [reflexivity..|]. cbn [length]. lia. }
  destruct (realloc_ix_spec st size k Hsz Hle) as (st1 & Hr1 & Hk1 & Hl1 & Hb1).
  destruct (IH st1) as (st2 & Hr2 & Hk2 & Hl2 & Hb2); [lia|].
  exists st2. split_and!; [|intros k' Hk'; rewrite Hk2, Hk1 by done; done|congruence|
    rewrite Hb2, Hb1; cbn [length]; lia].
  rewrite fmap_cons, <- (app_nil_l (_ <$> ks)), app_comm_cons, run_app, Hr1. done.
Qed.

(** The generated reallocs bring the buffer from its initial allocation to its
    full size. *)
Lemma create_realloc_ixs_spec st size :
  (0 <= size < 2 ^ 32)%Z ->
  Z.of_nat (length (a_data (acct st bkey))) =
    Z.min size (Z.of_nat MAX_ACCOUNT_ALLOC_PER_INSTRUCTION_SIZE) ->
  exists st', run st (create_realloc_buffer_ixs authority pubkey size commit_id) = Ok st'
  /\ (forall k, k <> bkey -> acct st' k = acct st k)
  /\ a_lamports (acct st' bkey) = a_lamports (acct st bkey)
  /\ Z.of_nat (length (a_data (acct st' bkey))) = size.
Proof.
  intros Hsz Hl. unfold create_realloc_buffer_ixs.
  pose proof max_alloc as HM.
  case_decide as Hd.
  { exists st. split_and!; [reflexivity..|]. lia. }
  unfold create_realloc_buffer_ixs_to_add_remaining. set (m := div_ceil _ _).
  assert (0 <= m /\ size - 10240 <= 10240 * m)%Z as [Hm Hc].
  { subst m. rewrite HM. pose proof (div_ceil_spec (size - 10240) 10240). pose proof (div_ceil_nonneg (size - 10240) 10240). lia. }
  destruct (realloc_ixs_spec st size ((fun i => wrap 16 (Z.of_nat i)) <$> seq 1 (Z.to_nat m)) Hsz)
    as (st' & Hr & Hk & Hlam & Hb); [lia|].
  rewrite <- list_fmap_compose in Hr. exists st'. split_and!; [done|done|done|].
  rewrite Hb, length_fmap, length_seq. lia.
Qed.

(** *** Creating the accounts *)

Lemma init_ix_spec st system_program chunk_sz buffer_sz n size :
  (0 <= buffer_sz)%Z -> chunk_sz = Z.of_nat (Chunks.struct_size n) ->
  Chunks.struct_size n < MAX_ACCOUNT_ALLOC_PER_INSTRUCTION_SIZE ->
  acct st ckey = empty_account -> acct st bkey = empty_account ->
  (0 <= minimum_balance chunk_sz)%Z -> (0 <= minimum_balance buffer_sz)%Z ->
  (minimum_balance chunk_sz + minimum_balance buffer_sz <= a_lamports (acct st authority))%Z ->
  exists st' c,
    run st [fst (fst (create_init_ix system_program authority pubkey chunk_sz buffer_sz
                        commit_id n size))] = Ok st'
  /\ chunks_wf c /\ count c = n /\ chunk_size c = size
  /\ (forall i, delivered c i = false)
  /\ acct st' ckey = mkAccountState (minimum_balance chunk_sz) (to_vec c) ID
  /\ acct st' bkey = mkAccountState (minimum_balance buffer_sz)
       (replicate (Z.to_nat (Z.min buffer_sz (Z.of_nat MAX_ACCOUNT_ALLOC_PER_INSTRUCTION_SIZE))) 0%Z) ID.
Proof.
  intros Hbs -> Hn Hc Hb Hm1 Hm2 Hfund. destruct keys_distinct as (Hcb & Hac & Hab).
  pose proof (verify_pda_ok true) as Hvc. pose proof (verify_pda_ok false) as Hvb.
  pose proof max_alloc as HM.
  unfold run, create_init_ix. destruct cpda as [ck cb], bpda as [bk bb]. cbn [fst snd] in *.
  cbn [try_fold ix_program_id ix_accounts ix_data]. rewrite process_built.
  unfold process_init. cbn [ai_key assert_is_signer ai_is_signer res_bind].
  rewrite Hvc, Hvb. cbn [res_bind].
  unfold assert_account_unallocated. cbn [ai_key]. rewrite Hc, Hb. cbn [a_data empty_account length].
  rewrite !decide_True by done. cbn [res_bind].
  rewrite create_account_ok; [|done|by rewrite Hc|by rewrite Hc|lia|lia]. cbn [res_bind].
  rewrite create_account_ok; [|done| | | |lia].
  - cbn [res_bind]. unfold Chunks.new, assert_that. rewrite (proj2 (Nat.ltb_lt _ _)) by done.
    cbn [res_bind]. set (c := mkChunks _ n size).
    assert (chunks_wf c) as Wc.
    { split; cbn [bits count c]; [by rewrite length_replicate|]. apply Forall_replicate. lia. }
    unfold copy_from_slice.
    rewrite (acct_insert_ne _ bk ck) by congruence.
    rewrite (acct_set_lamports_ne _ authority ck) by congruence.
    rewrite (acct_insert_eq _ ck). cbn [a_data].
    rewrite decide_True; last first.
    { rewrite length_replicate, Nat2Z.id, borsh_length. unfold c. cbn [bits].
      rewrite length_replicate. unfold Chunks.struct_size. lia. }
    cbn [res_bind]. eexists _, c. split; [reflexivity|].
    split; [exact Wc|]. split; [reflexivity|]. split; [reflexivity|]. split_and!.
    + intros i. unfold delivered, c. cbn [bits].
      destruct (replicate _ _ !! _) eqn:E; [|done]. apply lookup_replicate in E as [-> _]. apply Z.bits_0.
    + rewrite acct_set_data, decide_True by done.
      rewrite (acct_insert_ne _ bk ck) by congruence.
      rewrite (acct_set_lamports_ne _ authority ck) by congruence.
      by rewrite (acct_insert_eq _ ck).
    + rewrite (acct_set_data_ne _ ck bk) by congruence.
      by rewrite (acct_insert_eq _ bk).
  - rewrite acct_insert, decide_False, acct_set_lamports, decide_False by congruence. by rewrite Hb.
  - rewrite acct_insert, decide_False, acct_set_lamports, decide_False by congruence. by rewrite Hb.
  - rewrite acct_insert, decide_False, acct_set_lamports, decide_True by congruence.
    cbn [a_lamports]. lia.
Qed.

(** *** Theorems of a session *)

Lemma upload_start st c data n size :
  chunks_wf c -> count c = n -> chunk_size c = size ->
  Chunks.struct_size n < MAX_ACCOUNT_ALLOC_PER_INSTRUCTION_SIZE -> (Z.of_nat size < 2 ^ 16)%Z ->
  (forall i, delivered c i = false) -> a_data (acct st ckey) = to_vec c ->
  length (a_data (acct st bkey)) = length data -> upload_inv st data size n ∅ c.
Proof.
  intros. split; try assumption; [|intros; set_solver].
  intros i _. split; [|set_solver]. intros Hd. congruence.
Qed.

Lemma upload_finished st data size n c written :
  sizes_ok n size data -> upload_inv st data size n written c -> (forall i, i < n -> i ∈ written) ->
  a_data (acct st bkey) = data /\ Chunks.is_complete (E := unit) c = Ok true.
Proof.
  intros Hs U Hall. split.
  - apply list_eq_same_length with (length data); [done|apply (ui_length _ _ _ _ _ _ U)|].
    intros j x y Hj Hx Hy. rewrite (ui_bytes _ _ _ _ _ _ U) in Hx; [congruence|done|].
    apply Hall. destruct Hs as (? & ? & _). apply Nat.Div0.div_lt_upper_bound. lia.
  - destruct (is_complete_spec c (ui_wf _ _ _ _ _ _ U) (E := unit)) as (b & -> & Hb). f_equal.
    apply Hb. intros i Hi. rewrite (ui_count _ _ _ _ _ _ U) in Hi.
    by apply (ui_delivered _ _ _ _ _ _ U); auto.
Qed.

(** C29: uploading works in any order. Running the init instruction, the generated
    realloc instructions and one write instruction per chunk, in any order and
    with any repetitions, leaves exactly the committed data in the buffer account
    and a complete tracker in the chunks account. *)
Theorem upload_complete st system_program data n size (l : list nat) :
  let chunk_sz := Z.of_nat (Chunks.struct_size n) in
  let buffer_sz := Z.of_nat (length data) in
  sizes_ok n size data -> (Z.of_nat size < 2 ^ 16)%Z ->
  Chunks.struct_size n < MAX_ACCOUNT_ALLOC_PER_INSTRUCTION_SIZE ->
  acct st ckey = empty_account -> acct st bkey = empty_account ->
  (0 <= minimum_balance chunk_sz)%Z -> (0 <= minimum_balance buffer_sz)%Z ->
  (minimum_balance chunk_sz + minimum_balance buffer_sz <= a_lamports (acct st authority))%Z ->
  Forall (fun i => i < n) l -> (forall i, i < n -> i ∈ l) ->
  exists st' c,
    run st (fst (fst (create_init_ix system_program authority pubkey chunk_sz buffer_sz
                        commit_id n size))
            :: create_realloc_buffer_ixs authority pubkey buffer_sz commit_id
            ++ write_ixs data size l) = Ok st'
  /\ a_data (acct st' bkey) = data
  /\ a_data (acct st' ckey) = to_vec c
  /\ Chunks.is_complete (E := unit) c = Ok true.
Proof.
  intros chunk_sz buffer_sz Hs Hu16 Hst Hc Hb Hm1 Hm2 Hfund Hl Hall.
  destruct keys_distinct as (Hcb & _ & _). pose proof max_alloc as HM.
  destruct (init_ix_spec st system_program chunk_sz buffer_sz n size) as
    (st1 & c1 & Hr1 & W1 & Hn1 & Hs1 & Hd1 & Hc1 & Hb1); try assumption; [lia|reflexivity|].
  assert (Hlen1 : Z.of_nat (length (a_data (acct st1 bkey)))
    = Z.min buffer_sz (Z.of_nat MAX_ACCOUNT_ALLOC_PER_INSTRUCTION_SIZE)).
  { rewrite Hb1. cbn [a_data]. rewrite length_replicate. lia. }
  destruct (create_realloc_ixs_spec st1 buffer_sz) as (st2 & Hr2 & Hk2 & _ & Hlen2);
    [destruct Hs as (_ & _ & ?); lia|exact Hlen1|].
  assert (upload_inv st2 data size n ∅ c1) as U.
  { apply upload_start; try assumption; [by rewrite Hk2, Hc1 by done|lia]. }
  destruct (upload_chunks st2 data size n ∅ c1 l Hs U Hl) as (st3 & c3 & Hr3 & U3 & _).
  destruct (upload_finished st3 data size n c3 _ Hs U3) as [Hdata Hcomp].
  { intros i Hi. apply elem_of_union_l, elem_of_list_to_set. auto. }
  exists st3, c3. split_and!; [|exact Hdata|apply (ui_tracker _ _ _ _ _ _ U3)|exact Hcomp].
  rewrite <- (app_nil_l (_ ++ _)), app_comm_cons, run_app, Hr1. cbn [res_bind].
  rewrite run_app, Hr2. exact Hr3.
Qed.

(** Closing refunds everything: the lamports of both accounts go to the
    authority, none are created or lost, both accounts end empty, and no other
    account is touched. *)
Theorem close_refunds st :
  let total := (a_lamports (acct st authority) + a_lamports (acct st ckey)
                + a_lamports (acct st bkey))%Z in
  (0 <= a_lamports (acct st ckey))%Z -> (0 <= a_lamports (acct st bkey))%Z -> (total <= u64_max)%Z ->
  exists st', run st [create_close_ix authority pubkey commit_id] = Ok st'
  /\ a_lamports (acct st' authority) = total
  /\ (forall k, k = ckey \/ k = bkey -> a_lamports (acct st' k) = 0%Z /\ a_data (acct st' k) = [])
  /\ (forall k, k <> authority -> k <> ckey -> k <> bkey -> acct st' k = acct st k).
Proof.
  intros total H1 H2 H3. destruct keys_distinct as (Hcb & Hac & Hab). unfold total in *.
  unfold run, create_close_ix. pose proof (verify_pda_ok true) as Hvc. pose proof (verify_pda_ok false) as Hvb.
  destruct cpda as [ck cb], bpda as [bk bb]. cbn [fst snd] in *.
  cbn [try_fold ix_program_id ix_accounts ix_data]. rewrite process_built.
  unfold process_close, verify_seeds_and_pdas. cbn [ai_key assert_is_signer ai_is_signer res_bind].
  rewrite Hvc, Hvb. cbn [res_bind].
  destruct (close_one_spec st (mkAccountInfo authority true) (mkAccountInfo ck false)) as
    (st1 & -> & Ha1 & Hc1 & Ho1); cbn [ai_key] in *; [done|lia|]. cbn [res_bind].
  rewrite <- (Ho1 bk) in H2, H3 by congruence.
  destruct (close_one_spec st1 (mkAccountInfo authority true) (mkAccountInfo bk false)) as
    (st2 & -> & Ha2 & Hc2 & Ho2); cbn [ai_key] in *; [done|lia|]. cbn [res_bind].
  exists st2. split; [reflexivity|]. split_and!.
  - rewrite Ha2, Ha1, (Ho1 bk) by congruence. reflexivity.
  - intros k [->| ->]; [rewrite Ho2 by congruence; exact Hc1|exact Hc2].
  - intros k Ha Hc Hb. rewrite Ho2, Ho1 by congruence. reflexivity.
Qed.
End session.

(** *** Authorisation *)

(** [k] is the chunks or buffer address derived for [authority]. *)
Definition derived_for (authority k : Pubkey) : Prop :=
  exists chunks pubkey cid bump,
    create_program_address (seeds_with_bump chunks authority pubkey cid [bump]) ID = Some k.

Lemma verify_pda_derived a authority chunks pubkey cid bump u :
  verify_pda a (seeds_with_bump chunks authority pubkey cid [bump]) = Ok u ->
  derived_for authority (ai_key a).
Proof.
  unfold verify_pda, derived_for. intros H. destruct (create_program_address _ ID) eqn:E; [|done].
  case_decide as Hk; [|done]. rewrite Hk. eauto 6.
Qed.

Lemma close_frame st a x st' k :
  close_and_refund_authority st a x = Ok st' -> k <> ai_key a -> k <> ai_key x ->
  acct st' k = acct st k.
Proof.
  unfold close_and_refund_authority. intros H Ha Hx. apply res_bind_Ok in H as (d & _ & H).
  destruct (checked_add _ _ _); [|done]. injection H as <-.
  by rewrite !acct_set_lamports_ne, acct_set_data_ne by congruence.
Qed.

Hypothesis create_account_frame : forall st payer to l space owner st' k,
  create_account st payer to l space owner = Ok st' -> k <> payer -> k <> to ->
  acct st' k = acct st k.

Lemma process_init_frame st pid accounts pubkey cs bs cid cb bb n size st' k :
  process_init st pid accounts pubkey cs bs cid cb bb n size = Ok st' -> acct st' k <> acct st k ->
  exists a rest, accounts = a :: rest /\ ai_is_signer a = true
  /\ (k = ai_key a \/ derived_for (ai_key a) k).
Proof.
  unfold process_init. intros H Hk. destruct accounts as [|a [|c [|b [|sys [|]]]]]; try done.
  apply res_bind_Ok in H as (u1 & Hs & H). unfold assert_is_signer in Hs.
  destruct (ai_is_signer a) eqn:Hsig; [|done].
  apply res_bind_Ok in H as (u2 & Hc%verify_pda_derived & H).
  apply res_bind_Ok in H as (u3 & Hb%verify_pda_derived & H).
  apply res_bind_Ok in H as (u4 & _ & H). apply res_bind_Ok in H as (u5 & _ & H).
  apply res_bind_Ok in H as (st1 & H1 & H). apply res_bind_Ok in H as (st2 & H2 & H).
  apply res_bind_Ok in H as (ch & _ & H). apply res_bind_Ok in H as (d & _ & H). injection H as <-.
  exists a, [c; b; sys]. split_and!; [done|done|].
  destruct (decide (k = ai_key a)); [by left|]. right.
  destruct (decide (k = ai_key c)) as [->|]; [done|].
  destruct (decide (k = ai_key b)) as [->|]; [done|]. exfalso. apply Hk.
  rewrite acct_set_data_ne by congruence.
  rewrite (create_account_frame _ _ _ _ _ _ _ _ H2) by done.
  by rewrite (create_account_frame _ _ _ _ _ _ _ _ H1) by done.
Qed.

Lemma process_realloc_frame st accounts pubkey bs cid bb st' k :
  process_realloc_buffer st accounts pubkey bs cid bb = Ok st' -> acct st' k <> acct st k ->
  exists a rest, accounts = a :: rest /\ ai_is_signer a = true
  /\ (k = ai_key a \/ derived_for (ai_key a) k).
Proof.
  unfold process_realloc_buffer. intros H Hk. destruct accounts as [|a [|b [|]]]; try done.
  case_decide; [injection H as <-; done|].
  apply res_bind_Ok in H as (u1 & Hs & H). unfold assert_is_signer in Hs.
  destruct (ai_is_signer a) eqn:Hsig; [|done].
  apply res_bind_Ok in H as (u3 & Hb%verify_pda_derived & H).
  apply res_bind_Ok in H as (d & _ & H). injection H as <-.
  exists a, [b]. split_and!; [done|done|]. right.
  destruct (decide (k = ai_key b)) as [->|]; [done|]. by rewrite acct_set_data_ne in Hk by congruence.
Qed.

Lemma process_write_frame st accounts pubkey off dc cid cb bb st' k :
  process_write st accounts pubkey off dc cid cb bb = Ok st' -> acct st' k <> acct st k ->
  exists a rest, accounts = a :: rest /\ ai_is_signer a = true
  /\ (k = ai_key a \/ derived_for (ai_key a) k).
Proof.
  unfold process_write, verify_seeds_and_pdas. intros H Hk.
  destruct accounts as [|a [|c [|b [|]]]]; try done.
  apply res_bind_Ok in H as (u1 & Hs & H). unfold assert_is_signer in Hs.
  destruct (ai_is_signer a) eqn:Hsig; [|done].
  apply res_bind_Ok in H as (u2 & Hv & H). apply res_bind_Ok in Hv as (u3 & Hc%verify_pda_derived & Hb%verify_pda_derived).
  apply res_bind_Ok in H as (e & _ & H). case_decide; [done|]. case_decide; [done|].
  case_decide; [done|]. apply res_bind_Ok in H as (ch & _ & H).
  apply res_bind_Ok in H as (ch' & _ & H). apply res_bind_Ok in H as (d & _ & H). injection H as <-.
  exists a, [c; b]. split_and!; [done|done|]. right.
  destruct (decide (k = ai_key c)) as [->|]; [done|].
  destruct (decide (k = ai_key b)) as [->|]; [done|]. by rewrite !acct_set_data_ne in Hk by congruence.
Qed.

Lemma process_close_frame st accounts pubkey cid cb bb st' k :
  process_close st accounts pubkey cid cb bb = Ok st' -> acct st' k <> acct st k ->
  exists a rest, accounts = a :: rest /\ ai_is_signer a = true
  /\ (k = ai_key a \/ derived_for (ai_key a) k).
Proof.
  unfold process_close, verify_seeds_and_pdas. intros H Hk.
  destruct accounts as [|a [|c [|b [|]]]]; try done.
  apply res_bind_Ok in H as (u1 & Hs & H). unfold assert_is_signer in Hs.
  destruct (ai_is_signer a) eqn:Hsig; [|done].
  apply res_bind_Ok in H as (u2 & Hv & H). apply res_bind_Ok in Hv as (u3 & Hc%verify_pda_derived & Hb%verify_pda_derived).
  apply res_bind_Ok in H as (st1 & H1 & H2).
  exists a, [c; b]. split_and!; [done|done|].
  destruct (decide (k = ai_key a)); [by left|]. right.
  destruct (decide (k = ai_key c)) as [->|]; [done|].
  destruct (decide (k = ai_key b)) as [->|]; [done|]. exfalso. apply Hk.
  rewrite (close_frame _ _ _ _ _ H2) by done. by rewrite (close_frame _ _ _ _ _ H1) by done.
Qed.

(** C30: the program only acts for a signing authority: whatever instruction and
    accounts it is given, an account changes only if the first account signed and
    the changed account is that authority or an address derived for it. *)
Theorem process_authorised st program_id accounts data st' k :
  process st program_id accounts data = Ok st' -> acct st' k <> acct st k ->
  program_id = ID /\ exists a rest, accounts = a :: rest /\ ai_is_signer a = true
  /\ (k = ai_key a \/ derived_for (ai_key a) k).
Proof.
  unfold process. intros H Hk. apply res_bind_Ok in H as (u & Hid & H).
  unfold assert_program_id in Hid. case_decide as Hp; [|done]. split; [done|].
  apply res_bind_Ok in H as (ix & _ & H).
  destruct ix; eauto using process_init_frame, process_realloc_frame, process_write_frame,
    process_close_frame.
Qed.
End program.

(** ** A concrete runtime

    Instances of the parameters: the Borsh layout of the tracker, a growing
    [resize] and the system program's account creation. *)

Module Concrete.

Definition key_of (s : list Seed) : N :=
  match s with _ :: SLabel chunks :: _ => if chunks then 101 else 102 | _ => 0 end%N.
Definition create_address (s : list Seed) (p : Pubkey) : option Pubkey := Some (key_of s).
Definition find_address (s : list Seed) (p : Pubkey) : Pubkey * Z := (key_of s, 255%Z).

Definition chunks_to_vec (c : Chunks) : list Z :=
  to_le_bytes 4 (Z.of_nat (length (bits c))) ++ bits c
  ++ to_le_bytes 8 (Z.of_nat (count c)) ++ to_le_bytes 2 (Z.of_nat (chunk_size c)).

Definition chunks_from_slice (d : list Z) : option Chunks :=
  let n := Z.to_nat (from_le_bytes (take 4 d)) in
  if decide (length d = 4 + n + 8 + 2) then
    Some (mkChunks (take n (drop 4 d))
            (Z.to_nat (from_le_bytes (take 8 (drop (4 + n) d))))
            (Z.to_nat (from_le_bytes (drop (4 + n + 8) d))))
  else None.

Definition encode_ix (ix : CommittorInstruction) : list Z :=
  match ix with
  | Init k a b c d e n s => [0; Z.of_N k; a; b; c; d; e; Z.of_nat n; Z.of_nat s]
  | ReallocBuffer k a b c d => [1; Z.of_N k; a; b; c; d]
  | Write k a b c d l => 2 :: Z.of_N k :: a :: b :: c :: d :: l
  | Close k a b c => [3; Z.of_N k; a; b; c]
  end%Z.

Definition decode_ix (d : list Z) : option CommittorInstruction :=
  match d with
  | [0; k; a; b; c; d; e; n; s] => Some (Init (Z.to_N k) a b c d e (Z.to_nat n) (Z.to_nat s))
  | [1; k; a; b; c; d] => Some (ReallocBuffer (Z.to_N k) a b c d)
  | 2 :: k :: a :: b :: c :: d :: l => Some (Write (Z.to_N k) a b c d l)
  | [3; k; a; b; c] => Some (Close (Z.to_N k) a b c)
  | _ => None
  end%Z.

Definition rent (size : Z) : Z := ((128 + size) * 6960)%Z.

Definition resize_data (d : list Z) (n : nat) : PResult (list Z) :=
  if decide (n <= length d + MAX_ACCOUNT_ALLOC_PER_INSTRUCTION_SIZE)
  then Ok (take n d ++ replicate (n - length d) 0%Z) else raise (PE_External 1).

Definition system_create (st : store) (payer to : Pubkey) (l space : Z) (owner : Pubkey)
    : PResult store :=
  if decide (payer <> to /\ a_lamports (acct st to) = 0%Z /\ a_data (acct st to) = []
             /\ (0 <= l <= a_lamports (acct st payer))%Z)
  then Ok (<[to := mkAccountState l (replicate (Z.to_nat space) 0%Z) owner]>
             (set_lamports st payer (a_lamports (acct st payer) - l)))
  else raise (PE_External 0).

Lemma find_creates s p k b :
  find_address s p = (k, b) -> create_address (s ++ [SBytes [b]]) p = Some k.
Proof.
  unfold find_address, create_address. intros [= <- <-]. f_equal.
  destruct s as [|x [|[] s]]; done.
Qed.

Lemma codec ix : decode_ix (encode_ix ix) = Some ix.
Proof. destruct ix; simpl; by rewrite ?N2Z.id, ?Nat2Z.id. Qed.

Lemma borsh_length c : length (chunks_to_vec c) = 4 + length (bits c) + 8 + 2.
Proof. unfold chunks_to_vec. rewrite !length_app, !to_le_bytes_length. lia. Qed.

Lemma borsh_roundtrip c : representable c -> chunks_from_slice (chunks_to_vec c) = Some c.
Proof.
  intros (_ & Hb & Hn & Hs). unfold chunks_from_slice.
  assert (Ht : take 4 (chunks_to_vec c) = to_le_bytes 4 (Z.of_nat (length (bits c)))).
  { unfold chunks_to_vec. by rewrite take_app_length' by (by rewrite to_le_bytes_length). }
  rewrite Ht, from_to_le_bytes by (change (256 ^ Z.of_nat 4)%Z with (2 ^ 32)%Z; lia).
  rewrite Nat2Z.id, decide_True by apply borsh_length. unfold chunks_to_vec.
  rewrite (drop_app_length' (to_le_bytes 4 _)) by (by rewrite to_le_bytes_length).
  rewrite take_app_length. f_equal. destruct c as [bs n sz]. cbn [bits count chunk_size] in *.
  assert (Hd : drop (4 + length bs) (to_le_bytes 4 (Z.of_nat (length bs)) ++ bs
      ++ to_le_bytes 8 (Z.of_nat n) ++ to_le_bytes 2 (Z.of_nat sz))
    = to_le_bytes 8 (Z.of_nat n) ++ to_le_bytes 2 (Z.of_nat sz)).
  { rewrite app_assoc, drop_app_length'; [done|]. by rewrite length_app, to_le_bytes_length. }
  rewrite <- (drop_drop _ _ (4 + length bs)), Hd.
  rewrite take_app_length', drop_app_length' by (by rewrite to_le_bytes_length).
  rewrite !from_to_le_bytes, !Nat2Z.id; [done| |].
  - change (256 ^ Z.of_nat 2)%Z with (2 ^ 16)%Z. lia.
  - change (256 ^ Z.of_nat 8)%Z with (2 ^ 64)%Z. lia.
Qed.

Lemma resize_grows d n :
  length d <= n <= length d + MAX_ACCOUNT_ALLOC_PER_INSTRUCTION_SIZE ->
  resize_data d n = Ok (d ++ replicate (n - length d) 0%Z).
Proof. intros Hn. unfold resize_data. rewrite decide_True, take_ge by lia. done. Qed.

Lemma resize_closes d : resize_data d 0 = Ok [].
Proof. unfold resize_data. by rewrite decide_True by lia. Qed.

Lemma create_ok st payer to l space owner :
  payer <> to -> a_lamports (acct st to) = 0%Z -> a_data (acct st to) = [] ->
  (0 <= l <= a_lamports (acct st payer))%Z ->
  (0 <= space <= Z.of_nat MAX_ACCOUNT_ALLOC_PER_INSTRUCTION_SIZE)%Z ->
  system_create st payer to l space owner =
  Ok (<[to := mkAccountState l (replicate (Z.to_nat space) 0%Z) owner]>
        (set_lamports st payer (a_lamports (acct st payer) - l))).
Proof. intros. unfold system_create. by rewrite decide_True. Qed.

Lemma create_frame st payer to l space owner st' k :
  system_create st payer to l space owner = Ok st' -> k <> payer -> k <> to -> acct st' k = acct st k.
Proof.
  unfold system_create. intros H Hp Ht. case_decide; [|done]. injection H as <-.
  by rewrite acct_insert_ne, acct_set_lamports_ne by congruence.
Qed.

(** The authority has funds; the two derived accounts do not exist. *)
Definition genesis : store := {[7%N := mkAccountState 1000000000 [] 0]}.

Lemma genesis_keys :
  fst (pda 9 find_address true 7 5 (to_le_bytes 8 1)) <> fst (pda 9 find_address false 7 5 (to_le_bytes 8 1))
  /\ 7%N <> fst (pda 9 find_address true 7 5 (to_le_bytes 8 1))
  /\ 7%N <> fst (pda 9 find_address false 7 5 (to_le_bytes 8 1)).
Proof. by vm_compute. Qed.

End Concrete.
Import Concrete.

Lemma upload_complete_witness :
  exists st' c,
    run 9 create_address chunks_to_vec chunks_from_slice decode_ix rent resize_data system_create
      genesis
      (fst (fst (create_init_ix 9 find_address encode_ix 0 7 5 15 5 1 3 2))
       :: create_realloc_buffer_ixs 9 find_address encode_ix 7 5 5 1
       ++ write_ixs 9 find_address encode_ix 7 5 1 [1; 2; 3; 4; 5]%Z 2 [2; 0; 1; 0]) = Ok st'
  /\ a_data (acct st' 102) = [1; 2; 3; 4; 5]%Z
  /\ a_data (acct st' 101) = chunks_to_vec c
  /\ Chunks.is_complete (E := unit) c = Ok true.
Proof.
  apply (upload_complete 9 create_address find_address chunks_to_vec chunks_from_slice encode_ix
           decode_ix rent resize_data system_create find_creates codec borsh_roundtrip borsh_length
           resize_grows resize_closes create_ok 7 5 1 genesis_keys genesis 0 [1; 2; 3; 4; 5]%Z 3 2 [2; 0; 1; 0]).
  - repeat split; simpl; lia.
  - lia.
  - apply Nat.ltb_lt. by vm_compute.
  - by vm_compute.
  - by vm_compute.
  - by vm_compute.
  - by vm_compute.
  - by vm_compute.
  - repeat constructor; lia.
  - intros [|[|[|i]]] Hi; [set_solver..|lia].
Defined.

Lemma close_refunds_witness :
  let st := {[7%N := mkAccountState 10 [] 0; 101%N := mkAccountState 20 [1%Z] 9;
              102%N := mkAccountState 30 [2%Z] 9]} in
  exists st',
    run 9 create_address chunks_to_vec chunks_from_slice decode_ix rent resize_data system_create
      st [create_close_ix 9 find_address encode_ix 7 5 1] = Ok st'
  /\ a_lamports (acct st' 7) = 60%Z.
Proof.
  intros st.
  destruct (close_refunds 9 create_address find_address chunks_to_vec chunks_from_slice encode_ix
              decode_ix rent resize_data system_create find_creates codec resize_closes 7 5 1
              genesis_keys st) as (st' & ? & ? & _); [by vm_compute..|].
  exists st'. split; [done|]. done.
Defined.

Lemma process_authorised_witness :
  9%N = 9%N /\ exists a rest,
    [mkAccountInfo 7 true; mkAccountInfo 101 false; mkAccountInfo 102 false] = a :: rest
    /\ ai_is_signer a = true
    /\ (7%N = ai_key a \/ derived_for 9 create_address (ai_key a) 7).
Proof.
  set (st := {[7%N := mkAccountState 10 [] 0; 101%N := mkAccountState 20 [1%Z] 9]} : store).
  set (ix := create_close_ix 9 find_address encode_ix 7 5 1).
  set (r := process 9 create_address chunks_to_vec chunks_from_slice decode_ix rent resize_data
              system_create st 9 (ix_accounts ix) (ix_data ix)).
  assert (exists st', r = Ok st' /\ a_lamports (acct st' 7) = 30%Z) as (st' & Hr & Hl).
  { vm_compute. eexists. split; reflexivity. }
  apply (process_authorised 9 create_address chunks_to_vec chunks_from_slice decode_ix rent
           resize_data system_create create_frame st 9 (ix_accounts ix) (ix_data ix) st' 7 Hr).
  intros Heq. rewrite Heq in Hl. vm_compute in Hl. discriminate.
Defined.
