(* ===== verification/Ephemeral.v ===== *)
(** * Ephemeral accounts

    [programs/magic-program/src/ephemeral_accounts/]: accounts whose rent is
    deposited by a sponsor in a shared vault on creation and refunded on close
    ([mod.rs], [validation.rs], [process_create.rs], [process_resize.rs],
    [process_close.rs]), with the rent of [programs/magic-interface/src/ephemeral.rs]. *)

From stdpp Require Import base gmap sets list relations.
From Stdlib Require Import ZArith Lia.
From S2P Require Import Prelude Intent Runtime.

Local Open Scope Z_scope.

Definition EPHEMERAL_RENT_PER_BYTE : Z := 32.
Definition EPHEMERAL_ACCOUNT_STATIC_SIZE : Z := 60.
Definition MAX_DATA_LEN : Z := 10 * 1024 * 1024.
Definition SPONSOR_IDX : nat := 0.
Definition EPHEMERAL_IDX : nat := 1.
Definition VAULT_IDX : nat := 2.

Definition checked_mul (max a b : Z) : option Z := if a * b <=? max then Some (a * b) else None.

Definition rent_for (data_len : Z) : IResult Z :=
  let? total_size :=
    ok_or (checked_add u64_max data_len EPHEMERAL_ACCOUNT_STATIC_SIZE) ArithmeticOverflow in
  ok_or (checked_mul u64_max total_size EPHEMERAL_RENT_PER_BYTE) ArithmeticOverflow.

(** [x as i64] and wrapping [i64] arithmetic. *)
Definition as_i64 (x : Z) : Z := (x + 2 ^ 63) mod 2 ^ 64 - 2 ^ 63.

Section processors.
Context (lifecycle : AccountMode -> AccountMode -> bool).

Definition get_ephemeral_data_len (t : accounts) (ephemeral : Pubkey) : IResult Z :=
  let len := Z.of_nat (length (sa_data (account t ephemeral))) in
  if len <=? u32_max then Ok len else Err ArithmeticOverflow.

Definition transfer_rent (ic : InvokeContext) (t : accounts) (amount : Z) : IResult accounts :=
  if 0 <? amount then
    let? t := debit_instruction_account_at_index ic t SPONSOR_IDX amount in
    credit_instruction_account_at_index ic t VAULT_IDX amount
  else
    let abs := Z.abs amount in
    let? t := credit_instruction_account_at_index ic t SPONSOR_IDX abs in
    debit_instruction_account_at_index ic t VAULT_IDX abs.

Definition validate_common (ic : InvokeContext) : IResult Pubkey :=
  let? caller := ok_or (ic_caller ic) IncorrectProgramId in
  let? signer := is_instruction_account_signer ic SPONSOR_IDX in
  if negb signer then Err MissingRequiredSignature
  else
    let? vault := get_instruction_pubkey_with_idx ic VAULT_IDX in
    if decide (vault <> EPHEMERAL_VAULT_PUBKEY) then Err InvalidAccountData else Ok caller.

Definition validate_new_ephemeral (ic : InvokeContext) (t : accounts) : IResult Pubkey :=
  let? signer := is_instruction_account_signer ic EPHEMERAL_IDX in
  if negb signer then Err MissingRequiredSignature
  else
    let? k := get_instruction_pubkey_with_idx ic EPHEMERAL_IDX in
    let acc := account t k in
    if decide (sa_lamports acc <> 0 \/ sa_owner acc <> system_program_id)
    then Err InvalidAccountData else Ok k.

Definition validate_existing_ephemeral (ic : InvokeContext) (t : accounts)
    (caller_program_id : Pubkey) : IResult Pubkey :=
  let? k := get_instruction_pubkey_with_idx ic EPHEMERAL_IDX in
  let acc := account t k in
  if decide (sa_mode acc <> Magic \/ sa_rent_funded acc = false) then Err InvalidAccountData
  else if decide (sa_owner acc <> caller_program_id) then Err InvalidAccountOwner
  else Ok k.

Definition process_create_ephemeral_account (ic : InvokeContext) (t : accounts) (data_len : Z)
    : IResult accounts :=
  if MAX_DATA_LEN <? data_len then Err InvalidArgument
  else
    let? caller_program_id := validate_common ic in
    let? ephemeral := validate_new_ephemeral ic t in
    let? rent := rent_for data_len in
    let? t := transfer_rent ic t (as_i64 rent) in
    let acc := with_lamports 0 (account t ephemeral) in
    let acc := with_owner caller_program_id acc in
    let acc := with_data (resize_zero (Z.to_nat data_len) (sa_data acc)) acc in
    let? acc := set_account_mode lifecycle acc Magic in
    Ok (put t ephemeral (with_rent_funded true acc)).

Definition process_resize_ephemeral_account (ic : InvokeContext) (t : accounts) (new_data_len : Z)
    : IResult accounts :=
  if MAX_DATA_LEN <? new_data_len then Err InvalidArgument
  else
    let? caller_program_id := validate_common ic in
    let? ephemeral := validate_existing_ephemeral ic t caller_program_id in
    let? old_len := get_ephemeral_data_len t ephemeral in
    let? new_rent := rent_for new_data_len in
    let? old_rent := rent_for old_len in
    let delta := as_i64 (as_i64 new_rent - as_i64 old_rent) in
    let? t := transfer_rent ic t delta in
    let acc := account t ephemeral in
    Ok (put t ephemeral (with_data (resize_zero (Z.to_nat new_data_len) (sa_data acc)) acc)).

Definition process_close_ephemeral_account (ic : InvokeContext) (t : accounts) : IResult accounts :=
  let? caller_program_id := validate_common ic in
  let? ephemeral := validate_existing_ephemeral ic t caller_program_id in
  let? data_len := get_ephemeral_data_len t ephemeral in
  let? refund := rent_for data_len in
  let? t := transfer_rent ic t (as_i64 (- as_i64 refund)) in
  let acc := with_lamports 0 (account t ephemeral) in
  let acc := with_owner system_program_id acc in
  let acc := with_data (resize_zero 0 (sa_data acc)) acc in
  let? acc := set_account_mode lifecycle acc Closed in
  Ok (put t ephemeral (with_rent_funded false acc)).

(** ** Rent *)

Definition rent (len : Z) : Z := (len + EPHEMERAL_ACCOUNT_STATIC_SIZE) * EPHEMERAL_RENT_PER_BYTE.

Lemma rent_for_ok len : 0 <= len <= u32_max -> rent_for len = Ok (rent len).
Proof.
  intros Hl. unfold rent_for, checked_add, checked_mul, rent, u32_max, u64_max,
    EPHEMERAL_ACCOUNT_STATIC_SIZE, EPHEMERAL_RENT_PER_BYTE in *.
  rewrite (proj2 (Z.leb_le _ _)) by lia. simpl. rewrite (proj2 (Z.leb_le _ _)) by lia. done.
Qed.

Lemma rent_bound len : 0 <= len <= u32_max -> 0 < rent len < 2 ^ 40.
Proof.
  unfold rent, u32_max, EPHEMERAL_ACCOUNT_STATIC_SIZE, EPHEMERAL_RENT_PER_BYTE. lia.
Qed.

Lemma as_i64_small x : - 2 ^ 63 <= x < 2 ^ 63 -> as_i64 x = x.
Proof. intros. unfold as_i64. rewrite Z.mod_small; lia. Qed.

(** The deposit an account is entitled to. *)
Definition deposit (a : SharedAccount) : Z :=
  if decide (sa_mode a = Magic /\ sa_rent_funded a = true)
  then rent (Z.of_nat (length (sa_data a))) else 0.

Definition deposits (t : accounts) : Z := total deposit t.

Lemma deposit_nonneg a : 0 <= deposit a.
Proof.
  unfold deposit, rent, EPHEMERAL_ACCOUNT_STATIC_SIZE, EPHEMERAL_RENT_PER_BYTE. case_decide; lia.
Qed.

Lemma deposit_with_lamports l a : deposit (with_lamports l a) = deposit a.
Proof. done. Qed.

Lemma deposits_put t k a : deposits (put t k a) = deposits t - deposit (account t k) + deposit a.
Proof. apply total_put. done. Qed.

(** The vault covers every refund, and is itself not refundable. *)
Definition vault_covers (t : accounts) : Prop :=
  deposits t <= sa_lamports (account t EPHEMERAL_VAULT_PUBKEY)
  /\ deposit (account t EPHEMERAL_VAULT_PUBKEY) = 0.

(** ** Moving rent *)

(** What a successful [transfer_rent] does: only lamports of the sponsor and
    the vault change, and by opposite amounts. *)
Lemma transfer_rent_spec ic t amount t' s :
  transfer_rent ic t amount = Ok t' ->
  get_instruction_pubkey_with_idx ic SPONSOR_IDX = Ok s ->
  get_instruction_pubkey_with_idx ic VAULT_IDX = Ok EPHEMERAL_VAULT_PUBKEY ->
  s <> EPHEMERAL_VAULT_PUBKEY ->
  t' = put (put t s (with_lamports (sa_lamports (account t s) - amount) (account t s)))
         EPHEMERAL_VAULT_PUBKEY
         (with_lamports (sa_lamports (account t EPHEMERAL_VAULT_PUBKEY) + amount)
            (account t EPHEMERAL_VAULT_PUBKEY))
  /\ amount <= Z.max 0 (sa_lamports (account t s)).
Proof.
  intros H Hs Hv Hne. unfold transfer_rent in H.
  unfold debit_instruction_account_at_index, credit_instruction_account_at_index in H.
  rewrite Hs, Hv in H. destruct (Z.ltb_spec 0 amount) as [Hpos|Hpos].
  - cbn [res_bind] in H. apply res_bind_Ok in H as (t1 & H1 & H2).
    apply res_bind_Ok in H1 as (l & Hl & [= <-]). apply ok_or_Ok, checked_sub_Some in Hl as [? ->].
    rewrite account_put_ne in H2 by done.
    apply res_bind_Ok in H2 as (l2 & Hl2 & [= <-]). apply ok_or_Ok, checked_add_Some in Hl2 as [? ->].
    split; [done|lia].
  - cbn [res_bind] in H. apply res_bind_Ok in H as (t1 & H1 & H2).
    apply res_bind_Ok in H1 as (l & Hl & [= <-]). apply ok_or_Ok, checked_add_Some in Hl as [? ->].
    rewrite account_put_ne in H2 by done.
    apply res_bind_Ok in H2 as (l2 & Hl2 & [= <-]). apply ok_or_Ok, checked_sub_Some in Hl2 as [? ->].
    split; [do 3 f_equal; lia|lia].
Qed.

Section moved.
Context (t : accounts) (s : Pubkey) (amount : Z).
Hypothesis Hne : s <> EPHEMERAL_VAULT_PUBKEY.
Local Abbreviation moved :=
  (put (put t s (with_lamports (sa_lamports (account t s) - amount) (account t s)))
     EPHEMERAL_VAULT_PUBKEY
     (with_lamports (sa_lamports (account t EPHEMERAL_VAULT_PUBKEY) + amount)
        (account t EPHEMERAL_VAULT_PUBKEY))).

(** Moving rent changes lamports only. *)
Lemma moved_account k :
  exists l, account moved k = with_lamports l (account t k)
  /\ (k <> s -> k <> EPHEMERAL_VAULT_PUBKEY -> l = sa_lamports (account t k)).
Proof.
  destruct (decide (EPHEMERAL_VAULT_PUBKEY = k)) as [<-|Hv].
  { rewrite account_put_eq. eexists. split; [done|]. done. }
  rewrite account_put_ne by done. destruct (decide (s = k)) as [<-|Hs].
  { rewrite account_put_eq. eexists. split; [done|]. done. }
  rewrite account_put_ne by done. exists (sa_lamports (account t k)). split; [|done].
  by destruct (account t k).
Qed.

Lemma moved_deposits : deposits moved = deposits t.
Proof.
  rewrite !deposits_put, account_put_ne by done. rewrite !deposit_with_lamports. lia.
Qed.

Lemma moved_total : total_lamports moved = total_lamports t.
Proof. rewrite !total_lamports_put, account_put_ne by done. simpl. lia. Qed.

Lemma moved_vault :
  sa_lamports (account moved EPHEMERAL_VAULT_PUBKEY)
  = sa_lamports (account t EPHEMERAL_VAULT_PUBKEY) + amount.
Proof. by rewrite account_put_eq. Qed.
End moved.

(** ** The checks *)

Lemma validate_common_Ok ic caller :
  validate_common ic = Ok caller ->
  ic_caller ic = Some caller
  /\ (exists m, ic_metas ic !! SPONSOR_IDX = Some m /\ im_signer m = true)
  /\ get_instruction_pubkey_with_idx ic VAULT_IDX = Ok EPHEMERAL_VAULT_PUBKEY.
Proof.
  unfold validate_common, is_instruction_account_signer, get_meta. intros H.
  apply res_bind_Ok in H as (c & Hc%ok_or_Ok & H). apply res_bind_Ok in H as (b & Hb & H).
  apply res_bind_Ok in Hb as (m & Hm%ok_or_Ok & [= <-]).
  destruct (im_signer m) eqn:Hsig; [|done]. simpl in H.
  apply res_bind_Ok in H as (v & Hv & H). case_decide as Hd; [done|]. injection H as <-.
  subst v. eauto.
Qed.

Lemma validate_new_Ok ic t k :
  validate_new_ephemeral ic t = Ok k ->
  (exists m, ic_metas ic !! EPHEMERAL_IDX = Some m /\ im_signer m = true /\ im_pubkey m = k)
  /\ sa_lamports (account t k) = 0 /\ sa_owner (account t k) = system_program_id.
Proof.
  unfold validate_new_ephemeral, is_instruction_account_signer, get_instruction_pubkey_with_idx, get_meta.
  intros H. apply res_bind_Ok in H as (b & Hb & H).
  apply res_bind_Ok in Hb as (m & Hm%ok_or_Ok & [= <-]). rewrite Hm in H.
  destruct (im_signer m) eqn:Hsig; [|done]. simpl in H. case_decide as Hd; [done|].
  injection H as <-. apply not_or in Hd as [Ha%dec_stable Hb%dec_stable]. split; [by exists m|done].
Qed.

Lemma validate_existing_Ok ic t caller k :
  validate_existing_ephemeral ic t caller = Ok k ->
  get_instruction_pubkey_with_idx ic EPHEMERAL_IDX = Ok k
  /\ sa_mode (account t k) = Magic /\ sa_rent_funded (account t k) = true
  /\ sa_owner (account t k) = caller.
Proof.
  unfold validate_existing_ephemeral. intros H. apply res_bind_Ok in H as (k' & Hk & H).
  case_decide as Hd; [done|]. case_decide as Ho; [done|]. injection H as <-.
  apply not_or in Hd as [Ha%dec_stable Hb%not_false_is_true]. done.
Qed.

(** A context whose signers do not include the vault address. *)
Definition vault_never_signs (ic : InvokeContext) : Prop :=
  forall i m, ic_metas ic !! i = Some m -> im_signer m = true -> im_pubkey m <> EPHEMERAL_VAULT_PUBKEY.

Lemma sponsor_key ic caller :
  vault_never_signs ic -> validate_common ic = Ok caller ->
  exists s, get_instruction_pubkey_with_idx ic SPONSOR_IDX = Ok s /\ s <> EPHEMERAL_VAULT_PUBKEY.
Proof.
  intros Hv (_ & (m & Hm & Hsig) & _)%validate_common_Ok. exists (im_pubkey m).
  unfold get_instruction_pubkey_with_idx, get_meta. rewrite Hm. split; [done|]. eauto.
Qed.

(** ** What the instructions do *)

Lemma create_spec ic t data_len t' :
  vault_never_signs ic -> 0 <= data_len -> process_create_ephemeral_account ic t data_len = Ok t' ->
  total_lamports t' = total_lamports t
  /\ (vault_covers t -> vault_covers t')
  /\ exists k, get_instruction_pubkey_with_idx ic EPHEMERAL_IDX = Ok k
     /\ sa_mode (account t' k) = Magic /\ sa_rent_funded (account t' k) = true
     /\ sa_lamports (account t' k) = 0 /\ Some (sa_owner (account t' k)) = ic_caller ic
     /\ Z.of_nat (length (sa_data (account t' k))) = data_len.
Proof.
  intros Hvs Hpos H. unfold process_create_ephemeral_account in H.
  destruct (Z.ltb_spec MAX_DATA_LEN data_len) as [|Hmax]; [done|].
  assert (Hlen : 0 <= data_len <= u32_max) by (unfold MAX_DATA_LEN, u32_max in *; lia).
  apply res_bind_Ok in H as (caller & Hc & H). apply res_bind_Ok in H as (k & Hk & H).
  destruct (sponsor_key ic caller Hvs Hc) as (s & Hs & Hsv).
  apply validate_common_Ok in Hc as (Hcaller & _ & Hv).
  apply validate_new_Ok in Hk as ((m & Hm & Hsig & <-) & Hl0 & _). set (k := im_pubkey m) in *.
  assert (k <> EPHEMERAL_VAULT_PUBKEY) as Hkv by eauto.
  rewrite rent_for_ok in H by done. pose proof (rent_bound data_len Hlen) as Hrent.
  cbn [res_bind] in H. rewrite as_i64_small in H by lia.
  apply res_bind_Ok in H as (t1 & Ht & H).
  destruct (transfer_rent_spec _ _ _ _ _ Ht Hs Hv Hsv) as [-> Hle].
  assert (s <> k) as Hsk by (intros ->; lia).
  apply res_bind_Ok in H as (acc & Hacc & [= <-]). unfold set_account_mode in Hacc.
  destruct (moved_account t s (rent data_len) k) as (l & Hk1 & Hkl). rewrite Hk1 in Hacc.
  rewrite (Hkl ltac:(done) Hkv) in Hk1. clear Hkl.
  destruct (lifecycle _ _); [|done]. injection Hacc as <-. split_and!.
  - rewrite total_lamports_put, moved_total, Hk1 by done. simpl. lia.
  - intros [Hcov Hv0]. split.
    + rewrite deposits_put, moved_deposits, Hk1, deposit_with_lamports by done.
      rewrite (account_put_ne _ k), moved_vault by done.
      pose proof (deposit_nonneg (account t k)). unfold deposit at 2. rewrite decide_True by done.
      simpl. unfold resize_zero. rewrite length_app, length_take, length_replicate.
      replace (Z.of_nat _) with data_len by lia. lia.
    + rewrite account_put_ne, account_put_eq by done. done.
  - exists k. rewrite account_put_eq. unfold get_instruction_pubkey_with_idx, get_meta.
    rewrite Hm. split_and!; try done. simpl. unfold resize_zero.
    rewrite length_app, length_take, length_replicate. lia.
Qed.

Lemma resize_spec ic t new_len t' :
  vault_never_signs ic -> 0 <= new_len -> deposit (account t EPHEMERAL_VAULT_PUBKEY) = 0 ->
  process_resize_ephemeral_account ic t new_len = Ok t' ->
  total_lamports t' = total_lamports t
  /\ (vault_covers t -> vault_covers t')
  /\ exists k, get_instruction_pubkey_with_idx ic EPHEMERAL_IDX = Ok k
     /\ Z.of_nat (length (sa_data (account t' k))) = new_len.
Proof.
  intros Hvs Hpos Hv0 H. unfold process_resize_ephemeral_account in H.
  destruct (Z.ltb_spec MAX_DATA_LEN new_len) as [|Hmax]; [done|].
  assert (Hlen : 0 <= new_len <= u32_max) by (unfold MAX_DATA_LEN, u32_max in *; lia).
  apply res_bind_Ok in H as (caller & Hc & H). apply res_bind_Ok in H as (k & Hk & H).
  destruct (sponsor_key ic caller Hvs Hc) as (s & Hs & Hsv).
  apply validate_common_Ok in Hc as (_ & _ & Hv).
  apply validate_existing_Ok in Hk as (Hkey & Hmode & Hfund & _).
  apply res_bind_Ok in H as (old_len & Hold & H). unfold get_ephemeral_data_len in Hold.
  destruct (Z.leb_spec (Z.of_nat (length (sa_data (account t k)))) u32_max) as [Hu|]; [|done].
  injection Hold as <-. set (old_len := Z.of_nat _) in *.
  assert (deposit (account t k) = rent old_len) as Hdep by (unfold deposit; by rewrite decide_True).
  assert (k <> EPHEMERAL_VAULT_PUBKEY) as Hkv.
  { intros ->. rewrite Hv0 in Hdep. pose proof (rent_bound old_len). lia. }
  rewrite !rent_for_ok in H by lia. pose proof (rent_bound new_len Hlen) as Hr1.
  pose proof (rent_bound old_len ltac:(lia)) as Hr2. cbn [res_bind] in H.
  rewrite !as_i64_small in H by (try (rewrite !as_i64_small); lia).
  apply res_bind_Ok in H as (t1 & Ht & [= <-]).
  destruct (transfer_rent_spec _ _ _ _ _ Ht Hs Hv Hsv) as [-> _].
  destruct (moved_account t s (rent new_len - rent old_len) k) as (l & Hk1 & _).
  split_and!.
  - rewrite total_lamports_put, moved_total by done. simpl. lia.
  - intros [Hcov _]. split.
    + rewrite deposits_put, moved_deposits, (account_put_ne _ k), moved_vault by done.
      rewrite Hk1, deposit_with_lamports, Hdep. unfold deposit. rewrite decide_True by done.
      simpl. unfold resize_zero. rewrite length_app, length_take, length_replicate.
      replace (Z.of_nat (_ + _)) with new_len by lia. lia.
    + rewrite account_put_ne, account_put_eq by done. done.
  - exists k. rewrite account_put_eq. split; [done|]. rewrite Hk1. simpl. unfold resize_zero.
    rewrite length_app, length_take, length_replicate. lia.
Qed.

Lemma close_spec ic t t' :
  vault_never_signs ic -> deposit (account t EPHEMERAL_VAULT_PUBKEY) = 0 ->
  process_close_ephemeral_account ic t = Ok t' ->
  (vault_covers t -> vault_covers t')
  /\ exists k s, get_instruction_pubkey_with_idx ic EPHEMERAL_IDX = Ok k
     /\ get_instruction_pubkey_with_idx ic SPONSOR_IDX = Ok s
     /\ (k <> s -> sa_lamports (account t k) = 0 -> total_lamports t' = total_lamports t
                   /\ sa_lamports (account t' s) = sa_lamports (account t s) + deposit (account t k))
     /\ sa_data (account t' k) = [] /\ deposit (account t' k) = 0.
Proof.
  intros Hvs Hv0 H. unfold process_close_ephemeral_account in H.
  apply res_bind_Ok in H as (caller & Hc & H). apply res_bind_Ok in H as (k & Hk & H).
  destruct (sponsor_key ic caller Hvs Hc) as (s & Hs & Hsv).
  apply validate_common_Ok in Hc as (_ & _ & Hv).
  apply validate_existing_Ok in Hk as (Hkey & Hmode & Hfund & _).
  apply res_bind_Ok in H as (old_len & Hold & H). unfold get_ephemeral_data_len in Hold.
  destruct (Z.leb_spec (Z.of_nat (length (sa_data (account t k)))) u32_max) as [Hu|]; [|done].
  injection Hold as <-. set (old_len := Z.of_nat _) in *.
  assert (deposit (account t k) = rent old_len) as Hdep by (unfold deposit; by rewrite decide_True).
  pose proof (rent_bound old_len ltac:(lia)) as Hr.
  assert (k <> EPHEMERAL_VAULT_PUBKEY) as Hkv by (intros ->; lia).
  rewrite rent_for_ok in H by lia. cbn [res_bind] in H.
  rewrite !as_i64_small in H by (try (rewrite !as_i64_small); lia).
  apply res_bind_Ok in H as (t1 & Ht & H).
  destruct (transfer_rent_spec _ _ _ _ _ Ht Hs Hv Hsv) as [-> _].
  destruct (moved_account t s (- rent old_len) k) as (l & Hk1 & Hkl).
  apply res_bind_Ok in H as (acc & Hacc & [= <-]). unfold set_account_mode in Hacc.
  destruct (lifecycle _ _); [|done]. injection Hacc as <-. split.
  - intros [Hcov _]. split.
    + rewrite deposits_put, moved_deposits, (account_put_ne _ k), moved_vault by done.
      rewrite Hk1, deposit_with_lamports, Hdep. unfold deposit. rewrite decide_False by naive_solver. lia.
    + rewrite account_put_ne, account_put_eq by done. done.
  - exists k, s. split_and!; [done|done| |by rewrite account_put_eq|].
    + intros Hks Hz. rewrite (Hkl Hks Hkv) in Hk1. split.
      * rewrite total_lamports_put, moved_total, Hk1 by done. simpl. lia.
      * rewrite account_put_ne, account_put_ne, account_put_eq by done. simpl. lia.
    + rewrite account_put_eq. unfold deposit. rewrite decide_False by naive_solver. done.
Qed.
End processors.

(** ** Theorems *)

(** Any sequence of successful instructions, in contexts the vault address does
    not sign. *)
Inductive eph_step (lifecycle : AccountMode -> AccountMode -> bool) : accounts -> accounts -> Prop :=
| eph_create ic t n t' :
    vault_never_signs ic -> 0 <= n ->
    process_create_ephemeral_account lifecycle ic t n = Ok t' -> eph_step lifecycle t t'
| eph_resize ic t n t' :
    vault_never_signs ic -> 0 <= n ->
    process_resize_ephemeral_account ic t n = Ok t' -> eph_step lifecycle t t'
| eph_close ic t t' :
    vault_never_signs ic ->
    process_close_ephemeral_account lifecycle ic t = Ok t' -> eph_step lifecycle t t'.

(** C31: the shared vault stays solvent. Whatever ephemeral accounts are created,
    resized and closed, in any order and by any programs, the vault holds at
    least the refund of every rent-funded account. *)
Theorem vault_solvent lifecycle t t' :
  rtc (eph_step lifecycle) t t' -> vault_covers t -> vault_covers t'.
Proof.
  induction 1 as [|t t1 t2 Hs _ IH]; [done|]. intros Hcov. apply IH.
  pose proof (proj2 Hcov) as Hv0. destruct Hs as [ic t n t' Hv Hn H|ic t n t' Hv Hn H|ic t t' Hv H].
  - by apply (create_spec lifecycle ic t n t' Hv Hn H).
  - by apply (resize_spec ic t n t' Hv Hn Hv0 H).
  - by apply (close_spec lifecycle ic t t' Hv Hv0 H).
Qed.

(** No instruction creates or destroys lamports: creation and resizing keep
    the total, and closing keeps it for an ephemeral account with its zero
    balance and a sponsor other than the account itself, whose refund is exactly
    the deposit. *)
Theorem ephemeral_conserves_lamports lifecycle ic t :
  vault_never_signs ic -> deposit (account t EPHEMERAL_VAULT_PUBKEY) = 0 ->
  (forall n t', 0 <= n -> process_create_ephemeral_account lifecycle ic t n = Ok t' ->
     total_lamports t' = total_lamports t)
  /\ (forall n t', 0 <= n -> process_resize_ephemeral_account ic t n = Ok t' ->
     total_lamports t' = total_lamports t)
  /\ (forall t', process_close_ephemeral_account lifecycle ic t = Ok t' ->
     exists k s, get_instruction_pubkey_with_idx ic EPHEMERAL_IDX = Ok k
     /\ get_instruction_pubkey_with_idx ic SPONSOR_IDX = Ok s
     /\ (k <> s -> sa_lamports (account t k) = 0 -> total_lamports t' = total_lamports t
         /\ sa_lamports (account t' s) = sa_lamports (account t s) + deposit (account t k))
     /\ sa_data (account t' k) = [] /\ deposit (account t' k) = 0).
Proof.
  intros Hv Hv0. split_and!.
  - intros n t' Hn H. by apply (create_spec lifecycle ic t n t' Hv Hn H).
  - intros n t' Hn H. by apply (resize_spec ic t n t' Hv Hn Hv0 H).
  - intros t' H. by apply (close_spec lifecycle ic t t' Hv Hv0 H).
Qed.

(** a deposit can always be taken back: with a solvent vault, closing a
    rent-funded account succeeds for its owner program and any signing sponsor
    whose balance does not overflow. *)
Theorem refund_available lifecycle ic t s k v rest :
  vault_covers t ->
  ic_metas ic = s :: k :: v :: rest -> im_signer s = true ->
  im_pubkey s <> EPHEMERAL_VAULT_PUBKEY -> im_pubkey v = EPHEMERAL_VAULT_PUBKEY ->
  sa_mode (account t (im_pubkey k)) = Magic -> sa_rent_funded (account t (im_pubkey k)) = true ->
  ic_caller ic = Some (sa_owner (account t (im_pubkey k))) ->
  lifecycle Magic Closed = true ->
  Z.of_nat (length (sa_data (account t (im_pubkey k)))) <= u32_max ->
  sa_lamports (account t (im_pubkey s)) + deposit (account t (im_pubkey k)) <= u64_max ->
  exists t', process_close_ephemeral_account lifecycle ic t = Ok t'.
Proof.
  intros [Hcov Hv0] Hm Hsig Hsv Hv Hmode Hfund Hcaller Hlc Hlen Hmax.
  unfold process_close_ephemeral_account, validate_common, validate_existing_ephemeral,
    is_instruction_account_signer, get_instruction_pubkey_with_idx, get_meta.
  rewrite Hcaller, Hm. simpl. rewrite Hsig. simpl. rewrite Hv, decide_False by naive_solver. simpl.
  rewrite decide_False by (rewrite Hmode, Hfund; naive_solver). rewrite decide_False by naive_solver.
  simpl. unfold get_ephemeral_data_len. rewrite (proj2 (Z.leb_le _ _)) by done. cbn [res_bind].
  rewrite rent_for_ok by lia. cbn [res_bind]. set (len := Z.of_nat _) in *.
  assert (deposit (account t (im_pubkey k)) = rent len) as Hdep by (unfold deposit; by rewrite decide_True).
  pose proof (rent_bound len ltac:(lia)) as Hr.
  rewrite !as_i64_small by (try (rewrite !as_i64_small); lia).
  unfold transfer_rent. rewrite (proj2 (Z.ltb_ge _ _)) by lia.
  unfold credit_instruction_account_at_index, debit_instruction_account_at_index,
    get_instruction_pubkey_with_idx, get_meta. rewrite Hm. simpl. rewrite Hv.
  replace (Z.abs (- rent len)) with (rent len) by lia.
  unfold checked_add. rewrite (proj2 (Z.leb_le _ _)) by lia. simpl. rewrite account_put_ne by done.
  pose proof (total_ge deposit eq_refl t (im_pubkey k) deposit_nonneg) as Hge.
  fold (deposits t) in Hge. unfold checked_sub. rewrite (proj2 (Z.leb_le _ _)) by lia. simpl.
  unfold set_account_mode. destruct (moved_account t (im_pubkey s) (- rent len) (im_pubkey k)) as (l & Hk1 & _).
  replace (sa_lamports (account t (im_pubkey s)) + rent len)
    with (sa_lamports (account t (im_pubkey s)) - - rent len) by lia.
  replace (sa_lamports (account t EPHEMERAL_VAULT_PUBKEY) - rent len)
    with (sa_lamports (account t EPHEMERAL_VAULT_PUBKEY) + - rent len) by lia.
  rewrite Hk1. simpl. rewrite Hmode, Hlc. simpl. eauto.
Qed.

(** A program with id 9 creates an account of 10 bytes with key 5, sponsored by
    key 7, and closes it again. *)
Definition example_ic (eph_signs : bool) : InvokeContext :=
  mkInvokeContext 0 (Some 9%N)
    [mkIxMeta 7 true true; mkIxMeta 5 eph_signs true; mkIxMeta EPHEMERAL_VAULT_PUBKEY false true]
    ∅ 0 0 0.
Definition example_t : accounts := {[7%N := with_lamports 5000 no_account]}.
Definition example_t1 : accounts :=
  match process_create_ephemeral_account (fun _ _ => true) (example_ic true) example_t 10 with
  | Ok t => t | Err _ => ∅ end.

Lemma example_ic_vault b : vault_never_signs (example_ic b).
Proof. intros [|[|[|i]]] m; simpl; intros; simplify_eq; done. Qed.

Lemma example_covers : vault_covers example_t.
Proof. split; by vm_compute. Qed.

Lemma example_create :
  process_create_ephemeral_account (fun _ _ => true) (example_ic true) example_t 10 = Ok example_t1.
Proof. by vm_compute. Qed.

Lemma vault_solvent_witness : vault_covers example_t1.
Proof.
  apply (vault_solvent (fun _ _ => true) example_t); [|exact example_covers].
  apply rtc_once. apply (eph_create _ (example_ic true) _ 10); [apply example_ic_vault|lia|].
  exact example_create.
Defined.

Lemma ephemeral_conserves_lamports_witness : total_lamports example_t1 = 5000.
Proof.
  rewrite (proj1 (ephemeral_conserves_lamports (fun _ _ => true) (example_ic true) example_t
                    (example_ic_vault true) eq_refl) 10 example_t1 ltac:(lia) example_create).
  by vm_compute.
Defined.

Lemma refund_available_witness :
  exists t', process_close_ephemeral_account (fun _ _ => true) (example_ic false) example_t1 = Ok t'.
Proof.
  apply (refund_available (fun _ _ => true) (example_ic false) example_t1
           (mkIxMeta 7 true true) (mkIxMeta 5 false true)
           (mkIxMeta EPHEMERAL_VAULT_PUBKEY false true) []); by vm_compute.
Defined.
