(* ===== verification/OutboxProgram.v ===== *)
(** * The outbox intent program

    The accounts that hold accepted intents until they are settled: their byte
    encoding ([programs/magic-program/src/outbox_intent/outbox_intent_bundles.rs]),
    their addresses ([core/src/intent/outbox.rs]) and the four instructions that
    create, advance and close them ([process_create_outbox_intent.rs],
    [process_set_intent_execution_stage.rs], [process_close_outbox_intent.rs],
    [process_scheduled_commit_sent.rs], dispatched by [OutboxIntentEntrypoint]). *)

From stdpp Require Import base gmap sets list strings relations.
From Stdlib Require Import ZArith Lia.
From S2P Require Import Prelude Intent Outbox Codec Runtime.

Definition OUTBOX_INTENT_SEED : list Z :=
  [111; 117; 116; 98; 111; 120; 45; 105; 110; 116; 101; 110; 116]%Z.
Definition OUTBOX_INTENT_DISCRIMINATOR : list Z := [111; 98; 105; 110; 116; 101; 110; 116]%Z.

Record SentCommit := mkSentCommit {
  message_id : N;
  sent_slot : Z;
  sent_blockhash : Hash;
  sent_payer : Pubkey;
  chain_signatures : list Signature;
  included_pubkeys : list Pubkey;
  excluded_pubkeys : list Pubkey;
  requested_undelegation : bool;
  error_message : option string;
  patched_errors : list string;
  callbacks_scheduling_results : list string }.

Inductive OutboxIntentInstruction :=
| CreateOutboxIntent (data : list Z)
| CloseOutboxIntent (id : N)
| ScheduledCommitSent (receipt : SentCommit)
| SetIntentExecutionStage (intent_id : N) (stage : ExecutionStage)
    (recovery_commit_nonces : list (Pubkey * Z)).

Definition max_size_variant : OutboxIntentBundleStatus :=
  Executing (TwoStage (Finalizing 0%N (mkPendingTransaction 0 0))).

(** The encodings the record is written with. *)
Class OutboxCodec := {
  oc_inner :: Codec ScheduledIntentBundle;
  oc_status :: Codec OutboxIntentBundleStatus;
  oc_nonces :: Codec (list (Pubkey * Z));
  oc_bump :: Codec Z;
  oc_outbox :: Codec OutboxIntentBundle }.

(** What the code relies on: records decode to what was encoded, structs are the
    concatenation of their fields, a status is never larger than
    [max_size_variant] and a list of nonces takes a length and forty bytes each. *)
Class OutboxCodecLaws `{OutboxCodec} := {
  ol_outbox :: RoundTrip OutboxIntentBundle;
  ol_fields (b : OutboxIntentBundle) : encode b =
    (i ← encode (inner b); s ← encode (status b); n ← encode (recovery_commit_nonces b);
     u ← encode (bump b); Some (i ++ s ++ n ++ u));
  ol_status (s : OutboxIntentBundleStatus) bs : encode s = Some bs ->
    exists m, encode max_size_variant = Some m /\ length bs <= length m;
  ol_nonces (l : list (Pubkey * Z)) bs : encode l = Some bs -> length bs = 8 + 40 * length l;
  ol_default n : (Z.of_nat n <= u64_max)%Z ->
    is_Some (encode (replicate n (0%N, 0%Z) : list (Pubkey * Z))) }.

Section program.
Context `{OutboxCodec}.
Context (create_program_address : list (list Z) -> Pubkey -> option Pubkey).
Context (find_program_address : list (list Z) -> Pubkey -> Pubkey * Z).
Context (lifecycle : AccountMode -> AccountMode -> bool).

(** ** Encoding *)

Definition try_to_bytes (b : OutboxIntentBundle) : option (list Z) :=
  i ← serialized_size (inner b);
  s ← serialized_size max_size_variant;
  n ← serialized_size (replicate (length (ob_committed_pubkeys b)) (0%N, 0%Z));
  u ← serialized_size (bump b);
  let max_body_size := i + s + n + u in
  let out := OUTBOX_INTENT_DISCRIMINATOR ++ replicate max_body_size 0%Z in
  body ← serialize_into (drop (length OUTBOX_INTENT_DISCRIMINATOR) out) b;
  Some (OUTBOX_INTENT_DISCRIMINATOR ++ body).

Definition try_from_bytes (d : list Z) : option OutboxIntentBundle :=
  let disc_len := length OUTBOX_INTENT_DISCRIMINATOR in
  if decide (length d < disc_len \/ take disc_len d <> OUTBOX_INTENT_DISCRIMINATOR) then None
  else deserialize (drop disc_len d).

(** ** Addresses *)

Definition id_bytes (id : N) : list Z := to_le_bytes 8 (Z.of_N id).

Definition outbox_intent_pda_with_bump (id : N) : Pubkey * Z :=
  find_program_address [OUTBOX_INTENT_SEED; id_bytes id] OUTBOX_INTENT_PROGRAM_ID.

Definition outbox_intent_pda (id : N) : Pubkey := fst (outbox_intent_pda_with_bump id).

Definition verify_outbox_intent_pda (id : N) (bump : Z) (candidate : Pubkey) : bool :=
  match create_program_address [OUTBOX_INTENT_SEED; id_bytes id; [bump]] OUTBOX_INTENT_PROGRAM_ID with
  | Some derived => bool_decide (derived = candidate)
  | None => false
  end.

(** ** Create *)

Definition create_validate (ic : InvokeContext) (data : list Z) : IResult unit :=
  let? b := ok_or (try_from_bytes data) InvalidInstructionData in
  let? sponsor := get_instruction_pubkey_with_idx ic 0 in
  if decide (sponsor <> ic_authority ic) then Err IncorrectAuthority
  else if decide (ic_authority ic ∉ ic_signers ic) then Err MissingRequiredSignature
  else Ok tt.

Definition process_create_outbox_intent (ic : InvokeContext) (t : accounts) (data : list Z)
    : IResult accounts :=
  create_validate ic data ?;
  let? pda := get_instruction_pubkey_with_idx ic 1 in
  let acc := account t pda in
  if decide (~ (sa_mode acc = Missing \/ sa_mode acc = Magic) \/ sa_lamports acc <> 0%Z
             \/ sa_owner acc <> system_program_id \/ sa_data acc <> [])
  then Err InvalidAccountData
  else
    let acc := with_owner OUTBOX_INTENT_PROGRAM_ID acc in
    let acc := with_data data acc in
    let? acc := if decide (sa_mode acc <> Magic) then set_account_mode lifecycle acc Magic
                else Ok acc in
    Ok (put t pda acc).

(** ** Advance the execution stage *)

Definition set_stage_validate (ic : InvokeContext) (t : accounts) (intent_id : N)
    : IResult OutboxIntentBundle :=
  let? provided_validator_auth := get_instruction_pubkey_with_idx ic 0 in
  if decide (provided_validator_auth <> ic_authority ic) then Err InvalidArgument
  else if decide (ic_authority ic ∉ ic_signers ic) then Err MissingRequiredSignature
  else
    let? provided_pda := get_instruction_pubkey_with_idx ic 1 in
    let? bundle := ok_or (try_from_bytes (sa_data (account t provided_pda))) InvalidAccountData in
    if verify_outbox_intent_pda intent_id (bump bundle) provided_pda then Ok bundle
    else Err InvalidArgument.

(** [data_as_mut_slice().copy_from_slice(&data)] panics on a length mismatch. *)
Definition copy_from_slice (dst src : list Z) : result (list Z) (failure InstructionError) :=
  if decide (length dst = length src) then Ok src else Err Panic.

Definition set_new_execution_stage (ic : InvokeContext) (t : accounts) (stage : ExecutionStage)
    (nonces : list (Pubkey * Z)) (bundle : OutboxIntentBundle)
    : result accounts (failure InstructionError) :=
  let? pda := res_map_err Error (get_instruction_pubkey_with_idx ic 1) in
  let '(bundle, r) := apply_stage_transition bundle stage nonces in
  res_map_err (fun _ => Error InvalidArgument) r ?;
  let? data := ok_or (try_to_bytes bundle) (Error InvalidAccountData) in
  let? new_data := copy_from_slice (sa_data (account t pda)) data in
  Ok (put t pda (with_data new_data (account t pda))).

Definition process_set_intent_execution_stage (ic : InvokeContext) (t : accounts) (intent_id : N)
    (stage : ExecutionStage) (nonces : list (Pubkey * Z))
    : result accounts (failure InstructionError) :=
  let? bundle := res_map_err Error (set_stage_validate ic t intent_id) in
  set_new_execution_stage ic t stage nonces bundle.

(** ** Close *)

Definition close_outbox_ephemeral_account (ic : InvokeContext) (t : accounts) : IResult accounts :=
  let? pda := get_instruction_pubkey_with_idx ic 1 in
  let acc := with_lamports 0 (account t pda) in
  let acc := with_owner system_program_id acc in
  let acc := with_data (resize_zero 0 (sa_data acc)) acc in
  let? acc := set_account_mode lifecycle acc Closed in
  Ok (put t pda acc).

Definition close_validate (ic : InvokeContext) (t : accounts) (intent_id : N) : IResult unit :=
  if decide (ic_program_id ic <> OUTBOX_INTENT_PROGRAM_ID) then Err UnsupportedProgramId
  else
    let? validator_pubkey := get_instruction_pubkey_with_idx ic 0 in
    if decide (validator_pubkey <> ic_authority ic) then Err IncorrectAuthority
    else if decide (ic_authority ic ∉ ic_signers ic) then Err MissingRequiredSignature
    else
      let? provided_pda := get_instruction_pubkey_with_idx ic 1 in
      let? bundle := ok_or (try_from_bytes (sa_data (account t provided_pda))) InvalidAccountData in
      if negb (verify_outbox_intent_pda intent_id (bump bundle) provided_pda)
      then Err InvalidArgument
      else if negb (is_final_stage bundle) then Err InvalidAccountData
      else Ok tt.

Definition process_close_outbox_intent (ic : InvokeContext) (t : accounts) (intent_id : N)
    : IResult accounts :=
  close_validate ic t intent_id ?;
  close_outbox_ephemeral_account ic t.

(** ** Settlement receipt *)

Definition sent_validate (ic : InvokeContext) (t : accounts) (id : N) : IResult unit :=
  if decide (ic_program_id ic <> OUTBOX_INTENT_PROGRAM_ID) then Err UnsupportedProgramId
  else
    let? validator_pubkey := get_instruction_pubkey_with_idx ic 0 in
    if decide (validator_pubkey <> ic_authority ic) then Err IncorrectAuthority
    else if decide (ic_authority ic ∉ ic_signers ic) then Err MissingRequiredSignature
    else
      let? provided_pda := get_instruction_pubkey_with_idx ic 1 in
      let? writable := get_writable_with_idx ic 1 in
      if negb writable then Err ReadonlyDataModified
      else if decide (sa_owner (account t provided_pda) <> OUTBOX_INTENT_PROGRAM_ID)
      then Err InvalidAccountOwner
      else
        let? bundle := ok_or (try_from_bytes (sa_data (account t provided_pda)))
                         InvalidAccountData in
        if bool_decide (intent_id (inner bundle) <> id)
           || negb (verify_outbox_intent_pda id (bump bundle) provided_pda)
        then Err InvalidArgument
        else Ok tt.

Definition process_scheduled_commit_sent (ic : InvokeContext) (t : accounts) (commit : SentCommit)
    : IResult accounts :=
  sent_validate ic t (message_id commit) ?;
  close_outbox_ephemeral_account ic t.

(** ** [OutboxIntentEntrypoint], after the instruction data is decoded *)

Definition process_outbox_instruction (ic : InvokeContext) (t : accounts)
    (ix : OutboxIntentInstruction) : result accounts (failure InstructionError) :=
  match ix with
  | CreateOutboxIntent data => res_map_err Error (process_create_outbox_intent ic t data)
  | CloseOutboxIntent id => res_map_err Error (process_close_outbox_intent ic t id)
  | SetIntentExecutionStage intent_id stage nonces =>
      process_set_intent_execution_stage ic t intent_id stage nonces
  | ScheduledCommitSent receipt => res_map_err Error (process_scheduled_commit_sent ic t receipt)
  end.

(** ** Theorems *)

(** *** Encoding *)

Context `{!OutboxCodecLaws}.

Lemma try_to_bytes_Some b d :
  try_to_bytes b = Some d ->
  exists i m n u bs rest,
    encode (inner b) = Some i /\ encode max_size_variant = Some m
    /\ encode (replicate (length (ob_committed_pubkeys b)) (0%N, 0%Z)) = Some n
    /\ encode (bump b) = Some u /\ encode b = Some bs
    /\ d = OUTBOX_INTENT_DISCRIMINATOR ++ bs ++ rest
    /\ length d = 8 + (length i + length m + length n + length u).
Proof.
  unfold try_to_bytes, serialized_size. intros Hd.
  destruct (encode (inner b)) as [i|]; [|done]. destruct (encode max_size_variant) as [m|]; [|done].
  cbn in Hd. destruct (encode (replicate _ _)) as [n|]; [|done]. cbn in Hd.
  destruct (encode (bump b)) as [u|] eqn:Eu; [|done]. cbn in Hd.
  destruct (serialize_into _ b) as [body|] eqn:Eb; [|done]. cbn in Hd. simplify_eq.
  apply serialize_into_Some in Eb as (Hl & bs & rest & Ebs & ->). rewrite drop_0, length_replicate in Hl.
  exists i, m, n, u, bs, rest. split_and!; try done. cbn. rewrite Hl. lia.
Qed.

Lemma try_from_to_bytes b d : try_to_bytes b = Some d -> try_from_bytes d = Some b.
Proof.
  intros (i & m & n & u & bs & rest & _ & _ & _ & _ & Hb & -> & _)%try_to_bytes_Some.
  unfold try_from_bytes. rewrite decide_False.
  - rewrite drop_app_length. by apply deserialize_serialize.
  - rewrite take_app_length, length_app. intros [?|?]; [lia|done].
Qed.

Lemma try_to_bytes_length b b' d d' :
  inner b' = inner b -> bump b' = bump b ->
  try_to_bytes b = Some d -> try_to_bytes b' = Some d' -> length d' = length d.
Proof.
  intros Hi Hu (i & m & n & u & bs & rest & Ei & Em & En & Eu & _ & _ & Hl)%try_to_bytes_Some
    (i' & m' & n' & u' & bs' & rest' & Ei' & Em' & En' & Eu' & _ & _ & Hl')%try_to_bytes_Some.
  unfold ob_committed_pubkeys in *. rewrite Hi, Hu in *. simplify_eq. lia.
Qed.

(** The space reserved for the worst case is enough for every record. *)
Lemma try_to_bytes_fits b :
  is_Some (encode b) -> length (recovery_commit_nonces b) <= length (ob_committed_pubkeys b) ->
  (Z.of_nat (length (ob_committed_pubkeys b)) <= u64_max)%Z -> is_Some (try_to_bytes b).
Proof.
  intros [bs Hb] Hn Hmax. pose proof (ol_fields b) as Hf. rewrite Hb in Hf.
  unfold try_to_bytes, serialized_size.
  destruct (encode (inner b)) as [i|]; [|done]. cbn in Hf.
  destruct (encode (status b)) as [s|] eqn:Es; [|done]. cbn in Hf.
  destruct (encode (recovery_commit_nonces b)) as [n|] eqn:En; [|done]. cbn in Hf.
  destruct (encode (bump b)) as [u|]; [|done]. cbn in Hf. simplify_eq.
  destruct (ol_status _ _ Es) as (m & -> & Hm). destruct (ol_default _ Hmax) as [n' En']. rewrite En'.
  cbn. unfold serialize_into. rewrite Hb. cbn.
  apply ol_nonces in En, En'. rewrite length_replicate in En'.
  rewrite decide_True; [by eexists|]. rewrite !length_app, drop_0, length_replicate. lia.
Qed.

(** *** Records *)

(** The record an account of the program stores. *)
Definition view (t : accounts) (k : Pubkey) : option OutboxIntentBundle :=
  if decide (sa_owner (account t k) = OUTBOX_INTENT_PROGRAM_ID)
  then try_from_bytes (sa_data (account t k)) else None.

(** Every account of the program holds a padded record in a reachable stage. *)
Definition wf_outbox (t : accounts) : Prop :=
  forall k, sa_owner (account t k) = OUTBOX_INTENT_PROGRAM_ID ->
  exists b, try_to_bytes b = Some (sa_data (account t k)) /\ rtc stage_step Accepted (status b).

Definition updated (v v' : Pubkey -> option OutboxIntentBundle) (k : Pubkey)
    (o : option OutboxIntentBundle) : Prop :=
  v' k = o /\ forall k', k' <> k -> v' k' = v k'.

(** Every account of the program holds a record. *)
Definition holds_records (t : accounts) : Prop :=
  forall k, sa_owner (account t k) = OUTBOX_INTENT_PROGRAM_ID ->
  is_Some (try_from_bytes (sa_data (account t k))).

(** The abstract outbox: a map from addresses to records, and what each instruction
    does to it. Advancing and closing do not ask who owns the account, and leave the
    outbox as it is when it is not the program's. *)
Inductive record_step : OutboxIntentInstruction ->
    (Pubkey -> option OutboxIntentBundle) -> (Pubkey -> option OutboxIntentBundle) -> Prop :=
| record_created d k b v v' :
    try_from_bytes d = Some b -> v k = None -> updated v v' k (Some b) ->
    record_step (CreateOutboxIntent d) v v'
| record_advanced id stage nonces k b b' v v' :
    v k = Some b -> verify_outbox_intent_pda id (bump b) k = true ->
    apply_stage_transition b stage nonces = (b', Ok tt) -> updated v v' k (Some b') ->
    record_step (SetIntentExecutionStage id stage nonces) v v'
| advanced_elsewhere id stage nonces v v' :
    (forall k, v' k = v k) -> record_step (SetIntentExecutionStage id stage nonces) v v'
| record_closed id k b v v' :
    v k = Some b -> verify_outbox_intent_pda id (bump b) k = true -> is_final_stage b = true ->
    updated v v' k None -> record_step (CloseOutboxIntent id) v v'
| closed_elsewhere id v v' : (forall k, v' k = v k) -> record_step (CloseOutboxIntent id) v v'
| record_sent receipt k b v v' :
    v k = Some b -> intent_id (inner b) = message_id receipt ->
    verify_outbox_intent_pda (message_id receipt) (bump b) k = true ->
    updated v v' k None -> record_step (ScheduledCommitSent receipt) v v'.

Lemma wf_view t k b :
  wf_outbox t -> view t k = Some b ->
  sa_owner (account t k) = OUTBOX_INTENT_PROGRAM_ID
  /\ try_to_bytes b = Some (sa_data (account t k)) /\ rtc stage_step Accepted (status b).
Proof.
  unfold view. intros Hwf. case_decide as Ho; [|done]. destruct (Hwf k Ho) as (b' & Hb & Hr).
  rewrite (try_from_to_bytes _ _ Hb). intros. by simplify_eq.
Qed.

Lemma view_put_ne t k a k' : k' <> k -> view (put t k a) k' = view t k'.
Proof. intros. unfold view. by rewrite account_put_ne. Qed.

Lemma wf_put t k a :
  wf_outbox t ->
  (sa_owner a = OUTBOX_INTENT_PROGRAM_ID ->
   exists b, try_to_bytes b = Some (sa_data a) /\ rtc stage_step Accepted (status b)) ->
  wf_outbox (put t k a).
Proof.
  intros Hwf Ha k' Ho. destruct (decide (k = k')) as [->|].
  - rewrite account_put_eq in *. by apply Ha.
  - rewrite account_put_ne in * by done. by apply Hwf.
Qed.

Lemma updated_put t k a o : view (put t k a) k = o -> updated (view t) (view (put t k a)) k o.
Proof. split; [done|]. intros. by apply view_put_ne. Qed.

Lemma set_account_mode_Ok (a : SharedAccount) m a' :
  set_account_mode lifecycle a m = Ok a' -> a' = with_mode m a.
Proof. unfold set_account_mode. by case_match; intros; simplify_eq. Qed.

(** *** What each instruction does *)

Lemma outbox_create_spec ic t d t' :
  process_create_outbox_intent ic t d = Ok t' ->
  exists k a, get_instruction_pubkey_with_idx ic 1 = Ok k /\ t' = put t k a
  /\ sa_owner (account t k) = system_program_id /\ sa_data (account t k) = []
  /\ sa_lamports (account t k) = 0%Z
  /\ sa_owner a = OUTBOX_INTENT_PROGRAM_ID /\ sa_data a = d /\ sa_mode a = Magic.
Proof.
  unfold process_create_outbox_intent. intros Hp. res_inv. case_decide as Hc; [done|]. res_inv.
  apply not_or in Hc as [Hm Hc]. apply not_or in Hc as [Hl Hc]. apply not_or in Hc as [Ho Hd].
  case_decide as Hmm; simplify_eq/=;
    try (match goal with H : set_account_mode _ _ _ = Ok _ |- _ => apply set_account_mode_Ok in H as -> end);
    eexists _, _; split_and!; try done; by apply dec_stable.
Qed.

Lemma outbox_close_spec ic t t' :
  close_outbox_ephemeral_account ic t = Ok t' ->
  exists k a, get_instruction_pubkey_with_idx ic 1 = Ok k /\ t' = put t k a
  /\ sa_owner a = system_program_id /\ sa_data a = [] /\ sa_mode a = Closed.
Proof.
  unfold close_outbox_ephemeral_account. intros Hp. res_inv.
  match goal with H : set_account_mode _ _ _ = Ok _ |- _ => apply set_account_mode_Ok in H as -> end.
  eexists _, _. done.
Qed.

Lemma set_stage_validate_Ok ic t id b :
  set_stage_validate ic t id = Ok b ->
  exists k, get_instruction_pubkey_with_idx ic 1 = Ok k
  /\ try_from_bytes (sa_data (account t k)) = Some b /\ ic_authority ic ∈ ic_signers ic
  /\ verify_outbox_intent_pda id (bump b) k = true.
Proof.
  unfold set_stage_validate. intros Hp. res_inv. repeat (case_decide; [done|]). res_inv.
  case_match eqn:Hv; simplify_eq. eexists. by split_and!.
Qed.

Lemma outbox_set_spec ic t id stage nonces t' :
  process_set_intent_execution_stage ic t id stage nonces = Ok t' ->
  exists k b b' d, get_instruction_pubkey_with_idx ic 1 = Ok k
  /\ try_from_bytes (sa_data (account t k)) = Some b
  /\ verify_outbox_intent_pda id (bump b) k = true
  /\ apply_stage_transition b stage nonces = (b', Ok tt) /\ try_to_bytes b' = Some d
  /\ t' = put t k (with_data d (account t k)).
Proof.
  unfold process_set_intent_execution_stage, set_new_execution_stage. intros Hp. res_inv.
  match goal with H : set_stage_validate _ _ _ = Ok _ |- _ =>
    apply set_stage_validate_Ok in H as (k & Hk & Hb & _ & Hv) end.
  rewrite Hk in *. simplify_eq/=. destruct (apply_stage_transition _ _ _) as [b' [[]|]] eqn:Ha; res_inv.
  unfold copy_from_slice in *. case_decide; simplify_eq. naive_solver.
Qed.

(** A successful transition keeps the reserved size. *)
Lemma apply_stage_transition_frame b stage nonces b' :
  apply_stage_transition b stage nonces = (b', Ok tt) ->
  inner b' = inner b /\ bump b' = bump b /\ stage_step (status b) (status b').
Proof.
  unfold apply_stage_transition. intros Ha. unfold stage_step.
  destruct nonces; cbn in Ha; destruct (Status_apply _ _) eqn:E; simplify_eq/=; eauto.
Qed.

Lemma close_validate_Ok ic t id :
  close_validate ic t id = Ok tt ->
  exists k b, get_instruction_pubkey_with_idx ic 1 = Ok k
  /\ try_from_bytes (sa_data (account t k)) = Some b /\ is_final_stage b = true
  /\ verify_outbox_intent_pda id (bump b) k = true /\ ic_authority ic ∈ ic_signers ic.
Proof.
  unfold close_validate. intros Hp. case_decide; [done|]. res_inv. repeat (case_decide; [done|]).
  res_inv. case_match eqn:Hv; [done|]. case_match eqn:Hf; [done|].
  apply negb_false_iff in Hv, Hf. eexists _, _. by split_and!.
Qed.

Lemma sent_validate_Ok ic t id :
  sent_validate ic t id = Ok tt ->
  exists k b, get_instruction_pubkey_with_idx ic 1 = Ok k
  /\ sa_owner (account t k) = OUTBOX_INTENT_PROGRAM_ID
  /\ try_from_bytes (sa_data (account t k)) = Some b /\ intent_id (inner b) = id
  /\ verify_outbox_intent_pda id (bump b) k = true /\ ic_authority ic ∈ ic_signers ic.
Proof.
  unfold sent_validate. intros Hp. case_decide; [done|]. res_inv. repeat (case_decide; [done|]).
  res_inv. case_match; [done|]. case_decide; [done|]. res_inv. case_match eqn:Hv; [done|].
  apply orb_false_iff in Hv as [Hi Hv]. apply negb_false_iff in Hv. apply bool_decide_eq_false in Hi.
  eexists _, _. split_and!; try done; by apply dec_stable.
Qed.

(** *** Traces *)

Definition outbox_step (ix : OutboxIntentInstruction) (t t' : accounts) : Prop :=
  exists ic, process_outbox_instruction ic t ix = Ok t'.


(** The bytes of a freshly accepted record, with which [AcceptScheduleCommits] issues
    [CreateOutboxIntent]. *)
Definition freshly_accepted (ix : OutboxIntentInstruction) : Prop :=
  match ix with
  | CreateOutboxIntent d => exists i bmp, try_to_bytes (accepted i bmp) = Some d
  | _ => True
  end.

(** What one instruction keeps. *)
Definition step_refined (ix : OutboxIntentInstruction) (t t' : accounts) : Prop :=
  record_step ix (view t) (view t')
  /\ (holds_records t -> holds_records t')
  /\ (freshly_accepted ix -> wf_outbox t -> wf_outbox t').

Lemma view_owned t k d b :
  sa_owner (account t k) = OUTBOX_INTENT_PROGRAM_ID -> sa_data (account t k) = d ->
  try_from_bytes d = Some b -> view t k = Some b.
Proof. intros Ho <- Hb. unfold view. by rewrite decide_True. Qed.

Lemma view_foreign t k : sa_owner (account t k) <> OUTBOX_INTENT_PROGRAM_ID -> view t k = None.
Proof. intros. unfold view. by rewrite decide_False. Qed.

Lemma holds_put t k a :
  (sa_owner a = OUTBOX_INTENT_PROGRAM_ID -> is_Some (try_from_bytes (sa_data a))) ->
  holds_records t -> holds_records (put t k a).
Proof.
  intros Ha Ht k' Ho. destruct (decide (k = k')) as [->|].
  - rewrite account_put_eq in *. by apply Ha.
  - rewrite account_put_ne in * by done. by apply Ht.
Qed.

Lemma create_decodes ic t d t' :
  process_create_outbox_intent ic t d = Ok t' -> is_Some (try_from_bytes d).
Proof. unfold process_create_outbox_intent, create_validate. intros Hc. res_inv. by eexists. Qed.

Lemma create_refines ic t d t' :
  process_create_outbox_intent ic t d = Ok t' -> step_refined (CreateOutboxIntent d) t t'.
Proof.
  intros Hc. destruct (create_decodes _ _ _ _ Hc) as [r Hb].
  apply outbox_create_spec in Hc as (k & a & _ & -> & Ho & _ & _ & Hao & Had & _). split_and!.
  - apply (record_created d k r); [done|apply view_foreign; by rewrite Ho|]. apply updated_put.
    by apply (view_owned _ _ d); rewrite ?account_put_eq.
  - apply holds_put. intros _. rewrite Had. by eexists.
  - intros (i & bmp & Hd) Hwf. apply wf_put; [done|]. intros _. exists (accepted i bmp). rewrite Had.
    split; [done|apply rtc_refl].
Qed.

Lemma set_refines ic t id stage nonces t' :
  process_set_intent_execution_stage ic t id stage nonces = Ok t' ->
  step_refined (SetIntentExecutionStage id stage nonces) t t'.
Proof.
  intros (k & b & b' & d & _ & Hb & Hpda & Ha & Hd & ->)%outbox_set_spec. split_and!.
  - destruct (decide (sa_owner (account t k) = OUTBOX_INTENT_PROGRAM_ID)) as [Ho|Ho].
    + apply (record_advanced id stage nonces k b b'); [by apply (view_owned t k _ b Ho eq_refl)|done..|].
      apply updated_put. apply (view_owned _ _ d); rewrite ?account_put_eq; [done..|].
      by apply try_from_to_bytes.
    + apply advanced_elsewhere. intros k'. destruct (decide (k' = k)) as [->|]; [|by apply view_put_ne].
      rewrite !view_foreign; rewrite ?account_put_eq; done.
  - apply holds_put. intros _. eexists. by apply try_from_to_bytes.
  - intros _ Hwf. apply wf_put; [done|]. cbn. intros Ho. exists b'. split; [done|].
    destruct (wf_view t k b Hwf (view_owned t k _ b Ho eq_refl Hb)) as (_ & _ & Hr).
    destruct (apply_stage_transition_frame _ _ _ _ Ha) as (_ & _ & Hs). by eapply rtc_r.
Qed.

(** Closing removes the record of the account at index 1, if it has one. *)
Lemma close_refines ic t t' k :
  get_instruction_pubkey_with_idx ic 1 = Ok k -> close_outbox_ephemeral_account ic t = Ok t' ->
  updated (view t) (view t') k None
  /\ (holds_records t -> holds_records t') /\ (wf_outbox t -> wf_outbox t').
Proof.
  intros Hk (k' & a & Hk' & -> & Ho & _ & _)%outbox_close_spec. rewrite Hk in Hk'.
  simplify_eq. split_and!.
  - apply updated_put, view_foreign. by rewrite account_put_eq, Ho.
  - apply holds_put. by rewrite Ho.
  - intros Hwf. apply wf_put; [done|]. by rewrite Ho.
Qed.

Lemma updated_none v v' k :
  v k = None -> updated v v' k (None : option OutboxIntentBundle) -> forall k', v' k' = v k'.
Proof. intros Hv [Hk Hf] k'. destruct (decide (k' = k)) as [->|]; [congruence|by apply Hf]. Qed.

Lemma outbox_step_refines ix t t' : outbox_step ix t t' -> step_refined ix t t'.
Proof.
  intros (ic & Hp). destruct ix as [d|id|sent|id stage nonces]; cbn in Hp; res_inv.
  - by eapply create_refines.
  - unfold process_close_outbox_intent in *. res_inv.
    match goal with H : close_validate _ _ _ = Ok ?u |- _ =>
      destruct u; apply close_validate_Ok in H as (k & b & Hk & Hb & Hf & Hpda & _) end.
    destruct (close_refines ic t t' k Hk) as (Hu & ? & ?); [done|]. split_and!; [|done|auto].
    destruct (view t k) as [b'|] eqn:Hv; [|by eapply closed_elsewhere, updated_none].
    assert (b' = b) as -> by (unfold view in Hv; case_decide; congruence). by apply (record_closed id k b).
  - unfold process_scheduled_commit_sent in *. res_inv.
    match goal with H : sent_validate _ _ _ = Ok ?u |- _ =>
      destruct u; apply sent_validate_Ok in H as (k & b & Hk & Ho & Hb & Hi & Hpda & _) end.
    destruct (close_refines ic t t' k Hk) as (Hu & ? & ?); [done|]. split_and!; [|done|auto].
    apply (record_sent sent k b); [by apply (view_owned t k _ b Ho eq_refl)|done..].
  - by eapply set_refines.
Qed.


(** Advancing a record. On an outbox account with a verified address, the
    instruction never panics on the fixed-size account data: it stores exactly
    the transitioned record, or fails with [InvalidArgument] when the transition
    is refused and with [InvalidAccountData] when the record does not fit; it
    fits whenever there are no more nonces than committed accounts. *)
Theorem set_stage_exact ic t id stage nonces k b :
  wf_outbox t -> get_instruction_pubkey_with_idx ic 0 = Ok (ic_authority ic) ->
  ic_authority ic ∈ ic_signers ic -> get_instruction_pubkey_with_idx ic 1 = Ok k ->
  view t k = Some b -> verify_outbox_intent_pda id (bump b) k = true ->
  let r := process_set_intent_execution_stage ic t id stage nonces in
  match apply_stage_transition b stage nonces with
  | (b', Ok _) =>
      match try_to_bytes b' with
      | Some d => exists t', r = Ok t' /\ view t' k = Some b'
          /\ account t' k = with_data d (account t k)
          /\ forall k', k' <> k -> account t' k' = account t k'
      | None => r = Err (Error InvalidAccountData)
          /\ ~ (is_Some (encode b')
                /\ length (recovery_commit_nonces b') <= length (ob_committed_pubkeys b')
                /\ (Z.of_nat (length (ob_committed_pubkeys b')) <= u64_max)%Z)
      end
  | (_, Err _) => r = Err (Error InvalidArgument)
  end.
Proof.
  intros Hwf Hk0 Hsig Hk1 Hv Hpda r. subst r. destruct (wf_view t k b Hwf Hv) as (Ho & Hb & _).
  unfold process_set_intent_execution_stage, set_stage_validate. rewrite Hk0. simpl.
  rewrite decide_False by naive_solver. rewrite decide_False by naive_solver. rewrite Hk1. simpl.
  rewrite (try_from_to_bytes _ _ Hb). simpl. rewrite Hpda. simpl. unfold set_new_execution_stage.
  rewrite Hk1. simpl. destruct (apply_stage_transition b stage nonces) as [b' [[]|e]] eqn:Ha; simpl; [|done].
  destruct (apply_stage_transition_frame _ _ _ _ Ha) as (Hi & Hu & _).
  destruct (try_to_bytes b') as [d|] eqn:Hd; simpl.
  - unfold copy_from_slice. rewrite decide_True by (symmetry; by eapply try_to_bytes_length).
    simpl. eexists. split; [done|]. split_and!.
    + apply (view_owned _ _ d); rewrite ?account_put_eq; [done..|]. by apply try_from_to_bytes.
    + apply account_put_eq.
    + intros. by apply account_put_ne.
  - split; [done|]. intros (? & ? & ?). destruct (try_to_bytes_fits b') as [? ?]; congruence.
Qed.

Definition signed_by_authority (ic : InvokeContext) : Prop :=
  get_instruction_pubkey_with_idx ic 0 = Ok (ic_authority ic) /\ ic_authority ic ∈ ic_signers ic.

Ltac solve_signed :=
  intros Hp; repeat first [progress res_inv | case_decide; [discriminate|]];
  split; congruence || assumption.

Lemma create_validate_signed ic d u : create_validate ic d = Ok u -> signed_by_authority ic.
Proof. unfold create_validate. solve_signed. Qed.
Lemma set_stage_validate_signed ic t id b :
  set_stage_validate ic t id = Ok b -> signed_by_authority ic.
Proof. unfold set_stage_validate. solve_signed. Qed.
Lemma close_validate_signed ic t id u : close_validate ic t id = Ok u -> signed_by_authority ic.
Proof. unfold close_validate. solve_signed. Qed.
Lemma sent_validate_signed ic t id u : sent_validate ic t id = Ok u -> signed_by_authority ic.
Proof. unfold sent_validate. solve_signed. Qed.

(** only the validator operates the outbox: every instruction that succeeds
    names the validator authority as its first account, is signed by it and
    changes no account but the second. *)
Theorem outbox_authorised ic t ix t' :
  process_outbox_instruction ic t ix = Ok t' ->
  get_instruction_pubkey_with_idx ic 0 = Ok (ic_authority ic)
  /\ ic_authority ic ∈ ic_signers ic
  /\ exists k, get_instruction_pubkey_with_idx ic 1 = Ok k
      /\ forall k', k' <> k -> account t' k' = account t k'.
Proof.
  intros Hp. apply and_assoc. destruct ix as [d|id|sent|id stage nonces]; cbn in Hp; res_inv; split.
  - unfold process_create_outbox_intent in *. res_inv. by eapply create_validate_signed.
  - destruct (outbox_create_spec ic t d t') as (k & a & ? & -> & _); [done|].
    exists k. split; [done|]. intros. by apply account_put_ne.
  - unfold process_close_outbox_intent in *. res_inv. by eapply close_validate_signed.
  - unfold process_close_outbox_intent in *. res_inv.
    destruct (outbox_close_spec ic t t') as (k & a & ? & -> & _); [done|].
    exists k. split; [done|]. intros. by apply account_put_ne.
  - unfold process_scheduled_commit_sent in *. res_inv. by eapply sent_validate_signed.
  - unfold process_scheduled_commit_sent in *. res_inv.
    destruct (outbox_close_spec ic t t') as (k & a & ? & -> & _); [done|].
    exists k. split; [done|]. intros. by apply account_put_ne.
  - unfold process_set_intent_execution_stage in *. res_inv. by eapply set_stage_validate_signed.
  - destruct (outbox_set_spec ic t id stage nonces t') as (k & b & b' & d & ? & _ & _ & _ & _ & ->); [done|].
    exists k. split; [done|]. intros. by apply account_put_ne.
Qed.
End program.

(** ** The assumptions hold for the documented layout *)

Module ConcreteOutbox.
#[export] Instance codec : OutboxCodec := {|
  oc_inner := Bincode.scheduled;
  oc_status := Bincode.status_;
  oc_nonces := Bincode.nonces;
  oc_bump := Bincode.uint 1;
  oc_outbox := Bincode.outbox |}.

Lemma uint_length n x bs : @encode _ (Bincode.uint n) x = Some bs -> length bs = n.
Proof. simpl. case_decide; [|done]. intros [= <-]. apply to_le_bytes_length. Qed.

Lemma as_N_length n x bs : @encode _ (Bincode.as_N n) x = Some bs -> length bs = n.
Proof. apply (uint_length n (Z.of_N x)). Qed.

Lemma pair_length {A B} (ca : Codec A) (cb : Codec B) x bs :
  @encode _ (Bincode.pair ca cb) x = Some bs ->
  exists a b, encode x.1 = Some a /\ encode x.2 = Some b /\ bs = a ++ b.
Proof.
  cbn [encode Bincode.pair]. destruct (encode x.1); [|done]. simpl. destruct (encode x.2); [|done].
  simpl. intros. simplify_eq. eauto.
Qed.

Lemma encode_list_length {A} (c : Codec A) n (l : list A) bs :
  (forall (x : A) bs, encode x = Some bs -> length bs = n) ->
  Bincode.encode_list l = Some bs -> length bs = n * length l.
Proof.
  intros Hn. revert bs. induction l as [|x l IH]; simpl; intros bs Hb; [simplify_eq; simpl; lia|].
  destruct (encode x) eqn:E; [|done]. simpl in Hb. destruct (Bincode.encode_list l); [|done].
  simpl in Hb. simplify_eq. rewrite length_app, (Hn _ _ E), (IH _ eq_refl). lia.
Qed.

Lemma nonces_length (l : list (Pubkey * Z)) bs :
  @encode _ Bincode.nonces l = Some bs -> length bs = 8 + 40 * length l.
Proof.
  cbn [encode Bincode.nonces Bincode.vec]. destruct (@encode _ (Bincode.uint 8) _) eqn:E; [|done].
  cbn [mbind option_bind]. destruct (Bincode.encode_list l) eqn:El; [|done].
  cbn [mbind option_bind]. intros. simplify_eq. rewrite length_app, (uint_length 8 _ _ E).
  rewrite (encode_list_length (Bincode.pair Bincode.key (Bincode.uint 8)) 40 l); [done| |done].
  intros x bs (a & b & Ha & Hb & ->)%pair_length. rewrite length_app.
  by rewrite (as_N_length 32 _ _ Ha), (uint_length 8 _ _ Hb).
Qed.

Lemma encode_list_default n :
  is_Some (@Bincode.encode_list _ (Bincode.pair Bincode.key (Bincode.uint 8))
             (replicate n (0%N, 0%Z))).
Proof.
  induction n as [|n [bs IH]]; [by eexists|]. cbn [replicate Bincode.encode_list]. rewrite IH.
  eexists. reflexivity.
Qed.

Lemma status_length s bs :
  @encode _ Bincode.status_ s = Some bs -> length bs <= 172.
Proof.
  destruct s as [|[p|[p|c p]]];
    cbn [encode Bincode.status_ Bincode.iso Bincode.sum Bincode.stage_ Bincode.two_stage
         Bincode.unit_ Bincode.pending Bincode.pair fst snd];
    repeat match goal with |- context [@encode ?A (Bincode.uint ?n) ?x] =>
      let E := fresh in destruct (@encode A (Bincode.uint n) x) eqn:E;
        [apply uint_length in E|done]; cbn [mbind option_bind] end;
    repeat match goal with |- context [@encode ?A (Bincode.as_N ?n) ?x] =>
      let E := fresh in destruct (@encode A (Bincode.as_N n) x) eqn:E;
        [apply as_N_length in E|done]; cbn [mbind option_bind] end;
    unfold Bincode.sig, Bincode.key;
    repeat match goal with |- context [@encode ?A (Bincode.as_N ?n) ?x] =>
      let E := fresh in destruct (@encode A (Bincode.as_N n) x) eqn:E;
        [apply as_N_length in E|done]; cbn [mbind option_bind] end;
    intros; simplify_eq; rewrite ?length_app; simpl; lia.
Qed.

#[export] Instance laws : OutboxCodecLaws.
Proof.
  split.
  - exact Bincode.outbox_rt.
  - intros b. cbn [oc_inner oc_status oc_nonces oc_bump oc_outbox codec].
    cbn [encode Bincode.outbox Bincode.iso Bincode.pair fst snd].
    destruct (@encode _ Bincode.scheduled _); [|done]. cbn [mbind option_bind].
    destruct (@encode _ Bincode.status_ _); [|done]. cbn [mbind option_bind].
    destruct (@encode _ Bincode.nonces _); [|done]. cbn [mbind option_bind].
    by destruct (@encode _ (Bincode.uint 1) _).
  - intros s bs Hs%status_length. eexists. split; [vm_compute; reflexivity|]. exact Hs.
  - intros l bs. apply nonces_length.
  - intros n Hn. cbn [oc_nonces codec encode Bincode.nonces Bincode.vec].
    cbn [encode Bincode.uint]. rewrite length_replicate, decide_True by (unfold u64_max in *; lia).
    cbn [mbind option_bind]. destruct (encode_list_default n) as [bs ->]. by eexists.
Qed.

(** A toy address derivation. *)
Definition derive (seeds : list (list Z)) (program : Pubkey) : option Pubkey :=
  Some (Z.to_N (from_le_bytes (concat seeds))).
Definition find (seeds : list (list Z)) (program : Pubkey) : Pubkey * Z :=
  (default 0%N (derive (seeds ++ [[255%Z]]) program), 255%Z).
Definition any (_ _ : AccountMode) : bool := true.

Definition intent : ScheduledIntentBundle :=
  mkScheduledIntentBundle 3 10 11 12 MagicIntentBundle_default.
Definition pda : Pubkey := outbox_intent_pda find 3.
Definition ctx : InvokeContext :=
  mkInvokeContext OUTBOX_INTENT_PROGRAM_ID None [mkIxMeta 77 true false; mkIxMeta pda false true]
    {[77%N]} 77 0 0.
Definition created_data : list Z := default [] (try_to_bytes (accepted intent 255)).
Definition create_ix : OutboxIntentInstruction := CreateOutboxIntent created_data.
Definition stage1 : ExecutionStage := SingleStage (mkPendingTransaction 5 6).
Definition run (t : accounts) (ix : OutboxIntentInstruction) : accounts :=
  match process_outbox_instruction derive any ctx t ix with Ok t' => t' | Err _ => t end.
Definition t1 : accounts := run ∅ create_ix.

Lemma step1 : process_outbox_instruction derive any ctx ∅ create_ix = Ok t1.
Proof. by vm_compute. Qed.
Lemma wf_empty : wf_outbox ∅.
Proof. intros k. unfold account. rewrite lookup_empty. done. Qed.
Lemma create_accepted : freshly_accepted create_ix.
Proof. exists intent, 255%Z. by vm_compute. Qed.


Lemma set_stage_exact_witness :
  exists t', process_set_intent_execution_stage derive ctx
               t1 3 stage1 [] = Ok t'
             /\ status <$> view t' pda = Some (Executing stage1).
Proof.
  pose proof (set_stage_exact derive ctx t1 3
    stage1 [] pda (accepted intent 255)
    ltac:(apply (outbox_step_refines derive any create_ix ∅);
          [exists ctx; exact step1|exact create_accepted|exact wf_empty])
    eq_refl ltac:(apply (elem_of_singleton_2 (C:=gset N) 77%N 77%N eq_refl)) eq_refl
    ltac:(vm_compute; reflexivity) ltac:(vm_compute; reflexivity)) as H.
  cbn [apply_stage_transition Status_apply accepted status inner bump recovery_commit_nonces stage1] in H.
  set (b' := mkOutboxIntentBundle _ _ _ _) in H.
  destruct (try_to_bytes b') as [d|] eqn:E; [|vm_compute in E; discriminate].
  destruct H as (t' & Ht & Hv & _). exists t'. split; [exact Ht|]. rewrite Hv. reflexivity.
Defined.

Lemma outbox_authorised_witness :
  get_instruction_pubkey_with_idx ctx 0 = Ok 77%N
  /\ 77%N ∈ ic_signers ctx.
Proof.
  destruct (outbox_authorised derive any ctx ∅
              create_ix t1 step1) as (? & ? & _).
  split; assumption.
Defined.
End ConcreteOutbox.
