(* ===== verification/TokenPrograms.v ===== *)
(** * Token accounts

    [core/src/token_programs.rs]: associated token accounts (ATA) and their
    ephemeral counterparts (eATA). A delegated ATA is committed to the base chain
    as its eATA ([try_remap_ata_to_eata]), and an eATA is shown locally as an ATA
    ([project_into_ata_account]).

    The token programs' account state and program-derived addresses come from
    external crates: [unpack]/[pack] of the two token programs and
    [find_program_address] are parameters. *)

From stdpp Require Import base gmap sets list.
From Stdlib Require Import ZArith Lia.
From S2P Require Import Prelude Intent Runtime.

Definition TOKEN_PROGRAM_ID : Pubkey :=
  0xa900ff7e85f58c3a91375b5fed85b41cac79ebce46e1cbd993a165d7e1f6dd06.
Definition TOKEN_2022_PROGRAM_ID : Pubkey :=
  0xfc8ba1d828f9bdfe270db9834dfc1ab6dacd6ce4bc5d4218de8f75eee1f6dd06.
Definition ASSOCIATED_TOKEN_PROGRAM_ID : Pubkey :=
  0x59f8e9dbd87b8e048410ffda99135a0b830d8e1429103dbbf189244e8f25978c.
Definition EATA_PROGRAM_ID : Pubkey :=
  0x475fc787e506efe07d80c2006c2cea11ad2fe5c0b8c1f01de1acca73eac88006.
(** The rent sysvar. *)
Definition MAGIC_ATA_CLOSE_AUTHORITY : Pubkey :=
  0x8ad9dbe344fda19b08eeda587ff14a3d4cc98c21515c2c1917d5a706.
Definition EPHEMERAL_ATA_LEN : nat := 80.
Definition LEGACY_EPHEMERAL_ATA_LEN : nat := 72.

Record MagicAtaInfo := mkMagicAtaInfo {
  mai_ata_pubkey : Pubkey;
  mai_token_program : Pubkey;
  mai_wallet_owner : Pubkey;
  mai_mint : Pubkey;
  mai_amount : Z }.

Record TokenAccountCommon := mkTokenAccountCommon {
  tc_mint : Pubkey;
  tc_owner : Pubkey;
  tc_amount : Z;
  tc_is_native : option Z;
  tc_close_authority : option Pubkey }.

Record AtaInfo := mkAtaInfo { ai_mint : Pubkey; ai_owner : Pubkey }.

Record EphemeralAta := mkEphemeralAta {
  ea_owner : Pubkey;
  ea_mint : Pubkey;
  ea_amount : Z;
  ea_bump : Z }.

Record SupportedAtaPubkeys := mkSupportedAtaPubkeys {
  sap_legacy : option Pubkey;
  sap_token_2022 : option Pubkey }.

(** The account state of the token programs. *)
Record TokenAccount := mkTokenAccount {
  ta_mint : Pubkey;
  ta_owner : Pubkey;
  ta_amount : Z;
  ta_delegate : option Pubkey;
  ta_state : N;
  ta_is_native : option Z;
  ta_delegated_amount : Z;
  ta_close_authority : option Pubkey }.

Definition with_is_native (o : option Z) (a : TokenAccount) : TokenAccount :=
  mkTokenAccount (ta_mint a) (ta_owner a) (ta_amount a) (ta_delegate a) (ta_state a) o
    (ta_delegated_amount a) (ta_close_authority a).
Definition with_close_authority (o : option Pubkey) (a : TokenAccount) : TokenAccount :=
  mkTokenAccount (ta_mint a) (ta_owner a) (ta_amount a) (ta_delegate a) (ta_state a)
    (ta_is_native a) (ta_delegated_amount a) o.

Inductive NativeTokenNormalization :=
| NotNative
| Normalized (data : list Z) (rent_exempt_reserve : Z)
| Invalid.

(** [Pubkey::as_ref] and [Pubkey::new_from_array]; [data[a..b]]. *)
Definition key_bytes (k : Pubkey) : list Z := to_le_bytes 32 (Z.of_N k).
Definition key_of_bytes (bs : list Z) : Pubkey := Z.to_N (from_le_bytes bs).
Definition slice (a b : nat) (d : list Z) : list Z := take (b - a) (drop a d).
(** [data.get(a..b)]. *)
Definition get_slice (a b : nat) (d : list Z) : option (list Z) :=
  if decide (b <= length d) then Some (slice a b d) else None.
(** [data[a..].copy_from_slice(src)], in range. *)
Definition write_slice (a : nat) (src d : list Z) : list Z :=
  take a d ++ src ++ drop (a + length src) d.

(** The two token programs, and the addresses and rent of the base chain. *)
Class TokenEnv := {
  spl_unpack : list Z -> option TokenAccount;
  spl_pack : TokenAccount -> list Z -> option (list Z);
  t22_unpack : list Z -> option TokenAccount;
  t22_pack_base : TokenAccount -> list Z -> list Z;
  native_mint : Pubkey;
  native_mint_2022 : Pubkey;
  find_program_address : list (list Z) -> Pubkey -> Pubkey * Z;
  try_find_program_address : list (list Z) -> Pubkey -> option (Pubkey * Z);
  minimum_balance : nat -> Z }.

(** What the code relies on: the mint, the wallet and the amount are the first 72
    bytes of a token account, and an account changed and packed over its own data
    is what the data then holds. *)
Definition token_layout (unpack : list Z -> option TokenAccount) : Prop :=
  forall d a, unpack d = Some a ->
  72 <= length d /\ ta_mint a = key_of_bytes (slice 0 32 d)
  /\ ta_owner a = key_of_bytes (slice 32 64 d) /\ ta_amount a = from_le_bytes (slice 64 72 d).

(** The changes the code packs back. *)
Definition relocked (a0 a : TokenAccount) : Prop :=
  a = with_close_authority (Some 0%N) a0
  \/ a = with_close_authority (Some 0%N) (with_is_native None a0).

Class TokenEnvLaws `{TokenEnv} := {
  spl_layout : token_layout spl_unpack;
  t22_layout : token_layout t22_unpack;
  spl_pack_unpack d a0 a d' : spl_unpack d = Some a0 -> relocked a0 a ->
    spl_pack a d = Some d' -> spl_unpack d' = Some a;
  t22_pack_unpack d a0 a : t22_unpack d = Some a0 -> relocked a0 a ->
    t22_unpack (t22_pack_base a d) = Some a;
  try_find_found seeds p kb :
    try_find_program_address seeds p = Some kb -> find_program_address seeds p = kb }.

Section token_programs.
Context `{TokenEnv}.

Definition find_pda (seeds : list (list Z)) (program : Pubkey) : Pubkey :=
  fst (find_program_address seeds program).

(** ** Normalisation for local clones *)

Definition normalize_legacy_native_token_account (a : SharedAccount) : NativeTokenNormalization :=
  match spl_unpack (sa_data a) with
  | None => Invalid
  | Some token_account =>
      if decide (ta_mint token_account <> native_mint) then NotNative
      else match ta_is_native token_account with
      | None => NotNative
      | Some rent_exempt_reserve =>
          let token_account := with_is_native None token_account in
          let token_account := with_close_authority (Some 0%N) token_account in
          match spl_pack token_account (sa_data a) with
          | None => Invalid
          | Some d => Normalized d rent_exempt_reserve
          end
      end
  end.

Definition normalize_token_2022_native_token_account (a : SharedAccount)
    : NativeTokenNormalization :=
  match t22_unpack (sa_data a) with
  | None => Invalid
  | Some base =>
      if decide (ta_mint base <> native_mint_2022) then NotNative
      else match ta_is_native base with
      | None => NotNative
      | Some rent_exempt_reserve =>
          let base := with_close_authority (Some 0%N) (with_is_native None base) in
          Normalized (t22_pack_base base (sa_data a)) rent_exempt_reserve
      end
  end.

Definition normalize_native_token_account_for_local_clone (a : SharedAccount)
    : option SharedAccount :=
  let normalized :=
    if decide (sa_owner a = TOKEN_PROGRAM_ID) then normalize_legacy_native_token_account a
    else if decide (sa_owner a = TOKEN_2022_PROGRAM_ID)
    then normalize_token_2022_native_token_account a
    else NotNative in
  match normalized with
  | NotNative => Some a
  | Invalid => None
  | Normalized d rent_exempt_reserve => Some (with_lamports rent_exempt_reserve (with_data d a))
  end.

Definition normalize_legacy_projected_token_account (a : SharedAccount) : option SharedAccount :=
  token_account ← spl_unpack (sa_data a);
  let '(token_account, rent_exempt_reserve) :=
    match (if decide (ta_mint token_account = native_mint) then ta_is_native token_account
           else None) with
    | Some r => (with_is_native None token_account, Some r)
    | None => (token_account, None)
    end in
  let token_account := with_close_authority (Some 0%N) token_account in
  d ← spl_pack token_account (sa_data a);
  let a := with_data d a in
  Some match rent_exempt_reserve with Some r => with_lamports r a | None => a end.

Definition normalize_token_2022_projected_token_account (a : SharedAccount)
    : option SharedAccount :=
  base ← t22_unpack (sa_data a);
  let '(base, rent_exempt_reserve) :=
    if decide (ta_mint base = native_mint_2022) then
      match ta_is_native base with
      | Some r => (with_is_native None base, Some r)
      | None => (base, None)
      end
    else (base, None) in
  let base := with_close_authority (Some 0%N) base in
  let a := with_data (t22_pack_base base (sa_data a)) a in
  Some match rent_exempt_reserve with Some r => with_lamports r a | None => a end.

Definition normalize_projected_token_account_for_local_clone (a : SharedAccount)
    : option SharedAccount :=
  if decide (sa_owner a = TOKEN_PROGRAM_ID) then normalize_legacy_projected_token_account a
  else if decide (sa_owner a = TOKEN_2022_PROGRAM_ID)
  then normalize_token_2022_projected_token_account a
  else Some a.

(** ** Addresses *)

Definition derive_ata_with_token_program (owner mint token_program : Pubkey) : Pubkey :=
  find_pda [key_bytes owner; key_bytes token_program; key_bytes mint] ASSOCIATED_TOKEN_PROGRAM_ID.

Definition derive_ata (owner mint : Pubkey) : Pubkey :=
  derive_ata_with_token_program owner mint TOKEN_PROGRAM_ID.

Definition try_derive_ata_address_and_bump_with_token_program (owner mint token_program : Pubkey)
    : option (Pubkey * Z) :=
  try_find_program_address [key_bytes owner; key_bytes token_program; key_bytes mint]
    ASSOCIATED_TOKEN_PROGRAM_ID.

Definition try_derive_ata_address_and_bump (owner mint : Pubkey) : option (Pubkey * Z) :=
  try_derive_ata_address_and_bump_with_token_program owner mint TOKEN_PROGRAM_ID.

Definition token_2022_first (s : SupportedAtaPubkeys) : list (option Pubkey) :=
  [sap_token_2022 s; sap_legacy s].

Definition sap_contains (s : SupportedAtaPubkeys) (k : Pubkey) : bool :=
  bool_decide (sap_legacy s = Some k) || bool_decide (sap_token_2022 s = Some k).

Definition try_derive_supported_ata_pubkeys (owner mint : Pubkey) : SupportedAtaPubkeys :=
  mkSupportedAtaPubkeys
    (fst <$> try_derive_ata_address_and_bump_with_token_program owner mint TOKEN_PROGRAM_ID)
    (fst <$> try_derive_ata_address_and_bump_with_token_program owner mint TOKEN_2022_PROGRAM_ID).

Definition try_derive_eata_address_and_bump (owner mint : Pubkey) : option (Pubkey * Z) :=
  try_find_program_address [key_bytes owner; key_bytes mint] EATA_PROGRAM_ID.

Definition derive_eata (owner mint : Pubkey) : Pubkey :=
  find_pda [key_bytes owner; key_bytes mint] EATA_PROGRAM_ID.

(** ** Inspection *)

Definition is_supported_token_program (p : Pubkey) : bool :=
  bool_decide (p = TOKEN_PROGRAM_ID) || bool_decide (p = TOKEN_2022_PROGRAM_ID).

Definition is_ata (k token_program_owner : Pubkey) (d : list Z) : option AtaInfo :=
  if negb (is_supported_token_program token_program_owner) then None
  else if decide (length d < 64) then None
  else
    let mint := key_of_bytes (slice 0 32 d) in
    let wallet_owner := key_of_bytes (slice 32 64 d) in
    let derived := find_pda [key_bytes wallet_owner; key_bytes token_program_owner; key_bytes mint]
                     ASSOCIATED_TOKEN_PROGRAM_ID in
    if decide (derived = k) then Some (mkAtaInfo mint wallet_owner) else None.

Definition try_get_base_ata_mirror_info (k : Pubkey) (a : SharedAccount) : option AtaInfo :=
  if decide (sa_mode a <> Mirrored) then None else is_ata k (sa_owner a) (sa_data a).

Definition try_remap_ata_to_eata (k : Pubkey) (a : SharedAccount)
    : option (Pubkey * EphemeralAta) :=
  if negb (is_supported_token_program (sa_owner a)) || bool_decide (sa_mode a <> Delegated)
  then None
  else
    let d := sa_data a in
    if decide (length d < 72) then None
    else
      let mint := key_of_bytes (slice 0 32 d) in
      let owner := key_of_bytes (slice 32 64 d) in
      let amount := from_le_bytes (slice 64 72 d) in
      '(eata_pubkey, bump) ← try_derive_eata_address_and_bump owner mint;
      let ata := derive_ata_with_token_program owner mint (sa_owner a) in
      if decide (ata <> k) then None
      else Some (eata_pubkey, mkEphemeralAta owner mint amount bump).

Definition parse_token_account_for_magic_ata (token_program : Pubkey) (d : list Z)
    : option TokenAccountCommon :=
  let common a := mkTokenAccountCommon (ta_mint a) (ta_owner a) (ta_amount a) (ta_is_native a)
                    (ta_close_authority a) in
  if decide (token_program = TOKEN_PROGRAM_ID) then common <$> spl_unpack d
  else if decide (token_program = TOKEN_2022_PROGRAM_ID) then common <$> t22_unpack d
  else None.

Definition try_get_magic_ata_info (k : Pubkey) (a : SharedAccount) : option MagicAtaInfo :=
  if decide (sa_mode a <> Magic) then None
  else
    let token_program := sa_owner a in
    token_account ← parse_token_account_for_magic_ata token_program (sa_data a);
    if decide (tc_close_authority token_account <> Some MAGIC_ATA_CLOSE_AUTHORITY
               \/ is_Some (tc_is_native token_account)) then None
    else if decide (tc_owner token_account = 0%N \/ tc_mint token_account = 0%N) then None
    else
      let expected_ata := derive_ata_with_token_program (tc_owner token_account)
                            (tc_mint token_account) token_program in
      if decide (expected_ata <> k) then None
      else Some (mkMagicAtaInfo k token_program (tc_owner token_account) (tc_mint token_account)
                   (tc_amount token_account)).

(** ** eATA accounts *)

Definition try_from_account_data (d : list Z) : option EphemeralAta :=
  o ← get_slice 0 32 d; let owner := key_of_bytes o in
  m ← get_slice 32 64 d; let mint := key_of_bytes m in
  if decide (mint = 0%N) then None
  else
    a ← get_slice 64 72 d; let amount := from_le_bytes a in
    bump ← (if decide (length d = EPHEMERAL_ATA_LEN) then d !! 72
            else if decide (length d = LEGACY_EPHEMERAL_ATA_LEN)
            then snd <$> try_derive_eata_address_and_bump owner mint else None);
    Some (mkEphemeralAta owner mint amount bump).

Definition project_into_ata_account (e : EphemeralAta) (ata_account : SharedAccount)
    : option SharedAccount :=
  if negb (is_supported_token_program (sa_owner ata_account)) then None
  else
    let d := sa_data ata_account in
    if decide (length d < 72) then None
    else if decide (slice 0 32 d <> key_bytes (ea_mint e) \/ slice 32 64 d <> key_bytes (ea_owner e))
    then None
    else
      let d := write_slice 64 (to_le_bytes 8 (ea_amount e)) d in
      normalize_projected_token_account_for_local_clone (with_data d ata_account).

(** [impl From<EphemeralAta> for Account]. *)
Definition account_of_eata (e : EphemeralAta) : Account :=
  let d := key_bytes (ea_owner e) ++ key_bytes (ea_mint e) ++ to_le_bytes 8 (ea_amount e)
             ++ [ea_bump e] ++ replicate 7 0%Z in
  mkAccount (minimum_balance (length d)) d EATA_PROGRAM_ID false 0.

(** ** [CommittedAccount::from_account_shared] ([core/src/intent/types.rs]) *)

Definition from_account_shared (k : Pubkey) (a : SharedAccount) : CommittedAccount :=
  let remote_slot := sa_slot a in
  let commit_id := sa_commit_seq a in
  match try_remap_ata_to_eata k a with
  | Some (eata_pubkey, eata) =>
      mkCommittedAccount eata_pubkey (account_of_eata eata) remote_slot commit_id
  | None =>
      mkCommittedAccount k
        (mkAccount (sa_lamports a) (sa_data a) (sa_owner a) (sa_executable a) (sa_rent_epoch a))
        remote_slot commit_id
  end.

(** ** Theorems *)

(** The fields of an eATA at their machine width. *)
Definition eata_ok (e : EphemeralAta) : Prop :=
  (Z.of_N (ea_owner e) < 256 ^ 32)%Z /\ (Z.of_N (ea_mint e) < 256 ^ 32)%Z
  /\ (0 <= ea_amount e < 256 ^ 8)%Z.

Lemma key_bytes_length k : length (key_bytes k) = 32.
Proof. apply to_le_bytes_length. Qed.

Lemma key_of_key_bytes k : (Z.of_N k < 256 ^ 32)%Z -> key_of_bytes (key_bytes k) = k.
Proof. intros Hk. unfold key_of_bytes, key_bytes. rewrite from_to_le_bytes by lia. apply N2Z.id. Qed.

Lemma slice_app a b (l1 l2 l3 : list Z) :
  length l1 = a -> length l2 = b - a -> slice a b (l1 ++ l2 ++ l3) = l2.
Proof. intros Ha Hb. unfold slice. by rewrite drop_app_length', take_app_length'. Qed.

(** The first 72 bytes of an eATA account, and any tail. *)
Definition eata_data (e : EphemeralAta) (tail : list Z) : list Z :=
  key_bytes (ea_owner e) ++ key_bytes (ea_mint e) ++ to_le_bytes 8 (ea_amount e) ++ tail.

Lemma eata_data_length e tail : length (eata_data e tail) = 72 + length tail.
Proof. unfold eata_data. by rewrite !length_app, !key_bytes_length, to_le_bytes_length. Qed.

Lemma eata_data_take e tail : take 72 (eata_data e tail) = eata_data e [].
Proof.
  assert (eata_data e tail = eata_data e [] ++ tail) as ->.
  { unfold eata_data. by rewrite app_nil_r, <- !app_assoc. }
  apply take_app_length'. by rewrite eata_data_length.
Qed.

Lemma eata_data_fields e tail :
  eata_ok e ->
  key_of_bytes (slice 0 32 (eata_data e tail)) = ea_owner e
  /\ key_of_bytes (slice 32 64 (eata_data e tail)) = ea_mint e
  /\ from_le_bytes (slice 64 72 (eata_data e tail)) = ea_amount e.
Proof.
  intros (Ho & Hm & Ha). unfold eata_data. split_and!.
  - change (key_bytes (ea_owner e) ++ ?r) with ([] ++ key_bytes (ea_owner e) ++ r).
    rewrite (slice_app 0 32 []) by (done || apply key_bytes_length). by apply key_of_key_bytes.
  - rewrite (slice_app 32 64) by apply key_bytes_length. by apply key_of_key_bytes.
  - rewrite app_assoc, (slice_app 64 72)
      by (rewrite ?length_app, ?key_bytes_length; apply to_le_bytes_length || done).
    by apply from_to_le_bytes.
Qed.

Lemma try_from_eata_data e tail bump :
  eata_ok e -> ea_mint e <> 0%N ->
  (if decide (length tail = 8) then tail !! 0
   else if decide (length tail = 0)
   then snd <$> try_derive_eata_address_and_bump (ea_owner e) (ea_mint e) else None) = Some bump ->
  try_from_account_data (eata_data e tail) =
    Some (mkEphemeralAta (ea_owner e) (ea_mint e) (ea_amount e) bump).
Proof.
  intros He Hm Hb. destruct (eata_data_fields e tail He) as (H1 & H2 & H3).
  pose proof (eata_data_length e tail) as Hl.
  unfold try_from_account_data, get_slice. rewrite !decide_True by lia. cbn [mbind option_bind].
  rewrite H1, H2, H3, decide_False by done. cbn [mbind option_bind].
  unfold EPHEMERAL_ATA_LEN, LEGACY_EPHEMERAL_ATA_LEN.
  rewrite (decide_ext (length (eata_data e tail) = 80) (length tail = 8)) by lia.
  rewrite (decide_ext (length (eata_data e tail) = 72) (length tail = 0)) by lia.
  replace (eata_data e tail !! 72) with (tail !! 0); [by rewrite Hb|].
  unfold eata_data. rewrite !lookup_app_r by
    (rewrite ?key_bytes_length, ?to_le_bytes_length; lia).
  by rewrite !key_bytes_length, to_le_bytes_length.
Qed.

(** an eATA account decodes to the eATA it was built from, in the current
    layout and, with the canonical bump, in the legacy one. *)
Theorem eata_account_roundtrip e :
  eata_ok e -> ea_mint e <> 0%N ->
  let a := account_of_eata e in
  owner a = EATA_PROGRAM_ID /\ length (data a) = EPHEMERAL_ATA_LEN
  /\ try_from_account_data (data a) = Some e
  /\ forall k bump, try_derive_eata_address_and_bump (ea_owner e) (ea_mint e) = Some (k, bump) ->
       try_from_account_data (take LEGACY_EPHEMERAL_ATA_LEN (data a)) =
         Some (mkEphemeralAta (ea_owner e) (ea_mint e) (ea_amount e) bump).
Proof.
  intros He Hm a. assert (data a = eata_data e ([ea_bump e] ++ replicate 7 0%Z)) as Hd by done.
  split; [done|]. rewrite Hd. split; [by rewrite eata_data_length|]. split.
  - rewrite (try_from_eata_data _ _ (ea_bump e)) by done. by destruct e.
  - intros k bump Hb. unfold LEGACY_EPHEMERAL_ATA_LEN. rewrite eata_data_take.
    apply try_from_eata_data; [done..|]. by rewrite Hb.
Qed.

Context `{!TokenEnvLaws}.

Definition unpack_for (p : Pubkey) : list Z -> option TokenAccount :=
  if decide (p = TOKEN_PROGRAM_ID) then spl_unpack else t22_unpack.
Definition native_mint_for (p : Pubkey) : Pubkey :=
  if decide (p = TOKEN_PROGRAM_ID) then native_mint else native_mint_2022.

Lemma unpack_for_layout p : token_layout (unpack_for p).
Proof. unfold unpack_for. case_decide; [apply spl_layout|apply t22_layout]. Qed.

Lemma supported_cases p :
  is_supported_token_program p = true <-> p = TOKEN_PROGRAM_ID \/ p = TOKEN_2022_PROGRAM_ID.
Proof. unfold is_supported_token_program. by rewrite orb_true_iff, !bool_decide_eq_true. Qed.

(** What both token programs' normalisation does to a projected account. *)
Lemma normalize_projected_spec a a' :
  is_supported_token_program (sa_owner a) = true ->
  normalize_projected_token_account_for_local_clone a = Some a' ->
  sa_owner a' = sa_owner a /\ sa_mode a' = sa_mode a /\ exists ta ta',
    unpack_for (sa_owner a) (sa_data a) = Some ta
    /\ unpack_for (sa_owner a) (sa_data a') = Some ta'
    /\ ta_mint ta' = ta_mint ta /\ ta_owner ta' = ta_owner ta /\ ta_amount ta' = ta_amount ta
    /\ ta_close_authority ta' = Some 0%N
    /\ (ta_mint ta = native_mint_for (sa_owner a) -> ta_is_native ta' = None).
Proof.
  intros Hs%supported_cases. unfold normalize_projected_token_account_for_local_clone,
    unpack_for, native_mint_for.
  destruct (decide (sa_owner a = TOKEN_PROGRAM_ID)) as [Ho|Ho].
  - unfold normalize_legacy_projected_token_account. intros Hn.
    destruct (spl_unpack (sa_data a)) as [ta|] eqn:Eu; [|done]. cbn in Hn.
    destruct (decide (ta_mint ta = native_mint)) as [Hm|Hm];
      [destruct (ta_is_native ta) as [r|] eqn:En|]; cbn in Hn;
      (destruct (spl_pack _ _) as [d|] eqn:Ep in Hn; [|done]); cbn in Hn; simplify_eq/=;
      (split_and!; [done..|]; eexists ta, _; split_and!;
        [done|eapply spl_pack_unpack; [exact Eu| |exact Ep]; unfold relocked; auto|done..]).
  - rewrite decide_True by naive_solver.
    unfold normalize_token_2022_projected_token_account. intros Hn.
    destruct (t22_unpack (sa_data a)) as [ta|] eqn:Eu; [|done]. cbn in Hn.
    destruct (decide (ta_mint ta = native_mint_2022)) as [Hm|Hm];
      [destruct (ta_is_native ta) as [r|] eqn:En|]; cbn in Hn; simplify_eq/=;
      (split_and!; [done..|]; eexists ta, _; split_and!;
        [done|eapply t22_pack_unpack; [exact Eu|unfold relocked; auto]|done..]).
Qed.

Lemma write_slice_fields d src :
  72 <= length d -> length src = 8 ->
  length (write_slice 64 src d) = length d /\ slice 0 32 (write_slice 64 src d) = slice 0 32 d
  /\ slice 32 64 (write_slice 64 src d) = slice 32 64 d /\ slice 64 72 (write_slice 64 src d) = src.
Proof.
  intros Hd Hs. unfold write_slice, slice.
  assert (length (take 64 d) = 64) as Ht by (rewrite length_take; lia). split_and!.
  - rewrite !length_app, Ht, length_drop. lia.
  - rewrite !drop_0, take_app_le by lia. rewrite take_take. done.
  - rewrite drop_app_le, take_app_le by (rewrite ?length_drop; lia).
    rewrite skipn_firstn_comm. rewrite take_take. done.
  - rewrite drop_app_length', take_app_length' by lia. done.
Qed.

(** The token account stored by a projection. *)
Lemma project_spec e a a' :
  eata_ok e -> project_into_ata_account e a = Some a' ->
  is_supported_token_program (sa_owner a) = true /\ sa_owner a' = sa_owner a
  /\ sa_mode a' = sa_mode a /\ exists ta,
    unpack_for (sa_owner a) (sa_data a') = Some ta
    /\ ta_mint ta = ea_mint e /\ ta_owner ta = ea_owner e /\ ta_amount ta = ea_amount e
    /\ ta_close_authority ta = Some 0%N
    /\ (ea_mint e = native_mint_for (sa_owner a) -> ta_is_native ta = None).
Proof.
  intros (Ho & Hm & Ha). unfold project_into_ata_account. case_match eqn:Hs; [done|].
  apply negb_false_iff in Hs. case_decide as Hl; [done|]. case_decide as Hk; [done|].
  apply not_or in Hk as [Hk1 Hk2]. apply dec_stable in Hk1, Hk2. intros Hn. split; [done|].
  apply (normalize_projected_spec (with_data _ a) a' Hs) in Hn
    as (? & ? & ta & ta' & Hu & Hu' & Em & Eo & Ea & Hc & Hnat).
  destruct (write_slice_fields (sa_data a) (to_le_bytes 8 (ea_amount e))) as (_ & W1 & W2 & W3);
    [lia|apply to_le_bytes_length|].
  destruct (unpack_for_layout _ _ _ Hu) as (_ & L1 & L2 & L3). cbn [sa_data with_data] in L1, L2, L3.
  rewrite W1, Hk1, key_of_key_bytes in L1 by done. rewrite W2, Hk2, key_of_key_bytes in L2 by done.
  rewrite W3, from_to_le_bytes in L3 by done.
  split_and!; [done..|]. exists ta'. split_and!; [exact Hu'|congruence..|]; intros Hnm; apply Hnat; exact (eq_trans L1 Hnm).
Qed.

(** C35: projecting an eATA into its delegated ATA and committing that ATA gives
    back the eATA: the committed account has the eATA's address and decodes to
    the same owner, mint, amount and bump. *)
Theorem eata_projection_commits_back e a a' ek :
  eata_ok e -> ea_mint e <> 0%N -> sa_mode a = Delegated ->
  try_derive_eata_address_and_bump (ea_owner e) (ea_mint e) = Some (ek, ea_bump e) ->
  project_into_ata_account e a = Some a' ->
  let k := derive_ata_with_token_program (ea_owner e) (ea_mint e) (sa_owner a) in
  try_remap_ata_to_eata k a' = Some (ek, e)
  /\ ca_pubkey (from_account_shared k a') = ek
  /\ try_from_account_data (data (ca_account (from_account_shared k a'))) = Some e
  /\ is_ata k (sa_owner a') (sa_data a') = Some (mkAtaInfo (ea_mint e) (ea_owner e)).
Proof.
  intros He Hm Hmode Hd Hp k. destruct (project_spec e a a' He Hp)
    as (Hs & Ho & Hmd & ta & Hu & Em & Eo & Ea & _).
  destruct (unpack_for_layout _ _ _ Hu) as (Hl & L1 & L2 & L3).
  rewrite Em in L1. rewrite Eo in L2. rewrite Ea in L3.
  assert (try_remap_ata_to_eata k a' = Some (ek, e)) as Hr.
  { unfold try_remap_ata_to_eata. rewrite Ho, Hs, Hmd, Hmode. cbn [negb orb].
    rewrite bool_decide_eq_false_2 by naive_solver. rewrite decide_False by lia.
    rewrite <- L1, <- L2, <- L3, Hd. cbn [mbind option_bind].
    rewrite decide_False by naive_solver. by destruct e. }
  split; [done|]. unfold from_account_shared. rewrite Hr. split_and!; [done| |].
  - change (data (ca_account _)) with (eata_data e ([ea_bump e] ++ replicate 7 0%Z)).
    rewrite (try_from_eata_data _ _ (ea_bump e)) by done. by destruct e.
  - unfold is_ata. rewrite Ho, Hs. cbn [negb]. rewrite decide_False by lia.
    rewrite <- L1, <- L2. by rewrite decide_True.
Qed.

(** A projected token account holds the eATA's amount, cannot be closed
    locally (its close authority is the default key), holds no claimable native
    reserve and is never taken for a Magic ATA. *)
Theorem projected_ata_uncloseable e a a' k :
  eata_ok e -> project_into_ata_account e a = Some a' ->
  exists ta, parse_token_account_for_magic_ata (sa_owner a') (sa_data a') = Some ta
  /\ tc_owner ta = ea_owner e /\ tc_mint ta = ea_mint e /\ tc_amount ta = ea_amount e
  /\ tc_close_authority ta = Some 0%N
  /\ (ea_mint e = native_mint_for (sa_owner a) -> tc_is_native ta = None)
  /\ try_get_magic_ata_info k a' = None.
Proof.
  intros He Hp. destruct (project_spec e a a' He Hp)
    as (Hs & Ho & Hmd & ta & Hu & Em & Eo & Ea & Hc & Hn).
  assert (parse_token_account_for_magic_ata (sa_owner a') (sa_data a')
          = Some (mkTokenAccountCommon (ta_mint ta) (ta_owner ta) (ta_amount ta) (ta_is_native ta)
                    (ta_close_authority ta))) as Hpar.
  { unfold parse_token_account_for_magic_ata, unpack_for in *. rewrite Ho.
    apply supported_cases in Hs. case_decide; [by rewrite Hu|].
    rewrite decide_True by naive_solver. by rewrite Hu. }
  eexists. split; [exact Hpar|]. split_and!; try done.
  unfold try_get_magic_ata_info. case_decide; [done|]. rewrite Hpar. cbn [mbind option_bind].
  rewrite decide_True; [done|]. left. cbn. rewrite Hc. done.
Qed.
End token_programs.

(** ** A concrete environment

    Token accounts of 74 bytes: the 72 common ones, a native flag and a flag for
    the default close authority. *)

Module ConcreteTokens.
Local Open Scope Z_scope.
Definition unpack (d : list Z) : option TokenAccount :=
  if decide (length d = 74%nat) then
    Some (mkTokenAccount (key_of_bytes (slice 0 32 d)) (key_of_bytes (slice 32 64 d))
            (from_le_bytes (slice 64 72 d)) None 1%N
            (if decide (d !! 72%nat = Some 1) then Some 2039280 else None) 0
            (if decide (d !! 73%nat = Some 1) then Some 0%N else None))
  else None.
Definition pack (a : TokenAccount) (d : list Z) : list Z :=
  <[73%nat := if decide (ta_close_authority a = Some 0%N) then 1 else 0]>
    (<[72%nat := if decide (is_Some (ta_is_native a)) then 1 else 0]> d).

#[export] Instance env : TokenEnv := {|
  spl_unpack := unpack;
  spl_pack a d := Some (pack a d);
  t22_unpack := unpack;
  t22_pack_base := pack;
  native_mint := 3;
  native_mint_2022 := 4;
  find_program_address seeds p := (key_of_bytes (concat seeds), 254);
  try_find_program_address seeds p := Some (key_of_bytes (concat seeds), 254);
  minimum_balance n := 19 + Z.of_nat n |}.

Lemma slice_insert a b i x (d : list Z) : (b <= i)%nat -> slice a b (<[i := x]> d) = slice a b d.
Proof.
  intros Hi. unfold slice. apply list_eq. intros j. rewrite !lookup_take.
  case_decide; [|done]. rewrite !lookup_drop. rewrite list_lookup_insert_ne by lia. done.
Qed.

Lemma pack_unpack d a0 a : unpack d = Some a0 -> relocked a0 a -> unpack (pack a d) = Some a.
Proof.
  unfold unpack, pack. case_decide as Hl; [|done]. intros [= <-] Hr.
  rewrite !length_insert, decide_True by done. rewrite !slice_insert by lia.
  rewrite (list_lookup_insert_ne _ 73 72) by lia. rewrite !list_lookup_insert_eq by
    (rewrite ?length_insert; lia).
  destruct Hr as [-> | ->]; unfold with_close_authority, with_is_native; cbn; f_equal; f_equal;
    repeat case_decide; try done; naive_solver.
Qed.

#[export] Instance laws : TokenEnvLaws.
Proof.
  assert (token_layout unpack) as Hlay.
  { intros d a. unfold unpack. case_decide; [|done]. intros [= <-]. cbn. split_and!; [lia|done..]. }
  split; [exact Hlay|exact Hlay| | |].
  - intros d a0 a d' Hu Hr [= <-]. by eapply pack_unpack.
  - intros d a0 a. apply pack_unpack.
  - intros seeds p kb. cbn. by intros [= <-].
Qed.

Definition e : EphemeralAta := mkEphemeralAta 8 9 1000 254.
Definition ata : SharedAccount :=
  mkSharedAccount 5 (key_bytes 9 ++ key_bytes 8 ++ replicate 8 0 ++ [0; 0]) TOKEN_PROGRAM_ID
    Delegated false 0 0 false 0.
Definition projected : SharedAccount := default no_account (project_into_ata_account e ata).

Lemma e_ok : eata_ok e.
Proof. by repeat split. Qed.

Lemma projects : project_into_ata_account e ata = Some projected.
Proof. by vm_compute. Qed.

Lemma eata_account_roundtrip_witness :
  try_from_account_data (data (account_of_eata e)) = Some e.
Proof.
  exact (proj1 (proj2 (proj2 (eata_account_roundtrip e e_ok ltac:(discriminate))))).
Defined.

Lemma eata_projection_commits_back_witness :
  try_remap_ata_to_eata (derive_ata_with_token_program 8 9 TOKEN_PROGRAM_ID) projected =
    Some (derive_eata 8 9, e).
Proof.
  exact (proj1 (eata_projection_commits_back e ata projected (derive_eata 8 9) e_ok
    ltac:(discriminate) eq_refl eq_refl projects)).
Defined.

Lemma projected_ata_uncloseable_witness : try_get_magic_ata_info 5 projected = None.
Proof.
  destruct (projected_ata_uncloseable e ata projected 5 e_ok projects)
    as (ta & _ & _ & _ & _ & _ & _ & H). exact H.
Defined.
End ConcreteTokens.
