(* ===== verification/MagicContext.v ===== *)
(** * The magic context

    [programs/magic-program/src/magic_context.rs]: the account that queues
    scheduled intents until the validator accepts them, with the readers that
    look at its raw bytes without decoding it. *)

From stdpp Require Import base gmap sets list.
From Stdlib Require Import ZArith Lia.
From S2P Require Import Prelude Intent Outbox Codec Runtime.

Record MagicContext := mkMagicContext {
  mc_intent_id : N;
  mc_scheduled_base_intents : list ScheduledIntentBundle }.

Definition MagicContext_default : MagicContext := mkMagicContext 0 [].

(** The encoding starts with the id and the queue length, eight bytes each. *)
Class ContextCodec := { cc_context :: Codec MagicContext }.
Class ContextCodecLaws `{ContextCodec} := {
  cl_context :: RoundTrip MagicContext;
  cl_layout (m : MagicContext) bs : encode m = Some bs ->
    (Z.of_N (mc_intent_id m) < 256 ^ 8)%Z
    /\ (Z.of_nat (length (mc_scheduled_base_intents m)) < 256 ^ 8)%Z
    /\ exists body, bs = to_le_bytes 8 (Z.of_N (mc_intent_id m))
         ++ to_le_bytes 8 (Z.of_nat (length (mc_scheduled_base_intents m))) ++ body }.

(** [slice.chunks_exact(n)]: the chunks and the remainder. *)
Fixpoint chunks_exact_fuel (fuel n : nat) (l : list Z) : list (list Z) * list Z :=
  match fuel with
  | O => ([], l)
  | S fuel =>
      if decide (length l < n) then ([], l)
      else let '(cs, r) := chunks_exact_fuel fuel n (drop n l) in (take n l :: cs, r)
  end.
Definition chunks_exact (n : nat) (l : list Z) : list (list Z) * list Z :=
  chunks_exact_fuel (length l) n l.

Definition is_zeroed (buf : list Z) : bool :=
  let '(chunks, remainder) := chunks_exact 8 buf in
  forallb (fun chunk => bool_decide (chunk = replicate 8 0%Z)) chunks
  && bool_decide (remainder = replicate (length remainder) 0%Z).

Section magic_context.
Context `{ContextCodec}.

Definition MagicContext_deserialize (d : list Z) : option MagicContext :=
  if bool_decide (d = []) || is_zeroed d then Some MagicContext_default else deserialize d.

Definition write_to (m : MagicContext) (d : list Z) : IResult (list Z) :=
  let? size := ok_or (serialized_size m) GenericError in
  if decide (length d < size) then Err AccountDataTooSmall
  else ok_or (serialize_into (replicate (length d) 0%Z) m) GenericError.

Definition next_intent_id (m : MagicContext) : N * MagicContext :=
  let output := mc_intent_id m in
  (output, mkMagicContext ((mc_intent_id m + 1) mod 2 ^ 64) (mc_scheduled_base_intents m)).

Definition add_scheduled_action (m : MagicContext) (s : ScheduledIntentBundle) : MagicContext :=
  mkMagicContext (mc_intent_id m) (mc_scheduled_base_intents m ++ [s]).

Definition take_front_scheduled_commits (n : nat) (m : MagicContext)
    : list ScheduledIntentBundle * MagicContext :=
  let n := n `min` length (mc_scheduled_base_intents m) in
  (take n (mc_scheduled_base_intents m),
   mkMagicContext (mc_intent_id m) (drop n (mc_scheduled_base_intents m))).

(** Raw readers. *)
Definition raw_intent_id (d : list Z) : option N :=
  if decide (8 <= length d) then Some (Z.to_N (from_le_bytes (take 8 d))) else None.

Definition scheduled_intents_len (d : list Z) : option Z :=
  if is_zeroed d then None
  else if decide (16 <= length d) then Some (from_le_bytes (take 8 (drop 8 d))) else None.

Definition has_scheduled_intents (d : list Z) : bool :=
  bool_decide (default 0%Z (scheduled_intents_len d) <> 0%Z).

(** ** Theorems *)

Lemma chunks_exact_concat fuel n l cs r :
  chunks_exact_fuel fuel n l = (cs, r) -> concat cs ++ r = l.
Proof.
  revert l cs r. induction fuel as [|fuel IH]; simpl; intros l cs r Hc; [by simplify_eq|].
  case_decide; [by simplify_eq|]. destruct (chunks_exact_fuel fuel n _) as [cs' r'] eqn:E.
  simplify_eq/=. rewrite <- app_assoc, (IH _ _ _ E). apply take_drop.
Qed.

Lemma chunks_exact_chunks fuel n l cs r :
  chunks_exact_fuel fuel n l = (cs, r) -> Forall (fun c => length c = n) cs.
Proof.
  revert l cs r. induction fuel as [|fuel IH]; simpl; intros l cs r Hc; [by simplify_eq|].
  case_decide; [by simplify_eq|]. destruct (chunks_exact_fuel fuel n _) as [cs' r'] eqn:E.
  simplify_eq/=. constructor; [rewrite length_take; lia|by eapply IH].
Qed.

Lemma replicate_Forall (l : list Z) : l = replicate (length l) 0%Z <-> Forall (fun b => b = 0%Z) l.
Proof.
  split.
  - intros ->. apply Forall_replicate. done.
  - induction 1 as [|x l -> _ IH]; simpl; congruence.
Qed.

(** The chunked test is the plain one. *)
Lemma is_zeroed_spec buf : is_zeroed buf = true <-> Forall (fun b => b = 0%Z) buf.
Proof.
  unfold is_zeroed, chunks_exact. destruct (chunks_exact_fuel _ 8 buf) as [cs r] eqn:E.
  pose proof (chunks_exact_chunks _ _ _ _ _ E) as Hl. apply chunks_exact_concat in E as <-.
  rewrite andb_true_iff, bool_decide_eq_true, replicate_Forall, Forall_app.
  rewrite forallb_forall. split; intros [Hc Hr]; (split; [|done]).
  - apply Forall_concat. rewrite Forall_forall in *. intros c Hin. specialize (Hc c).
    rewrite bool_decide_eq_true in Hc. rewrite <- list_elem_of_In in Hc. rewrite (Hc Hin).
    by apply Forall_replicate.
  - intros c Hin%list_elem_of_In. apply bool_decide_eq_true.
    rewrite Forall_concat in Hc. rewrite Forall_forall in Hc, Hl. rewrite <- (Hl c Hin).
    apply replicate_Forall. by apply Hc.
Qed.

Context `{!ContextCodecLaws}.

Lemma from_le_bytes_zero l : Forall (fun b => b = 0%Z) l -> from_le_bytes l = 0%Z.
Proof. induction 1 as [|b l -> _ IH]; simpl; [done|]. by rewrite IH. Qed.

Lemma write_to_Ok m d d' :
  write_to m d = Ok d' -> length d' = length d /\ exists bs rest, encode m = Some bs /\ d' = bs ++ rest.
Proof.
  unfold write_to. intros Hw. res_inv. case_decide; [done|]. res_inv.
  match goal with H : serialize_into _ _ = Some _ |- _ =>
    apply serialize_into_Some in H as (Hl & Hbs) end.
  by rewrite length_replicate in Hl.
Qed.

(** The head of the written bytes. *)
Lemma written_head m bs rest :
  encode m = Some bs ->
  let d := bs ++ rest in
  16 <= length d /\ from_le_bytes (take 8 d) = Z.of_N (mc_intent_id m)
  /\ from_le_bytes (take 8 (drop 8 d)) = Z.of_nat (length (mc_scheduled_base_intents m)).
Proof.
  intros (Hi & Hq & body & ->)%cl_layout d. subst d. rewrite <- !app_assoc.
  rewrite !length_app, !to_le_bytes_length. split; [lia|].
  rewrite drop_app_length', !take_app_length' by (symmetry; apply to_le_bytes_length).
  rewrite !from_to_le_bytes by lia. done.
Qed.

(** An all-zero encoding is the default context. *)
Lemma written_zero m bs rest :
  encode m = Some bs -> is_zeroed (bs ++ rest) = true -> m = MagicContext_default.
Proof.
  intros Hb Hz%is_zeroed_spec. destruct (written_head m bs rest Hb) as (_ & Hi & Hq).
  rewrite from_le_bytes_zero in Hi by (by apply Forall_take).
  rewrite from_le_bytes_zero in Hq by (by apply Forall_take, Forall_drop).
  destruct m as [i [|? ?]]; cbn in *; [|lia]. unfold MagicContext_default. f_equal. lia.
Qed.

Lemma deserialize_write_to m d d' : write_to m d = Ok d' -> MagicContext_deserialize d' = Some m.
Proof.
  intros (_ & bs & rest & Hb & ->)%write_to_Ok. unfold MagicContext_deserialize.
  destruct (written_head m bs rest Hb) as (Hl & _).
  rewrite bool_decide_eq_false_2 by (intros E; rewrite E in Hl; simpl in Hl; lia). cbn [orb].
  destruct (is_zeroed _) eqn:Hz; [by rewrite (written_zero m bs rest Hb Hz)|].
  by apply deserialize_serialize.
Qed.

(** C34: a context that is written is read back unchanged, the account keeps its
    size, and the raw readers agree with the decoded context on the next id, on
    whether intents are queued and, unless all bytes are zero, on how many. *)
Theorem context_roundtrip m d d' :
  write_to m d = Ok d' ->
  length d' = length d /\ MagicContext_deserialize d' = Some m
  /\ raw_intent_id d' = Some (mc_intent_id m)
  /\ has_scheduled_intents d' = negb (is_nil (mc_scheduled_base_intents m))
  /\ (is_zeroed d' = false ->
      scheduled_intents_len d' = Some (Z.of_nat (length (mc_scheduled_base_intents m)))).
Proof.
  intros Hw. pose proof (deserialize_write_to _ _ _ Hw) as Hr.
  apply write_to_Ok in Hw as (Hl & bs & rest & Hb & ->).
  destruct (written_head m bs rest Hb) as (H16 & Hi & Hq). split_and!; [done..| | |].
  - unfold raw_intent_id. rewrite decide_True by lia. by rewrite Hi, N2Z.id.
  - unfold has_scheduled_intents, scheduled_intents_len.
    destruct (is_zeroed _) eqn:Hz; [by rewrite (written_zero m bs rest Hb Hz)|].
    rewrite decide_True by lia. cbn. rewrite Hq.
    destruct (mc_scheduled_base_intents m); cbn [length is_nil negb].
    + apply bool_decide_eq_false_2. lia.
    + apply bool_decide_eq_true_2. lia.
  - unfold scheduled_intents_len. intros ->. rewrite decide_True by lia. by rewrite Hq.
Qed.
End magic_context.

(** ** The documented layout *)

Module ConcreteContext.
Definition context : Codec MagicContext :=
  Bincode.iso (fun m => (mc_intent_id m, mc_scheduled_base_intents m))
    (fun '(i, l) => mkMagicContext i l) (Bincode.pair Bincode.id_ (Bincode.vec Bincode.scheduled)).
#[export] Instance codec : ContextCodec := {| cc_context := context |}.

#[export] Instance laws : ContextCodecLaws.
Proof.
  split.
  - apply Bincode.iso_rt; [by intros []|].
    apply Bincode.pair_rt; [apply Bincode.as_N_rt|apply Bincode.vec_rt, Bincode.scheduled_rt].
  - intros [i l] bs. cbn [encode cc_context codec context Bincode.iso Bincode.pair Bincode.id_
      Bincode.as_N Bincode.uint Bincode.vec fst snd mc_intent_id mc_scheduled_base_intents].
    repeat case_decide; cbn [mbind option_bind]; try discriminate.
    destruct (Bincode.encode_list l) as [b|]; cbn [mbind option_bind]; [|discriminate].
    intros. simplify_eq. split_and!; [lia..|]. eauto.
Qed.

Lemma context_roundtrip_witness :
  let m := mkMagicContext 7 [mkScheduledIntentBundle 6 1 2 3 MagicIntentBundle_default] in
  exists d, write_to m (replicate 200 5%Z) = Ok d /\ raw_intent_id d = Some 7%N
            /\ has_scheduled_intents d = true.
Proof.
  intros m. assert (exists d, write_to m (replicate 200 5%Z) = Ok d) as [d Hd].
  { eexists. vm_compute. reflexivity. }
  exists d. destruct (context_roundtrip m (replicate 200 5%Z) d Hd) as (_ & _ & H1 & H2 & _).
  split; [exact Hd|]. split; [exact H1|exact H2].
Defined.
End ConcreteContext.
