(* ===== verification/ScheduleCommon.v ===== *)
(** * Scheduling: shared checks

    [programs/magic-program/src/intent_bundles/schedule/mod.rs]: the checks and
    effects the scheduling instructions share, and the permission check of
    [magic_scheduled_base_intent.rs]. *)

From stdpp Require Import base gmap sets list.
From Stdlib Require Import ZArith Lia.
From S2P Require Import Prelude Intent Runtime TokenPrograms.

Definition PAYER_IDX : nat := 0.
Definition MAGIC_CONTEXT_IDX : nat := PAYER_IDX + 1.
Definition COMMIT_LIMIT : Z := 10.
Definition COMMIT_LIMIT_ERR : Z := 0xA0000000.
Definition INTENT_TOO_LARGE_ERR : Z := 0xA0000002.
Definition FEE_VAULT_SEED : list Z :=
  [109; 97; 103; 105; 99; 45; 102; 101; 101; 45; 118; 97; 117; 108; 116]%Z.

(** What the engine decides: the account lifecycle, whether a commit sequence
    number may be patched, which privileges a nested call may pass on, and the
    callback signer address. *)
Class Engine := {
  lifecycle : AccountMode -> AccountMode -> bool;
  patchable : SharedAccount -> Z -> bool;
  create_program_address : list (list Z) -> Pubkey -> option Pubkey;
  privileged : InvokeContext -> list IxMeta -> bool;
  CALLBACK_SIGNER : Pubkey }.

(** An [AccountMeta] of a requested instruction. *)
Abbreviation AccountMeta := IxMeta (only parsing).

Section common.
Context `{TokenEnv} `{Engine}.
Context (ic : InvokeContext).

Definition check_magic_context_id (idx : nat) : IResult unit :=
  let? provided_magic_context := get_instruction_pubkey_with_idx ic idx in
  if decide (provided_magic_context <> MAGIC_CONTEXT_PUBKEY) then Err MissingAccount else Ok tt.

Definition check_commit_limits (commits : list CommittedAccount) : IResult unit :=
  let limit_exceeded := existsb (fun a => (COMMIT_LIMIT <? ca_commit_id a)%Z) commits in
  if limit_exceeded then Err (Custom COMMIT_LIMIT_ERR) else Ok tt.

Definition magic_fee_vault_pubkey : Pubkey :=
  fst (find_program_address [FEE_VAULT_SEED; key_bytes (ic_authority ic)] DELEGATION_PROGRAM_ID).

Definition try_get_fee_vault (t : accounts) (payer_idx fee_vault_idx : nat)
    : IResult (option Pubkey * nat) :=
  let? payer := get_instruction_pubkey_with_idx ic payer_idx in
  let payer_requires_fee_vault := bool_decide (sa_mode (account t payer) = Delegated) in
  let? fee_vault :=
    match get_instruction_pubkey_with_idx ic fee_vault_idx with
    | Ok vault_pubkey =>
        if decide (vault_pubkey = magic_fee_vault_pubkey) then
          let? is_vault_writable := get_writable_with_idx ic fee_vault_idx in
          if negb (bool_decide (sa_mode (account t vault_pubkey) = Delegated))
             || negb is_vault_writable
          then Err IllegalOwner else Ok (Some vault_pubkey)
        else Ok None
    | Err MissingAccount => Ok None
    | Err err => Err err
    end in
  let next_account_idx := fee_vault_idx + (if decide (is_Some fee_vault) then 1 else 0) in
  if payer_requires_fee_vault then
    if decide (fee_vault = None) then Err MissingAccount else Ok (fee_vault, next_account_idx)
  else Ok (None, next_account_idx).

Fixpoint validate_callback_accounts (accounts_meta : list AccountMeta) : IResult unit :=
  match accounts_meta with
  | [] => Ok tt
  | m :: r =>
      if im_writable m && bool_decide (im_pubkey m = CALLBACK_SIGNER) then Err Immutable
      else if im_signer m && bool_decide (im_pubkey m <> CALLBACK_SIGNER) then Err IncorrectAuthority
      else if decide (im_pubkey m = ic_authority ic) then Err IncorrectAuthority
      else validate_callback_accounts r
  end.

(** The account at an index reserves its next commit id. *)
Definition reserve_commit_id (t : accounts) (idx : nat) : IResult (accounts * Z) :=
  let? k := get_instruction_pubkey_with_idx ic idx in
  let? writable := get_writable_with_idx ic idx in
  if negb writable then Err ReadonlyDataModified
  else
    let? commit_seq :=
      ok_or (checked_add u32_max (sa_commit_seq (account t k)) 1) ArithmeticOverflow in
    if patchable (account t k) commit_seq
    then Ok (put t k (with_commit_seq commit_seq (account t k)), commit_seq)
    else Err InvalidAccountData.

(** [validate_commit_schedule_permissions] *)
Definition validate_commit_schedule_permissions (committee_owner committee_pubkey : Pubkey)
    (parent_program_id : option Pubkey) : IResult unit :=
  let is_token_account_owner :=
    bool_decide (committee_owner = TOKEN_PROGRAM_ID)
    || bool_decide (committee_owner = TOKEN_2022_PROGRAM_ID) in
  let is_eata_token_program_call :=
    bool_decide (parent_program_id = Some EATA_PROGRAM_ID) && is_token_account_owner in
  if bool_decide (parent_program_id <> Some committee_owner)
     && bool_decide (committee_pubkey ∉ ic_signers ic)
     && bool_decide (ic_authority ic ∉ ic_signers ic)
     && negb is_eata_token_program_call
  then match parent_program_id with
       | None => Err InvalidInstructionData
       | Some _ => Err InvalidAccountOwner
       end
  else Ok tt.
End common.
