(* ===== verification/Accept.v ===== *)
(** * Accepting scheduled intents

    [programs/magic-program/src/intent_bundles/process_accept_scheduled_commits.rs]:
    the validator moves the first intents of the magic context into outbox
    accounts, one nested [CreateOutboxIntent] call each. *)

From stdpp Require Import base gmap sets list relations.
From Stdlib Require Import ZArith Lia.
From S2P Require Import Prelude Intent Outbox Codec Runtime OutboxProgram TokenPrograms.
From S2P Require Import MagicContext ScheduleCommon.

Definition VALIDATOR_AUTHORITY_IDX : nat := 0.
Definition OUTBOX_PROGRAM_IDX : nat := VALIDATOR_AUTHORITY_IDX + 1.
Definition ACCEPT_CONTEXT_IDX : nat := OUTBOX_PROGRAM_IDX + 1.
Definition INTENT_PDAS_OFFSET : nat := ACCEPT_CONTEXT_IDX + 1.

Section accept.
Context `{TokenEnv} `{Engine} `{OutboxCodec} `{ContextCodec} {IC : Codec OutboxIntentInstruction}.

Abbreviation PResult A := (result A (failure InstructionError)).

(** [OutboxIntentEntrypoint] on instruction data. *)
Definition outbox_entrypoint (ic : InvokeContext) (t : accounts) (d : list Z) : PResult accounts :=
  let? ix := ok_or (deserialize d) (Error InvalidInstructionData) in
  process_outbox_instruction create_program_address lifecycle ic t ix.

(** The nested call as the outbox program sees it. *)
Definition cpi_context (ic : InvokeContext) (metas : list IxMeta) : InvokeContext :=
  mkInvokeContext OUTBOX_INTENT_PROGRAM_ID (Some MAGIC_PROGRAM_ID) metas
    (list_to_set (im_pubkey <$> filter (fun m => im_signer m = true) metas))
    (ic_authority ic) (ic_slot ic) (ic_blockhash ic).

Definition create_outbox_intent_cpi (ic : InvokeContext) (t : accounts) (pda : Pubkey)
    (outbox_account : OutboxIntentBundle) : PResult accounts :=
  let? d := ok_or (try_to_bytes outbox_account) (Error InvalidAccountData) in
  let metas := [mkIxMeta (ic_authority ic) true false; mkIxMeta pda false true] in
  let? ix_data := ok_or (encode (CreateOutboxIntent d)) (Error InvalidInstructionData) in
  if privileged ic metas then outbox_entrypoint (cpi_context ic metas) t ix_data
  else Err (Error PrivilegeEscalation).

Definition accept_validate (ic : InvokeContext) : IResult unit :=
  check_magic_context_id ic ACCEPT_CONTEXT_IDX ?;
  let? outbox_program_pubkey := get_instruction_pubkey_with_idx ic OUTBOX_PROGRAM_IDX in
  if decide (outbox_program_pubkey <> OUTBOX_INTENT_PROGRAM_ID) then Err IncorrectProgramId
  else
    let? provided_validator_auth := get_instruction_pubkey_with_idx ic VALIDATOR_AUTHORITY_IDX in
    if decide (provided_validator_auth <> ic_authority ic) then Err InvalidArgument
    else if decide (ic_authority ic ∉ ic_signers ic) then Err MissingRequiredSignature
    else Ok tt.

Definition verify_intent_pda (ic : InvokeContext) (intent_id : N) (pda_idx : nat)
    : IResult (Pubkey * Z) :=
  let? provided := get_instruction_pubkey_with_idx ic pda_idx in
  let '(expected, bump) := outbox_intent_pda_with_bump find_program_address intent_id in
  if decide (provided <> expected) then Err InvalidArgument else Ok (expected, bump).

Definition pop_scheduled_intents (ic : InvokeContext) (t : accounts)
    : IResult (accounts * list ScheduledIntentBundle) :=
  let num_ix_accounts := length (ic_metas ic) in
  if decide (num_ix_accounts < INTENT_PDAS_OFFSET) then Err MissingAccount
  else
    let num_accept_intents := num_ix_accounts - INTENT_PDAS_OFFSET in
    if decide (num_accept_intents = 0) then Ok (t, [])
    else
      let? k := get_instruction_pubkey_with_idx ic ACCEPT_CONTEXT_IDX in
      let acc := account t k in
      let? magic_context := ok_or (MagicContext_deserialize (sa_data acc)) InvalidAccountData in
      let '(intents, magic_context) := take_front_scheduled_commits num_accept_intents magic_context in
      if decide (length intents <> num_accept_intents) then Err InvalidArgument
      else
        let? d := write_to magic_context (sa_data acc) in
        Ok (put t k (with_data d acc), intents).

Fixpoint accept_intents (ic : InvokeContext) (t : accounts) (i : nat)
    (intents : list ScheduledIntentBundle) : PResult accounts :=
  match intents with
  | [] => Ok t
  | intent :: rest =>
      let pda_idx := INTENT_PDAS_OFFSET + i in
      let? '(pda, bump) := res_map_err Error (verify_intent_pda ic (intent_id intent) pda_idx) in
      let? t := create_outbox_intent_cpi ic t pda (accepted intent bump) in
      accept_intents ic t (S i) rest
  end.

Definition process_accept_scheduled_commits (ic : InvokeContext) (t : accounts)
    : PResult accounts :=
  res_map_err Error (accept_validate ic) ?;
  let? '(t, intents) := res_map_err Error (pop_scheduled_intents ic t) in
  if is_nil intents then Ok t else accept_intents ic t 0 intents.

(** ** Theorems *)

Context `{!OutboxCodecLaws} `{!ContextCodecLaws} `{!RoundTrip OutboxIntentInstruction}.

(** The outbox address and bump of an intent. *)
Definition intent_pda (s : ScheduledIntentBundle) : Pubkey :=
  fst (outbox_intent_pda_with_bump find_program_address (intent_id s)).
Definition intent_bump (s : ScheduledIntentBundle) : Z :=
  snd (outbox_intent_pda_with_bump find_program_address (intent_id s)).

(** The queue of scheduled intents. *)
Definition queue (t : accounts) : option MagicContext :=
  MagicContext_deserialize (sa_data (account t MAGIC_CONTEXT_PUBKEY)).

Lemma try_to_bytes_nonempty b d : try_to_bytes b = Some d -> d <> [].
Proof. by intros (? & ? & ? & ? & ? & ? & _ & _ & _ & _ & _ & -> & _)%try_to_bytes_Some. Qed.

Lemma create_cpi_spec ic t pda b t' :
  create_outbox_intent_cpi ic t pda b = Ok t' ->
  exists d a, try_to_bytes b = Some d /\ t' = put t pda a
  /\ sa_owner (account t pda) = system_program_id /\ sa_data (account t pda) = []
  /\ sa_owner a = OUTBOX_INTENT_PROGRAM_ID /\ sa_data a = d.
Proof.
  unfold create_outbox_intent_cpi. intros Hc. res_inv. case_match; [|done].
  unfold outbox_entrypoint in *.
  match goal with H : encode _ = Some ?x |- _ =>
    pose proof (deserialize_serialize _ _ [] H) as Hd; rewrite app_nil_r in Hd end.
  match goal with H : res_bind (ok_or _ _) _ = Ok _ |- _ => rewrite Hd in H; cbn in H end. res_inv.
  match goal with H : process_create_outbox_intent _ _ _ _ = Ok _ |- _ =>
    apply outbox_create_spec in H as (k & a & Hk & -> & Ho & He & _ & Ho' & Hd' & _) end.
  cbn in Hk. simplify_eq. eauto 10.
Qed.

Lemma verify_intent_pda_Ok ic id idx k b :
  verify_intent_pda ic id idx = Ok (k, b) ->
  outbox_intent_pda_with_bump find_program_address id = (k, b)
  /\ get_instruction_pubkey_with_idx ic idx = Ok k.
Proof.
  unfold verify_intent_pda. intros Hv. res_inv. destruct (outbox_intent_pda_with_bump _ _) as [e b'].
  case_decide; simplify_eq. done.
Qed.

(** A vacant account. *)
Definition vacant (t : accounts) (k : Pubkey) : Prop :=
  sa_owner (account t k) = system_program_id /\ sa_data (account t k) = [].

Lemma accept_intents_spec ic t i l t' :
  accept_intents ic t i l = Ok t' ->
  (forall j s, l !! j = Some s ->
     get_instruction_pubkey_with_idx ic (INTENT_PDAS_OFFSET + (i + j)) = Ok (intent_pda s)
     /\ vacant t (intent_pda s) /\ view t' (intent_pda s) = Some (accepted s (intent_bump s)))
  /\ NoDup (intent_pda <$> l)
  /\ (forall k, k ∉ intent_pda <$> l -> account t' k = account t k)
  /\ (wf_outbox t -> wf_outbox t').
Proof.
  revert t i. induction l as [|s l IH]; intros t i Hacc; cbn in Hacc.
  { simplify_eq. split_and!; [done|constructor|done|done]. }
  apply res_bind_Ok in Hacc as ([k b] & Hv & Hacc). res_inv.
  match goal with H : verify_intent_pda _ _ _ = Ok _ |- _ =>
    apply verify_intent_pda_Ok in H as [Hpda Hk] end.
  match goal with H : create_outbox_intent_cpi _ _ _ _ = Ok _ |- _ =>
    apply create_cpi_spec in H as (d & a & Hd & -> & Ho & He & Hao & Had) end.
  assert (intent_pda s = k /\ intent_bump s = b) as [Ek Eb].
  { unfold intent_pda, intent_bump. by rewrite Hpda. }
  match goal with H : accept_intents _ _ _ _ = Ok _ |- _ =>
    apply IH in H as (Hl & Hnd & Hframe & Hwf) end.
  assert (k ∉ intent_pda <$> l) as Hnk.
  { rewrite list_elem_of_fmap. intros (s' & Es & [j Hj]%list_elem_of_lookup).
    destruct (Hl j s' Hj) as (_ & [_ Hemp] & _). rewrite <- Es, account_put_eq, Had in Hemp.
    by apply (try_to_bytes_nonempty _ _ Hd). }
  split_and!.
  - intros [|j] s' Hj; cbn in Hj.
    + simplify_eq. rewrite Nat.add_0_r, Hk. split_and!; [done|done|].
      apply (view_owned _ _ (sa_data a)); rewrite ?Hframe, ?account_put_eq by done; [done..|].
      by apply try_from_to_bytes.
    + destruct (Hl j s' Hj) as (Hj1 & [Hj2 Hj3] & Hj4).
      assert (k <> intent_pda s') as Hne.
      { intros ->. apply Hnk. apply list_elem_of_fmap. exists s'. split; [done|].
        by eapply list_elem_of_lookup_2. }
      rewrite account_put_ne in Hj2, Hj3 by done. rewrite Nat.add_succ_r. done.
  - cbn. rewrite Ek. by constructor.
  - cbn. intros k' Hk'. rewrite not_elem_of_cons in Hk'. destruct Hk' as [Hk1 Hk2].
    rewrite Hframe, account_put_ne by (done || congruence). done.
  - intros Hw. apply Hwf, wf_put; [done|]. intros _. exists (accepted s b).
    rewrite Had. split; [done|apply rtc_refl].
Qed.

Lemma pop_spec ic t t1 intents :
  get_instruction_pubkey_with_idx ic ACCEPT_CONTEXT_IDX = Ok MAGIC_CONTEXT_PUBKEY ->
  pop_scheduled_intents ic t = Ok (t1, intents) ->
  (length (ic_metas ic) = INTENT_PDAS_OFFSET /\ t1 = t /\ intents = [])
  \/ exists c rest d, queue t = Some c /\ mc_scheduled_base_intents c = intents ++ rest
     /\ length (ic_metas ic) = INTENT_PDAS_OFFSET + length intents /\ intents <> []
     /\ t1 = put t MAGIC_CONTEXT_PUBKEY (with_data d (account t MAGIC_CONTEXT_PUBKEY)) /\ d <> []
     /\ MagicContext_deserialize d = Some (mkMagicContext (mc_intent_id c) rest).
Proof.
  intros Hk. unfold pop_scheduled_intents. case_decide as Hl; [done|]. case_decide as Hz.
  { intros. simplify_eq. left. split_and!; [lia|done|done]. }
  rewrite Hk. cbn [res_bind]. intros Hp. right. res_inv. case_decide as Hn; [done|]. res_inv.
  match goal with H : MagicContext_deserialize _ = Some ?c |- _ => exists c; pose proof H as Hq end.
  match goal with H : write_to _ _ = Ok ?d |- _ => pose proof H as Hw end.
  eexists _, _. split_and!; [exact Hq| | | |reflexivity| |].
  - cbn. symmetry. apply take_drop.
  - rewrite Hn. change INTENT_PDAS_OFFSET with 3 in *. lia.
  - intros E. rewrite E in Hn. cbn in Hn. change INTENT_PDAS_OFFSET with 3 in *. lia.
  - apply write_to_Ok in Hw as (_ & bs & r & Hb & ->).
    destruct (written_head _ bs r Hb) as (H16 & _). intros E. rewrite E in H16. cbn in H16. lia.
  - by apply deserialize_write_to in Hw.
Qed.

Lemma accept_validate_Ok ic u :
  accept_validate ic = Ok u ->
  get_instruction_pubkey_with_idx ic ACCEPT_CONTEXT_IDX = Ok MAGIC_CONTEXT_PUBKEY
  /\ get_instruction_pubkey_with_idx ic VALIDATOR_AUTHORITY_IDX = Ok (ic_authority ic)
  /\ ic_authority ic ∈ ic_signers ic.
Proof.
  unfold accept_validate, check_magic_context_id. intros Hv. res_inv.
  repeat (case_decide; [done|]). res_inv. repeat (case_decide; [done|]). split_and!; congruence.
Qed.

(** C33: acceptance loses and duplicates nothing. An accepting instruction is
    signed by the validator and takes a prefix of the queue, one intent per outbox
    account it is given; each taken intent gets a new record in the outbox account
    of its own id, which was vacant, with status [Accepted]; the rest of the queue
    stays in order with the same next id, and no other account changes. *)
Theorem accept_exact ic t t' :
  process_accept_scheduled_commits ic t = Ok t' ->
  ic_authority ic ∈ ic_signers ic
  /\ (t' = t \/ exists c taken rest,
        queue t = Some c /\ mc_scheduled_base_intents c = taken ++ rest
        /\ length (ic_metas ic) = INTENT_PDAS_OFFSET + length taken
        /\ queue t' = Some (mkMagicContext (mc_intent_id c) rest)
        /\ NoDup (intent_pda <$> taken)
        /\ (forall s, s ∈ taken -> view t (intent_pda s) = None
              /\ view t' (intent_pda s) = Some (accepted s (intent_bump s)))
        /\ (forall k, k ∉ MAGIC_CONTEXT_PUBKEY :: (intent_pda <$> taken) ->
              account t' k = account t k)).
Proof.
  unfold process_accept_scheduled_commits. intros Hp.
  apply res_bind_Ok in Hp as (u & Hv%res_map_err_Ok & Hp).
  apply accept_validate_Ok in Hv as (Hctx & _ & Hsig).
  apply res_bind_Ok in Hp as ([t1 intents] & Hpop%res_map_err_Ok & Hp). split; [done|].
  apply (pop_spec _ _ _ _ Hctx) in Hpop as [(_ & -> & ->)|
      (c & rest & d & Hq & Hs & Hlen & Hne & -> & Hd & Hc)]; [left; cbn in *; congruence|].
  right. exists c, intents, rest. 
  assert (is_nil intents = false) as Hnil by (by destruct intents). rewrite Hnil in Hp.
  apply accept_intents_spec in Hp as (Hl & Hnd & Hframe & _).
  assert (forall s, s ∈ intents -> MAGIC_CONTEXT_PUBKEY <> intent_pda s) as Hnc.
  { intros s [j Hj]%list_elem_of_lookup E. destruct (Hl j s Hj) as (_ & [_ Hemp] & _).
    rewrite <- E, account_put_eq in Hemp. done. }
  split_and!; [done..| | | |].
  - unfold queue. rewrite Hframe, account_put_eq; [done|].
    rewrite list_elem_of_fmap. intros (s & Es & Hin). by apply (Hnc s).
  - done.
  - intros s Hin. pose proof (Hnc s Hin). apply list_elem_of_lookup in Hin as [j Hj].
    destruct (Hl j s Hj) as (_ & [Hvo _] & Hview). split; [|done].
    rewrite account_put_ne in Hvo by done. apply view_foreign. by rewrite Hvo.
  - intros k Hk. rewrite not_elem_of_cons in Hk. destruct Hk as [Hk1 Hk2].
    rewrite Hframe, account_put_ne by done. done.
Qed.
End accept.

(** ** The documented layout *)

Module ConcreteAccept.
Import Bincode.

Definition ascii_ : Codec Ascii.ascii :=
  iso (fun a => Z.of_nat (Ascii.nat_of_ascii a)) (fun z => Ascii.ascii_of_nat (Z.to_nat z)) (uint 1).
Definition string_ : Codec String.string :=
  iso String.list_ascii_of_string String.string_of_list_ascii (vec ascii_).
Definition sent : Codec SentCommit :=
  iso (fun s => (message_id s, (sent_slot s, (sent_blockhash s, (sent_payer s,
         (chain_signatures s, (included_pubkeys s, (excluded_pubkeys s,
         (requested_undelegation s, (error_message s, (patched_errors s,
          callbacks_scheduling_results s)))))))))))
    (fun '(a, (b, (c, (d, (e, (f, (g, (h, (i, (j, k)))))))))) => mkSentCommit a b c d e f g h i j k)
    (pair id_ (pair (uint 8) (pair key (pair key (pair (vec sig) (pair (vec key) (pair (vec key)
      (pair bool_ (pair (option_ string_) (pair (vec string_) (vec string_))))))))))).

(** Tag [t] followed by a payload. *)
Definition tagged {A} (t : Z) (c : Codec A) (x : A) : option (list Z) :=
  a ← @encode _ (uint 4) t; b ← encode x; Some (a ++ b).

#[export] Instance instruction : Codec OutboxIntentInstruction := {|
  encode ix :=
    match ix with
    | CreateOutboxIntent d => tagged 0 bytes d
    | CloseOutboxIntent id => tagged 1 id_ id
    | ScheduledCommitSent s => tagged 2 sent s
    | SetIntentExecutionStage id stage n => tagged 3 (pair id_ (pair stage_ nonces)) (id, (stage, n))
    end;
  decode bs :=
    '(t, r) ← @decode _ (uint 4) bs;
    if (t =? 0)%Z then '(d, r) ← @decode _ bytes r; Some (CreateOutboxIntent d, r)
    else if (t =? 1)%Z then '(i, r) ← @decode _ id_ r; Some (CloseOutboxIntent i, r)
    else if (t =? 2)%Z then '(s, r) ← @decode _ sent r; Some (ScheduledCommitSent s, r)
    else if (t =? 3)%Z then
      '(x, r) ← @decode _ (pair id_ (pair stage_ nonces)) r;
      Some (SetIntentExecutionStage x.1 x.2.1 x.2.2, r)
    else None |}.

Lemma ascii_rt : @RoundTrip _ ascii_.
Proof.
  apply iso_rt; [|apply uint_rt]. intros a. rewrite Nat2Z.id. apply Ascii.ascii_nat_embedding.
Qed.
Lemma string_rt : @RoundTrip _ string_.
Proof. apply iso_rt; [apply String.string_of_list_ascii_of_string|apply vec_rt, ascii_rt]. Qed.
#[export] Hint Resolve ascii_rt string_rt : codec.
Lemma sent_rt : @RoundTrip _ sent.
Proof. codec_rt. Qed.

Lemma tagged_rt {A} t (c : Codec A) x bs rest :
  @RoundTrip _ c -> tagged t c x = Some bs ->
  exists a b, bs = a ++ b /\ @decode _ (uint 4) (bs ++ rest) = Some (t, b ++ rest)
              /\ decode (b ++ rest) = Some (x, rest).
Proof.
  intros Hc. unfold tagged. destruct (@encode _ (uint 4) t) as [a|] eqn:Ea; cbn [mbind option_bind];
    [|discriminate].
  destruct (encode x) as [b|] eqn:Eb; cbn [mbind option_bind]; [|discriminate]. intros. simplify_eq.
  exists a, b. rewrite <- app_assoc. split_and!; [done| |by apply Hc].
  by rewrite (uint_rt 4 t a _ Ea).
Qed.

#[export] Instance instruction_rt : RoundTrip OutboxIntentInstruction.
Proof.
  intros [d|i|s|i st n] bs rest Hx; cbn [encode instruction] in Hx.
  - destruct (tagged_rt 0 bytes d bs rest (vec_rt _ (uint_rt 1)) Hx) as (a & b & -> & H1 & H2).
    cbn [decode instruction]. rewrite H1. cbn [mbind option_bind Z.eqb Pos.eqb]. by rewrite H2.
  - destruct (tagged_rt 1 id_ i bs rest (as_N_rt 8) Hx) as (a & b & -> & H1 & H2).
    cbn [decode instruction]. rewrite H1. cbn [mbind option_bind Z.eqb Pos.eqb]. by rewrite H2.
  - destruct (tagged_rt 2 sent s bs rest sent_rt Hx) as (a & b & -> & H1 & H2).
    cbn [decode instruction]. rewrite H1. cbn [mbind option_bind Z.eqb Pos.eqb]. by rewrite H2.
  - destruct (tagged_rt 3 (pair id_ (pair stage_ nonces)) (i, (st, n)) bs rest) as
      (a & b & -> & H1 & H2); [|done|].
    { apply pair_rt; [apply as_N_rt|apply pair_rt; [apply stage_rt|apply nonces_rt]]. }
    cbn [decode instruction]. rewrite H1. cbn [mbind option_bind Z.eqb Pos.eqb]. by rewrite H2.
Qed.

(** Two queued intents, one of which is accepted. *)
#[export] Instance engine : Engine := {|
  lifecycle _ _ := true;
  patchable _ _ := true;
  create_program_address seeds _ := Some (key_of_bytes (concat seeds));
  privileged _ _ := true;
  CALLBACK_SIGNER := 6 |}.
Import ConcreteOutbox ConcreteContext ConcreteTokens.

Definition s1 : ScheduledIntentBundle := mkScheduledIntentBundle 1 10 11 12 MagicIntentBundle_default.
Definition s2 : ScheduledIntentBundle := mkScheduledIntentBundle 2 10 11 12 MagicIntentBundle_default.
Definition context_data : list Z :=
  match write_to (mkMagicContext 3 [s1; s2]) (replicate 300 0%Z) with Ok d => d | Err _ => [] end.
Definition accept_t : accounts := {[MAGIC_CONTEXT_PUBKEY := with_data context_data no_account]}.
Definition accept_ic : InvokeContext :=
  mkInvokeContext MAGIC_PROGRAM_ID None
    [mkIxMeta 77 true false; mkIxMeta OUTBOX_INTENT_PROGRAM_ID false false;
     mkIxMeta MAGIC_CONTEXT_PUBKEY false true; mkIxMeta (intent_pda s1) false true]
    {[77%N]} 77 10 11.
Definition accept_t' : accounts :=
  match process_accept_scheduled_commits accept_ic accept_t with Ok t => t | Err _ => ∅ end.

Lemma accept_runs : process_accept_scheduled_commits accept_ic accept_t = Ok accept_t'.
Proof. by vm_compute. Qed.

Lemma accept_exact_witness :
  exists c taken rest, queue accept_t = Some c /\ mc_scheduled_base_intents c = taken ++ rest
    /\ queue accept_t' = Some (mkMagicContext (mc_intent_id c) rest) /\ length taken = 1.
Proof.
  destruct (accept_exact accept_ic accept_t accept_t' accept_runs) as
    (_ & [E|(c & taken & rest & H1 & H2 & H3 & H4 & _)]).
  - vm_compute in E. discriminate E.
  - exists c, taken, rest. cbn in H3. injection H3 as H3. split_and!; [done..|by rewrite <- H3].
Defined.
End ConcreteAccept.
