(* ===== verification/Limits.v ===== *)
(** * Settlement size limits

    [core/src/intent/limits.rs]: the check at scheduling time that the
    transactions that will settle an intent fit the base chain's limits. It
    estimates both settlement transactions, with placeholder rent payers that must
    not alias any real key, and tests their compute units and wire size.

    The delegation program's instruction builders and the message compilers are
    external: they are the fields of [Settlement]. *)

From stdpp Require Import base gmap sets list sorting.
From Stdlib Require Import ZArith Lia.
From S2P Require Import Prelude Intent Chunks CommittorProgram Runtime TokenPrograms.

Definition COMMIT_STATE_SIZE_THRESHOLD : nat := 256.
Definition TASK_CU : Z := 120000.
Definition NOOP_PROGRAM_ID : Pubkey :=
  0x7c787ecd231acd03cbea17dce534c6a3cf13ab942e11c4742fca47bbc00fbc0b.

Record Instruction := mkInstruction {
  ix_program_id : Pubkey;
  ix_accounts : list IxMeta;
  ix_data : list Z }.

Record CommitFinalizeArgs := mkCommitFinalizeArgs {
  cfa_commit_id : Z;
  cfa_lamports : Z;
  cfa_data_is_diff : bool;
  cfa_allow_undelegation : bool }.

Record CallHandlerArgs := mkCallHandlerArgs {
  cha_data : list Z;
  cha_escrow_index : Z }.

Class Settlement := {
  undelegate_with_request : Pubkey -> Pubkey -> Pubkey -> Pubkey -> Instruction;
  commit_finalize_from_buffer : Pubkey -> Pubkey -> Pubkey -> CommitFinalizeArgs -> Instruction;
  dlp_commit_finalize : Pubkey -> Pubkey -> CommitFinalizeArgs -> list Z -> Instruction;
  call_handler_v2 :
    Pubkey -> Pubkey -> Pubkey -> Pubkey -> list IxMeta -> CallHandlerArgs -> Instruction;
  call_handler : Pubkey -> Pubkey -> Pubkey -> list IxMeta -> CallHandlerArgs -> Instruction;
  COMMITTOR_PROGRAM_ID : Pubkey;
  find_committor_address : list Seed -> Pubkey -> Pubkey * Z;
  set_compute_unit_limit : Z -> Instruction;
  set_compute_unit_price : Z -> Instruction;
  Message : Type;
  compile_v1 : Pubkey -> list Instruction -> Z -> option Message;
  validate_v1 : Message -> bool;
  compile_v0 : Pubkey -> list Instruction -> list (Pubkey * list Pubkey) -> option Message;
  num_required_signatures : Message -> nat;
  transaction_size : nat -> Message -> option nat;
  V1_MAX_TRANSACTION_SIZE : nat;
  PACKET_DATA_SIZE : nat }.

Abbreviation EstimatedTransaction := (list (Instruction * Z)).

Section limits.
Context `{Settlement}.

Definition commit_instruction (account : CommittedAccount) (authority : Pubkey) : Instruction :=
  let args := mkCommitFinalizeArgs (ca_commit_id account) (lamports (ca_account account))
                false false in
  if decide (COMMIT_STATE_SIZE_THRESHOLD < length (data (ca_account account))) then
    let buffer := fst (CommittorProgram.pda COMMITTOR_PROGRAM_ID find_committor_address false
                         authority (ca_pubkey account) (to_le_bytes 8 (ca_commit_id account))) in
    commit_finalize_from_buffer authority (ca_pubkey account) buffer args
  else dlp_commit_finalize authority (ca_pubkey account) args (data (ca_account account)).

Definition action (a : BaseAction) (authority : Pubkey) : Instruction * Z :=
  let accounts := map (fun m => mkIxMeta (sm_pubkey m) false (sm_is_writable m))
                    (account_metas_per_program a) in
  let args := mkCallHandlerArgs (args_data (data_per_program a))
                (escrow_index (data_per_program a)) in
  let ix := match source_program a with
            | Some source => call_handler_v2 authority (destination_program a) source
                               (escrow_authority a) accounts args
            | None => call_handler authority (destination_program a) (escrow_authority a) accounts args
            end in
  (ix, compute_units a).

(** ** [estimate] *)

Record Estimate := mkEstimate {
  e_commits : EstimatedTransaction;
  e_follow_up : EstimatedTransaction;
  e_undelegations : list (nat * CommittedAccount) }.

Definition undelegation (authority : Pubkey) (account : CommittedAccount) (payer : Pubkey)
    : Instruction :=
  undelegate_with_request authority (ca_pubkey account) (owner (ca_account account)) payer.

Definition push_undelegation (authority : Pubkey) (e : Estimate) (account : CommittedAccount)
    : Estimate :=
  mkEstimate (e_commits e) (e_follow_up e ++ [(undelegation authority account 0%N, TASK_CU)])
    (e_undelegations e ++ [(length (e_follow_up e), account)]).

(** One iteration of the loop over the four intents of the bundle. *)
Definition estimate_intent (authority : Pubkey) (e : Estimate)
    (x : option CommitType * option UndelegateType * bool) : Estimate :=
  let '(commit, undelegate, combined) := x in
  match commit with
  | None => e
  | Some commit =>
      let accounts := CommitType.get_committed_accounts commit in
      let e := mkEstimate
        (e_commits e ++ map (fun a => (commit_instruction a authority, TASK_CU)) accounts)
        (e_follow_up e) (e_undelegations e) in
      let e := match commit with
               | CommitWithBaseActions _ base_actions =>
                   let acts := map (fun a => action a authority) base_actions in
                   if combined : bool
                   then mkEstimate (e_commits e ++ acts) (e_follow_up e) (e_undelegations e)
                   else mkEstimate (e_commits e) (e_follow_up e ++ acts) (e_undelegations e)
               | CommitStandalone _ => e
               end in
      match undelegate with
      | None => e
      | Some undelegate =>
          let e := fold_left (push_undelegation authority) accounts e in
          match undelegate with
          | UndelegateWithBaseActions actions =>
              mkEstimate (e_commits e)
                (e_follow_up e ++ map (fun a => action a authority) actions) (e_undelegations e)
          | UndelegateStandalone => e
          end
      end
  end.

Definition intents_of (b : MagicIntentBundle)
    : list (option CommitType * option UndelegateType * bool) :=
  [ (commit b, None, false);
    (commit_finalize b, None, true);
    (commit_action <$> commit_and_undelegate b, undelegate_action <$> commit_and_undelegate b, false);
    (commit_action <$> commit_finalize_and_undelegate b,
     undelegate_action <$> commit_finalize_and_undelegate b, true) ].

Definition counter_key (counter : N) : Pubkey :=
  key_of_bytes (to_le_bytes 8 (Z.of_N counter) ++ replicate 24 0%Z).

(** The [loop] that looks for an unused key. *)
Fixpoint fresh_payer (fuel : nat) (counter : N) (used : gset Pubkey) : option (Pubkey * N) :=
  match fuel with
  | O => None
  | S fuel =>
      let key := counter_key counter in
      if decide (key ∈ used) then fresh_payer fuel (counter + 1) used
      else Some (key, (counter + 1)%N)
  end.

Fixpoint assign_payers (authority : Pubkey) (undelegations : list (nat * CommittedAccount))
    (follow_up : EstimatedTransaction) (counter : N) (used : gset Pubkey)
    : option EstimatedTransaction :=
  match undelegations with
  | [] => Some follow_up
  | (index, account) :: rest =>
      '(payer, counter) ← fresh_payer (S (size used)) counter used;
      let follow_up :=
        alter (fun '(_, cu) => (undelegation authority account payer, cu)) index follow_up in
      assign_payers authority rest follow_up counter ({[payer]} ∪ used)
  end.

Definition instruction_keys (x : Instruction * Z) : list Pubkey :=
  ix_program_id (fst x) :: map im_pubkey (ix_accounts (fst x)).

(** The two transactions before payers are assigned, and the keys they use. *)
Definition draft (intent : MagicIntentBundle) (authority : Pubkey) : Estimate :=
  fold_left (estimate_intent authority) (intents_of intent)
    (mkEstimate (map (fun a => action a authority) (standalone_actions intent)) [] []).
Definition used_keys (e : Estimate) (authority : Pubkey) : gset Pubkey :=
  {[authority]} ∪ list_to_set (concat (map instruction_keys (e_commits e ++ e_follow_up e))).

Definition estimate (intent : MagicIntentBundle) (authority : Pubkey)
    : option (EstimatedTransaction * EstimatedTransaction) :=
  let e := draft intent authority in
  follow_up ← assign_payers authority (e_undelegations e) (e_follow_up e) 0 (used_keys e authority);
  Some (e_commits e, follow_up).

(** ** [fits] *)

Definition wire_size (m : Message) : option nat :=
  transaction_size (num_required_signatures m) m.

(** [usize::MAX] when the size cannot be computed. *)
Definition within (m : Message) (limit : nat) : bool :=
  match wire_size m with Some size => bool_decide (size <= limit) | None => false end.

Definition compute_units_of (tasks : EstimatedTransaction) : Z :=
  fold_left (fun total x => saturating_add u32_max total (snd x)) tasks 1000%Z.

(** Keys in the order of their bytes, without duplicates. *)
Definition key_rank (k : Pubkey) : Z := from_le_bytes (rev (key_bytes k)).
Definition key_le (a b : Pubkey) : Prop := (key_rank a <= key_rank b)%Z.
#[global] Instance key_le_dec a b : Decision (key_le a b).
Proof. unfold key_le. apply _. Defined.
Definition btree_keys (l : list Pubkey) : list Pubkey :=
  merge_sort key_le (elements (list_to_set l : gset Pubkey)).

(** [keys.chunks(n)]. *)
Fixpoint chunks_fuel (fuel n : nat) (l : list Pubkey) : list (list Pubkey) :=
  match fuel, l with
  | _, [] => []
  | O, _ => [l]
  | S fuel, _ => take n l :: chunks_fuel fuel n (drop n l)
  end.

Definition fits (tasks : EstimatedTransaction) (authority : Pubkey) : bool :=
  let compute_units := compute_units_of tasks in
  if (1400000 <? compute_units)%Z then false
  else
    let instructions := map fst tasks
                        ++ [mkInstruction NOOP_PROGRAM_ID [] (to_le_bytes 8 0)] in
    if existsb (fun ix => (65535 <? Z.of_nat (length (ix_data ix)))%Z) instructions then false
    else if match compile_v1 authority instructions compute_units with
            | Some message => validate_v1 message && within message V1_MAX_TRANSACTION_SIZE
            | None => false
            end then true
    else
      let instructions := [set_compute_unit_limit compute_units; set_compute_unit_price 0]
                          ++ instructions in
      let keys := btree_keys (concat (map (fun ix => map im_pubkey (ix_accounts ix)) instructions)) in
      let tables := imap (fun i addresses => (counter_key (N.of_nat i), addresses))
                      (chunks_fuel (length keys) 256 keys) in
      match compile_v0 authority instructions tables with
      | Some message => within message PACKET_DATA_SIZE
      | None => false
      end.

Definition is_intent_within_limits (intent : MagicIntentBundle) (authority : Pubkey)
    : option bool :=
  '(commits, follow_up) ← estimate intent authority;
  Some (fits commits authority && fits follow_up authority).

(** ** Theorems *)

(** *** Placeholder payers *)

Lemma from_le_bytes_zeros l n : from_le_bytes (l ++ replicate n 0%Z) = from_le_bytes l.
Proof.
  induction l as [|b l IH]; simpl; [|by rewrite IH]. induction n as [|n IH]; simpl; [done|].
  by rewrite IH.
Qed.

Lemma counter_key_id c : (c < 2 ^ 64)%N -> counter_key c = c.
Proof.
  intros Hc. unfold counter_key, key_of_bytes. rewrite from_le_bytes_zeros, from_to_le_bytes.
  - apply N2Z.id.
  - change (256 ^ Z.of_nat 8)%Z with (2 ^ 64)%Z. lia.
Qed.

(** The search ends: only the used keys from the counter on can delay it. *)
Lemma fresh_payer_spec fuel c used :
  size (filter (fun k => (c <= k)%N) used) < fuel -> (c + N.of_nat fuel <= 2 ^ 64)%N ->
  exists k, fresh_payer fuel c used = Some (k, (k + 1)%N) /\ (c <= k < c + N.of_nat fuel)%N
            /\ k ∉ used.
Proof.
  revert c. induction fuel as [|fuel IH]; intros c Hs Hc; [lia|]. cbn [fresh_payer].
  rewrite counter_key_id by lia. case_decide as Hin; [|exists c; split_and!; [done|lia|lia|done]].
  destruct (IH (c + 1)%N) as (k & -> & ? & ?); [|lia|exists k; split_and!; [done|lia|lia|done]].
  assert (filter (fun k => (c + 1 <= k)%N) used ⊂ filter (fun k => (c <= k)%N) used) as Hsub.
  { split.
    - intros k. rewrite !elem_of_filter. intros [? ?]. split; [lia|done].
    - intros Hrev. specialize (Hrev c). rewrite !elem_of_filter in Hrev.
      destruct Hrev as [? _]; [done|lia]. }
  apply subset_size in Hsub. lia.
Qed.

Lemma fresh_payer_total c used :
  (c + N.of_nat (S (size used)) <= 2 ^ 64)%N ->
  exists k, fresh_payer (S (size used)) c used = Some (k, (k + 1)%N)
            /\ (c <= k < c + N.of_nat (S (size used)))%N /\ k ∉ used.
Proof.
  intros Hc. apply fresh_payer_spec; [|done].
  assert (size (filter (fun k => (c <= k)%N) used) <= size used); [|lia].
  apply subseteq_size. intros k. rewrite elem_of_filter. naive_solver.
Qed.

(** The follow-up transaction once undelegation [i] is paid by [payers !! i]. *)
Definition with_payers (authority : Pubkey) (undelegations : list (nat * CommittedAccount))
    (payers : list Pubkey) (follow_up : EstimatedTransaction) : EstimatedTransaction :=
  fold_left (fun f '((index, account), payer) =>
               alter (fun '(_, cu) => (undelegation authority account payer, cu)) index f)
    (zip undelegations payers) follow_up.

Lemma assign_payers_total authority und follow_up c used :
  (c + N.of_nat (length und * (size used + length und)) <= 2 ^ 64)%N ->
  exists payers, length payers = length und /\ NoDup payers /\ (forall k, k ∈ payers -> k ∉ used)
  /\ assign_payers authority und follow_up c used =
       Some (with_payers authority und payers follow_up).
Proof.
  revert follow_up c used. induction und as [|[i a] und IH]; intros f c used Hc.
  { exists []. split_and!; [done|constructor|set_solver|done]. }
  cbn [length] in Hc.
  destruct (fresh_payer_total c used) as (k & Hk & Hb & Hfresh); [lia|].
  assert (size ({[k]} ∪ used) = S (size used)) as Hsz.
  { rewrite size_union, size_singleton by set_solver. lia. }
  destruct (IH (alter (fun '(_, cu) => (undelegation authority a k, cu)) i f) (k + 1)%N ({[k]} ∪ used))
    as (ps & Hl & Hnd & Hps & Hass).
  { rewrite Hsz. lia. }
  exists (k :: ps). split_and!.
  - cbn. by rewrite Hl.
  - constructor; [|done]. intros Hin%Hps. set_solver.
  - intros k' [->|Hk'%Hps]%elem_of_cons; set_solver.
  - cbn [assign_payers]. rewrite Hk. cbn [mbind option_bind]. exact Hass.
Qed.

(** the size estimate always terminates, and the placeholder rent payers it
    invents are pairwise distinct and alias neither the authority nor any key of
    an estimated instruction. *)
Theorem estimate_payers_fresh intent authority :
  let e := draft intent authority in
  (Z.of_nat (size (used_keys e authority) + length (e_undelegations e)) < 2 ^ 32)%Z ->
  exists payers, length payers = length (e_undelegations e) /\ NoDup payers
  /\ (forall k, k ∈ payers -> k ∉ used_keys e authority)
  /\ estimate intent authority =
       Some (e_commits e, with_payers authority (e_undelegations e) payers (e_follow_up e)).
Proof.
  intros e Hsz.
  destruct (assign_payers_total authority (e_undelegations e) (e_follow_up e) 0 (used_keys e authority))
    as (ps & Hl & Hnd & Hps & Hass); [nia|].
  exists ps. split_and!; [done..|]. unfold estimate. fold e. by rewrite Hass.
Qed.

(** *** Bounds *)

Definition total_cu (tasks : EstimatedTransaction) : Z := fold_right (fun x n => snd x + n)%Z 0%Z tasks.

Lemma total_cu_app a b : total_cu (a ++ b) = (total_cu a + total_cu b)%Z.
Proof. induction a as [|x a IH]; simpl; [done|]. rewrite IH. lia. Qed.

Lemma total_cu_nonneg tasks : Forall (fun x => 0 <= snd x)%Z tasks -> (0 <= total_cu tasks)%Z.
Proof. induction 1; simpl; lia. Qed.

Lemma saturating_sum tasks n :
  Forall (fun x => 0 <= snd x)%Z tasks -> (0 <= n <= u32_max)%Z ->
  fold_left (fun total x => saturating_add u32_max total (snd x)) tasks n =
    Z.min (n + total_cu tasks) u32_max.
Proof.
  intros Hf. revert n. induction Hf as [|x tasks Hx Hf IH]; cbn; intros n Hn; [lia|].
  unfold saturating_add in *. pose proof (total_cu_nonneg tasks Hf) as Ht.
  rewrite IH by lia. unfold total_cu in *. lia.
Qed.

Lemma fits_cu tasks authority :
  Forall (fun x => 0 <= snd x)%Z tasks -> fits tasks authority = true ->
  (1000 + total_cu tasks <= 1400000)%Z.
Proof.
  intros Hf. unfold fits, compute_units_of.
  rewrite saturating_sum by (done || (unfold u32_max; lia)).
  destruct (Z.ltb_spec 1400000 (Z.min (1000 + total_cu tasks) u32_max)) as [|Hle]; [done|].
  intros _. unfold u32_max in Hle. lia.
Qed.

(** Every estimated task costs a nonnegative amount, and the first transaction
    pays for every commit, the second for every undelegation. *)
Definition costs (e : Estimate) (commits undelegations : nat) : Prop :=
  Forall (fun x => 0 <= snd x)%Z (e_commits e) /\ Forall (fun x => 0 <= snd x)%Z (e_follow_up e)
  /\ (TASK_CU * Z.of_nat commits <= total_cu (e_commits e))%Z
  /\ (TASK_CU * Z.of_nat undelegations <= total_cu (e_follow_up e))%Z.

(** [compute_units] is a [u32]. *)
Definition units (l : list BaseAction) : Prop := Forall (fun a => 0 <= compute_units a)%Z l.
Definition units_ok (b : MagicIntentBundle) : Prop := Forall units (action_groups b).

Lemma actions_cost authority l :
  units l -> Forall (fun x => 0 <= snd x)%Z (map (fun a => action a authority) l).
Proof. intros Hl. by apply Forall_map. Qed.

Lemma tasks_cost {A} (f : A -> Instruction) l :
  Forall (fun x => 0 <= snd x)%Z (map (fun a => (f a, TASK_CU)) l)
  /\ total_cu (map (fun a => (f a, TASK_CU)) l) = (TASK_CU * Z.of_nat (length l))%Z.
Proof.
  split; [by apply Forall_map, Forall_true|].
  induction l as [|a l IH]; cbn [map total_cu fold_right length snd]; [lia|].
  fold (total_cu (map (fun a => (f a, TASK_CU)) l)). rewrite IH. lia.
Qed.

Lemma push_undelegations authority accounts e :
  let e' := fold_left (push_undelegation authority) accounts e in
  e_commits e' = e_commits e
  /\ e_follow_up e' =
       e_follow_up e ++ map (fun a => (undelegation authority a 0%N, TASK_CU)) accounts.
Proof.
  revert e. induction accounts as [|a l IH]; intros e; cbn; [by rewrite app_nil_r|].
  destruct (IH (push_undelegation authority e a)) as [-> ->]. cbn. by rewrite <- app_assoc.
Qed.

Lemma estimate_intent_costs authority e c u x :
  costs e c u ->
  units (default [] (actions_of_commit <$> x.1.1)) ->
  units (default [] (actions_of_undelegate <$> x.1.2)) ->
  let n := match x.1.1 with Some t => length (CommitType.get_committed_accounts t) | None => 0 end in
  costs (estimate_intent authority e x) (c + n)
    (u + match x.1.2 with Some _ => n | None => 0 end).
Proof.
  destruct x as [[o ud] combined]. cbn [fst snd]. intros (H1 & H2 & H3 & H4) Hc Hu.
  destruct o as [t|]; cbn in *; [|split_and!; [done|done|lia|destruct ud; lia]].
  set (accs := CommitType.get_committed_accounts t).
  destruct (tasks_cost (fun a => commit_instruction a authority) accs) as [T1 T2].
  destruct (tasks_cost (fun a => undelegation authority a 0%N) accs) as [U1 U2].
  pose proof (actions_cost authority _ Hc) as A1. pose proof (total_cu_nonneg _ A1) as A2.
  assert (forall e1, costs e1 (c + length accs) u ->
    costs match ud with
      | None => e1
      | Some undelegate =>
          let e2 := fold_left (push_undelegation authority) accs e1 in
          match undelegate with
          | UndelegateWithBaseActions actions =>
              mkEstimate (e_commits e2)
                (e_follow_up e2 ++ map (fun a => action a authority) actions) (e_undelegations e2)
          | UndelegateStandalone => e2
          end
      end (c + length accs) (u + match ud with Some _ => length accs | None => 0 end)) as Hend.
  { intros e1 (E1 & E2 & E3 & E4). destruct ud as [un|]; [|by rewrite Nat.add_0_r].
    cbn. destruct (push_undelegations authority accs e1) as [P1 P2]. unfold costs.
    destruct un as [|acts]; cbn; rewrite P1, P2, ?total_cu_app, ?Forall_app, ?U2.
    - split_and!; try done; lia.
    - pose proof (actions_cost authority acts Hu) as B1.
      pose proof (total_cu_nonneg _ B1). split_and!; try done; lia. }
  apply Hend. destruct t as [l|l acts]; [|destruct combined]; unfold costs;
    cbn [e_commits e_follow_up e_undelegations actions_of_commit] in *;
    rewrite ?total_cu_app, ?Forall_app, ?T2; split_and!; try done; lia.
Qed.

Definition committed_count (b : MagicIntentBundle) : nat :=
  length (Bundle.get_all_committed_accounts b).
Definition undelegated_count (b : MagicIntentBundle) : nat :=
  length (Bundle.flatten2 [Bundle.get_undelegate_intent_accounts b;
                           Bundle.get_commit_finalize_and_undelegate_intent_accounts b]).

Lemma units_of_commit o :
  Forall units (groups_of_commit o) -> units (default [] (actions_of_commit <$> o)).
Proof. destruct o; cbn; [by intros [? _]%Forall_cons|constructor]. Qed.

Lemma units_of_cau o :
  Forall units (groups_of_cau o) ->
  units (default [] (actions_of_commit <$> (commit_action <$> o)))
  /\ units (default [] (actions_of_undelegate <$> (undelegate_action <$> o))).
Proof.
  destruct o; cbn; [intros [? [? _]%Forall_cons]%Forall_cons; done|by split; constructor].
Qed.

Lemma costs_eq e c c' u u' : costs e c u -> c = c' -> u = u' -> costs e c' u'.
Proof. by intros ? -> ->. Qed.

Lemma draft_costs b authority :
  units_ok b -> costs (draft b authority) (committed_count b) (undelegated_count b).
Proof.
  unfold units_ok, action_groups. rewrite !Forall_app, Forall_singleton.
  intros (U1%units_of_commit & [U2 U2']%units_of_cau & U3%units_of_commit & [U4 U4']%units_of_cau & U5).
  unfold draft, intents_of. cbn [fold_left].
  assert (costs (mkEstimate (map (fun a => action a authority) (standalone_actions b)) [] []) 0 0)
    as HC.
  { pose proof (actions_cost authority _ U5) as Ha. pose proof (total_cu_nonneg _ Ha).
    split_and!; [done|constructor| |done]. cbn [e_commits]. lia. }
  apply (estimate_intent_costs authority _ _ _ (commit b, None, false)) in HC; [|done|constructor].
  apply (estimate_intent_costs authority _ _ _ (commit_finalize b, None, true)) in HC;
    [|done|constructor].
  apply (estimate_intent_costs authority _ _ _ (commit_action <$> commit_and_undelegate b,
    undelegate_action <$> commit_and_undelegate b, false) ) in HC; [|done|done].
  apply (estimate_intent_costs authority _ _ _ (commit_action <$> commit_finalize_and_undelegate b,
    undelegate_action <$> commit_finalize_and_undelegate b, true)) in HC; [|done|done].
  eapply costs_eq; [exact HC| |]; clear;
    unfold committed_count, undelegated_count, Bundle.get_all_committed_accounts, Bundle.flatten2;
    destruct b as [[] [] [] [] ?];
    cbn [commit commit_and_undelegate commit_finalize commit_finalize_and_undelegate fmap option_fmap
      option_map Bundle.get_commit_intent_accounts Bundle.get_undelegate_intent_accounts
      Bundle.get_commit_finalize_intent_accounts
      Bundle.get_commit_finalize_and_undelegate_intent_accounts omap list_omap id concat fst snd];
    rewrite ?length_app; cbn [length];
    unfold CommitAndUndelegate.get_committed_accounts; lia.
Qed.

(** Assigning payers changes no cost. *)
Lemma alter_snd (f : Instruction * Z -> Instruction * Z) i (l : EstimatedTransaction) :
  (forall x, snd (f x) = snd x) -> map snd (alter f i l) = map snd l.
Proof.
  intros Hf. revert i. induction l as [|x l IH]; intros [|i]; cbn; [done..| |].
  - by rewrite Hf.
  - f_equal. apply IH.
Qed.

Lemma assign_payers_snd authority und f c used f' :
  assign_payers authority und f c used = Some f' -> map snd f' = map snd f.
Proof.
  revert f c used. induction und as [|[i a] und IH]; cbn [assign_payers]; intros f c used Ha.
  { by simplify_eq. }
  destruct (fresh_payer _ _ _) as [[p c']|]; [|done]. cbn [mbind option_bind] in Ha.
  rewrite (IH _ _ _ Ha). apply alter_snd. by intros [].
Qed.

Lemma total_cu_snd (a b : EstimatedTransaction) : map snd a = map snd b -> total_cu a = total_cu b.
Proof.
  revert b. induction a as [|x a IH]; intros [|y b] Hm; try done. cbn in Hm. injection Hm as Hx Hm.
  cbn [total_cu fold_right]. rewrite Hx. f_equal. by apply IH.
Qed.

Lemma costs_snd (a b : EstimatedTransaction) :
  map snd a = map snd b -> Forall (fun x => 0 <= snd x)%Z a -> Forall (fun x => 0 <= snd x)%Z b.
Proof.
  intros Hm Ha. apply (Forall_map snd (fun n => 0 <= n)%Z). rewrite <- Hm. by apply Forall_map.
Qed.

(** C36: an intent that passes the size check commits at most eleven accounts and
    undelegates at most eleven: each settlement transaction pays for its tasks
    within the chain's compute limit. *)
Theorem within_limits_bounds b authority :
  units_ok b -> is_intent_within_limits b authority = Some true ->
  committed_count b <= 11 /\ undelegated_count b <= 11.
Proof.
  intros (H1 & H2 & H3 & H4)%(draft_costs b authority). unfold is_intent_within_limits, estimate.
  set (e := draft b authority) in *.
  destruct (assign_payers _ _ _ _ _) as [f'|] eqn:Ha; [|done]. cbn [mbind option_bind].
  intros [= [F1 F2]%andb_true_iff]. apply assign_payers_snd in Ha. symmetry in Ha.
  apply (fits_cu _ _ H1) in F1. apply (fits_cu _ _ (costs_snd _ _ Ha H2)) in F2.
  rewrite <- (total_cu_snd _ _ Ha) in F2. unfold TASK_CU in *. lia.
Qed.
End limits.

(** ** A concrete environment *)

Module ConcreteLimits.
Definition call (a b c : Pubkey) : Instruction :=
  mkInstruction DELEGATION_PROGRAM_ID [mkIxMeta a true false; mkIxMeta b false true; mkIxMeta c false true] [].
#[export] Instance settlement : Settlement := {|
  undelegate_with_request a k o p := call a k p;
  commit_finalize_from_buffer a k b args := call a k b;
  dlp_commit_finalize a k args d := call a k k;
  call_handler_v2 a d s e metas args := mkInstruction DELEGATION_PROGRAM_ID metas (cha_data args);
  call_handler a d e metas args := mkInstruction DELEGATION_PROGRAM_ID metas (cha_data args);
  COMMITTOR_PROGRAM_ID := 90%N;
  find_committor_address _ _ := (91%N, 255%Z);
  set_compute_unit_limit _ := mkInstruction 92 [] [];
  set_compute_unit_price _ := mkInstruction 92 [] [];
  Message := list Instruction;
  compile_v1 _ ixs _ := Some ixs;
  validate_v1 m := bool_decide (length m <= 16);
  compile_v0 _ ixs _ := Some ixs;
  num_required_signatures _ := 1;
  transaction_size n m := Some (64 * n + length m);
  V1_MAX_TRANSACTION_SIZE := 4096;
  PACKET_DATA_SIZE := 1232 |}.

Definition acc (k : Pubkey) : CommittedAccount :=
  mkCommittedAccount k (mkAccount 1 [1%Z; 2%Z] 8 false 0) 0 1.
Definition intent : MagicIntentBundle :=
  mkMagicIntentBundle (Some (CommitStandalone [acc 21])) None None
    (Some (mkCommitAndUndelegate (CommitStandalone [acc 0; acc 23]) UndelegateStandalone)) [].

Lemma estimate_payers_fresh_witness :
  exists payers, NoDup payers /\ length payers = 2
  /\ forall k, k ∈ payers -> k ∉ used_keys (draft intent 5) 5.
Proof.
  destruct (estimate_payers_fresh intent 5) as (ps & Hl & Hnd & Hf & _).
  - vm_compute. reflexivity.
  - exists ps. split; [exact Hnd|]. split; [exact Hl|exact Hf].
Defined.

Lemma within_limits_bounds_witness : committed_count intent <= 11.
Proof.
  apply (within_limits_bounds intent 5); [repeat constructor|vm_compute; reflexivity].
Defined.
End ConcreteLimits.
