(* ===== verification/Construction.v ===== *)
(** * Intent bundles from wire arguments

    [programs/magic-program/src/intent_bundles/magic_scheduled_base_intent.rs]
    ([TryFromArgs] and the checks around it) over the argument types of
    [programs/magic-interface/src/args.rs]. Construction reads the instruction
    accounts, reserves a commit id on each committed account and numbers the
    actions: it runs in a small state-and-error monad over the accounts and the
    next action id. *)

From stdpp Require Import base gmap sets list.
From Stdlib Require Import ZArith Lia.
From S2P Require Import Prelude Intent Runtime TokenPrograms ScheduleCommon Limits.

(** ** Arguments *)

Record ActionArgs := mkActionArgs {
  aa_escrow_index : Z;
  aa_data : list Z }.

Record BaseActionArgs := mkBaseActionArgs {
  ba_args : ActionArgs;
  ba_compute_units : Z;
  ba_escrow_authority : nat;
  ba_destination_program : Pubkey;
  ba_accounts : list ShortAccountMeta }.

Inductive CommitTypeArgs :=
| CommitStandaloneArgs (accounts : list nat)
| CommitWithBaseActionsArgs (committed_accounts : list nat) (base_actions : list BaseActionArgs).

Inductive UndelegateTypeArgs :=
| UndelegateStandaloneArgs
| UndelegateWithBaseActionsArgs (base_actions : list BaseActionArgs).

Record CommitAndUndelegateArgs := mkCommitAndUndelegateArgs {
  commit_type_args : CommitTypeArgs;
  undelegate_type_args : UndelegateTypeArgs }.

Inductive MagicBaseIntentArgs :=
| BaseActionsArgs (actions : list BaseActionArgs)
| CommitArgs (t : CommitTypeArgs)
| CommitAndUndelegateIntentArgs (t : CommitAndUndelegateArgs)
| CommitFinalizeIntentArgs (t : CommitTypeArgs)
| CommitFinalizeAndUndelegateArgs (t : CommitAndUndelegateArgs).

Record MagicIntentBundleArgs := mkMagicIntentBundleArgs {
  commit_args : option CommitTypeArgs;
  commit_and_undelegate_args : option CommitAndUndelegateArgs;
  commit_finalize_args : option CommitTypeArgs;
  commit_finalize_and_undelegate_args : option CommitAndUndelegateArgs;
  standalone_actions_args : list BaseActionArgs }.

Definition commit_indices (t : CommitTypeArgs) : list nat :=
  match t with
  | CommitStandaloneArgs value => value
  | CommitWithBaseActionsArgs committed_accounts _ => committed_accounts
  end.

Definition cau_indices (t : CommitAndUndelegateArgs) : list nat := commit_indices (commit_type_args t).

(** [impl From<MagicBaseIntentArgs> for MagicIntentBundleArgs]. *)
Definition bundle_args_of (value : MagicBaseIntentArgs) : MagicIntentBundleArgs :=
  match value with
  | BaseActionsArgs v => mkMagicIntentBundleArgs None None None None ([] ++ v)
  | CommitArgs v => mkMagicIntentBundleArgs (Some v) None None None []
  | CommitAndUndelegateIntentArgs v => mkMagicIntentBundleArgs None (Some v) None None []
  | CommitFinalizeIntentArgs v => mkMagicIntentBundleArgs None None (Some v) None []
  | CommitFinalizeAndUndelegateArgs v => mkMagicIntentBundleArgs None None None (Some v) []
  end.

(** [impl From<ActionArgs> for ProgramArgs]. *)
Definition program_args_of (a : ActionArgs) : ProgramArgs :=
  mkProgramArgs (aa_escrow_index a) (aa_data a).

(** The largest account that can be committed. *)
Definition MAX_PERMITTED_DATA_INCREASE : Z := 1024 * 10.

(** ** The construction monad *)

Record CState := mkCState { cs_accounts : accounts; cs_next_action_id : Z }.
Definition Construct (A : Type) : Type := CState -> result (A * CState) InstructionError.

Definition cret {A} (a : A) : Construct A := fun s => Ok (a, s).
Definition cbind {A B} (m : Construct A) (f : A -> Construct B) : Construct B :=
  fun s => match m s with Ok (a, s') => f a s' | Err e => Err e end.
Definition clift {A} (r : IResult A) : Construct A :=
  fun s => match r with Ok a => Ok (a, s) | Err e => Err e end.
Definition get_accounts : Construct accounts := fun s => Ok (cs_accounts s, s).

Declare Scope construct_scope.
Delimit Scope construct_scope with construct.
Notation "'do' x <- m ; k" := (cbind m (fun x => k))
  (at level 10, x name, m at level 100, k at level 200) : construct_scope.
Notation "m ;; k" := (cbind m (fun _ => k)) (at level 100, right associativity) : construct_scope.
Local Open Scope construct_scope.

(** [iter.map(f).collect::<Result<Vec<_>, _>>()] with effects. *)
Fixpoint cmap {A B} (f : A -> Construct B) (l : list A) : Construct (list B) :=
  match l with
  | [] => cret []
  | x :: r => do y <- f x; do ys <- cmap f r; cret (y :: ys)
  end.

(** [option.map(f).transpose()]. *)
Definition copt {A B} (f : A -> Construct B) (o : option A) : Construct (option B) :=
  match o with Some a => do b <- f a; cret (Some b) | None => cret None end.

Section construction.
Context `{TokenEnv} `{Engine} `{Settlement}.
Context (ic : InvokeContext) (secure : bool).

(** [ConstructionContext::next_action_id]. *)
Definition next_action_id : Construct Z :=
  fun s => Ok (cs_next_action_id s, mkCState (cs_accounts s) (wadd 64 (cs_next_action_id s) 1)).

Definition validate_intent_size (intent : MagicIntentBundle) : IResult unit :=
  if default false (is_intent_within_limits intent (ic_authority ic)) then Ok tt
  else Err (Custom INTENT_TOO_LARGE_ERR).

Definition extract_commit_accounts (account_indices : list nat) : IResult (list (Pubkey * nat)) :=
  try_collect (fun i => let? pubkey := get_instruction_pubkey_with_idx ic i in Ok (pubkey, i))
    account_indices.

Definition validate_commit_type_account (t : accounts) (x : Pubkey * nat) : IResult unit :=
  let '(pubkey, _) := x in
  let a := account t pubkey in
  if decide (sa_mode a = Magic) then Err InvalidAccountData
  else if decide (sa_mode a <> Delegated) then Err IllegalOwner
  else if (MAX_PERMITTED_DATA_INCREASE <? Z.of_nat (length (sa_data a)))%Z then Err InvalidAccountData
  else validate_commit_schedule_permissions ic (sa_owner a) pubkey (ic_caller ic).

Definition validate_commit_type_accounts (t : accounts) (l : list (Pubkey * nat)) : IResult unit :=
  try_for_each (validate_commit_type_account t) l.

Definition validate_commit_and_undelegate_accounts (t : accounts) (account_indices : list nat)
    : IResult unit :=
  try_for_each
    (fun idx =>
       let? is_writable := get_writable_with_idx ic idx in
       let? pubkey := get_instruction_pubkey_with_idx ic idx in
       if is_writable && bool_decide (sa_mode (account t pubkey) = Delegated) then Ok tt
       else Err ReadonlyDataModified)
    account_indices.

(** Reserve the commit id, then snapshot the account. *)
Definition commit_account (x : Pubkey * nat) : Construct CommittedAccount :=
  fun s =>
    let? '(t, _) := reserve_commit_id ic (cs_accounts s) (snd x) in
    Ok (from_account_shared (fst x) (account t (fst x)), mkCState t (cs_next_action_id s)).

Definition base_action_from_args (args : BaseActionArgs) : Construct BaseAction :=
  do authority_pubkey <- clift (get_instruction_pubkey_with_idx ic (ba_escrow_authority args));
  if decide (authority_pubkey ∉ ic_signers ic) then clift (Err MissingRequiredSignature)
  else
    match ic_caller ic with
    | None => clift (Err UnsupportedProgramId)
    | Some parent_program_id =>
        do source_program <-
          (if secure then cret (Some parent_program_id)
           else if decide (ba_destination_program args = parent_program_id) then cret None
           else clift (Err UnsupportedProgramId));
        do id <- next_action_id;
        cret (mkBaseAction id (ba_compute_units args) (ba_destination_program args) source_program
                authority_pubkey (program_args_of (ba_args args)) (ba_accounts args) None)
    end.

Definition committed_from_indices (indices : list nat) : Construct (list CommittedAccount) :=
  do committed_accounts_ref <- clift (extract_commit_accounts indices);
  do t <- get_accounts;
  clift (validate_commit_type_accounts t committed_accounts_ref) ;;
  cmap commit_account committed_accounts_ref.

Definition commit_type_from_args (args : CommitTypeArgs) : Construct CommitType :=
  match args with
  | CommitStandaloneArgs indices =>
      do committed_accounts <- committed_from_indices indices;
      cret (CommitStandalone committed_accounts)
  | CommitWithBaseActionsArgs indices base_actions =>
      do committed_accounts <- committed_from_indices indices;
      do actions <- cmap base_action_from_args base_actions;
      cret (CommitWithBaseActions committed_accounts actions)
  end.

Definition undelegate_type_from_args (args : UndelegateTypeArgs) : Construct UndelegateType :=
  match args with
  | UndelegateStandaloneArgs => cret UndelegateStandalone
  | UndelegateWithBaseActionsArgs base_actions =>
      do actions <- cmap base_action_from_args base_actions;
      cret (UndelegateWithBaseActions actions)
  end.

Definition cau_from_args (args : CommitAndUndelegateArgs) : Construct CommitAndUndelegate :=
  do t <- get_accounts;
  clift (validate_commit_and_undelegate_accounts t (cau_indices args)) ;;
  do commit_action <- commit_type_from_args (commit_type_args args);
  do undelegate_action <- undelegate_type_from_args (undelegate_type_args args);
  cret (mkCommitAndUndelegate commit_action undelegate_action).

(** Accounts of [commit] and [commit_and_undelegate] do not overlap. *)
Definition validate_magic_intent_bundle_args (args : MagicIntentBundleArgs) : IResult unit :=
  match commit_args args with
  | None => Ok tt
  | Some commit =>
      let committed_set : gset nat := list_to_set (commit_indices commit) in
      match commit_and_undelegate_args args with
      | Some el =>
          if existsb (fun ind => bool_decide (ind ∈ committed_set)) (cau_indices el)
          then Err InvalidInstructionData else Ok tt
      | None => Ok tt
      end
  end.

Definition bundle_from_args (args : MagicIntentBundleArgs) : Construct MagicIntentBundle :=
  clift (validate_magic_intent_bundle_args args) ;;
  do commit <- copt commit_type_from_args (commit_args args);
  do commit_and_undelegate <- copt cau_from_args (commit_and_undelegate_args args);
  do actions <- cmap base_action_from_args (standalone_actions_args args);
  do commit_finalize <- copt commit_type_from_args (commit_finalize_args args);
  do commit_finalize_and_undelegate <- copt cau_from_args (commit_finalize_and_undelegate_args args);
  let this := mkMagicIntentBundle commit commit_and_undelegate commit_finalize
                commit_finalize_and_undelegate actions in
  clift (post_validate_magic_intent_bundle this) ;;
  clift (validate_intent_size this) ;;
  cret this.

(** [TryFromArgs<MagicBaseIntentArgs> for MagicBaseIntent]. *)
Definition base_intent_from_args (args : MagicBaseIntentArgs) : Construct MagicBaseIntent :=
  match args with
  | BaseActionsArgs base_actions =>
      do base_actions <- cmap base_action_from_args base_actions; cret (BaseActions base_actions)
  | CommitArgs type_ => do commit <- commit_type_from_args type_; cret (Commit commit)
  | CommitAndUndelegateIntentArgs type_ =>
      do c <- cau_from_args type_; cret (CommitAndUndelegateIntent c)
  | CommitFinalizeIntentArgs type_ =>
      do commit <- commit_type_from_args type_; cret (CommitFinalize commit)
  | CommitFinalizeAndUndelegateArgs type_ =>
      do c <- cau_from_args type_; cret (CommitFinalizeAndUndelegate c)
  end.

(** [ScheduledIntentBundle::try_new]. *)
Definition try_new (args : MagicIntentBundleArgs) (intent_id : N) (slot : Z) (payer : Pubkey)
    : Construct ScheduledIntentBundle :=
  do intent_bundle <- bundle_from_args args;
  cret (mkScheduledIntentBundle intent_id slot (ic_blockhash ic) payer intent_bundle).

(** ** Theorems *)

(** What construction checks of an account it commits. *)
Definition may_commit (owner k : Pubkey) : Prop :=
  ic_caller ic = Some owner \/ k ∈ ic_signers ic \/ ic_authority ic ∈ ic_signers ic
  \/ (ic_caller ic = Some EATA_PROGRAM_ID
      /\ (owner = TOKEN_PROGRAM_ID \/ owner = TOKEN_2022_PROGRAM_ID)).

Definition committable (t : accounts) (k : Pubkey) : Prop :=
  sa_mode (account t k) = Delegated
  /\ (Z.of_nat (length (sa_data (account t k))) <= MAX_PERMITTED_DATA_INCREASE)%Z
  /\ may_commit (sa_owner (account t k)) k.

(** What construction checks of an action. *)
Definition authorised_action (a : BaseAction) : Prop :=
  escrow_authority a ∈ ic_signers ic /\ callback a = None
  /\ exists parent, ic_caller ic = Some parent
     /\ source_program a = (if secure then Some parent else None)
     /\ (secure = false -> destination_program a = parent).

(** The account with its next commit id reserved. *)
Definition bump (a : SharedAccount) : SharedAccount := with_commit_seq (sa_commit_seq a + 1)%Z a.

(** The instruction passes the key as writable. *)
Definition writable_key (k : Pubkey) : Prop :=
  exists i, get_instruction_pubkey_with_idx ic i = Ok k /\ get_writable_with_idx ic i = Ok true.

(** Committing accounts one after the other. *)
Inductive commits : accounts -> list Pubkey -> list CommittedAccount -> accounts -> Prop :=
| commits_nil t : commits t [] [] t
| commits_cons t k ks cs t' :
    (sa_commit_seq (account t k) + 1 <= u32_max)%Z -> writable_key k -> committable t k ->
    commits (put t k (bump (account t k))) ks cs t' ->
    commits t (k :: ks) (from_account_shared k (bump (account t k)) :: cs) t'.

(** The actions take the next ids in order. *)
Definition numbered (n : Z) (acts : list BaseAction) (n' : Z) : Prop :=
  (0 <= n)%Z -> (n + Z.of_nat (length acts) < 2 ^ 64)%Z ->
  map action_id acts = seqZ n (Z.of_nat (length acts)) /\ n' = (n + Z.of_nat (length acts))%Z.

(** Effect of a construction step: it commits [ks] and numbers [acts]. *)
Definition builds (s : CState) (ks : list Pubkey) (cs : list CommittedAccount)
    (acts : list BaseAction) (s' : CState) : Prop :=
  commits (cs_accounts s) ks cs (cs_accounts s')
  /\ numbered (cs_next_action_id s) acts (cs_next_action_id s') /\ Forall authorised_action acts.

Lemma cbind_Ok {A B} (m : Construct A) (f : A -> Construct B) s b s' :
  cbind m f s = Ok (b, s') <-> exists a s1, m s = Ok (a, s1) /\ f a s1 = Ok (b, s').
Proof. unfold cbind. destruct (m s) as [[a s1]|]; naive_solver. Qed.

Lemma clift_Ok {A} (r : IResult A) s a s' : clift r s = Ok (a, s') <-> r = Ok a /\ s' = s.
Proof. unfold clift. destruct r; naive_solver. Qed.

Lemma committable_put t k k' :
  committable (put t k (bump (account t k))) k' <-> committable t k'.
Proof. unfold committable. rewrite account_put. by case_decide as E; [subst|]. Qed.

Lemma commits_committable t ks cs t' k :
  commits t ks cs t' -> committable t' k <-> committable t k.
Proof. induction 1; [done|]. by rewrite IHcommits, committable_put. Qed.

Lemma commits_app t l1 c1 t1 l2 c2 t2 :
  commits t l1 c1 t1 -> commits t1 l2 c2 t2 -> commits t (l1 ++ l2) (c1 ++ c2) t2.
Proof. induction 1; cbn; [done|]. intros. constructor; auto. Qed.

Lemma numbered_app n l1 n1 l2 n2 : numbered n l1 n1 -> numbered n1 l2 n2 -> numbered n (l1 ++ l2) n2.
Proof.
  unfold numbered. intros Ha Hc Hn Hb. rewrite length_app, Nat2Z.inj_add in *.
  destruct Ha as [E1 ->]; [lia..|]. destruct Hc as [E2 ->]; [lia..|].
  rewrite map_app, E1, E2, seqZ_app by lia. split; [done|lia].
Qed.

Lemma builds_nil s : builds s [] [] [] s.
Proof. split; [constructor|]. split; [|constructor]. unfold numbered. cbn. split; [done|lia]. Qed.

Lemma builds_app s l1 c1 a1 s1 l2 c2 a2 s2 :
  builds s l1 c1 a1 s1 -> builds s1 l2 c2 a2 s2 ->
  builds s (l1 ++ l2) (c1 ++ c2) (a1 ++ a2) s2.
Proof.
  intros (? & ? & ?) (? & ? & ?). split; [by eapply commits_app|].
  split; [by eapply numbered_app|by apply Forall_app].
Qed.

Lemma validate_permissions_Ok owner k :
  validate_commit_schedule_permissions ic owner k (ic_caller ic) = Ok tt <-> may_commit owner k.
Proof.
  unfold validate_commit_schedule_permissions, may_commit.
  repeat case_bool_decide; cbn [andb orb negb]; destruct (ic_caller ic); naive_solver.
Qed.

Lemma validate_commit_type_account_Ok t x :
  validate_commit_type_account t x = Ok tt -> committable t (fst x).
Proof.
  destruct x as [k i]. unfold validate_commit_type_account, committable.
  case_decide; [done|]. case_decide as Hm; [done|]. destruct (Z.ltb_spec MAX_PERMITTED_DATA_INCREASE
    (Z.of_nat (length (sa_data (account t k))))); [done|].
  intros ?%validate_permissions_Ok. done.
Qed.

Lemma base_action_builds args s a s' :
  base_action_from_args args s = Ok (a, s') -> builds s [] [] [a] s'.
Proof.
  unfold base_action_from_args. intros (k & s1 & (Hk & ->)%clift_Ok & Ha)%cbind_Ok.
  case_decide as Hs; [done|]. destruct (ic_caller ic) as [p|] eqn:Hp; [|done].
  apply cbind_Ok in Ha as (src & s2 & Hsrc & (id & s3 & Hid & Ha)%cbind_Ok).
  assert (s2 = s /\ src = (if secure then Some p else None)
          /\ (secure = false -> ba_destination_program args = p)) as (-> & -> & Hd).
  { destruct secure; [by injection Hsrc as <- <-|].
    case_decide; [by injection Hsrc as <- <-|done]. }
  injection Hid as <- <-. injection Ha as <- <-. split; [constructor|]. split.
  - unfold numbered. cbn. intros Hn Hb. unfold wadd. rewrite wrap_small by lia. done.
  - constructor; [|constructor]. unfold authorised_action. cbn. split_and!; [done|done|by eauto].
Qed.

Lemma base_actions_build l s acts s' :
  cmap base_action_from_args l s = Ok (acts, s') -> builds s [] [] acts s'.
Proof.
  revert s acts. induction l as [|x l IH]; cbn; intros s acts Hm.
  { injection Hm as <- <-. apply builds_nil. }
  apply cbind_Ok in Hm as (a & s1 & Ha & (r & s2 & Hr & Hm)%cbind_Ok). injection Hm as <- <-.
  apply (builds_app _ [] [] [a] s1 [] [] r); [by eapply base_action_builds|by apply IH].
Qed.

Lemma reserve_commit_id_Ok t i k t' n :
  get_instruction_pubkey_with_idx ic i = Ok k -> reserve_commit_id ic t i = Ok (t', n) ->
  writable_key k /\ (sa_commit_seq (account t k) + 1 <= u32_max)%Z
  /\ n = (sa_commit_seq (account t k) + 1)%Z /\ t' = put t k (bump (account t k)).
Proof.
  intros Hk. unfold reserve_commit_id. rewrite Hk. cbn [res_bind]. intros (w & Hw & Hr)%res_bind_Ok.
  destruct w; [|done]. cbn [negb] in Hr.
  apply res_bind_Ok in Hr as (q & [Hq ->]%ok_or_Ok%checked_add_Some & Hr).
  destruct (patchable _ _); [|done]. injection Hr as <- <-. split; [by exists i|done].
Qed.

Lemma commit_account_Ok k i s c s' :
  get_instruction_pubkey_with_idx ic i = Ok k -> committable (cs_accounts s) k ->
  commit_account (k, i) s = Ok (c, s') -> builds s [k] [c] [] s'.
Proof.
  intros Hk Hc. unfold commit_account. cbn [fst snd]. intros Hr.
  apply res_bind_Ok in Hr as ([t n] & (Hw & Hq & -> & ->)%(reserve_commit_id_Ok _ _ _ _ _ Hk) & Hs).
  injection Hs as <- <-. split; [|split; [|constructor]].
  - rewrite account_put_eq. constructor; [done|done|done|constructor].
  - unfold numbered. cbn. split; [done|lia].
Qed.

Lemma commit_accounts_build l s cs s' :
  Forall (fun x => get_instruction_pubkey_with_idx ic (snd x) = Ok (fst x)) l ->
  Forall (fun x => committable (cs_accounts s) (fst x)) l ->
  cmap commit_account l s = Ok (cs, s') -> builds s (map fst l) cs [] s'.
Proof.
  intros Hl. revert s cs. induction Hl as [|[k i] l Hk Hl IH]; cbn; intros s cs Hc Hm.
  { injection Hm as <- <-. apply builds_nil. }
  apply Forall_cons in Hc as [Hc1 Hc].
  apply cbind_Ok in Hm as (a & s1 & Ha & (r & s2 & Hr & Hm)%cbind_Ok). injection Hm as <- <-.
  pose proof (commit_account_Ok _ _ _ _ _ Hk Hc1 Ha) as Hb.
  apply (builds_app _ [k] [a] [] s1 _ r []); [done|]. apply IH; [|done].
  eapply Forall_impl; [exact Hc|]. intros x Hx. cbn. by rewrite (commits_committable _ _ _ _ _ (proj1 Hb)).
Qed.

(** The keys behind instruction account indices. *)
Definition index_keys (l : list nat) (ks : list Pubkey) : Prop :=
  Forall2 (fun i k => get_instruction_pubkey_with_idx ic i = Ok k) l ks.

Lemma extract_commit_accounts_Ok l r :
  extract_commit_accounts l = Ok r ->
  index_keys l (map fst r)
  /\ Forall (fun x => get_instruction_pubkey_with_idx ic (snd x) = Ok (fst x)) r.
Proof.
  intros Hr%try_collect_Ok. unfold index_keys. induction Hr as [|i x l r Hx _ [IH1 IH2]]; [done|].
  apply res_bind_Ok in Hx as (k & Hk & [= <-]). split; constructor; done.
Qed.

Lemma committed_from_indices_builds l s cs s' :
  committed_from_indices l s = Ok (cs, s') ->
  exists ks, index_keys l ks /\ builds s ks cs [] s'.
Proof.
  unfold committed_from_indices. intros (r & s1 & (Hr & ->)%clift_Ok & Hm)%cbind_Ok.
  apply cbind_Ok in Hm as (t & s1 & Ht & ([] & s2 & (Hv & ->)%clift_Ok & Hm)%cbind_Ok).
  injection Ht as <- <-. apply try_for_each_Ok in Hv.
  apply extract_commit_accounts_Ok in Hr as [Hi Hk].
  exists (map fst r). split; [done|]. apply commit_accounts_build; [done| |done].
  eapply Forall_impl; [exact Hv|]. intros x. apply validate_commit_type_account_Ok.
Qed.

Lemma commit_type_builds args s c s' :
  commit_type_from_args args s = Ok (c, s') ->
  exists ks, index_keys (commit_indices args) ks
  /\ builds s ks (CommitType.get_committed_accounts c) (actions_of_commit c) s'.
Proof.
  destruct args as [l|l acts]; cbn;
    intros (cs & s1 & (ks & Hi & Hb)%committed_from_indices_builds & Hm)%cbind_Ok; exists ks.
  - by injection Hm as <- <-.
  - apply cbind_Ok in Hm as (a & s2 & Ha%base_actions_build & Hm). injection Hm as <- <-.
    split; [done|]. cbn. pose proof (builds_app _ _ _ _ _ _ _ _ _ Hb Ha) as Hx.
    by rewrite !app_nil_r in Hx.
Qed.

Lemma undelegate_type_builds args s u s' :
  undelegate_type_from_args args s = Ok (u, s') -> builds s [] [] (actions_of_undelegate u) s'.
Proof.
  destruct args as [|acts]; cbn.
  - intros [= <- <-]. apply builds_nil.
  - intros (a & s1 & Ha%base_actions_build & Hm)%cbind_Ok. by injection Hm as <- <-.
Qed.

(** The actions of a commit-and-undelegate intent, commit actions first. *)
Definition actions_of_cau (c : CommitAndUndelegate) : list BaseAction :=
  actions_of_commit (commit_action c) ++ actions_of_undelegate (undelegate_action c).

Lemma cau_builds args s c s' :
  cau_from_args args s = Ok (c, s') ->
  exists ks, index_keys (cau_indices args) ks
  /\ builds s ks (CommitAndUndelegate.get_committed_accounts c) (actions_of_cau c) s'.
Proof.
  unfold cau_from_args. intros (t & s1 & Ht & ([] & s2 & (_ & ->)%clift_Ok & Hm)%cbind_Ok)%cbind_Ok.
  injection Ht as <- <-. apply cbind_Ok in Hm as (ca & s1 & (ks & Hi & Hb)%commit_type_builds & Hm).
  apply cbind_Ok in Hm as (u & s2 & Hu%undelegate_type_builds & Hm). injection Hm as <- <-.
  exists ks. split; [done|]. pose proof (builds_app _ _ _ _ _ _ _ _ _ Hb Hu) as Hx.
  by rewrite !app_nil_r in Hx.
Qed.

Lemma copt_builds {A B} (f : A -> Construct B) (idx : A -> list nat)
    (accs : B -> list CommittedAccount) (acts : B -> list BaseAction) o s b s' :
  (forall a s b s', f a s = Ok (b, s') ->
     exists ks, index_keys (idx a) ks /\ builds s ks (accs b) (acts b) s') ->
  copt f o s = Ok (b, s') ->
  exists ks, index_keys (default [] (idx <$> o)) ks
  /\ builds s ks (default [] (accs <$> b)) (default [] (acts <$> b)) s'.
Proof.
  intros Hf. destruct o as [a|]; cbn.
  - intros (x & s1 & Hx & Hm)%cbind_Ok. injection Hm as <- <-. by apply Hf.
  - intros [= <- <-]. exists []. split; [constructor|apply builds_nil].
Qed.

(** The account indices of a bundle and its actions, in construction order. *)
Definition bundle_indices (args : MagicIntentBundleArgs) : list nat :=
  default [] (commit_indices <$> commit_args args)
  ++ default [] (cau_indices <$> commit_and_undelegate_args args)
  ++ default [] (commit_indices <$> commit_finalize_args args)
  ++ default [] (cau_indices <$> commit_finalize_and_undelegate_args args).

Definition construction_order (b : MagicIntentBundle) : list BaseAction :=
  default [] (actions_of_commit <$> commit b)
  ++ default [] (actions_of_cau <$> commit_and_undelegate b)
  ++ standalone_actions b
  ++ default [] (actions_of_commit <$> commit_finalize b)
  ++ default [] (actions_of_cau <$> commit_finalize_and_undelegate b).

Lemma all_committed_default b :
  Bundle.get_all_committed_accounts b
  = default [] (CommitType.get_committed_accounts <$> commit b)
    ++ default [] (CommitAndUndelegate.get_committed_accounts <$> commit_and_undelegate b)
    ++ default [] (CommitType.get_committed_accounts <$> commit_finalize b)
    ++ default [] (CommitAndUndelegate.get_committed_accounts <$> commit_finalize_and_undelegate b).
Proof.
  unfold Bundle.get_all_committed_accounts, Bundle.flatten2.
  destruct b as [[] [] [] [] ?]; cbn; by rewrite ?app_nil_r.
Qed.

Lemma bundle_builds args s b s' :
  bundle_from_args args s = Ok (b, s') ->
  (exists ks, index_keys (bundle_indices args) ks
     /\ builds s ks (Bundle.get_all_committed_accounts b) (construction_order b) s')
  /\ post_validate_magic_intent_bundle b = Ok tt /\ validate_intent_size b = Ok tt.
Proof.
  unfold bundle_from_args. intros ([] & s0 & (_ & ->)%clift_Ok & Hm)%cbind_Ok.
  apply cbind_Ok in Hm as (c & s1 & (k1 & I1 & B1)%(copt_builds _ _ _ _ _ _ _ _ commit_type_builds) & Hm).
  apply cbind_Ok in Hm as (u & s2 & (k2 & I2 & B2)%(copt_builds _ _ _ _ _ _ _ _ cau_builds) & Hm).
  apply cbind_Ok in Hm as (a & s3 & B3%base_actions_build & Hm).
  apply cbind_Ok in Hm as (f & s4 & (k4 & I4 & B4)%(copt_builds _ _ _ _ _ _ _ _ commit_type_builds) & Hm).
  apply cbind_Ok in Hm as (v & s5 & (k5 & I5 & B5)%(copt_builds _ _ _ _ _ _ _ _ cau_builds) & Hm).
  apply cbind_Ok in Hm as ([] & s6 & (Hp & ->)%clift_Ok & Hm).
  apply cbind_Ok in Hm as ([] & s6 & (Hv & ->)%clift_Ok & Hm). injection Hm as <- <-.
  split; [|done]. exists (k1 ++ k2 ++ k4 ++ k5). split.
  - by repeat apply Forall2_app.
  - rewrite all_committed_default. cbn.
    pose proof (builds_app _ _ _ _ _ _ _ _ _ B1 (builds_app _ _ _ _ _ _ _ _ _ B2
      (builds_app _ _ _ _ _ _ _ _ _ B3 (builds_app _ _ _ _ _ _ _ _ _ B4 B5)))) as Hx.
    cbn in Hx. exact Hx.
Qed.

Lemma committed_key_bump k a :
  ca_pubkey (from_account_shared k (bump a)) = ca_pubkey (from_account_shared k a).
Proof.
  unfold from_account_shared. change (try_remap_ata_to_eata k (bump a)) with
    (try_remap_ata_to_eata k a). by destruct (try_remap_ata_to_eata k a) as [[]|].
Qed.

Lemma commits_keys t ks cs t' :
  commits t ks cs t' ->
  map ca_pubkey cs = map (fun k => ca_pubkey (from_account_shared k (account t k))) ks.
Proof.
  induction 1 as [|t k ks cs t' _ _ _ _ IH]; cbn; [done|]. rewrite committed_key_bump, IH.
  f_equal. apply map_ext. intros k'. rewrite account_put. case_decide; [subst|done].
  by rewrite committed_key_bump.
Qed.

(** Committing distinct accounts, all at once. *)
Lemma commits_spec t ks cs t' :
  commits t ks cs t' -> NoDup ks ->
  cs = map (fun k => from_account_shared k (bump (account t k))) ks
  /\ Forall (fun k => committable t k /\ writable_key k
                      /\ (sa_commit_seq (account t k) + 1 <= u32_max)%Z) ks
  /\ forall k, account t' k = if decide (k ∈ ks) then bump (account t k) else account t k.
Proof.
  induction 1 as [|t k ks cs t' Hseq Hw Hc _ IH]; intros Hnd.
  { split_and!; [done|constructor|]. intros k. by rewrite decide_False by set_solver. }
  apply NoDup_cons in Hnd as [Hk Hnd]. destruct (IH Hnd) as (-> & Hf & Ha).
  assert (forall k', k' ∈ ks -> account (put t k (bump (account t k))) k' = account t k') as Hne.
  { intros k' Hin. apply account_put_ne. by intros ->. }
  split_and!.
  - cbn. f_equal. apply map_ext_in. intros k' Hin%list_elem_of_In. by rewrite Hne.
  - constructor; [done|]. rewrite Forall_forall in Hf |- *. intros k' Hin.
    destruct (Hf k' Hin) as (H1' & H2' & H3'). rewrite Hne in H3' by done.
    by apply committable_put in H1'.
  - intros k'. rewrite Ha, account_put. destruct (decide (k = k')) as [->|Hkk].
    + rewrite decide_False by done. by rewrite decide_True by set_solver.
    + by repeat case_decide; set_solver.
Qed.

Lemma commits_total t ks cs t' : commits t ks cs t' -> total_lamports t' = total_lamports t.
Proof.
  induction 1 as [|t k ks cs t' _ _ _ _ IH]; [done|]. rewrite IH, total_lamports_put. cbn. lia.
Qed.

Lemma NoDup_map_inv {A B} (f : A -> B) l : NoDup (map f l) -> NoDup l.
Proof. exact (NoDup_fmap_1 f l). Qed.

(** A constructed bundle and the accounts it leaves. *)
Lemma bundle_commits args s b s' :
  bundle_from_args args s = Ok (b, s') ->
  let t := cs_accounts s in
  exists ks, index_keys (bundle_indices args) ks /\ NoDup ks
  /\ NoDup (Bundle.get_all_committed_pubkeys b) /\ Bundle.is_empty b = false
  /\ Bundle.get_all_committed_accounts b
     = map (fun k => from_account_shared k (bump (account t k))) ks
  /\ Forall (fun k => committable t k /\ writable_key k
                      /\ (sa_commit_seq (account t k) + 1 <= u32_max)%Z) ks
  /\ (forall k, account (cs_accounts s') k
               = if decide (k ∈ ks) then bump (account t k) else account t k)
  /\ total_lamports (cs_accounts s') = total_lamports t
  /\ numbered (cs_next_action_id s) (construction_order b) (cs_next_action_id s')
  /\ Forall authorised_action (construction_order b).
Proof.
  intros ((ks & Hi & Hc & Hn & Ha) & Hp & _)%bundle_builds t. exists ks.
  rewrite post_validate_single_pass in Hp. destruct (Bundle.is_empty b) eqn:He; [done|].
  pose proof (check_unique_spec ∅ (Bundle.get_all_committed_accounts b)) as Hu.
  destruct (check_unique _ _) as [u|]; [|done]. clear Hp.
  assert (NoDup (map ca_pubkey (Bundle.get_all_committed_accounts b))) as Hnd by naive_solver.
  assert (NoDup ks) as Hk.
  { rewrite (commits_keys _ _ _ _ Hc) in Hnd. by apply NoDup_map_inv in Hnd. }
  destruct (commits_spec _ _ _ _ Hc Hk) as (E & Hf & Hacc). rewrite get_all_committed_pubkeys_accounts.
  apply commits_total in Hc. by split_and!.
Qed.
End construction.

(** ** Actions by id *)

(** A reference to the first action with the id: writing through it replaces that
    action and nothing else. *)
Definition ref_spec {B C} (order : B -> list BaseAction) (rest : B -> C) (id : Z) (b : B)
    (r : Bundle.Ref BaseAction B) : Prop :=
  match r with
  | Some (a, w) =>
      exists l1 l2, order b = l1 ++ a :: l2 /\ action_id a = id
      /\ Forall (fun x => action_id x <> id) l1
      /\ forall a', order (w a') = l1 ++ a' :: l2 /\ rest (w a') = rest b
  | None => Forall (fun x => action_id x <> id) (order b)
  end.

Lemma find_mut_spec id l : ref_spec (fun l => l) is_nil id l (Bundle.find_mut id l).
Proof.
  induction l as [|a l IH]; cbn; [constructor|]. destruct (Z.eqb_spec (action_id a) id) as [E|E].
  { exists [], l. by split_and!; [|done|constructor|]. }
  destruct (Bundle.find_mut id l) as [[x w]|]; cbn in *; [|by constructor].
  destruct IH as (l1 & l2 & -> & Hx & Hl & Hw). exists (a :: l1), l2.
  split_and!; [done|done|by constructor|]. intros a'. destruct (Hw a') as [-> _]. done.
Qed.

(** Looking into the next part [b] of a value, after [pre] and before [post]. *)
Lemma ref_or_else {B B' C C'} (order : B -> list BaseAction) (rest : B -> C)
    (order' : B' -> list BaseAction) (rest' : B' -> C') (f : B -> B') id b pre post r k :
  ref_spec order rest id b r ->
  (forall x, order' (f x) = pre ++ order x ++ post) ->
  (forall x, rest x = rest b -> rest' (f x) = rest' (f b)) ->
  Forall (fun x => action_id x <> id) pre ->
  (Forall (fun x => action_id x <> id) (pre ++ order b) -> ref_spec order' rest' id (f b) k) ->
  ref_spec order' rest' id (f b) (Bundle.or_else (Bundle.within_ref f r) k).
Proof.
  intros Hr Ho Hrest Hpre Hk. destruct r as [[a w]|]; cbn in *; [|by apply Hk, Forall_app].
  destruct Hr as (l1 & l2 & E & Ha & Hl & Hw). exists (pre ++ l1), (l2 ++ post).
  split_and!; [rewrite Ho, E; by rewrite <- !app_assoc|done|by apply Forall_app|].
  intros a'. destruct (Hw a') as [E1 E2]. split; [|by apply Hrest].
  rewrite Ho, E1. by rewrite <- !app_assoc.
Qed.

Lemma or_else_None {A B} (r : Bundle.Ref A B) : Bundle.or_else r None = r.
Proof. by destruct r. Qed.

Lemma within_ref_comp {A B C D} (f : C -> D) (g : B -> C) (r : Bundle.Ref A B) :
  Bundle.within_ref f (Bundle.within_ref g r) = Bundle.within_ref (fun b => f (g b)) r.
Proof. by destruct r as [[]|]. Qed.

Lemma ref_opt {B C} (order : B -> list BaseAction) (rest : B -> C) id get o :
  (forall b, ref_spec order rest id b (get b)) ->
  ref_spec (fun o => default [] (order <$> o)) (fmap rest) id o
    (Bundle.within_ref Some (o ≫= get)).
Proof.
  intros Hg. destruct o as [b|]; cbn; [|constructor]. specialize (Hg b).
  destruct (get b) as [[a w]|]; cbn in *; [|done]. destruct Hg as (l1 & l2 & E & Ha & Hl & Hw).
  exists l1, l2. split_and!; [done..|]. intros a'. destruct (Hw a') as [E1 E2]. by rewrite E2.
Qed.

Lemma CommitType_ref id t :
  ref_spec actions_of_commit CommitType.get_committed_accounts id t
    (Bundle.CommitType_get_action_mut id t).
Proof.
  destruct t as [l|l acts]; cbn; [constructor|]. pose proof (find_mut_spec id acts) as Hf.
  destruct (Bundle.find_mut id acts) as [[a w]|]; cbn in *; [|done]. naive_solver.
Qed.

Lemma UndelegateType_ref id u :
  ref_spec actions_of_undelegate (fun _ => tt) id u (Bundle.UndelegateType_get_action_mut id u).
Proof.
  destruct u as [|acts]; cbn; [constructor|]. pose proof (find_mut_spec id acts) as Hf.
  destruct (Bundle.find_mut id acts) as [[a w]|]; cbn in *; [|done]. naive_solver.
Qed.

Lemma CommitAndUndelegate_ref id c :
  ref_spec actions_of_cau CommitAndUndelegate.get_committed_accounts id c
    (Bundle.CommitAndUndelegate_get_action_mut id c).
Proof.
  destruct c as [c u]. unfold Bundle.CommitAndUndelegate_get_action_mut.
  cbn [commit_action undelegate_action].
  apply (ref_or_else _ _ _ _ (fun c => mkCommitAndUndelegate c u) id c [] (actions_of_undelegate u)
           _ _ (CommitType_ref id c)); [done|done|constructor|]. intros Hc.
  rewrite <- (or_else_None (Bundle.within_ref _ _)).
  apply (ref_or_else _ _ _ _ (mkCommitAndUndelegate c) id u (actions_of_commit c) []
           _ _ (UndelegateType_ref id u)); [|done|done|done].
  intros x. by rewrite app_nil_r.
Qed.

Lemma is_empty_accounts b :
  Bundle.is_empty b = is_nil (Bundle.get_all_committed_accounts b) && is_nil (standalone_actions b).
Proof.
  rewrite all_committed_default. unfold Bundle.is_empty, CommitAndUndelegate.is_empty.
  assert (forall t, CommitType.is_empty t = is_nil (CommitType.get_committed_accounts t)) as Ht
    by (by intros []).
  assert (forall (l1 l2 : list CommittedAccount), is_nil (l1 ++ l2) = is_nil l1 && is_nil l2) as Hn
    by (by intros [] ?).
  destruct b as [[c|] [u|] [f|] [v|] acts]; cbn [commit commit_and_undelegate commit_finalize
    commit_finalize_and_undelegate standalone_actions fmap option_fmap option_map default];
    rewrite ?Hn, ?Ht; cbn; rewrite ?andb_true_r, ?andb_assoc; done.
Qed.

(** What a write through a reference leaves alone. *)
Definition bundle_rest (b : MagicIntentBundle) : list CommittedAccount * bool :=
  (Bundle.get_all_committed_accounts b, Bundle.is_empty b).

Lemma bundle_rest_eq c u f v acts c' u' f' v' acts' :
  CommitType.get_committed_accounts <$> c' = CommitType.get_committed_accounts <$> c ->
  CommitAndUndelegate.get_committed_accounts <$> u' = CommitAndUndelegate.get_committed_accounts <$> u ->
  CommitType.get_committed_accounts <$> f' = CommitType.get_committed_accounts <$> f ->
  CommitAndUndelegate.get_committed_accounts <$> v' = CommitAndUndelegate.get_committed_accounts <$> v ->
  is_nil acts' = is_nil acts ->
  bundle_rest (mkMagicIntentBundle c' u' f' v' acts') = bundle_rest (mkMagicIntentBundle c u f v acts).
Proof.
  intros Ec Eu Ef Ev Ea. unfold bundle_rest. rewrite !is_empty_accounts, !all_committed_default.
  cbn [commit commit_and_undelegate commit_finalize commit_finalize_and_undelegate standalone_actions].
  by rewrite Ec, Eu, Ef, Ev, Ea.
Qed.

(** The lookup, slot by slot. *)
Lemma get_action_mut_slots id c u f v acts :
  let slot {A} (g : option A -> MagicIntentBundle) (get : A -> Bundle.Ref BaseAction A) o :=
    Bundle.within_ref g (Bundle.within_ref Some (o ≫= get)) in
  Bundle.get_action_mut id (mkMagicIntentBundle c u f v acts)
  = Bundle.or_else (slot (fun o => mkMagicIntentBundle o u f v acts) (Bundle.CommitType_get_action_mut id) c)
   (Bundle.or_else (slot (fun o => mkMagicIntentBundle c o f v acts) (Bundle.CommitAndUndelegate_get_action_mut id) u)
   (Bundle.or_else (Bundle.within_ref (mkMagicIntentBundle c u f v) (Bundle.find_mut id acts))
   (Bundle.or_else (slot (fun o => mkMagicIntentBundle c u o v acts) (Bundle.CommitType_get_action_mut id) f)
   (Bundle.or_else (slot (fun o => mkMagicIntentBundle c u f o acts) (Bundle.CommitAndUndelegate_get_action_mut id) v)
     None)))).
Proof. cbn beta zeta. by rewrite !within_ref_comp, or_else_None. Qed.

(** [get_action_mut] finds the first action with the id in construction order. *)
Lemma bundle_ref id b : ref_spec construction_order bundle_rest id b (Bundle.get_action_mut id b).
Proof.
  destruct b as [c u f v acts]. rewrite get_action_mut_slots. cbn beta zeta.
  set (oc := default [] (actions_of_commit <$> c)). set (ou := default [] (actions_of_cau <$> u)).
  set (of_ := default [] (actions_of_commit <$> f)). set (ov := default [] (actions_of_cau <$> v)).
  apply (ref_or_else _ _ _ _ (fun o => mkMagicIntentBundle o u f v acts) id c []
    (ou ++ acts ++ of_ ++ ov) _ _ (ref_opt _ _ id _ c (CommitType_ref id)));
    [done|by intros; apply bundle_rest_eq|constructor|]. intros Hc.
  apply (ref_or_else _ _ _ _ (fun o => mkMagicIntentBundle c o f v acts) id u oc
    (acts ++ of_ ++ ov) _ _ (ref_opt _ _ id _ u (CommitAndUndelegate_ref id)));
    [done|by intros; apply bundle_rest_eq|done|]. intros Hu.
  apply (ref_or_else _ _ _ _ (mkMagicIntentBundle c u f v) id acts (oc ++ ou)
    (of_ ++ ov) _ _ (find_mut_spec id acts));
    [intros x; unfold construction_order; cbn; by rewrite <- !app_assoc|by intros; apply bundle_rest_eq|done|]. intros Ha.
  apply (ref_or_else _ _ _ _ (fun o => mkMagicIntentBundle c u o v acts) id f ((oc ++ ou) ++ acts)
    ov _ _ (ref_opt _ _ id _ f (CommitType_ref id)));
    [intros x; unfold construction_order; cbn; by rewrite <- !app_assoc|by intros; apply bundle_rest_eq|done|]. intros Hf.
  apply (ref_or_else _ _ _ _ (fun o => mkMagicIntentBundle c u f o acts) id v (((oc ++ ou) ++ acts) ++ of_)
    [] _ _ (ref_opt _ _ id _ v (CommitAndUndelegate_ref id)));
    [intros x; unfold construction_order; cbn; by rewrite app_nil_r, <- !app_assoc|by intros; apply bundle_rest_eq|done|].
  intros Hv. unfold ref_spec, construction_order. cbn. by rewrite <- !app_assoc in Hv.
Qed.
