(* ===== verification/Schedule.v ===== *)
(** * Scheduling instructions

    [programs/magic-program/src/intent_bundles/schedule]: the instructions that
    queue intents in the magic context ([process_schedule_commit.rs],
    [process_schedule_intent_bundle.rs]) and attach callbacks to their actions
    ([process_add_action_callback.rs]). A failing instruction discards the
    accounts it changed. The clock sysvar is always available. *)

From stdpp Require Import base gmap sets list.
From Stdlib Require Import ZArith Lia.
From S2P Require Import Prelude Intent Outbox Codec Runtime OutboxProgram TokenPrograms.
From S2P Require Import MagicContext ScheduleCommon Accept Limits Construction.

Record AddActionCallbackArgs := mkAddActionCallbackArgs {
  cb_action_index : Z;
  cb_args_destination_program : Pubkey;
  cb_args_discriminator : list Z;
  cb_args_payload : list Z;
  cb_args_compute_units : Z;
  cb_args_accounts : list ShortAccountMeta }.

Definition CALLBACK_FEE_LAMPORTS : Z := 5000.

Section schedule.
Context `{TokenEnv} `{Engine} `{Settlement} `{ContextCodec}.
Context (ic : InvokeContext).

(** ** [process_schedule_commit] *)

(** The accounts, the committed keys seen so far and the committed accounts. *)
Record CommitLoop := mkCommitLoop {
  cl_accounts : accounts;
  cl_seen : gset Pubkey;
  cl_committed : list CommittedAccount }.

(** One iteration of the loop over the accounts to commit. *)
Definition commit_one (request_undelegation : bool) (l : CommitLoop) (idx : nat)
    : IResult CommitLoop :=
  let t := cl_accounts l in
  let? acc_pubkey := get_instruction_pubkey_with_idx ic idx in
  let acc := account t acc_pubkey in
  if decide (sa_mode acc = Magic) then Err InvalidAccountData
  else if (MAX_PERMITTED_DATA_INCREASE <? Z.of_nat (length (sa_data acc)))%Z
  then Err InvalidAccountData
  else
    let is_delegated := bool_decide (sa_mode acc = Delegated) in
    (if request_undelegation then
       let? is_writable := get_writable_with_idx ic idx in
       if negb is_writable || negb is_delegated then Err ReadonlyDataModified else Ok tt
     else if negb is_delegated then Err IllegalOwner else Ok tt) ?;
    validate_commit_schedule_permissions ic (sa_owner acc) acc_pubkey (ic_caller ic) ?;
    let committed := from_account_shared acc_pubkey acc in
    if decide (ca_pubkey committed ∈ cl_seen l) then Ok l
    else
      let? '(t, commit_id) := reserve_commit_id ic t idx in
      let committed := mkCommittedAccount (ca_pubkey committed) (ca_account committed)
                         (ca_remote_slot committed) commit_id in
      let? t := if request_undelegation then mark_account_as_undelegated lifecycle t acc_pubkey
                else Ok t in
      Ok (mkCommitLoop t ({[ca_pubkey committed]} ∪ cl_seen l) (cl_committed l ++ [committed])).

(** The intent a commit instruction queues. *)
Definition commit_base_intent (request_undelegation : bool) (committed_accounts : list CommittedAccount)
    : MagicIntentBundle :=
  bundle_from_base_intent
    (if request_undelegation
     then CommitFinalizeAndUndelegate
            (mkCommitAndUndelegate (CommitStandalone committed_accounts) UndelegateStandalone)
     else CommitFinalize (CommitStandalone committed_accounts)).

(** What follows the loop: charge the payer or check the sponsored allowance, and
    queue the intent. *)
Definition schedule_committed (t : accounts) (request_undelegation : bool) (payer_pubkey : Pubkey)
    (magic_fee_vault : option Pubkey) (committed_accounts : list CommittedAccount) : IResult accounts :=
  let? t :=
    match magic_fee_vault with
    | Some fee_vault =>
        let? fee := calculate_commit_fee committed_accounts in
        charge_delegated_payer t payer_pubkey fee_vault fee
    | None =>
        if request_undelegation then Ok t else (check_commit_limits committed_accounts ?; Ok t)
    end in
  let? context_acc := get_instruction_pubkey_with_idx ic MAGIC_CONTEXT_IDX in
  let? context := ok_or (MagicContext_deserialize (sa_data (account t context_acc))) GenericError in
  let '(intent_id, context) := next_intent_id context in
  let base_intent := commit_base_intent request_undelegation committed_accounts in
  validate_intent_size ic base_intent ?;
  let scheduled_base_intent :=
    mkScheduledIntentBundle intent_id (ic_slot ic) (ic_blockhash ic) payer_pubkey base_intent in
  let context := add_scheduled_action context scheduled_base_intent in
  let? d := write_to context (sa_data (account t context_acc)) in
  Ok (put t context_acc (with_data d (account t context_acc))).

Definition process_schedule_commit (t : accounts) (request_undelegation : bool) : IResult accounts :=
  check_magic_context_id ic MAGIC_CONTEXT_IDX ?;
  let ix_accs_len := length (ic_metas ic) in
  if decide (ic_program_id ic <> MAGIC_PROGRAM_ID) then Err UnsupportedProgramId
  else
  let? payer_pubkey := get_instruction_pubkey_with_idx ic PAYER_IDX in
  if decide (payer_pubkey ∉ ic_signers ic) then Err MissingRequiredSignature
  else
  let? '(magic_fee_vault, committees_start) :=
    try_get_fee_vault ic t PAYER_IDX (MAGIC_CONTEXT_IDX + 1) in
  if decide (ix_accs_len <= committees_start) then Err MissingAccount
  else
  let? l := try_fold (commit_one request_undelegation) (mkCommitLoop t ∅ [])
              (seq committees_start (ix_accs_len - committees_start)) in
  schedule_committed (cl_accounts l) request_undelegation payer_pubkey magic_fee_vault (cl_committed l).

(** ** [process_schedule_intent_bundle] *)

Definition undelegated_account_indices (args : MagicIntentBundleArgs) : list nat :=
  concat (map cau_indices
    (omap id [commit_and_undelegate_args args; commit_finalize_and_undelegate_args args])).

Definition process_schedule_intent_bundle (t : accounts) (args : MagicIntentBundleArgs) (secure : bool)
    : IResult accounts :=
  check_magic_context_id ic MAGIC_CONTEXT_IDX ?;
  if decide (ic_program_id ic <> MAGIC_PROGRAM_ID) then Err UnsupportedProgramId
  else
  let? payer_pubkey := get_instruction_pubkey_with_idx ic PAYER_IDX in
  if decide (payer_pubkey ∉ ic_signers ic) then Err MissingRequiredSignature
  else
  let? context_acc := get_instruction_pubkey_with_idx ic MAGIC_CONTEXT_IDX in
  let? context := ok_or (MagicContext_deserialize (sa_data (account t context_acc))) GenericError in
  let '(intent_id, context) := next_intent_id context in
  let? '(scheduled_intent, s) :=
    try_new ic secure args intent_id (ic_slot ic) payer_pubkey (mkCState t 0) in
  let t := cs_accounts s in
  let? undelegated := extract_commit_accounts ic (undelegated_account_indices args) in
  let? t := try_fold (mark_account_as_undelegated lifecycle) t (map fst undelegated) in
  let? '(magic_fee_vault, _) := try_get_fee_vault ic t PAYER_IDX (MAGIC_CONTEXT_IDX + 1) in
  let? t :=
    match magic_fee_vault with
    | Some magic_fee_vault =>
        let? fee := ScheduledIntentBundle.calculate_fee scheduled_intent in
        charge_delegated_payer t payer_pubkey magic_fee_vault fee
    | None =>
        try_for_each check_commit_limits
          (omap id [Bundle.get_commit_intent_accounts (intent_bundle scheduled_intent);
                    Bundle.get_commit_finalize_intent_accounts (intent_bundle scheduled_intent)]) ?;
        Ok t
    end in
  let context := add_scheduled_action context scheduled_intent in
  let? d := write_to context (sa_data (account t context_acc)) in
  Ok (put t context_acc (with_data d (account t context_acc))).

(** ** [process_add_action_callback] *)

(** The last element and what precedes it. *)
Definition split_last {A} (l : list A) : option (list A * A) :=
  match rev l with [] => None | x :: r => Some (rev r, x) end.

Definition with_callback (c : BaseActionCallback) (a : BaseAction) : BaseAction :=
  mkBaseAction (action_id a) (compute_units a) (destination_program a) (source_program a)
    (escrow_authority a) (data_per_program a) (account_metas_per_program a) (Some c).

Definition with_bundle (b : MagicIntentBundle) (s : ScheduledIntentBundle) : ScheduledIntentBundle :=
  mkScheduledIntentBundle (intent_id s) (intent_slot s) (intent_blockhash s) (intent_payer s) b.

(** The callback's accounts as the instruction that runs it will list them. *)
Definition callback_metas (l : list ShortAccountMeta) : list AccountMeta :=
  map (fun m => mkIxMeta (sm_pubkey m) (bool_decide (sm_pubkey m = CALLBACK_SIGNER))
                  (sm_is_writable m)) l.

Definition callback_of_args (args : AddActionCallbackArgs) : BaseActionCallback :=
  mkBaseActionCallback (cb_args_destination_program args) (cb_args_discriminator args)
    (cb_args_payload args) (cb_args_compute_units args) (cb_args_accounts args).

(** The latest intent with the callback attached to the action. *)
Definition attach_callback (latest_intent : ScheduledIntentBundle) (payer_pubkey : Pubkey)
    (args : AddActionCallbackArgs) : IResult ScheduledIntentBundle :=
  if decide (intent_payer latest_intent <> payer_pubkey) then Err InvalidAccountData
  else
  let? '(action, write) :=
    ok_or (Bundle.get_action_mut (cb_action_index args) (intent_bundle latest_intent))
      InvalidInstructionData in
  if decide (is_Some (callback action)) then Err InvalidAccountData
  else
  let? source_program := ok_or (source_program action) InvalidAccountData in
  if decide (Some source_program <> ic_caller ic) then Err InvalidAccountData
  else if bool_decide (intent_slot latest_intent <> ic_slot ic)
          || bool_decide (intent_blockhash latest_intent <> ic_blockhash ic)
  then Err InvalidInstructionData
  else
  validate_callback_destination action (cb_args_destination_program args) ?;
  validate_callback_accounts ic (callback_metas (cb_args_accounts args)) ?;
  Ok (with_bundle (write (with_callback (callback_of_args args) action)) latest_intent).

Definition process_add_action_callback (t : accounts) (args : AddActionCallbackArgs)
    : IResult accounts :=
  check_magic_context_id ic MAGIC_CONTEXT_IDX ?;
  if decide (ic_program_id ic <> MAGIC_PROGRAM_ID) then Err UnsupportedProgramId
  else
  let? payer_pubkey := get_instruction_pubkey_with_idx ic PAYER_IDX in
  if decide (payer_pubkey ∉ ic_signers ic) then Err MissingRequiredSignature
  else
  let? context_acc := get_instruction_pubkey_with_idx ic MAGIC_CONTEXT_IDX in
  let? '(fee_vault, _) := try_get_fee_vault ic t PAYER_IDX (MAGIC_CONTEXT_IDX + 1) in
  let? magic_fee_vault := ok_or fee_vault MissingAccount in
  let? t := charge_delegated_payer t payer_pubkey magic_fee_vault CALLBACK_FEE_LAMPORTS in
  let? context := ok_or (MagicContext_deserialize (sa_data (account t context_acc))) GenericError in
  let? '(front, latest_intent) := ok_or (split_last (mc_scheduled_base_intents context))
                                    InvalidAccountData in
  let? latest_intent := attach_callback latest_intent payer_pubkey args in
  let context := mkMagicContext (mc_intent_id context) (front ++ [latest_intent]) in
  let? d := write_to context (sa_data (account t context_acc)) in
  Ok (put t context_acc (with_data d (account t context_acc))).

(** ** Specification *)

(** What scheduling does to an account that is committed or undelegated. *)
Definition undelegated (a : SharedAccount) : SharedAccount :=
  with_mode Undelegating (with_owner DELEGATION_PROGRAM_ID a).
Definition settled (ks und : list Pubkey) (k : Pubkey) (a : SharedAccount) : SharedAccount :=
  let a := if decide (k ∈ ks) then bump a else a in
  if decide (k ∈ und) then undelegated a else a.

(** What a charge of [fee] from [payer] to [vault] does to an account. *)
Definition paid (payer : Pubkey) (charge : option (Pubkey * Z)) (k : Pubkey) (a : SharedAccount)
    : SharedAccount :=
  match charge with
  | Some (vault, fee) =>
      with_lamports (sa_lamports a - (if decide (k = payer) then fee else 0)
                     + (if decide (k = vault) then fee else 0))%Z a
  | None => a
  end.

(** An instruction commits [ks], undelegates [und], charges the payer and
    appends the bundle to the queue; it changes nothing else. *)
Definition schedules (t t' : accounts) (ks und : list Pubkey) (b : MagicIntentBundle)
    (payer : Pubkey) (charge : option (Pubkey * Z)) : Prop :=
  get_instruction_pubkey_with_idx ic PAYER_IDX = Ok payer /\ payer ∈ ic_signers ic
  /\ NoDup ks /\ NoDup (Bundle.get_all_committed_pubkeys b)
  /\ Forall (fun k => committable ic t k /\ writable_key ic k
                      /\ (sa_commit_seq (account t k) + 1 <= u32_max)%Z) ks
  /\ Bundle.get_all_committed_accounts b
     = map (fun k => from_account_shared k (bump (account t k))) ks
  /\ (exists c, queue t = Some c /\ queue t' = Some (mkMagicContext ((mc_intent_id c + 1) mod 2 ^ 64)
        (mc_scheduled_base_intents c
         ++ [mkScheduledIntentBundle (mc_intent_id c) (ic_slot ic) (ic_blockhash ic) payer b])))
  /\ (forall k, k <> MAGIC_CONTEXT_PUBKEY ->
        account t' k = paid payer charge k (settled ks und k (account t k)))
  /\ total_lamports t' = total_lamports t.

Context `{!ContextCodecLaws}.

Lemma charge_spec t payer vault fee t' :
  charge_delegated_payer t payer vault fee = Ok t' ->
  sa_mode (account t payer) = Delegated /\ sa_mode (account t vault) = Delegated
  /\ (forall k, account t' k = paid payer (Some (vault, fee)) k (account t k))
  /\ (fee <> 0 -> fee <= sa_lamports (account t payer))%Z
  /\ total_lamports t' = total_lamports t.
Proof.
  unfold charge_delegated_payer. case_decide as Hp; [done|]. case_decide as Hv; [done|].
  case_decide as Hf.
  - intros [= <-]. subst fee. split_and!; [done..| |done|done].
    intros k. unfold paid. destruct (account t k) as [l ? ? ? ? ? ? ? ?]. unfold with_lamports. cbn.
    f_equal. repeat case_decide; lia.
  - intros Hc. apply res_bind_Ok in Hc as (l & [Hl ->]%ok_or_Ok%checked_sub_Some & Hc).
    apply res_bind_Ok in Hc as (l & [Hm ->]%ok_or_Ok%checked_add_Some & [= <-]).
    split_and!; [done..| |done|].
    + intros k. unfold paid. rewrite !account_put.
      repeat case_decide; subst; try done; unfold with_lamports; cbn; f_equal; try lia.
      by destruct (account t k); unfold with_lamports; cbn; f_equal; lia.
    + rewrite !total_lamports_put. cbn. rewrite account_put. case_decide; subst; cbn; lia.
Qed.

Lemma undelegated_idemp a : undelegated (undelegated a) = undelegated a.
Proof. done. Qed.

Lemma mark_all_spec t l t' :
  try_fold (mark_account_as_undelegated lifecycle) t l = Ok t' ->
  (forall k, account t' k = if decide (k ∈ l) then undelegated (account t k) else account t k)
  /\ total_lamports t' = total_lamports t.
Proof.
  revert t. induction l as [|k l IH]; intros t; cbn.
  { intros [= <-]. split; [|done]. intros k. by rewrite decide_False by set_solver. }
  intros (t1 & Hm & [Hacc Htot]%IH)%res_bind_Ok.
  unfold mark_account_as_undelegated, set_account_mode in Hm. destruct (lifecycle _ _); [|done].
  cbn in Hm. injection Hm as <-. split; [|rewrite Htot, total_lamports_put; cbn; lia].
  intros k'. rewrite Hacc, account_put. destruct (decide (k = k')) as [->|Hk].
  - rewrite (decide_True (P := k' ∈ k' :: l)) by set_solver. by case_decide.
  - by repeat case_decide; set_solver.
Qed.

Lemma fee_vault_spec t payer fee_vault_idx o n :
  get_instruction_pubkey_with_idx ic PAYER_IDX = Ok payer ->
  try_get_fee_vault ic t PAYER_IDX fee_vault_idx = Ok (o, n) ->
  match o with
  | Some vault => sa_mode (account t payer) = Delegated /\ vault = magic_fee_vault_pubkey ic
                  /\ get_instruction_pubkey_with_idx ic fee_vault_idx = Ok vault
  | None => sa_mode (account t payer) <> Delegated
  end.
Proof.
  intros Hp. unfold try_get_fee_vault. rewrite Hp. cbn [res_bind].
  intros (v & Hv & Ho)%res_bind_Ok.
  destruct (bool_decide_reflect (sa_mode (account t payer) = Delegated)); [|by simplify_eq].
  case_decide; [done|]. injection Ho as -> _. destruct o as [vault|]; [|done].
  destruct (get_instruction_pubkey_with_idx ic fee_vault_idx) as [k|[]]; try done.
  case_decide; [|done]. apply res_bind_Ok in Hv as (w & _ & Hv).
  destruct (negb _ || negb w); simplify_eq. done.
Qed.

(** Where the accounts to commit start: the payer and the context come first, and then the
    fee vault where it is given. *)
Definition committees_from : nat :=
  match get_instruction_pubkey_with_idx ic 2 with
  | Ok k => if decide (k = magic_fee_vault_pubkey ic) then 3 else 2
  | Err _ => 2
  end.
Lemma fee_vault_start t payer_idx o n :
  try_get_fee_vault ic t payer_idx (MAGIC_CONTEXT_IDX + 1) = Ok (o, n) -> n = committees_from.
Proof.
  unfold try_get_fee_vault, committees_from. change (MAGIC_CONTEXT_IDX + 1) with 2.
  intros (p & _ & (v & Hv & Ho)%res_bind_Ok)%res_bind_Ok.
  assert (n = 2 + if decide (is_Some v) then 1 else 0) as ->.
  { destruct (bool_decide _); [case_decide; [done|]|]; by simplify_eq. }
  destruct (get_instruction_pubkey_with_idx ic 2) as [k|e].
  - destruct (decide (k = magic_fee_vault_pubkey ic)); [|by simplify_eq]. apply res_bind_Ok in Hv as (w & _ & Hv). destruct (_ || _); by simplify_eq.
  - destruct e; by simplify_eq.
Qed.

Lemma settled_data ks und k a : sa_data (settled ks und k a) = sa_data a.
Proof. unfold settled. by repeat case_decide. Qed.
Lemma settled_lamports ks und k a : sa_lamports (settled ks und k a) = sa_lamports a.
Proof. unfold settled. by repeat case_decide. Qed.
Lemma settled_mode ks und k a :
  sa_mode (settled ks und k a) = if decide (k ∈ und) then Undelegating else sa_mode a.
Proof. unfold settled. by repeat case_decide. Qed.
Lemma paid_data payer c k a : sa_data (paid payer c k a) = sa_data a.
Proof. by destruct c as [[]|]. Qed.

(** Writing the context back. *)
Lemma enqueue_spec t c d :
  write_to c (sa_data (account t MAGIC_CONTEXT_PUBKEY)) = Ok d ->
  let t' := put t MAGIC_CONTEXT_PUBKEY (with_data d (account t MAGIC_CONTEXT_PUBKEY)) in
  queue t' = Some c
  /\ (forall k, k <> MAGIC_CONTEXT_PUBKEY -> account t' k = account t k)
  /\ total_lamports t' = total_lamports t.
Proof.
  intros Hw t'. subst t'. split_and!.
  - unfold queue. rewrite account_put_eq. by apply deserialize_write_to in Hw.
  - intros k Hk. by apply account_put_ne.
  - rewrite total_lamports_put. cbn. lia.
Qed.

Lemma queue_data t t' :
  sa_data (account t' MAGIC_CONTEXT_PUBKEY) = sa_data (account t MAGIC_CONTEXT_PUBKEY) ->
  queue t' = queue t.
Proof. unfold queue. by intros ->. Qed.

Lemma check_magic_context_id_Ok i u :
  check_magic_context_id ic i = Ok u ->
  get_instruction_pubkey_with_idx ic i = Ok MAGIC_CONTEXT_PUBKEY.
Proof.
  unfold check_magic_context_id. intros (k & Hk & Hc)%res_bind_Ok. case_decide; [done|]. by subst.
Qed.

Lemma check_commit_limits_Ok l :
  check_commit_limits l = Ok tt <-> Forall (fun a => ca_commit_id a <= COMMIT_LIMIT)%Z l.
Proof.
  unfold check_commit_limits. rewrite Forall_forall. destruct (existsb _ l) eqn:E.
  - split; [done|]. apply existsb_exists in E as (a & Hin%list_elem_of_In & Ha%Z.ltb_lt).
    intros Hall. specialize (Hall a Hin). lia.
  - split; [|done]. intros _ a Hin. apply not_true_iff_false in E.
    destruct (Z.le_gt_cases (ca_commit_id a) COMMIT_LIMIT); [done|]. exfalso. apply E.
    apply existsb_exists. exists a. split; [by apply list_elem_of_In|by apply Z.ltb_lt].
Qed.

Lemma validate_intent_size_Ok b u :
  validate_intent_size ic b = Ok u -> is_intent_within_limits b (ic_authority ic) = Some true.
Proof. unfold validate_intent_size. by destruct (is_intent_within_limits _ _) as [[]|]. Qed.

(** The fee or the sponsored allowance of a scheduled bundle. *)
Definition bundle_charged (t : accounts) (und : list Pubkey) (b : MagicIntentBundle)
    (payer : Pubkey) (charge : option (Pubkey * Z)) : Prop :=
  match charge with
  | Some (vault, fee) =>
      sa_mode (account t payer) = Delegated /\ payer ∉ und /\ vault = magic_fee_vault_pubkey ic
      /\ exists f, bundle_calculate_fee b = Ok f /\ fee = wadd 64 0 f
  | None =>
      (sa_mode (account t payer) <> Delegated \/ payer ∈ und)
      /\ Forall (Forall (fun a => ca_commit_id a <= COMMIT_LIMIT)%Z)
           (omap id [Bundle.get_commit_intent_accounts b; Bundle.get_commit_finalize_intent_accounts b])
  end.

Lemma bundle_charge_spec t t2 und payer b t3 vault :
  get_instruction_pubkey_with_idx ic PAYER_IDX = Ok payer ->
  sa_mode (account t2 payer) = (if decide (payer ∈ und) then Undelegating else sa_mode (account t payer)) ->
  match vault with
  | Some v => sa_mode (account t2 payer) = Delegated /\ v = magic_fee_vault_pubkey ic
  | None => sa_mode (account t2 payer) <> Delegated
  end ->
  match vault with
  | Some v => let? fee := (let? f := bundle_calculate_fee b in Ok (wadd 64 0 f)) in
              charge_delegated_payer t2 payer v fee
  | None => try_for_each check_commit_limits
              (omap id [Bundle.get_commit_intent_accounts b;
                        Bundle.get_commit_finalize_intent_accounts b]) ?; Ok t2
  end = Ok t3 ->
  exists charge, bundle_charged t und b payer charge
  /\ (forall k, account t3 k = paid payer charge k (account t2 k))
  /\ total_lamports t3 = total_lamports t2.
Proof.
  intros Hp Hm Hv. destruct vault as [v|].
  - destruct Hv as [Hd ->]. intros (fee & Hf & Hc)%res_bind_Ok.
    apply res_bind_Ok in Hf as (f & Hf & [= <-]).
    apply charge_spec in Hc as (_ & _ & Hacc & _ & Htot).
    exists (Some (magic_fee_vault_pubkey ic, wadd 64 0 f)). split; [|done].
    rewrite Hd in Hm. case_decide; [done|]. split_and!; [done|done|done|]. by exists f.
  - intros ([] & Hl%try_for_each_Ok & [= <-])%res_bind_Ok. exists None. split; [|done]. split.
    + destruct (decide (payer ∈ und)); [by right|left; congruence].
    + eapply Forall_impl; [exact Hl|]. intros l. apply check_commit_limits_Ok.
Qed.

(** What scheduling a bundle does. *)
Definition bundle_scheduled (t : accounts) (args : MagicIntentBundleArgs) (secure : bool)
    (t' : accounts) : Prop :=
  exists ks und b payer charge,
    index_keys ic (bundle_indices args) ks
    /\ index_keys ic (undelegated_account_indices args) und
    /\ schedules t t' ks und b payer charge
    /\ bundle_charged t und b payer charge
    /\ Forall (authorised_action ic secure) (construction_order b)
    /\ (Z.of_nat (length (construction_order b)) < 2 ^ 64 ->
        map action_id (construction_order b) = seqZ 0 (Z.of_nat (length (construction_order b))))%Z
    /\ Bundle.is_empty b = false
    /\ is_intent_within_limits b (ic_authority ic) = Some true.

Lemma schedule_bundle_spec t args secure t' :
  process_schedule_intent_bundle t args secure = Ok t' -> bundle_scheduled t args secure t'.
Proof.
  unfold process_schedule_intent_bundle. intros (u & Hctx%check_magic_context_id_Ok & Hp)%res_bind_Ok.
  case_decide as Hid; [done|]. apply res_bind_Ok in Hp as (payer & Hpay & Hp).
  case_decide as Hsig; [done|]. rewrite Hctx in Hp. cbn [res_bind] in Hp.
  apply res_bind_Ok in Hp as (c & Hc%ok_or_Ok & Hp). cbn [next_intent_id] in Hp.
  apply res_bind_Ok in Hp as ([sch s] & Hnew & Hp).
  apply cbind_Ok in Hnew as (b & s1 & Hb & [= <- <-]).
  pose proof (bundle_builds _ _ _ _ _ _ Hb) as (_ & _ & Hsize%validate_intent_size_Ok).
  destruct (bundle_commits _ _ _ _ _ _ Hb) as
    (ks & Hi & Hnd & Hnp & Hne & Hall & Hf & Hacc & Htot1 & Hnum & Hauth). cbn [cs_accounts] in *.
  apply res_bind_Ok in Hp as (r & [Hu _]%extract_commit_accounts_Ok & Hp).
  apply res_bind_Ok in Hp as (t2 & [Hmark Htot2]%mark_all_spec & Hp).
  apply res_bind_Ok in Hp as ([v n] & Hv%(fee_vault_spec _ _ _ _ _ Hpay) & Hp).
  apply res_bind_Ok in Hp as (t3 & Hch & Hp).
  assert (forall k, account t2 k = settled ks (map fst r) k (account t k)) as Hs2.
  { intros k. rewrite Hmark, Hacc. unfold settled. by repeat case_decide. }
  destruct (bundle_charge_spec t t2 (map fst r) payer b t3 v Hpay) as (charge & Hcharged & Hpaid & Htot3).
  { rewrite Hs2. apply settled_mode. } { destruct v; naive_solver. } { exact Hch. }
  apply res_bind_Ok in Hp as (d & (Hq & Hframe & Htot')%enqueue_spec & [= <-]).
  exists ks, (map fst r), b, payer, charge. split_and!; [done..| |done|done| |done|done].
  - split_and!; [done|done|done|done|done|done| | |].
    + exists c. split; [done|exact Hq].
    + intros k Hk. by rewrite Hframe, Hpaid, Hs2.
    + congruence.
  - intros Hb'. by destruct (Hnum ltac:(done) Hb') as [-> _].
Qed.

(** C37: scheduling an intent bundle is exact. If the instruction succeeds, the
    payer signed it; the bundle commits exactly the accounts its arguments index,
    each once, each delegated, writable, small enough and authorised, with the
    data it has now and the next commit id, which is reserved; the accounts to
    undelegate are locked; every action is authorised by its signing escrow
    authority and numbered by its position; the bundle fits the settlement limits;
    it is appended to the queue under the next intent id; the payer pays the fee
    to the validator's vault or, if it is not delegated any more, the sponsored
    allowance holds; nothing else changes and lamports are conserved. *)
Theorem schedule_bundle_exact t args secure t' :
  process_schedule_intent_bundle t args secure = Ok t' -> bundle_scheduled t args secure t'.
Proof. apply schedule_bundle_spec. Qed.

(** C18: a delegated payer escapes the fee of its bundle by undelegating itself. Where it is
    among the accounts the bundle undelegates, no account's lamports change; where it is
    not, the fee of the scheduled bundle goes from the payer to the validator's vault. *)
Theorem undelegating_payer_not_charged t args secure t' payer :
  process_schedule_intent_bundle t args secure = Ok t' ->
  get_instruction_pubkey_with_idx ic PAYER_IDX = Ok payer -> sa_mode (account t payer) = Delegated ->
  let listed := exists i, i ∈ undelegated_account_indices args /\ get_instruction_pubkey_with_idx ic i = Ok payer in
  (listed -> forall k, k <> MAGIC_CONTEXT_PUBKEY -> sa_lamports (account t' k) = sa_lamports (account t k)) /\
  (~ listed -> exists c c' b f, queue t = Some c /\ queue t' = Some c' /\
     mc_scheduled_base_intents c' = mc_scheduled_base_intents c ++ [b] /\
     bundle_calculate_fee (intent_bundle b) = Ok f /\
     forall k, k <> MAGIC_CONTEXT_PUBKEY ->
       sa_lamports (account t' k) = (sa_lamports (account t k) - (if decide (k = payer) then wadd 64 0 f else 0)
         + (if decide (k = magic_fee_vault_pubkey ic) then wadd 64 0 f else 0))%Z).
Proof.
  intros (ks & und & b & payer' & charge & _ & Hund & Hs & Hch & _)%schedule_bundle_spec Hpay Hdel listed.
  destruct Hs as (Hpay' & _ & _ & _ & _ & _ & (c & Hq & Hq') & Hacc & _).
  rewrite Hpay in Hpay'. injection Hpay' as <-.
  assert (listed <-> payer ∈ und) as Hl.
  { unfold listed. split.
    - intros (i & Hi & Hk). apply list_elem_of_lookup in Hi as [n Hi].
      destruct (Forall2_lookup_l _ _ _ _ _ Hund Hi) as (k & Hk' & Hik). rewrite Hk in Hik. injection Hik as <-.
      by eapply list_elem_of_lookup_2.
    - intros Hin. apply list_elem_of_lookup in Hin as [n Hin].
      destruct (Forall2_lookup_r _ _ _ _ _ Hund Hin) as (i & Hi & Hik). exists i. split; [|done].
      by eapply list_elem_of_lookup_2. }
  rewrite Hl. destruct charge as [[vault fee]|].
  - destruct Hch as (_ & Hno & -> & f & Hf & ->). split; [done|]. intros _.
    exists c. do 3 eexists. split_and!; [done|exact Hq'|done|exact Hf|]. intros k Hk.
    rewrite Hacc by done. cbn. by rewrite settled_lamports.
  - destruct Hch as [[?|Hin] _]; [done|]. split; [|done]. intros _ k Hk. rewrite Hacc by done. apply settled_lamports.
Qed.

(** *** The commit loop *)

Lemma committed_bump k a :
  mkCommittedAccount (ca_pubkey (from_account_shared k a)) (ca_account (from_account_shared k a))
    (ca_remote_slot (from_account_shared k a)) (sa_commit_seq a + 1)%Z
  = from_account_shared k (bump a).
Proof.
  unfold from_account_shared. change (try_remap_ata_to_eata k (bump a)) with
    (try_remap_ata_to_eata k a). by destruct (try_remap_ata_to_eata k a) as [[]|].
Qed.

(** The key an account is committed under. *)
Definition committed_key (t : accounts) (k : Pubkey) : Pubkey :=
  ca_pubkey (from_account_shared k (account t k)).

(** The loop has committed [ks] and undelegated them if asked. *)
Definition loop_inv (undel : bool) (t : accounts) (ks : list Pubkey) (l : CommitLoop) : Prop :=
  NoDup (map (committed_key t) ks)
  /\ cl_committed l = map (fun k => from_account_shared k (bump (account t k))) ks
  /\ cl_seen l = list_to_set (map (committed_key t) ks)
  /\ Forall (fun k => committable ic t k /\ writable_key ic k
                      /\ (sa_commit_seq (account t k) + 1 <= u32_max)%Z) ks
  /\ (forall k, account (cl_accounts l) k
               = settled ks (if undel then ks else []) k (account t k))
  /\ total_lamports (cl_accounts l) = total_lamports t.

(** What the checks of an iteration establish. *)
Lemma commit_one_checks undel l idx l' :
  commit_one undel l idx = Ok l' ->
  exists k, get_instruction_pubkey_with_idx ic idx = Ok k
  /\ committable ic (cl_accounts l) k
  /\ ((committed_key (cl_accounts l) k ∈ cl_seen l /\ l' = l)
      \/ (committed_key (cl_accounts l) k ∉ cl_seen l /\ writable_key ic k
          /\ (sa_commit_seq (account (cl_accounts l) k) + 1 <= u32_max)%Z
          /\ l' = mkCommitLoop
                (put (cl_accounts l) k
                   ((if undel then undelegated else id) (bump (account (cl_accounts l) k))))
                ({[committed_key (cl_accounts l) k]} ∪ cl_seen l)
                (cl_committed l ++ [from_account_shared k (bump (account (cl_accounts l) k))]))).
Proof.
  unfold commit_one. intros (k & Hk & Ho)%res_bind_Ok. exists k. split; [done|].
  set (t := cl_accounts l) in *. case_decide as Hm; [done|].
  destruct (Z.ltb_spec MAX_PERMITTED_DATA_INCREASE (Z.of_nat (length (sa_data (account t k)))));
    [done|].
  apply res_bind_Ok in Ho as (u & Hd & Ho).
  apply res_bind_Ok in Ho as ([] & Hp%validate_permissions_Ok & Ho).
  assert (sa_mode (account t k) = Delegated) as Hdel.
  { destruct (bool_decide_reflect (sa_mode (account t k) = Delegated)); [done|].
    destruct undel; [|done]. apply res_bind_Ok in Hd as ([] & _ & Hd); done. }
  split; [by split_and!|]. fold (committed_key t k) in Ho.
  case_decide as Hs; [left; by injection Ho as <-|]. right. split; [done|].
  apply res_bind_Ok in Ho as ([t1 n] & (Hw & Hq & -> & ->)%(reserve_commit_id_Ok _ _ _ _ _ _ Hk) & Ho).
  split; [done|]. split; [done|]. apply res_bind_Ok in Ho as (t2 & Ht2 & [= <-]).
  rewrite <- committed_bump. cbn [ca_pubkey]. f_equal. destruct undel; [|by injection Ht2 as <-].
  unfold mark_account_as_undelegated, set_account_mode in Ht2. destruct (lifecycle _ _); [|done].
  cbn [res_bind] in Ht2. injection Ht2 as <-. rewrite account_put_eq. unfold put.
  by rewrite insert_insert_eq.
Qed.

Lemma committable_settled t ks und t' k :
  (forall k, account t' k = settled ks und k (account t k)) ->
  committable ic t' k -> k ∉ und /\ committable ic t k.
Proof.
  intros Ha. unfold committable. rewrite Ha, settled_mode, settled_data. case_decide; [by intros [? _]|].
  unfold settled. rewrite (decide_False (P := k ∈ und)) by done. by case_decide; intros (? & ? & ?).
Qed.

Lemma committed_key_settled t ks t' k :
  (forall k, account t' k = settled ks [] k (account t k)) -> committed_key t' k = committed_key t k.
Proof.
  intros Ha. unfold committed_key. rewrite Ha. unfold settled.
  rewrite (decide_False (P := k ∈ [])) by set_solver. case_decide; [apply committed_key_bump|done].
Qed.

Lemma commit_one_inv undel t ks l idx l' :
  loop_inv undel t ks l -> commit_one undel l idx = Ok l' ->
  exists k ks', get_instruction_pubkey_with_idx ic idx = Ok k
  /\ loop_inv undel t ks' l' /\ ks `prefix_of` ks' /\ committed_key t k ∈ map (committed_key t) ks'
  /\ (ks' = ks \/ ks' = ks ++ [k]).
Proof.
  intros (Hnd & Hcm & Hseen & Hf & Hacc & Htot) (k & Hk & Hc & Hcase)%commit_one_checks.
  exists k. destruct (committable_settled t ks _ _ k Hacc Hc) as [Hnu Hct].
  assert (committed_key (cl_accounts l) k = committed_key t k) as Hck.
  { destruct undel; [|by apply (committed_key_settled t ks)]. unfold committed_key. rewrite Hacc.
    unfold settled. by rewrite !decide_False by done. }
  rewrite Hck, Hseen in Hcase. destruct Hcase as [[Hin ->]|(Hin & Hw & Hq & ->)].
  { exists ks. split_and!; [done|by split_and!|done|set_solver|by left]. }
  assert (k ∉ ks) as Hkk.
  { intros Hkk. apply Hin. apply elem_of_list_to_set, list_elem_of_fmap. by exists k. }
  assert (account (cl_accounts l) k = account t k) as Ea.
  { rewrite Hacc. unfold settled. rewrite !decide_False by done. done. }
  rewrite Ea in Hq |- *. exists (ks ++ [k]). split_and!;
    [done| |by apply prefix_app_r|rewrite map_app; set_solver|by right].
  split_and!; cbn [cl_committed cl_seen cl_accounts].
  - rewrite map_app. apply NoDup_app. split_and!; [done| |apply NoDup_singleton]. cbn.
    intros x Hx. rewrite list_elem_of_singleton. intros ->. by apply Hin, elem_of_list_to_set.
  - by rewrite map_app, Hcm.
  - rewrite map_app, list_to_set_app_L. cbn. set_solver.
  - apply Forall_app. split; [done|]. by constructor.
  - intros k'. rewrite account_put. destruct (decide (k = k')) as [<-|Hne].
    + unfold settled. rewrite (decide_True (P := k ∈ ks ++ [k])) by set_solver.
      destruct undel; [by rewrite decide_True by set_solver|by rewrite decide_False by set_solver].
    + rewrite Hacc. unfold settled. destruct undel; repeat case_decide; set_solver.
  - rewrite total_lamports_put, Ea, Htot. destruct undel; cbn; lia.
Qed.

Lemma loop_init undel t : loop_inv undel t [] (mkCommitLoop t ∅ []).
Proof.
  split_and!; [constructor|done|done|constructor| |done].
  intros k. unfold settled. destruct undel; by rewrite !decide_False by set_solver.
Qed.

Lemma commit_loop_inv undel t idxs ks l l' :
  loop_inv undel t ks l -> try_fold (commit_one undel) l idxs = Ok l' ->
  exists keys ks', index_keys ic idxs keys /\ loop_inv undel t (ks ++ ks') l'
  /\ ks' ⊆ keys
  /\ forall k, k ∈ keys -> committed_key t k ∈ map (committed_key t) (ks ++ ks').
Proof.
  revert ks l. induction idxs as [|i idxs IH]; intros ks l Hinv; cbn.
  { intros [= <-]. exists [], []. rewrite app_nil_r. split_and!; [constructor|done|done|set_solver]. }
  intros (l1 & Ho & Hf)%res_bind_Ok.
  destruct (commit_one_inv _ _ _ _ _ _ Hinv Ho) as (k & ks1 & Hk & Hinv1 & [r ->] & Hin & Hks).
  destruct (IH _ _ Hinv1 Hf) as (keys & ks2 & Hkeys & Hinv2 & Hsub & Hall).
  rewrite <- app_assoc in Hinv2, Hall. exists (k :: keys), (r ++ ks2).
  split_and!; [by constructor|done| |].
  - assert (r ⊆ [k]) as Hr; [|set_solver]. destruct Hks as [E|E%app_inv_head]; [|by subst].
    rewrite <- (app_nil_r ks) in E at 2. apply app_inv_head in E as ->. set_solver.
  - intros k' [->|Hin']%elem_of_cons; [|by apply Hall]. rewrite app_assoc, map_app. set_solver.
Qed.

(** The fee or the sponsored allowance of a scheduled commit. *)
Definition commit_charged (t : accounts) (undel : bool) (cs : list CommittedAccount)
    (payer : Pubkey) (charge : option (Pubkey * Z)) : Prop :=
  match charge with
  | Some (vault, fee) =>
      sa_mode (account t payer) = Delegated /\ vault = magic_fee_vault_pubkey ic
      /\ calculate_commit_fee cs = Ok fee
  | None => sa_mode (account t payer) <> Delegated
            /\ (undel = false -> Forall (fun a => ca_commit_id a <= COMMIT_LIMIT)%Z cs)
  end.

Lemma commit_charge_spec t t2 (undel : bool) cs payer vault t3 :
  match vault with
  | Some v => sa_mode (account t payer) = Delegated /\ v = magic_fee_vault_pubkey ic
              /\ get_instruction_pubkey_with_idx ic (MAGIC_CONTEXT_IDX + 1) = Ok v
  | None => sa_mode (account t payer) <> Delegated
  end ->
  match vault with
  | Some v => let? fee := calculate_commit_fee cs in charge_delegated_payer t2 payer v fee
  | None => if undel then Ok t2 else (check_commit_limits cs ?; Ok t2)
  end = Ok t3 ->
  exists charge, commit_charged t undel cs payer charge
  /\ (forall k, account t3 k = paid payer charge k (account t2 k))
  /\ total_lamports t3 = total_lamports t2.
Proof.
  destruct vault as [v|].
  - intros (Hd & -> & _) (fee & Hf & Hc)%res_bind_Ok.
    apply charge_spec in Hc as (_ & _ & Hacc & _ & Htot). exists (Some (magic_fee_vault_pubkey ic, fee)).
    by split_and!.
  - intros Hd Hc. exists None. destruct undel; [by injection Hc as <-|].
    apply res_bind_Ok in Hc as ([] & Hl%check_commit_limits_Ok & [= <-]). by split_and!.
Qed.

Lemma commit_base_intent_accounts undel cs :
  Bundle.get_all_committed_accounts (commit_base_intent undel cs) = cs.
Proof. destruct undel; cbn; apply app_nil_r. Qed.

Lemma map_committed_keys t ks :
  map ca_pubkey (map (fun k => from_account_shared k (bump (account t k))) ks)
  = map (committed_key t) ks.
Proof. rewrite map_map. apply map_ext. intros k. apply committed_key_bump. Qed.

(** What scheduling a commit does. *)
Definition commit_scheduled (t : accounts) (undel : bool) (t' : accounts) : Prop :=
  exists (keys ks : list Pubkey) (payer : Pubkey) (charge : option (Pubkey * Z)),
    let b := commit_base_intent undel (map (fun k => from_account_shared k (bump (account t k))) ks) in
    committees_from < length (ic_metas ic)
    /\ index_keys ic (seq committees_from (length (ic_metas ic) - committees_from)) keys
    /\ ks ⊆ keys /\ (forall k, k ∈ keys -> committed_key t k ∈ map (committed_key t) ks)
    /\ schedules t t' ks (if undel then ks else []) b payer charge
    /\ commit_charged t undel (Bundle.get_all_committed_accounts b) payer charge
    /\ is_intent_within_limits b (ic_authority ic) = Some true.

Lemma schedule_commit_spec t undel t' :
  process_schedule_commit t undel = Ok t' -> commit_scheduled t undel t'.
Proof.
  unfold process_schedule_commit. intros (u & Hctx%check_magic_context_id_Ok & Hp)%res_bind_Ok.
  case_decide as Hid; [done|]. apply res_bind_Ok in Hp as (payer & Hpay & Hp).
  case_decide as Hsig; [done|]. apply res_bind_Ok in Hp as ([v start] & Hv & Hp).
  pose proof (fee_vault_start _ _ _ _ Hv) as ->. apply (fee_vault_spec _ _ _ _ _ Hpay) in Hv.
  case_decide as Hlen; [done|]. apply res_bind_Ok in Hp as (l & Hl & Hp).
  destruct (commit_loop_inv undel t _ [] _ l (loop_init undel t) Hl) as
    (keys & ks & Hkeys & Hinv & Hsub & Hcov). cbn [app] in *.
  destruct Hinv as (Hnd & Hcm & _ & Hf & Hacc & Htot). rewrite Hcm in Hp.
  unfold schedule_committed in Hp. apply res_bind_Ok in Hp as (t3 & (charge & Hch & Hpaid & Htot3)%(commit_charge_spec _ _ _ _ _ _ _ Hv) & Hp).
  rewrite Hctx in Hp. cbn [res_bind] in Hp. apply res_bind_Ok in Hp as (c & Hc%ok_or_Ok & Hp).
  cbn [next_intent_id] in Hp. apply res_bind_Ok in Hp as (u2 & Hsize%validate_intent_size_Ok & Hp).
  apply res_bind_Ok in Hp as (d & (Hq & Hframe & Htot')%enqueue_spec & [= <-]).
  exists keys, ks, payer, charge.
  split_and!; [lia|done|done|done| | |done].
  - split_and!; [done|done|by apply NoDup_map_inv in Hnd| |done|apply commit_base_intent_accounts| | |].
    + rewrite get_all_committed_pubkeys_accounts, commit_base_intent_accounts.
      by rewrite map_committed_keys.
    + exists c. split; [|exact Hq]. rewrite <- Hc. symmetry. apply queue_data.
      by rewrite Hpaid, paid_data, Hacc, settled_data.
    + intros k Hk. by rewrite Hframe, Hpaid, Hacc.
    + congruence.
  - by rewrite commit_base_intent_accounts.
Qed.

(** C38: scheduling a commit (with or without undelegation) is exact. If the
    instruction succeeds, the payer signed it; the accounts from index 3 on, or from
    index 2 on where the fee vault is not given, are committed, each key once (a
    repeated account is committed once), each delegated, writable, small enough and
    authorised, with the data it has now and the next commit id, which is reserved; with undelegation exactly these accounts
    are locked; the intent is appended to the queue under the next intent id and
    fits the settlement limits; the payer pays the fee or the sponsored allowance
    holds; nothing else changes and lamports are conserved. *)
Theorem schedule_commit_exact t undel t' :
  process_schedule_commit t undel = Ok t' -> commit_scheduled t undel t'.
Proof. apply schedule_commit_spec. Qed.
(** *** Callbacks *)

Lemma split_last_Some {A} (l front : list A) x : split_last l = Some (front, x) <-> l = front ++ [x].
Proof.
  unfold split_last. rewrite <- (rev_involutive l) at 2. destruct (rev l) as [|y r]; cbn.
  - split; [done|]. by destruct front.
  - split; [by intros [= <- <-]|]. intros [-> ->]%app_inj_tail. done.
Qed.

(** The callback's accounts: the callback signer is read-only and the validator's
    authority is not among them. *)
Definition safe_callback (l : list ShortAccountMeta) : Prop :=
  Forall (fun m => sm_pubkey m <> ic_authority ic
                   /\ (sm_pubkey m = CALLBACK_SIGNER -> sm_is_writable m = false)) l.

Lemma validate_callback_metas_Ok l :
  validate_callback_accounts ic (callback_metas l) = Ok tt <-> safe_callback l.
Proof.
  unfold safe_callback. induction l as [|m l IH]; cbn; [split; [constructor|done]|].
  rewrite Forall_cons, <- IH.
  destruct (sm_is_writable m); repeat case_bool_decide; repeat case_decide; cbn; naive_solver.
Qed.

Lemma attach_callback_spec s payer args s' :
  attach_callback s payer args = Ok s' ->
  intent_payer s = payer /\ intent_slot s = ic_slot ic /\ intent_blockhash s = ic_blockhash ic
  /\ safe_callback (cb_args_accounts args)
  /\ exists a l1 l2 b',
    construction_order (intent_bundle s) = l1 ++ a :: l2 /\ action_id a = cb_action_index args
    /\ Forall (fun x => action_id x <> cb_action_index args) l1
    /\ callback a = None /\ source_program a = ic_caller ic
    /\ source_program a = Some (cb_args_destination_program args)
    /\ s' = with_bundle b' s
    /\ construction_order b' = l1 ++ with_callback (callback_of_args args) a :: l2
    /\ bundle_rest b' = bundle_rest (intent_bundle s).
Proof.
  unfold attach_callback. case_decide as Hp; [done|].
  pose proof (bundle_ref (cb_action_index args) (intent_bundle s)) as Hr.
  intros ([a w] & Ha%ok_or_Ok & Ho)%res_bind_Ok. rewrite Ha in Hr. case_decide as Hcb; [done|].
  apply res_bind_Ok in Ho as (src & Hsrc%ok_or_Ok & Ho). case_decide as Hcall; [done|].
  case_bool_decide as Hsl; [done|]. case_bool_decide as Hbh; [done|]. cbn [orb] in Ho.
  apply res_bind_Ok in Ho as (u & Hd & Ho).
  apply res_bind_Ok in Ho as ([] & Hm%validate_callback_metas_Ok & [= <-]).
  unfold validate_callback_destination in Hd. case_decide as Hdst; [|done].
  destruct Hr as (l1 & l2 & Hord & Hid & Hl & Hw). destruct (Hw (with_callback (callback_of_args args) a)).
  split_and!; [done|done|done|done|].
  exists a, l1, l2, (w (with_callback (callback_of_args args) a)).
  split_and!; try done; [|congruence]. destruct (callback a); [|done]. exfalso. apply Hcb. by eexists.
Qed.

Lemma add_callback_spec t args t' :
  process_add_action_callback t args = Ok t' ->
  exists payer c front s s',
    get_instruction_pubkey_with_idx ic PAYER_IDX = Ok payer /\ payer ∈ ic_signers ic
    /\ queue t = Some c /\ mc_scheduled_base_intents c = front ++ [s]
    /\ attach_callback s payer args = Ok s'
    /\ queue t' = Some (mkMagicContext (mc_intent_id c) (front ++ [s']))
    /\ sa_mode (account t payer) = Delegated
    /\ (forall k, k <> MAGIC_CONTEXT_PUBKEY -> account t' k
          = paid payer (Some (magic_fee_vault_pubkey ic, CALLBACK_FEE_LAMPORTS)) k (account t k))
    /\ total_lamports t' = total_lamports t.
Proof.
  unfold process_add_action_callback. intros (u & Hctx%check_magic_context_id_Ok & Hp)%res_bind_Ok.
  case_decide as Hid; [done|]. apply res_bind_Ok in Hp as (payer & Hpay & Hp).
  case_decide as Hsig; [done|]. rewrite Hctx in Hp. cbn [res_bind] in Hp.
  apply res_bind_Ok in Hp as ([v n] & Hv%(fee_vault_spec _ _ _ _ _ Hpay) & Hp).
  apply res_bind_Ok in Hp as (vault & Hvault%ok_or_Ok & Hp). subst v. destruct Hv as (Hmode & -> & _).
  apply res_bind_Ok in Hp as (t1 & (_ & _ & Hpaid & _ & Htot)%charge_spec & Hp).
  apply res_bind_Ok in Hp as (c & Hc%ok_or_Ok & Hp).
  apply res_bind_Ok in Hp as ([front s] & Hs%ok_or_Ok%split_last_Some & Hp).
  apply res_bind_Ok in Hp as (s' & Ha & Hp).
  apply res_bind_Ok in Hp as (d & (Hq & Hframe & Htot')%enqueue_spec & [= <-]).
  exists payer, c, front, s, s'. split_and!; [done|done| |done|done|exact Hq|done| |congruence].
  - rewrite <- Hc. symmetry. apply queue_data. by rewrite Hpaid, paid_data.
  - intros k Hk. by rewrite Hframe, Hpaid.
Qed.

(** C40: attaching a callback is exact. If the instruction succeeds, the payer
    signed it and is the payer of the latest queued intent, which was scheduled in
    this very slot; exactly the first action with the given id, which had no
    callback and was scheduled by the calling program, gets one, and that program is
    the callback's destination; the callback lists neither the validator's authority
    nor the callback signer as writable; every other action, the committed
    accounts, the rest of the queue and the next id are as before; the payer pays
    the callback fee to the validator's vault and lamports are conserved. *)
Theorem add_callback_exact t args t' :
  process_add_action_callback t args = Ok t' ->
  exists payer c front s a l1 l2 b',
    get_instruction_pubkey_with_idx ic PAYER_IDX = Ok payer /\ payer ∈ ic_signers ic
    /\ queue t = Some c /\ mc_scheduled_base_intents c = front ++ [s]
    /\ intent_payer s = payer /\ intent_slot s = ic_slot ic /\ intent_blockhash s = ic_blockhash ic
    /\ construction_order (intent_bundle s) = l1 ++ a :: l2 /\ action_id a = cb_action_index args
    /\ Forall (fun x => action_id x <> cb_action_index args) l1
    /\ callback a = None /\ source_program a = ic_caller ic
    /\ source_program a = Some (cb_args_destination_program args)
    /\ safe_callback (cb_args_accounts args)
    /\ queue t' = Some (mkMagicContext (mc_intent_id c) (front ++ [with_bundle b' s]))
    /\ construction_order b' = l1 ++ with_callback (callback_of_args args) a :: l2
    /\ Bundle.get_all_committed_accounts b' = Bundle.get_all_committed_accounts (intent_bundle s)
    /\ sa_mode (account t payer) = Delegated
    /\ (forall k, k <> MAGIC_CONTEXT_PUBKEY -> account t' k
          = paid payer (Some (magic_fee_vault_pubkey ic, CALLBACK_FEE_LAMPORTS)) k (account t k))
    /\ total_lamports t' = total_lamports t.
Proof.
  intros (payer & c & front & s & s' & Hpay & Hsig & Hq & Hl & Hs & Hq' & Hm & Hf & Ht)%add_callback_spec.
  apply attach_callback_spec in Hs as (H1' & H2' & H3' & H4' & a & l1 & l2 & b' & ? & ? & ? & ? & ? & ? & -> & ? & Hb).
  injection Hb as Hb _. exists payer, c, front, s, a, l1, l2, b'. by split_and!.
Qed.
End schedule.

(** ** A concrete run *)

Module ConcreteSchedule.
Import ConcreteOutbox ConcreteContext ConcreteTokens ConcreteAccept ConcreteLimits.

Definition metas (vault : Pubkey) : list IxMeta :=
  [mkIxMeta 5 true true; mkIxMeta MAGIC_CONTEXT_PUBKEY false true; mkIxMeta vault false true;
   mkIxMeta 21 false true; mkIxMeta 22 false true; mkIxMeta 21 false true].
Definition ctx (l : list IxMeta) : InvokeContext :=
  mkInvokeContext MAGIC_PROGRAM_ID (Some 8%N) l {[5%N]} 77 10 11.
Definition vault : Pubkey := magic_fee_vault_pubkey (ctx []).
Definition sched_ic : InvokeContext := ctx (metas vault).

(** A delegated payer, the fee vault and two delegated accounts of program 8, one
    past its sponsored allowance. *)
Definition acct (lamports : Z) (seq : Z) (d : list Z) : SharedAccount :=
  mkSharedAccount lamports d 8 Delegated false 3 seq false 0.
Definition sched_t : accounts :=
  <[5%N := acct 9000000 0 []]> (<[MAGIC_CONTEXT_PUBKEY := with_data (replicate 1500 0%Z) no_account]>
  (<[vault := acct 1 0 []]> (<[21%N := acct 7 30 [1; 2]%Z]> {[22%N := acct 7 2 [3]%Z]}))).

Definition commit_t : accounts :=
  match process_schedule_commit sched_ic sched_t false with Ok t => t | Err _ => ∅ end.

Lemma commit_runs : process_schedule_commit sched_ic sched_t false = Ok commit_t.
Proof. by vm_compute. Qed.

Lemma schedule_commit_exact_witness :
  exists ks payer charge,
    schedules sched_ic sched_t commit_t ks []
      (commit_base_intent false (map (fun k => from_account_shared k (bump (account sched_t k))) ks))
      payer charge.
Proof.
  destruct (schedule_commit_exact sched_ic sched_t false commit_t commit_runs)
    as (keys & ks & payer & charge & _ & _ & _ & _ & Hs & _).
  exists ks, payer, charge. exact Hs.
Defined.

Definition action_args : BaseActionArgs :=
  mkBaseActionArgs (mkActionArgs 255 [9]%Z) 200000 0 8 [mkShortAccountMeta 21 true].
Definition bundle_args : MagicIntentBundleArgs :=
  mkMagicIntentBundleArgs (Some (CommitWithBaseActionsArgs [3] [action_args])) None None
    (Some (mkCommitAndUndelegateArgs (CommitStandaloneArgs [4])
             (UndelegateWithBaseActionsArgs [action_args]))) [action_args].
Definition bundle_t : accounts :=
  match process_schedule_intent_bundle sched_ic sched_t bundle_args true with Ok t => t | Err _ => ∅ end.

Lemma bundle_runs : process_schedule_intent_bundle sched_ic sched_t bundle_args true = Ok bundle_t.
Proof. by vm_compute. Qed.

Lemma schedule_bundle_exact_witness :
  exists ks und b payer charge, schedules sched_ic sched_t bundle_t ks und b payer charge
    /\ Forall (authorised_action sched_ic true) (construction_order b).
Proof.
  destruct (schedule_bundle_exact sched_ic sched_t bundle_args true bundle_t bundle_runs)
    as (ks & und & b & payer & charge & _ & _ & Hs & _ & Ha & _).
  exists ks, und, b, payer, charge. exact (conj Hs Ha).
Defined.

(** Account 21 undelegated, and the same together with the payer. *)
Definition release_args (indices : list nat) : MagicIntentBundleArgs :=
  mkMagicIntentBundleArgs None
    (Some (mkCommitAndUndelegateArgs (CommitStandaloneArgs indices) UndelegateStandaloneArgs)) None None [].
Definition released (indices : list nat) : result accounts InstructionError :=
  process_schedule_intent_bundle sched_ic sched_t (release_args indices) true.

Lemma undelegating_payer_not_charged_witness :
  exists t', released [0; 3] = Ok t' /\ sa_lamports (account t' 5%N) = sa_lamports (account sched_t 5%N).
Proof.
  destruct (released [0; 3]) as [t'|e] eqn:Hr; [|by vm_compute in Hr]. exists t'. split; [done|].
  destruct (undelegating_payer_not_charged sched_ic sched_t (release_args [0; 3]) true t' 5%N) as [Hfree _].
  - exact Hr.
  - reflexivity.
  - reflexivity.
  - apply Hfree; [|done]. exists 0. split; [by left|reflexivity].
Defined.

Definition callback_args : AddActionCallbackArgs :=
  mkAddActionCallbackArgs 2 8 [1]%Z [2]%Z 1000 [mkShortAccountMeta 30 true].
Definition callback_t : accounts :=
  match process_add_action_callback sched_ic bundle_t callback_args with Ok t => t | Err _ => ∅ end.

Lemma callback_runs : process_add_action_callback sched_ic bundle_t callback_args = Ok callback_t.
Proof. by vm_compute. Qed.

Lemma add_callback_exact_witness : total_lamports callback_t = total_lamports bundle_t.
Proof.
  destruct (add_callback_exact sched_ic bundle_t callback_args callback_t callback_runs)
    as (payer & c & front & s & a & l1 & l2 & b' & _ & _ & _ & _ & _ & _ & _ & _ & _ & _ & _ & _ & _
        & _ & _ & _ & _ & _ & _ & Htot).
  exact Htot.
Defined.
End ConcreteSchedule.
