(* ===== verification/QueueInv.v ===== *)
(** * The queue of scheduled intents

    An invariant of the magic context that every instruction on it keeps:
    scheduling, attaching callbacks and accepting. It is what the outbox and the
    committor rely on: intent ids are unique and ascending, an intent commits an
    account at most once, and its actions are numbered by position. *)

From stdpp Require Import base gmap sets list sorting.
From Stdlib Require Import ZArith Lia.
From S2P Require Import Prelude Intent Outbox Codec Runtime OutboxProgram TokenPrograms.
From S2P Require Import MagicContext ScheduleCommon Accept Limits Construction Schedule.

(** The actions of a bundle are numbered by their position. *)
Definition well_numbered (b : MagicIntentBundle) : Prop :=
  let acts := construction_order b in
  (Z.of_nat (length acts) < 2 ^ 64 -> map action_id acts = seqZ 0 (Z.of_nat (length acts)))%Z.

Definition intent_ok (s : ScheduledIntentBundle) : Prop :=
  NoDup (ScheduledIntentBundle.get_all_committed_pubkeys s) /\ Bundle.is_empty (intent_bundle s) = false
  /\ well_numbered (intent_bundle s).

Definition context_ok (c : MagicContext) : Prop :=
  StronglySorted N.lt (map intent_id (mc_scheduled_base_intents c))
  /\ Forall (fun s => intent_id s < mc_intent_id c)%N (mc_scheduled_base_intents c)
  /\ Forall intent_ok (mc_scheduled_base_intents c).

(** ** Steps on the context *)

Lemma context_ok_default : context_ok MagicContext_default.
Proof. split_and!; constructor. Qed.

Lemma enqueue_ok c s :
  context_ok c -> (mc_intent_id c + 1 < 2 ^ 64)%N -> intent_id s = mc_intent_id c -> intent_ok s ->
  context_ok (mkMagicContext ((mc_intent_id c + 1) mod 2 ^ 64) (mc_scheduled_base_intents c ++ [s])).
Proof.
  intros (Hs & Hlt & Hok) Hb Hid Hi. unfold context_ok. cbn [mc_intent_id mc_scheduled_base_intents].
  rewrite N.mod_small by done. split_and!.
  - rewrite map_app. apply StronglySorted_app. split_and!; [|done|repeat constructor].
    intros x y (s' & -> & Hin)%list_elem_of_fmap. cbn. rewrite list_elem_of_singleton. intros ->.
    rewrite Hid. rewrite Forall_forall in Hlt. by apply Hlt.
  - apply Forall_app. split; [|constructor; [lia|constructor]].
    eapply Forall_impl; [exact Hlt|]. cbn. lia.
  - apply Forall_app. split; [done|]. by constructor.
Qed.

Lemma dequeue_ok i taken rest :
  context_ok (mkMagicContext i (taken ++ rest)) -> context_ok (mkMagicContext i rest).
Proof.
  intros (Hs & Hlt & Hok). cbn in *. rewrite map_app in Hs. apply StronglySorted_app in Hs.
  apply Forall_app in Hlt, Hok. split_and!; cbn; naive_solver.
Qed.

Lemma replace_last_ok i front s s' :
  context_ok (mkMagicContext i (front ++ [s])) -> intent_id s' = intent_id s -> intent_ok s' ->
  context_ok (mkMagicContext i (front ++ [s'])).
Proof.
  intros (Hs & Hlt & Hok) Hid Hi. cbn in *. apply Forall_app in Hlt as [Hl1 Hl2], Hok as [Hk1 _].
  split_and!; cbn.
  - rewrite map_app in *. cbn in *. by rewrite Hid.
  - apply Forall_app. split; [done|]. constructor; [|constructor]. rewrite Hid.
    by inversion Hl2.
  - apply Forall_app. split; [done|]. by constructor.
Qed.

(** Attaching a callback keeps an intent well formed. *)
Lemma with_bundle_ok s b' a l1 l2 cb :
  intent_ok s -> construction_order (intent_bundle s) = l1 ++ a :: l2 ->
  construction_order b' = l1 ++ with_callback cb a :: l2 ->
  bundle_rest b' = bundle_rest (intent_bundle s) -> intent_ok (with_bundle b' s).
Proof.
  intros (Hnd & He & Hn) E E' [= Hacc Hemp]. split_and!.
  - unfold ScheduledIntentBundle.get_all_committed_pubkeys in *. change (intent_bundle (with_bundle b' s)) with b'.
    rewrite get_all_committed_pubkeys_accounts, Hacc. by rewrite <- get_all_committed_pubkeys_accounts.
  - cbn. by rewrite Hemp.
  - unfold well_numbered in *. cbn. rewrite E in Hn. rewrite E'.
    rewrite !length_app, !map_app in *. cbn in *. exact Hn.
Qed.

Section queue_inv.
Context `{TokenEnv} `{Engine} `{Settlement} `{OutboxCodec} `{ContextCodec}.
Context {IC : Codec OutboxIntentInstruction}.
Context `{!OutboxCodecLaws} `{!ContextCodecLaws} `{!RoundTrip OutboxIntentInstruction}.

(** A successful instruction on the magic context. *)
Inductive queue_step (ic : InvokeContext) (t t' : accounts) : Prop :=
| step_commit undel : process_schedule_commit ic t undel = Ok t' -> queue_step ic t t'
| step_bundle args secure :
    process_schedule_intent_bundle ic t args secure = Ok t' -> queue_step ic t t'
| step_callback args : process_add_action_callback ic t args = Ok t' -> queue_step ic t t'
| step_accept : process_accept_scheduled_commits ic t = Ok t' -> queue_step ic t t'.

Lemma commit_enqueues ic t undel t' :
  process_schedule_commit ic t undel = Ok t' ->
  exists c s, queue t = Some c /\ intent_id s = mc_intent_id c /\ intent_ok s
  /\ queue t' = Some (mkMagicContext ((mc_intent_id c + 1) mod 2 ^ 64)
                        (mc_scheduled_base_intents c ++ [s])).
Proof.
  intros Hp. destruct (schedule_commit_spec _ _ _ _ Hp) as
    (keys & ks & payer & charge & Hst & Hk & _ & Hcov & Hs & _).
  destruct Hs as (_ & _ & _ & Hnd & _ & Hall & (c & Hq & Hq') & _). eexists c, _.
  split; [done|]. split; [|split; [|exact Hq']]; [done|]. split_and!; [done| |].
  - cbn. rewrite is_empty_accounts, commit_base_intent_accounts.
    destruct ks as [|k ks]; [|done]. destruct keys as [|k keys].
    + inversion Hk as [E|]. symmetry in E. apply length_zero_iff_nil in E.
      rewrite length_seq in E. lia.
    + specialize (Hcov k). set_solver.
  - unfold well_numbered. by destruct undel.
Qed.

Lemma bundle_enqueues ic t args secure t' :
  process_schedule_intent_bundle ic t args secure = Ok t' ->
  exists c s, queue t = Some c /\ intent_id s = mc_intent_id c /\ intent_ok s
  /\ queue t' = Some (mkMagicContext ((mc_intent_id c + 1) mod 2 ^ 64)
                        (mc_scheduled_base_intents c ++ [s])).
Proof.
  intros Hp. destruct (schedule_bundle_spec _ _ _ _ _ Hp) as
    (ks & und & b & payer & charge & _ & _ & Hs & _ & _ & Hn & He & _).
  destruct Hs as (_ & _ & _ & Hnd & _ & Hall & (c & Hq & Hq') & _). eexists c, _.
  split; [done|]. split; [|split; [|exact Hq']]; [done|]. by split_and!.
Qed.

Lemma accept_dequeues ic t t' :
  process_accept_scheduled_commits ic t = Ok t' ->
  t' = t \/ exists c taken rest, queue t = Some c /\ mc_scheduled_base_intents c = taken ++ rest
     /\ queue t' = Some (mkMagicContext (mc_intent_id c) rest).
Proof.
  unfold process_accept_scheduled_commits. intros (u & Hv%res_map_err_Ok & Hp)%res_bind_Ok.
  apply accept_validate_Ok in Hv as (Hctx & _ & _).
  apply res_bind_Ok in Hp as ([t1 intents] & Hpop%res_map_err_Ok & Hp).
  apply (pop_spec _ _ _ _ Hctx) in Hpop as [(_ & -> & ->)|
      (c & rest & d & Hq & Hs & Hlen & Hne & -> & Hd & Hc)]; [left; cbn in *; congruence|].
  right. exists c, intents, rest. split_and!; [done..|].
  destruct (is_nil intents) eqn:En; [by destruct intents|].
  apply accept_intents_spec in Hp as (Hl & _ & Hframe & _). unfold queue.
  rewrite Hframe, account_put_eq; [done|]. intros (s & Es & [j Hj]%list_elem_of_lookup)%list_elem_of_fmap.
  destruct (Hl j s Hj) as (_ & [_ Hemp] & _). by rewrite <- Es, account_put_eq in Hemp.
Qed.

(** C39: every successful instruction on the magic context keeps the queue well
    formed: intent ids are unique, ascending and below the next id, no intent
    commits an account twice or is empty, and actions are numbered by position,
    as long as the 64-bit intent ids have not run out. *)
Theorem queue_invariant ic t t' c :
  queue t = Some c -> context_ok c -> (mc_intent_id c + 1 < 2 ^ 64)%N -> queue_step ic t t' ->
  exists c', queue t' = Some c' /\ context_ok c'
  /\ (mc_intent_id c <= mc_intent_id c' <= mc_intent_id c + 1)%N.
Proof.
  intros Hq Hok Hb [undel Hs|args secure Hs|args Hs|Hs].
  - apply commit_enqueues in Hs as (c1 & s & Hq1 & Hid & Hi & Hq'). simplify_eq.
    eexists. split_and!; [exact Hq'|by apply enqueue_ok|..]; cbn; rewrite N.mod_small by done; lia.
  - apply bundle_enqueues in Hs as (c1 & s & Hq1 & Hid & Hi & Hq'). simplify_eq.
    eexists. split_and!; [exact Hq'|by apply enqueue_ok|..]; cbn; rewrite N.mod_small by done; lia.
  - destruct (add_callback_spec _ _ _ _ Hs) as (payer & c1 & front & s & s' & _ & _ & Hq1 & Hl & Ha & Hq' & _).
    simplify_eq. destruct c as [i q]. cbn in *. subst q.
    apply attach_callback_spec in Ha as (_ & _ & _ & _ & a & l1 & l2 & b' & E & _ & _ & _ & _ & _ & -> & E' & Hr).
    eexists. split_and!; [exact Hq'| |cbn; lia..]. apply (replace_last_ok _ _ s); [done|done|].
    eapply with_bundle_ok; [|done..]. destruct Hok as (_ & _ & Hf). apply Forall_app in Hf as [_ Hf].
    by inversion Hf.
  - apply accept_dequeues in Hs as [->|(c1 & taken & rest & Hq1 & Hl & Hq')].
    + exists c. split_and!; [done|done|lia..].
    + simplify_eq. destruct c as [i q]. cbn in *. subst q. eexists.
      split_and!; [exact Hq'|by eapply dequeue_ok|cbn; lia..].
Qed.
End queue_inv.

(** A bundle, then a callback on one of its actions. *)
Module ConcreteQueue.
Import ConcreteOutbox ConcreteContext ConcreteTokens ConcreteAccept ConcreteLimits ConcreteSchedule.

Lemma sched_queue : queue sched_t = Some MagicContext_default.
Proof. by vm_compute. Qed.

Lemma queue_invariant_witness : exists c', queue bundle_t = Some c' /\ context_ok c'.
Proof.
  destruct (queue_invariant sched_ic sched_t bundle_t MagicContext_default sched_queue
    context_ok_default ltac:(by vm_compute) (step_bundle _ _ _ bundle_args true bundle_runs))
    as (c' & Hq & Hc & _).
  exists c'. exact (conj Hq Hc).
Defined.
End ConcreteQueue.
