(* ===== verification/Tasks.v ===== *)
(** * Settlement tasks

    [committor/src/shared/tasks]: what the committor sends to the base chain.
    [mod.rs], [commit_finalize_task.rs], [commit_delivery.rs], [buffer_task.rs]
    and [utils.rs]: a commit, an undelegation or an action, the instruction it
    becomes, its compute units and account budget, and how a large commit is moved
    from the instruction into a buffer.

    The delegation program's instruction builders, its diff and its size budgets
    are external: they are fields of [Settlement] (shared with the limits) and
    [TaskEnv]. *)

From stdpp Require Import base gmap sets list.
From Stdlib Require Import ZArith Lia.
From S2P Require Import Prelude Intent Chunks CommittorProgram Runtime Limits.

Class TaskEnv `{Settlement} := {
  dlp_undelegate : Pubkey -> Pubkey -> Pubkey -> Pubkey -> Instruction;
  compute_diff : list Z -> list Z -> list Z;
  commit_finalize_size_budget : Z -> Z;
  commit_finalize_from_buffer_size_budget : Z;
  undelegate_size_budget : Z;
  undelegate_with_request_size_budget : Z;
  call_handler_size_budget : Z -> Z;
  call_handler_v2_size_budget : Z -> Z;
  SMALL_SIZE_BUDGET : Z;
  HUGE_SIZE_BUDGET : Z;
  DLP_PROGRAM_SIZE_BUDGET : Z }.

Inductive CommitDelivery :=
| StateInArgs
| StateInBuffer
| DiffInArgs (base_account : Account)
| DiffInBuffer (base_account : Account).

Record CommitFinalizeTask := mkCommitFinalizeTask {
  cft_commit_id : Z;
  cft_allow_undelegation : bool;
  cft_committed_account : CommittedAccount;
  cft_delivery : CommitDelivery }.

Record UndelegateTask := mkUndelegateTask {
  ut_delegated_account : Pubkey;
  ut_owner_program : Pubkey;
  ut_rent_reimbursement : Pubkey;
  ut_include_undelegation_request : bool }.

Inductive BaseActionTask :=
| BaseActionTaskV1 (action : BaseAction)
| BaseActionTaskV2 (action : BaseAction) (source_program : Pubkey).

Inductive Task :=
| TaskCommitFinalize (t : CommitFinalizeTask)
| TaskUndelegate (t : UndelegateTask)
| TaskBaseAction (t : BaseActionTask).

Definition is_commit (t : Task) : bool := match t with TaskCommitFinalize _ => true | _ => false end.
Definition is_undelegate (t : Task) : bool := match t with TaskUndelegate _ => true | _ => false end.
Definition is_action (t : Task) : bool := match t with TaskBaseAction _ => true | _ => false end.

(** ** Commits *)

Definition is_buffer (t : CommitFinalizeTask) : bool :=
  match cft_delivery t with StateInBuffer | DiffInBuffer _ => true | _ => false end.

Definition with_delivery (d : CommitDelivery) (t : CommitFinalizeTask) : CommitFinalizeTask :=
  mkCommitFinalizeTask (cft_commit_id t) (cft_allow_undelegation t) (cft_committed_account t) d.

(** The task after the call and whether it changed. *)
Definition CommitFinalizeTask_try_use_buffer (t : CommitFinalizeTask) : CommitFinalizeTask * bool :=
  match cft_delivery t with
  | StateInArgs => (with_delivery StateInBuffer t, true)
  | DiffInArgs base_account => (with_delivery (DiffInBuffer base_account) t, true)
  | other => (with_delivery other t, false)
  end.

Definition COMMIT_COMPUTE_UNITS : Z := 120000.

(** ** Actions *)

Definition action_of (t : BaseActionTask) : BaseAction :=
  match t with BaseActionTaskV1 action => action | BaseActionTaskV2 action _ => action end.

Definition set_action (t : BaseActionTask) (a : BaseAction) : BaseActionTask :=
  match t with BaseActionTaskV1 _ => BaseActionTaskV1 a | BaseActionTaskV2 _ s => BaseActionTaskV2 a s end.

Definition without_callback (a : BaseAction) : BaseAction :=
  mkBaseAction (action_id a) (compute_units a) (destination_program a) (source_program a)
    (escrow_authority a) (data_per_program a) (account_metas_per_program a) None.

(** [extract_callback]: the callback is taken, and handed out only if its
    destination is the program that scheduled the action. *)
Definition extract_callback (t : BaseActionTask) : BaseActionTask * option BaseActionCallback :=
  let action := action_of t in
  match callback action with
  | None => (t, None)
  | Some c =>
      (set_action t (without_callback action),
       if is_ok (validate_callback_destination (without_callback action) (cb_destination_program c))
       then Some c else None)
  end.

Definition task_has_callback (t : BaseActionTask) : bool :=
  bool_decide (is_Some (callback (action_of t))).

Definition account_metas_static (a : BaseAction) : list IxMeta :=
  map (fun m => mkIxMeta (sm_pubkey m) false (sm_is_writable m)) (account_metas_per_program a).

Definition call_handler_args_static (a : BaseAction) : CallHandlerArgs :=
  mkCallHandlerArgs (args_data (data_per_program a)) (escrow_index (data_per_program a)).

Section tasks.
Context `{TaskEnv}.

Definition commit_finalize_ix (t : CommitFinalizeTask) (validator : Pubkey)
    (base_account : option Account) : Instruction :=
  let state := data (ca_account (cft_committed_account t)) in
  let '(d, data_is_diff) :=
    match base_account with
    | Some base_account => (compute_diff (data base_account) state, true)
    | None => (state, false)
    end in
  dlp_commit_finalize validator (ca_pubkey (cft_committed_account t))
    (mkCommitFinalizeArgs (cft_commit_id t) (lamports (ca_account (cft_committed_account t)))
       data_is_diff (cft_allow_undelegation t)) d.

Definition buffer_pda (validator pubkey : Pubkey) (commit_id : Z) : Pubkey :=
  fst (CommittorProgram.pda COMMITTOR_PROGRAM_ID find_committor_address false validator pubkey
         (to_le_bytes 8 commit_id)).

Definition commit_finalize_from_buffer_ix (t : CommitFinalizeTask) (validator : Pubkey)
    (base_account : option Account) : Instruction :=
  let k := ca_pubkey (cft_committed_account t) in
  commit_finalize_from_buffer validator k (buffer_pda validator k (cft_commit_id t))
    (mkCommitFinalizeArgs (cft_commit_id t) (lamports (ca_account (cft_committed_account t)))
       (bool_decide (is_Some base_account)) (cft_allow_undelegation t)).

Definition CommitFinalizeTask_instruction (t : CommitFinalizeTask) (validator : Pubkey) : Instruction :=
  match cft_delivery t with
  | StateInArgs => commit_finalize_ix t validator None
  | StateInBuffer => commit_finalize_from_buffer_ix t validator None
  | DiffInArgs base_account => commit_finalize_ix t validator (Some base_account)
  | DiffInBuffer base_account => commit_finalize_from_buffer_ix t validator (Some base_account)
  end.

Definition CommitFinalizeTask_accounts_size_budget (t : CommitFinalizeTask) : Z :=
  match cft_delivery t with
  | StateInArgs | DiffInArgs _ =>
      commit_finalize_size_budget
        (wrap 32 (Z.of_nat (length (data (ca_account (cft_committed_account t))))))
  | StateInBuffer | DiffInBuffer _ => commit_finalize_from_buffer_size_budget
  end.

Definition UndelegateTask_instruction (t : UndelegateTask) (validator : Pubkey) : Instruction :=
  (if ut_include_undelegation_request t then undelegate_with_request else dlp_undelegate)
    validator (ut_delegated_account t) (ut_owner_program t) (ut_rent_reimbursement t).

Definition BaseActionTask_instruction (t : BaseActionTask) (validator : Pubkey) : Instruction :=
  match t with
  | BaseActionTaskV1 a =>
      call_handler validator (destination_program a) (escrow_authority a) (account_metas_static a)
        (call_handler_args_static a)
  | BaseActionTaskV2 a source =>
      call_handler_v2 validator (destination_program a) source (escrow_authority a)
        (account_metas_static a) (call_handler_args_static a)
  end.

Definition BaseActionTask_accounts_size_budget (t : BaseActionTask) : Z :=
  let other_accounts_budget :=
    wmul 32 (wrap 32 (Z.of_nat (length (account_metas_per_program (action_of t))))) SMALL_SIZE_BUDGET in
  match t with
  | BaseActionTaskV1 _ => call_handler_size_budget other_accounts_budget
  | BaseActionTaskV2 _ _ => call_handler_v2_size_budget other_accounts_budget
  end.

(** ** [Task] *)

Definition instruction (t : Task) (validator : Pubkey) : Instruction :=
  match t with
  | TaskCommitFinalize value => CommitFinalizeTask_instruction value validator
  | TaskUndelegate value => UndelegateTask_instruction value validator
  | TaskBaseAction value => BaseActionTask_instruction value validator
  end.

Definition involved_accounts (t : Task) (validator : Pubkey) : list Pubkey :=
  map im_pubkey (ix_accounts (instruction t validator)).

Definition try_use_buffer (t : Task) : Task * bool :=
  match t with
  | TaskCommitFinalize value =>
      let '(value, changed) := CommitFinalizeTask_try_use_buffer value in
      (TaskCommitFinalize value, changed)
  | _ => (t, false)
  end.

Definition task_compute_units (t : Task) : Z :=
  match t with
  | TaskCommitFinalize _ => COMMIT_COMPUTE_UNITS
  | TaskBaseAction value => compute_units (action_of value)
  | TaskUndelegate _ => 120000
  end.

Definition accounts_size_budget (t : Task) : Z :=
  match t with
  | TaskCommitFinalize value => CommitFinalizeTask_accounts_size_budget value
  | TaskBaseAction value => BaseActionTask_accounts_size_budget value
  | TaskUndelegate value =>
      if ut_include_undelegation_request value then undelegate_with_request_size_budget
      else undelegate_size_budget
  end.

(** ** Construction ([utils.rs]) *)

Definition create_action_tasks (actions : list BaseAction) : list Task :=
  map (fun action =>
         TaskBaseAction
           match source_program action with
           | Some source_program => BaseActionTaskV2 action source_program
           | None => BaseActionTaskV1 action
           end) actions.

Definition commit_delivery (account : CommittedAccount) (base_account : option Account)
    : CommitDelivery :=
  let base_account :=
    if decide (COMMIT_STATE_SIZE_THRESHOLD < length (data (ca_account account)))
    then base_account else None in
  match base_account with
  | Some base_account => DiffInArgs base_account
  | None => StateInArgs
  end.

Definition create_commit_finalize_task (commit_id : Z) (allow_undelegation : bool)
    (account : CommittedAccount) (base_account : option Account) : CommitFinalizeTask :=
  mkCommitFinalizeTask commit_id allow_undelegation account (commit_delivery account base_account).

(** ** Budgets ([TransactionUtils]) *)

Definition COMPUTE_BUDGET_INSTRUCTION_COUNT : Z := 2.
Definition UNIQUENESS_NOOP_PROGRAM_DATA_SIZE_BUDGET : Z := 42 * 1024.
Definition UNIQUENESS_NOOP_COMPUTE_UNITS : Z := 1000.

Definition uniqueness_noop_instruction (id : N) : Instruction :=
  mkInstruction NOOP_PROGRAM_ID [] (to_le_bytes 8 (Z.of_N id)).

Definition tasks_compute_units (tasks : list Task) (uniqueness_nonce : option N) : Z :=
  let overhead := match uniqueness_nonce with Some _ => UNIQUENESS_NOOP_COMPUTE_UNITS | None => 0%Z end in
  fold_left (fun sum task => saturating_add u32_max sum (task_compute_units task)) tasks overhead.

Definition saturating_mul (max a b : Z) : Z := Z.min (a * b) max.

Definition tasks_accounts_size_budget (tasks : list Task) : Z :=
  if is_nil tasks then 0%Z
  else
    let total_budget := fold_left (fun sum task => wadd 32 sum (accounts_size_budget task)) tasks 0%Z in
    let deduction := saturating_mul u32_max
                       (saturating_sub (wrap 32 (Z.of_nat (length tasks))) 1) DLP_PROGRAM_SIZE_BUDGET in
    let program_headroom := saturating_sub HUGE_SIZE_BUDGET DLP_PROGRAM_SIZE_BUDGET in
    saturating_add u32_max (saturating_sub total_budget deduction) program_headroom.

Definition tasks_accounts_size_budget_with_uniqueness_nonce (tasks : list Task)
    (uniqueness_nonce : option N) : Z :=
  let budget := tasks_accounts_size_budget tasks in
  match uniqueness_nonce with
  | Some _ => saturating_add u32_max budget UNIQUENESS_NOOP_PROGRAM_DATA_SIZE_BUDGET
  | None => budget
  end.

Definition budget_instructions (compute_units compute_unit_price : Z) : list Instruction :=
  [set_compute_unit_limit compute_units; set_compute_unit_price compute_unit_price].

Definition tasks_instructions (validator : Pubkey) (tasks : list Task) : list Instruction :=
  map (fun task => instruction task validator) tasks.

(** The instructions of the tasks and the uniqueness noop. *)
Definition with_noop (uniqueness_nonce : option N) (ixs : list Instruction) : list Instruction :=
  match uniqueness_nonce with
  | Some nonce => ixs ++ [uniqueness_noop_instruction nonce]
  | None => ixs
  end.

(** ** Buffers ([buffer_task.rs]) *)

Definition MAX_WRITE_CHUNK_SIZE : nat := Z.to_nat (1028 - (32 + 8 + 1 + 1 + 32) - (1 + 8) * 8 - (1 + 4) * 8).

Record BufferPreparation := mkBufferPreparation {
  bp_commit_id : Z;
  bp_pubkey : Pubkey;
  bp_chunks : Chunks;
  bp_buffer_data : list Z }.

Record BufferCleanup := mkBufferCleanup {
  bc_pubkey : Pubkey;
  bc_commit_id : Z }.

(** The bytes the buffer must hold, if the task uses one. *)
Definition buffer_data_of (t : CommitFinalizeTask) : option (list Z) :=
  let state := data (ca_account (cft_committed_account t)) in
  match cft_delivery t with
  | StateInArgs | DiffInArgs _ => None
  | StateInBuffer => Some state
  | DiffInBuffer base_account => Some (compute_diff (data base_account) state)
  end.

Definition BufferPreparation_from_commit_finalize (t : CommitFinalizeTask)
    : option (result BufferPreparation (failure unit)) :=
  buffer_data ← buffer_data_of t;
  Some (let? chunks := Chunks.from_data_length (length buffer_data) MAX_WRITE_CHUNK_SIZE in
        Ok (mkBufferPreparation (cft_commit_id t) (ca_pubkey (cft_committed_account t)) chunks buffer_data)).

Definition cleanup_task (p : BufferPreparation) : BufferCleanup :=
  mkBufferCleanup (bp_pubkey p) (bp_commit_id p).

Definition BufferCleanup_from_commit_finalize (t : CommitFinalizeTask) : option BufferCleanup :=
  match cft_delivery t with
  | StateInBuffer | DiffInBuffer _ =>
      Some (mkBufferCleanup (ca_pubkey (cft_committed_account t)) (cft_commit_id t))
  | _ => None
  end.

Definition BufferCleanup_COMPUTE_UNITS : Z := 30000.
Definition BufferCleanup_MAX_PER_TRANSACTION : nat := 8.

Definition BufferCleanup_buffer_pda (c : BufferCleanup) (authority : Pubkey) : Pubkey :=
  buffer_pda authority (bc_pubkey c) (bc_commit_id c).
End tasks.

Section buffer_instructions.
Context (ID : Pubkey) (find_program_address : list Seed -> Pubkey -> Pubkey * Z).
Context (encode : CommittorInstruction -> list Z) (system_program : Pubkey).

Definition init_instruction (p : BufferPreparation) (authority : Pubkey)
    : CommittorProgram.Instruction :=
  fst (fst (create_init_ix ID find_program_address encode system_program authority (bp_pubkey p)
              (Z.of_nat (Chunks.serialized_size (bp_chunks p))) (Z.of_nat (length (bp_buffer_data p)))
              (bp_commit_id p) (count (bp_chunks p)) (chunk_size (bp_chunks p)))).

Definition realloc_instructions (p : BufferPreparation) (authority : Pubkey)
    : list CommittorProgram.Instruction :=
  create_realloc_buffer_ixs ID find_program_address encode authority (bp_pubkey p)
    (Z.of_nat (length (bp_buffer_data p))) (bp_commit_id p).

(** Every chunk of the buffer data, in order; the fuel is one more than the
    number of chunks. *)
Definition write_instructions (p : BufferPreparation) (authority : Pubkey)
    : option (result (list CommittorProgram.Instruction) (failure unit)) :=
  match ChangesetChunks.iter (bp_chunks p) (chunk_size (bp_chunks p)) (bp_buffer_data p) with
  | Err e => Some (Err e)
  | Ok it =>
      chunks ← ChangesetChunksIter.collect (S (count (bp_chunks p))) it;
      Some (let? chunks := chunks in
            Ok (map (fun chunk => create_write_ix ID find_program_address encode authority (bp_pubkey p)
                                    (cc_offset chunk) (cc_data_chunk chunk) (bp_commit_id p)) chunks))
  end.

Definition BufferCleanup_instruction (c : BufferCleanup) (authority : Pubkey)
    : CommittorProgram.Instruction :=
  create_close_ix ID find_program_address encode authority (bc_pubkey c) (bc_commit_id c).
End buffer_instructions.
