(* ===== verification/Process.v ===== *)
(** * Asynchronous code

    The committor's services are [async] functions: they call the outside world at
    [await] points, where they may also be cancelled. This file has the monad they
    are modelled in and its program logic.

    A process runs on a state, on the history of the calls it has made and on the
    number of calls it may still make. The environment answers a call from the
    history, or interrupts the process there: [Elapsed] is a [timeout] around the
    call, [Stopped] the end of the process. An interrupted call is in the history
    without an answer, because it may have had its effect. Running out of calls
    stops the process, so statements over every number of calls cover runs that do
    not end. *)

From stdpp Require Import base list.
From Stdlib Require Import Lia.
From S2P Require Import Prelude.

Inductive interrupt := Elapsed | Stopped.

Inductive answer (A : Type) := Answer (a : A) | Interrupt (i : interrupt).
Arguments Answer {A} a.
Arguments Interrupt {A} i.

Record World (Ev St : Type) := mkWorld {
  state : St;
  history : list Ev;
  awaits : nat }.
Arguments mkWorld {Ev St} _ _ _.
Arguments state {Ev St} _.
Arguments history {Ev St} _.
Arguments awaits {Ev St} _.

Inductive outcome (Ev St A : Type) :=
| Done (a : A) (w : World Ev St)
| Interrupted (i : interrupt) (w : World Ev St)
| OutOfFuel.
Arguments Done {Ev St A} a w.
Arguments Interrupted {Ev St A} i w.
Arguments OutOfFuel {Ev St A}.

Definition Proc (Ev St A : Type) : Type := World Ev St -> outcome Ev St A.

Declare Scope proc_scope.
Delimit Scope proc_scope with proc.
Bind Scope proc_scope with Proc.

Section process.
Context {Ev St : Type}.

Definition pret {A} (a : A) : Proc Ev St A := fun w => Done a w.

Definition pbind {A B} (m : Proc Ev St A) (k : A -> Proc Ev St B) : Proc Ev St B := fun w =>
  match m w with
  | Done a w => k a w
  | Interrupted i w => Interrupted i w
  | OutOfFuel => OutOfFuel
  end.

(** [?] on the result of a call. *)
Definition ptry {A B E} (m : Proc Ev St (result A E)) (k : A -> Proc Ev St (result B E))
    : Proc Ev St (result B E) :=
  pbind m (fun r => match r with Ok a => k a | Err e => pret (Err e) end).

Definition pget : Proc Ev St St := fun w => Done (state w) w.
Definition pmodify (f : St -> St) : Proc Ev St unit := fun w =>
  Done tt (mkWorld (f (state w)) (history w) (awaits w)).

(** A call at an [await] point. *)
Definition await {A} (ask : list Ev -> answer A) (log : option A -> Ev) : Proc Ev St A := fun w =>
  match awaits w with
  | O => Interrupted Stopped w
  | S n =>
      match ask (history w) with
      | Answer a => Done a (mkWorld (state w) (history w ++ [log (Some a)]) n)
      | Interrupt i => Interrupted i (mkWorld (state w) (history w ++ [log None]) n)
      end
  end.

(** A call that cannot be interrupted. *)
Definition call {A} (ask : list Ev -> A) (log : A -> Ev) : Proc Ev St A := fun w =>
  let a := ask (history w) in
  Done a (mkWorld (state w) (history w ++ [log a]) (awaits w)).

(** [tokio::time::timeout]: [None] when the time elapses first. *)
Definition ptimeout {A} (m : Proc Ev St A) : Proc Ev St (option A) := fun w =>
  match m w with
  | Done a w => Done (Some a) w
  | Interrupted Elapsed w => Done None w
  | Interrupted Stopped w => Interrupted Stopped w
  | OutOfFuel => OutOfFuel
  end.

(** [loop]: [inl] starts another iteration. Every loop modelled here makes a call
    in each iteration, so the number of calls left bounds the iterations. *)
Fixpoint loop_fuel {S A} (fuel : nat) (body : S -> Proc Ev St (S + A)) (s : S) : Proc Ev St A :=
  match fuel with
  | O => fun _ => OutOfFuel
  | Datatypes.S fuel =>
      pbind (body s) (fun r => match r with
                               | inl s => loop_fuel fuel body s
                               | inr a => pret a
                               end)
  end.
Definition ploop {S A} (body : S -> Proc Ev St (S + A)) (s : S) : Proc Ev St A := fun w =>
  loop_fuel (Datatypes.S (awaits w)) body s w.

(** ** Program logic

    [wp m Q I w]: from [w], [m] does not run out of fuel, [Q] holds where it
    returns and [I] where it is interrupted. *)

Definition wp {A} (m : Proc Ev St A) (Q : A -> World Ev St -> Prop)
    (I : interrupt -> World Ev St -> Prop) (w : World Ev St) : Prop :=
  match m w with
  | Done a w => Q a w
  | Interrupted i w => I i w
  | OutOfFuel => False
  end.

Lemma wp_mono {A} (m : Proc Ev St A) (Q Q' : A -> World Ev St -> Prop)
    (I I' : interrupt -> World Ev St -> Prop) w :
  wp m Q I w -> (forall a w, Q a w -> Q' a w) -> (forall i w, I i w -> I' i w) -> wp m Q' I' w.
Proof. unfold wp. intros Hm HQ HI. destruct (m w); eauto. Qed.

Lemma wp_bind {A B} (m : Proc Ev St A) (k : A -> Proc Ev St B) Q I w :
  wp m (fun a w => wp (k a) Q I w) I w -> wp (pbind m k) Q I w.
Proof. unfold wp, pbind. destruct (m w); done. Qed.

Lemma wp_try {A B E} (m : Proc Ev St (result A E)) (k : A -> Proc Ev St (result B E)) Q I w :
  wp m (fun r w => match r with Ok a => wp (k a) Q I w | Err e => Q (Err e) w end) I w ->
  wp (ptry m k) Q I w.
Proof. intros Hm. apply wp_bind. eapply wp_mono; [exact Hm| |done]. intros [a|e] w' HQ; exact HQ. Qed.

Lemma wp_get {A} (k : St -> Proc Ev St A) Q I w : wp (k (state w)) Q I w -> wp (pbind pget k) Q I w.
Proof. done. Qed.

Lemma wp_modify {A} f (k : unit -> Proc Ev St A) Q I w :
  wp (k tt) Q I (mkWorld (f (state w)) (history w) (awaits w)) -> wp (pbind (pmodify f) k) Q I w.
Proof. done. Qed.

Lemma wp_await {A} (ask : list Ev -> answer A) (log : option A -> Ev) Q
    (I : interrupt -> World Ev St -> Prop) w :
  (awaits w = 0 -> I Stopped w) ->
  (forall n a, awaits w = S n -> ask (history w) = Answer a ->
     Q a (mkWorld (state w) (history w ++ [log (Some a)]) n)) ->
  (forall n i, awaits w = S n -> ask (history w) = Interrupt i ->
     I i (mkWorld (state w) (history w ++ [log None]) n)) ->
  wp (await ask log) Q I w.
Proof.
  unfold wp, await. intros H0 Ha Hi. destruct (awaits w) as [|n]; [by apply H0|].
  destruct (ask (history w)) as [a|i]; eauto.
Qed.

Lemma wp_timeout {A} (m : Proc Ev St A) Q (I : interrupt -> World Ev St -> Prop) w :
  wp m (fun a w => Q (Some a) w) (fun i w => match i with Elapsed => Q None w | Stopped => I Stopped w end) w ->
  wp (ptimeout m) Q I w.
Proof. unfold wp, ptimeout. destruct (m w) as [| [] |]; done. Qed.

(** An iteration that continues has made a call. *)
Lemma wp_loop {S A} (body : S -> Proc Ev St (S + A)) (J : S -> World Ev St -> Prop) Q I s w :
  (forall s w, J s w ->
     wp (body s) (fun r w' => match r with
                              | inl s' => J s' w' /\ awaits w' < awaits w
                              | inr a => Q a w'
                              end) I w) ->
  J s w -> wp (ploop body s) Q I w.
Proof.
  intros Hbody HJ. unfold ploop.
  change (wp (loop_fuel (Datatypes.S (awaits w)) body s) Q I w).
  assert (forall n, awaits w < n -> wp (loop_fuel n body s) Q I w) as Hn; [|apply Hn; lia].
  intros n. revert s w HJ. induction n as [|n IH]; intros s w HJ Hlt; [lia|].
  cbn [loop_fuel]. apply wp_bind. eapply wp_mono; [by apply Hbody| |done].
  intros [s'|a] w'; [|done]. intros [HJ' ?]. apply IH; [done|lia].
Qed.

(** ** The calls left only decrease *)

Definition spends {A} (m : Proc Ev St A) : Prop := forall w,
  match m w with
  | Done _ w' | Interrupted _ w' => awaits w' <= awaits w
  | OutOfFuel => True
  end.

Lemma spends_ret {A} (a : A) : spends (pret a).
Proof. intros w. cbn. lia. Qed.
Lemma spends_get : spends pget.
Proof. intros w. cbn. lia. Qed.
Lemma spends_modify f : spends (pmodify f).
Proof. intros w. cbn. lia. Qed.
Lemma spends_await {A} (ask : list Ev -> answer A) (log : option A -> Ev) : spends (await ask log).
Proof. intros w. unfold await. destruct (awaits w) eqn:E; [lia|]. destruct (ask _); cbn; lia. Qed.
Lemma spends_call {A} (ask : list Ev -> A) (log : A -> Ev) : spends (call ask log).
Proof. intros w. cbn. lia. Qed.
Lemma spends_bind {A B} (m : Proc Ev St A) (k : A -> Proc Ev St B) :
  spends m -> (forall a, spends (k a)) -> spends (pbind m k).
Proof.
  intros Hm Hk w. unfold pbind. specialize (Hm w). destruct (m w) as [a w1| |]; [|done..].
  specialize (Hk a w1). destruct (k a w1); (lia || done).
Qed.
Lemma spends_loop {S A} (body : S -> Proc Ev St (S + A)) s : (forall s, spends (body s)) -> spends (ploop body s).
Proof.
  intros Hb w. unfold ploop. generalize (Datatypes.S (awaits w)). intros n.
  enough (forall s, spends (loop_fuel n body s)) as Hn by apply Hn. clear s w.
  induction n as [|n IH]; intros s; [by intros w|]. cbn [loop_fuel]. apply spends_bind; [done|].
  intros [s'|a]; [apply IH|apply spends_ret].
Qed.

Lemma spends_timeout {A} (m : Proc Ev St A) : spends m -> spends (ptimeout m).
Proof. intros Hm w. unfold ptimeout. specialize (Hm w). by destruct (m w) as [| [] |]. Qed.

Lemma wp_spends {A} (m : Proc Ev St A) Q I w : spends m -> wp m Q I w ->
  wp m (fun a w' => Q a w' /\ awaits w' <= awaits w) (fun i w' => I i w' /\ awaits w' <= awaits w) w.
Proof. intros Hm. specialize (Hm w). unfold wp. by destruct (m w). Qed.

(** ** Processes that only add to the history

    [grows P w w']: from [w] to [w'] only events of [P] were added, the state is
    the same. [extends P C m]: [m] only adds events of [P], and has made a call
    whenever it returns a value of [C]. *)

Definition grows (P : Ev -> Prop) (w w' : World Ev St) : Prop :=
  state w' = state w /\ awaits w' <= awaits w
  /\ exists evs, history w' = history w ++ evs /\ Forall P evs.

Definition extends {A} (P : Ev -> Prop) (C : A -> Prop) (m : Proc Ev St A) : Prop :=
  forall w, wp m (fun a w' => grows P w w' /\ (C a -> awaits w' < awaits w))
              (fun _ w' => grows P w w') w.

Lemma grows_refl P w : grows P w w.
Proof. split_and!; [done|lia|]. exists []. by rewrite app_nil_r. Qed.

Lemma grows_trans P w1 w2 w3 : grows P w1 w2 -> grows P w2 w3 -> grows P w1 w3.
Proof.
  intros (S1 & A1 & e1 & H1 & F1) (S2 & A2 & e2 & H2 & F2).
  split_and!; [congruence|lia|]. exists (e1 ++ e2). by rewrite H2, H1, <- app_assoc, Forall_app.
Qed.

Lemma grows_one (P : Ev -> Prop) w n ev : n < awaits w -> P ev ->
  grows P w (mkWorld (state w) (history w ++ [ev]) n).
Proof. intros Hn Hp. split_and!; cbn; [done|lia|]. exists [ev]. by rewrite Forall_singleton. Qed.

Lemma extends_ret {A} P (a : A) : extends P (fun _ => False) (pret a).
Proof. intros w. split; [apply grows_refl|done]. Qed.

Lemma extends_get P : extends P (fun _ => False) pget.
Proof. intros w. split; [apply grows_refl|done]. Qed.

Lemma extends_weaken {A} P (C C' : A -> Prop) m :
  extends P C m -> (forall a, C' a -> C a) -> extends P C' m.
Proof. intros Hm HC w. eapply wp_mono; [apply Hm| |done]. intros a w' [? ?]. eauto. Qed.

(** After a call the continuation need not make one. *)
Lemma extends_bind {A B} P (m : Proc Ev St A) (k : A -> Proc Ev St B) (C : B -> Prop) :
  extends P (fun _ => False) m -> (forall a, extends P C (k a)) -> extends P C (pbind m k).
Proof.
  intros Hm Hk w. apply wp_bind. eapply wp_mono; [apply Hm| |done].
  intros a w1 [G1 _]. eapply wp_mono; [apply Hk| |].
  - intros b w2 [G2 D]. split; [by eapply grows_trans|]. intros HC. specialize (D HC).
    destruct G1 as (_ & ? & _). lia.
  - intros i w2 G2. by eapply grows_trans.
Qed.

Lemma extends_bind_call {A B} P (m : Proc Ev St A) (k : A -> Proc Ev St B) (C : B -> Prop) :
  extends P (fun _ => True) m -> (forall a, extends P (fun _ => False) (k a)) ->
  extends P C (pbind m k).
Proof.
  intros Hm Hk w. apply wp_bind. eapply wp_mono; [apply Hm| |done].
  intros a w1 [G1 D]. eapply wp_mono; [apply Hk| |].
  - intros b w2 [G2 _]. split; [by eapply grows_trans|]. intros _. specialize (D I).
    destruct G2 as (_ & ? & _). lia.
  - intros i w2 G2. by eapply grows_trans.
Qed.

Lemma extends_try {A B E} P (m : Proc Ev St (result A E)) (k : A -> Proc Ev St (result B E)) :
  extends P (fun _ => False) m -> (forall a, extends P (fun _ => False) (k a)) ->
  extends P (fun _ => False) (ptry m k).
Proof. intros Hm Hk. apply extends_bind; [done|]. intros [a|e]; [apply Hk|apply extends_ret]. Qed.

Lemma extends_await {A} (P : Ev -> Prop) (ask : list Ev -> answer A) (log : option A -> Ev)
    (C : A -> Prop) :
  (forall o, P (log o)) -> extends P C (await ask log).
Proof.
  intros Hp w. apply wp_await; [intros _; apply grows_refl|..].
  - intros n a Hn _. split; [apply grows_one; [lia|done]|]. cbn. lia.
  - intros n i Hn _. apply grows_one; [lia|done].
Qed.

Lemma extends_call {A} (P : Ev -> Prop) (ask : list Ev -> A) (log : A -> Ev) :
  (forall a, P (log a)) -> extends P (fun _ => False) (call ask log).
Proof.
  intros Hp w. unfold wp, call. split; [|done]. split_and!; cbn; [done|lia|].
  exists [log (ask (history w))]. by rewrite Forall_singleton.
Qed.

Lemma extends_loop {S A} P (body : S -> Proc Ev St (S + A)) s :
  (forall s, extends P (fun r => match r with inl _ => True | inr _ => False end) (body s)) ->
  extends P (fun _ => False) (ploop body s).
Proof.
  intros Hb w.
  eapply (wp_mono (ploop body s) (fun _ w' => grows P w w')); [|intros; by split|intros i w'; exact id].
  apply (wp_loop body (fun _ w' => grows P w w')); [|apply grows_refl].
  intros s' w1 G1. eapply wp_mono; [apply Hb| |].
  - intros [s2|a] w2 [G2 D]; [split; [by eapply grows_trans|by apply D]|by eapply grows_trans].
  - intros i w2 G2. by eapply grows_trans.
Qed.
End process.

(** Running a process on another state: [inj] enters it, [proj] leaves it. *)
Definition pzoom {Ev St St' A} (inj : St -> St') (proj : St' -> St) (m : Proc Ev St' A)
    : Proc Ev St A := fun w =>
  match m (mkWorld (inj (state w)) (history w) (awaits w)) with
  | Done a w => Done a (mkWorld (proj (state w)) (history w) (awaits w))
  | Interrupted i w => Interrupted i (mkWorld (proj (state w)) (history w) (awaits w))
  | OutOfFuel => OutOfFuel
  end.

Lemma wp_zoom {Ev St St' A} (inj : St -> St') (proj : St' -> St) (m : Proc Ev St' A) Q I
    (w : World Ev St) :
  wp m (fun a w => Q a (mkWorld (proj (state w)) (history w) (awaits w)))
    (fun i w => I i (mkWorld (proj (state w)) (history w) (awaits w)))
    (mkWorld (inj (state w)) (history w) (awaits w)) ->
  wp (pzoom inj proj m) Q I w.
Proof. unfold wp, pzoom. by destruct (m _). Qed.

Lemma spends_zoom {Ev St St' A} (inj : St -> St') (proj : St' -> St) (m : Proc Ev St' A) :
  spends m -> spends (pzoom inj proj m).
Proof. intros Hm w. unfold pzoom. specialize (Hm (mkWorld (inj (state w)) (history w) (awaits w))). by destruct (m _). Qed.

Lemma extends_spends {Ev St A} P (C : A -> Prop) (m : Proc Ev St A) : extends P C m -> spends m.
Proof.
  intros Hm w. specialize (Hm w). unfold wp in Hm.
  destruct (m w) as [a w'|i w'|]; [destruct Hm as [(_ & ? & _) _]|destruct Hm as (_ & ? & _)|]; done.
Qed.

Ltac spends_step :=
  first
    [ assumption | apply spends_ret | apply spends_get | apply spends_modify | apply spends_await
    | apply spends_call | apply spends_loop; intros ? | apply spends_bind; [|intros ?]
    | apply spends_timeout | apply spends_zoom | case_match | progress cbv zeta ].

Notation "x ← m ; k" := (pbind m (fun x => k))
  (at level 20, m at level 100, k at level 200, right associativity) : proc_scope.
Notation "' p ← m ; k" := (pbind m (fun x => match x with p => k end))
  (at level 20, p pattern, m at level 100, k at level 200, right associativity) : proc_scope.
Notation "m ;; k" := (pbind m (fun _ => k))
  (at level 100, k at level 200, right associativity) : proc_scope.
Notation "x ←? m ; k" := (ptry m (fun x => k))
  (at level 20, m at level 100, k at level 200, right associativity) : proc_scope.
