(* ===== verification/RpcClient.v ===== *)
(** * The RPC client

    [rpc-client/src]: the errors of a call to the base chain, which of them may be
    retried, how a caller's own error type is derived from them, and the two retry
    loops of [utils.rs] as processes.

    The error types of the Solana client are external; only the constructors the
    code distinguishes are told apart. *)

From stdpp Require Import base list strings.
From Stdlib Require Import ZArith Lia.
From S2P Require Import Prelude Intent Process.

Open Scope proc_scope.

(** ** Errors *)

Inductive TransactionError :=
| TxInstructionError (index : Z) (err : InstructionError)
| MaxLoadedAccountsDataSizeExceeded
| AlreadyProcessed
| OtherTransactionError (code : N).

Inductive RpcError :=
| RpcRequestError (msg : string)
| RpcResponseError (code : Z) (message : string)
| RpcParseError (msg : string)
| ForUser (msg : string).

Inductive ErrorKind :=
| KindIo
| KindReqwest (status : option Z)
| KindMiddleware
| KindRpcError (e : RpcError)
| KindSerdeJson
| KindSigningError
| KindTransactionError (e : TransactionError)
| KindCustom (msg : string).

Inductive RpcRequest := SendTransactionRequest | OtherRequest.

Record ClientError := mkClientError {
  ce_request : option RpcRequest;
  ce_kind : ErrorKind }.

Inductive CommitmentLevel := Processed | Confirmed_ | Finalized.

Inductive MagicBlockRpcClientError :=
| RpcClientError (e : ClientError)
| GetLatestBlockhash (e : ClientError)
| GetSlot (e : ClientError)
| LookupTableDeserialize (e : InstructionError)
| SendTransaction (e : ClientError)
| CannotGetTransactionSignatureStatus (s : Signature) (msg : string)
| CannotConfirmTransactionSignatureStatus (s : Signature) (level : CommitmentLevel)
| SentTransactionError (e : TransactionError) (s : Signature).

Abbreviation RpcResult A := (result A MagicBlockRpcClientError).

Definition rpc_error_signature (e : MagicBlockRpcClientError) : option Signature :=
  match e with
  | CannotGetTransactionSignatureStatus sig _
  | SentTransactionError _ sig
  | CannotConfirmTransactionSignatureStatus sig _ => Some sig
  | _ => None
  end.

(** [str::contains]. *)
Definition contains (needle s : string) : bool :=
  match String.index 0 needle s with Some _ => true | None => false end.

Definition is_send_transaction_too_large (e : ClientError) : bool :=
  match ce_request e, ce_kind e with
  | Some SendTransactionRequest, KindRpcError (RpcResponseError code message) =>
      (code =? -32602)%Z
      && (contains "VersionedTransaction too large" message
          || contains "base64 encoded too large" message)
  | _, _ => false
  end.

Definition is_transaction_too_large (e : MagicBlockRpcClientError) : bool :=
  match e with
  | RpcClientError err | SendTransaction err => is_send_transaction_too_large err
  | _ => false
  end.

Definition rpc_error_is_transient (e : MagicBlockRpcClientError) : bool :=
  match e with
  | LookupTableDeserialize _
  | CannotGetTransactionSignatureStatus _ _
  | CannotConfirmTransactionSignatureStatus _ _ => false
  | SentTransactionError (TxInstructionError _ _) _ => false
  | SentTransactionError _ _ => true
  | _ => true
  end.

(** ** Outcome of a send *)

Record SendOutcome := mkSendOutcome {
  so_signature : Signature;
  so_processed_err : option TransactionError;
  so_confirmed_err : option TransactionError }.

(** [Option::or]. *)
Definition opt_or {A} (a b : option A) : option A := match a with Some _ => a | None => b end.

Definition into_result (o : SendOutcome) : RpcResult Signature :=
  match opt_or (so_confirmed_err o) (so_processed_err o) with
  | Some err => Err (SentTransactionError err (so_signature o))
  | None => Ok (so_signature o)
  end.

(** ** Flow

    [ControlFlow<(), Duration>]: [Some ms] retries after [ms] milliseconds. *)

Abbreviation ControlFlow := (option Z).

Definition JSON_RPC_SERVER_ERROR_NODE_UNHEALTHY : Z := -32005.

Definition decide_reqwest_flow (status : option Z) : ControlFlow :=
  match status with
  | None => Some 500
  | Some status =>
      if ((500 <=? status) && (status <? 600))%Z then Some 100
      else if (status =? 429)%Z then Some 500
      else None
  end%Z.

Definition decide_rpc_native_flow (e : ClientError) : ControlFlow :=
  match ce_kind e with
  | KindIo => Some 500%Z
  | KindReqwest status => decide_reqwest_flow status
  | KindRpcError (RpcResponseError code _) =>
      if (code =? JSON_RPC_SERVER_ERROR_NODE_UNHEALTHY)%Z then Some 500%Z else None
  | _ => None
  end.

Definition decide_rpc_error_flow (e : MagicBlockRpcClientError) : ControlFlow :=
  match e with
  | RpcClientError err | SendTransaction err => decide_rpc_native_flow err
  | GetSlot _ | LookupTableDeserialize _ | SentTransactionError _ _ => None
  | CannotGetTransactionSignatureStatus _ _ | CannotConfirmTransactionSignatureStatus _ _ => None
  | GetLatestBlockhash _ => Some 100%Z
  end.

(** ** Mapping to a caller's error

    [TransactionErrorMapper::try_map] is [try_map]; [into] is [ExecErr::from]. *)

Section mapping.
Context {ExecErr : Type}.
Context (try_map : TransactionError -> option Signature -> result ExecErr TransactionError).
Context (into : MagicBlockRpcClientError -> ExecErr).

Definition try_map_client_error (err : ClientError) : result ExecErr ClientError :=
  match ce_kind err with
  | KindTransactionError transaction_err =>
      res_map_err (fun e => mkClientError (ce_request err) (KindTransactionError e))
        (try_map transaction_err None)
  | err_kind => Err (mkClientError (ce_request err) err_kind)
  end.

Definition map_magicblock_client_error (error : MagicBlockRpcClientError) : ExecErr :=
  match error with
  | SentTransactionError transaction_err signature =>
      match try_map transaction_err (Some signature) with
      | Ok mapped_err => mapped_err
      | Err original => into (SentTransactionError original signature)
      end
  | RpcClientError err =>
      match try_map_client_error err with
      | Ok mapped_err => mapped_err
      | Err original => into (RpcClientError original)
      end
  | SendTransaction err =>
      match try_map_client_error err with
      | Ok mapped_err => mapped_err
      | Err original => into (SendTransaction original)
      end
  | err => into err
  end.
End mapping.

(** ** Retries

    [map] and [decide_flow] are the methods of the [SendErrorMapper], [elapsed]
    reads the clock since the first attempt. *)

Section retries.
Context {Ev St : Type}.
Context (elapsed : Proc Ev St Z) (sleep : Z -> Proc Ev St unit).

(** The end of both loops' bodies, from the [i]th attempt's error on. *)
Definition after_error {R MappedError} (decide_flow : MappedError -> ControlFlow)
    (stop : nat -> Z -> bool) (i : nat) (mapped_error : MappedError)
    : Proc Ev St (nat + result R MappedError) :=
  match decide_flow mapped_error with
  | None => pret (inr (Err mapped_error))
  | Some sleep_duration =>
      t ← elapsed;
      if stop i t then pret (inr (Err mapped_error))
      else (sleep sleep_duration ;; pret (inl i))
  end.

Section get.
Context {R E MappedError : Type}.
Context (attempt : Proc Ev St (result R E)) (map : E -> MappedError).
Context (decide_flow : MappedError -> ControlFlow) (stop : nat -> Z -> bool).

Definition get_attempt (i : nat) : Proc Ev St (nat + result R MappedError) :=
  r ← attempt;
  match r with
  | Ok value => pret (inr (Ok value))
  | Err err => after_error decide_flow stop (S i) (map err)
  end.

Definition get_with_retries : Proc Ev St (result R MappedError) := ploop get_attempt 0.
End get.

Section send.
Context {E ExecErr : Type}.
Context (make_send : Proc Ev St (result SendOutcome E)) (from_rpc : MagicBlockRpcClientError -> E).
Context (map : E -> ExecErr) (decide_flow : ExecErr -> ControlFlow) (stop : nat -> Z -> bool).

Definition send_attempt (i : nat) : Proc Ev St (nat + result Signature ExecErr) :=
  r ← make_send;
  match (let? outcome := r in res_map_err from_rpc (into_result outcome)) with
  | Ok signature => pret (inr (Ok signature))
  | Err err => after_error decide_flow stop (S i) (map err)
  end.

Definition send_transaction_with_retries : Proc Ev St (result Signature ExecErr) :=
  ploop send_attempt 0.
End send.
End retries.
