(* ===== verification/Strategist.v ===== *)
(** * Settlement strategy

    [committor/src/shared/tasks/task_strategist.rs] and the assembly functions of
    [utils.rs]: from the tasks of an intent to the transactions that carry them. A
    transaction fits as it is, or with the largest commits moved into buffers, or
    with lookup tables; commits and follow-up are sent together or as two
    transactions.

    The message compilers, signing and the wire format are external: they are the
    fields of [TxEnv]. Placeholder keys and hashes are drawn from a random source,
    whose position is the state of the [Rand] monad. *)

From stdpp Require Import base gmap sets list sorting.
From Stdlib Require Import ZArith Lia.
From S2P Require Import Prelude Intent Chunks CommittorProgram Runtime Limits Tasks.

Abbreviation SignerError := N.

Inductive CompileError :=
| AccountIndexOverflow
| AddressTableLookupIndexOverflow
| UnknownInstructionKey (key : Pubkey).

Inductive TaskStrategistError :=
| FailedToFit
| Compile (e : CompileError)
| Signer (e : SignerError).

Abbreviation LookupTable := (Pubkey * list Pubkey)%type.

Class TxEnv `{TaskEnv} := {
  Transaction : Type;
  v1_try_compile : Pubkey -> list Instruction -> Hash -> Z -> Z -> result Message CompileError;
  v0_try_compile :
    Pubkey -> list Instruction -> list LookupTable -> Hash -> result Message CompileError;
  sign_message : Message -> Pubkey -> result Transaction SignerError;
  transaction_wire_size : Transaction -> option Z;
  instruction_wire_size : Instruction -> option Z;
  random_key : N -> Pubkey;
  random_hash : N -> Hash;
  hash_order : gset Pubkey -> list Pubkey }.

(** A [HashSet] is iterated in some order. *)
Class TxEnvLaws `{TxEnv} : Prop := {
  hash_order_elements X : hash_order X ≡ₚ elements X }.

(** ** Randomness and errors *)

Definition Rand (A : Type) : Type := N -> A * N.
Definition rret {A} (a : A) : Rand A := fun n => (a, n).
Definition rbind {A B} (m : Rand A) (k : A -> Rand B) : Rand B := fun n =>
  let '(a, n) := m n in k a n.
Definition rtry {A B E} (m : Rand (result A E)) (k : A -> Rand (result B E)) : Rand (result B E) :=
  rbind m (fun r => match r with Ok a => k a | Err e => rret (Err e) end).
Definition draw {A} (f : N -> A) : Rand A := fun n => (f n, (n + 1)%N).
Fixpoint rmap {A B} (f : A -> Rand B) (l : list A) : Rand (list B) :=
  match l with
  | [] => rret []
  | x :: l => rbind (f x) (fun y => rbind (rmap f l) (fun ys => rret (y :: ys)))
  end.

Declare Scope rand_scope.
Delimit Scope rand_scope with rand.
Notation "x ← m ; k" := (rbind m (fun x => k))
  (at level 20, m at level 100, k at level 200, right associativity) : rand_scope.
Notation "x ←? m ; k" := (rtry m (fun x => k))
  (at level 20, m at level 100, k at level 200, right associativity) : rand_scope.
Open Scope rand_scope.

Definition usize_max : Z := 2 ^ 64 - 1.

(** ** Strategies *)

Record TransactionStrategy := mkTransactionStrategy {
  ts_tasks : list Task;
  ts_lookup_tables_keys : list Pubkey;
  ts_uniqueness_nonce : option N }.

Definition TransactionStrategy_default : TransactionStrategy := mkTransactionStrategy [] [] None.

Record TransactionPlan := mkTransactionPlan {
  tp_current : TransactionStrategy;
  tp_follow_up : option TransactionStrategy }.

Definition uses_alts (s : TransactionStrategy) : bool := negb (is_nil (ts_lookup_tables_keys s)).

Definition plan_uses_alts (p : TransactionPlan) : bool :=
  uses_alts (tp_current p)
  || match tp_follow_up p with Some s => uses_alts s | None => false end.

Definition plan_of_strategy (current : TransactionStrategy) : TransactionPlan :=
  mkTransactionPlan current None.

Definition task_instruction_offset (s : TransactionStrategy) : Z :=
  if uses_alts s then COMPUTE_BUDGET_INSTRUCTION_COUNT else 0%Z.

(** [extract_action_callbacks]: the tasks without their callbacks, and the callbacks. *)
Definition extract_task_callback (t : Task) : Task * option BaseActionCallback :=
  match t with
  | TaskBaseAction value => let '(value, c) := extract_callback value in (TaskBaseAction value, c)
  | _ => (t, None)
  end.
Definition extract_action_callbacks (s : TransactionStrategy)
    : TransactionStrategy * list BaseActionCallback :=
  (mkTransactionStrategy (map (fun t => fst (extract_task_callback t)) (ts_tasks s))
     (ts_lookup_tables_keys s) (ts_uniqueness_nonce s),
   omap (fun t => snd (extract_task_callback t)) (ts_tasks s)).

Definition has_actions_callbacks (s : TransactionStrategy) : bool :=
  existsb (fun t => match t with TaskBaseAction value => task_has_callback value | _ => false end)
    (ts_tasks s).

Section strategist.
Context `{TxEnv}.

(** ** Lookup tables *)

Definition unique_involved_pubkeys (tasks : list Task) (validator : Pubkey)
    (budget_instructions : list Instruction) : list Pubkey :=
  hash_order
    (list_to_set (concat (map (fun task => involved_accounts task validator) tasks))
     ∪ list_to_set (concat (map (fun ix => map im_pubkey (ix_accounts ix)) budget_instructions))).

Definition collect_lookup_table_keys (authority : Pubkey) (tasks : list Task)
    (uniqueness_nonce : option N) : list Pubkey :=
  let budgets := tasks_compute_units tasks uniqueness_nonce in
  let service_instructions := with_noop uniqueness_nonce (budget_instructions budgets 0) in
  unique_involved_pubkeys tasks authority service_instructions.

Definition refresh_lookup_table_keys (s : TransactionStrategy) (authority : Pubkey)
    : TransactionStrategy :=
  if uses_alts s
  then mkTransactionStrategy (ts_tasks s)
         (collect_lookup_table_keys authority (ts_tasks s) (ts_uniqueness_nonce s))
         (ts_uniqueness_nonce s)
  else s.

Definition remove_actions (s : TransactionStrategy) (authority : Pubkey)
    : TransactionStrategy * list BaseActionCallback :=
  let '(s, callbacks) := extract_action_callbacks s in
  let s := mkTransactionStrategy (filter (fun t => ~ is_action t) (ts_tasks s))
             (ts_lookup_tables_keys s) (ts_uniqueness_nonce s) in
  (refresh_lookup_table_keys s authority, callbacks).

Definition dummy_lookup_table (pubkeys : list Pubkey) : Rand (list LookupTable) :=
  rmap (fun addresses => key ← draw random_key; rret (key, addresses))
    (chunks_fuel (length pubkeys) 256 pubkeys).

(** ** Assembly *)

Definition assemble_tx_raw (authority : Pubkey) (instructions budget_instructions : list Instruction)
    (lookup_tables : list LookupTable) : Rand (result Transaction TaskStrategistError) :=
  if existsb (fun ix => (65535 <? Z.of_nat (length (ix_data ix)))%Z) instructions
  then rret (Err FailedToFit)
  else
    hash ← draw random_hash;
    rret (let? message :=
            match v0_try_compile authority (budget_instructions ++ instructions) lookup_tables hash with
            | Ok message => Ok message
            | Err AccountIndexOverflow | Err AddressTableLookupIndexOverflow => Err FailedToFit
            | Err (UnknownInstructionKey k) => Err (Compile (UnknownInstructionKey k))
            end in
          res_map_err Signer (sign_message message authority)).

Definition assemble_tasks_tx_with_uniqueness_nonce (authority : Pubkey) (tasks : list Task)
    (compute_unit_price : Z) (lookup_tables : list LookupTable) (uniqueness_nonce : option N)
    : Rand (result Transaction TaskStrategistError) :=
  assemble_tx_raw authority (with_noop uniqueness_nonce (tasks_instructions authority tasks))
    (budget_instructions (tasks_compute_units tasks uniqueness_nonce) compute_unit_price)
    lookup_tables.

Definition assemble_tasks_v1_tx_with_uniqueness_nonce (authority : Pubkey) (tasks : list Task)
    (compute_unit_price : Z) (uniqueness_nonce : option N)
    : Rand (result Transaction TaskStrategistError) :=
  hash ← draw random_hash;
  rret (let? message :=
          res_map_err Compile
            (v1_try_compile authority (with_noop uniqueness_nonce (tasks_instructions authority tasks))
               hash (tasks_compute_units tasks uniqueness_nonce) compute_unit_price) in
        (if validate_v1 message then Ok tt else Err FailedToFit) ?;
        res_map_err Signer (sign_message message authority)).

Definition serialized_transaction_size (tx : Transaction) : Z :=
  default usize_max (transaction_wire_size tx).

Definition MAX_TRANSACTION_V1_WIRE_SIZE : Z := Z.of_nat V1_MAX_TRANSACTION_SIZE.
Definition MAX_TRANSACTION_WIRE_SIZE : Z := Z.of_nat PACKET_DATA_SIZE.

(** ** Moving commits into buffers *)

Definition calculate_tx_length (tasks : list Task) (uniqueness_nonce : option N)
    : Rand (result Z SignerError) :=
  placeholder ← draw random_key;
  tx ← assemble_tasks_v1_tx_with_uniqueness_nonce placeholder tasks 0 uniqueness_nonce;
  rret match tx with
       | Ok tx => Ok (serialized_transaction_size tx)
       | Err FailedToFit => Ok usize_max
       | Err (Compile _) => Ok usize_max
       | Err (Signer err) => Err err
       end.

(** The heap of sizes and indices, in the order it is popped: largest first. *)
Definition heap_le (a b : Z * nat) : Prop :=
  (fst b < fst a)%Z \/ (fst a = fst b /\ snd b <= snd a).
#[global] Instance heap_le_dec a b : Decision (heap_le a b).
Proof. unfold heap_le. apply _. Defined.
Definition heap_of (sizes : list Z) : list (Z * nat) :=
  merge_sort heap_le (imap (fun index size => (size, index)) sizes).

(** [while let Some((_, index)) = map.pop()]; indices of the heap are in range. *)
Fixpoint optimize_loop (map : list (Z * nat)) (tasks : list Task) (current_tx_length : Z)
    (uniqueness_nonce : option N) : Rand (result (list Task * Z) SignerError) :=
  match map with
  | [] => rret (Ok (tasks, current_tx_length))
  | (_, index) :: map =>
      if (current_tx_length <=? MAX_TRANSACTION_V1_WIRE_SIZE)%Z
      then rret (Ok (tasks, current_tx_length))
      else
        match try_use_buffer <$> tasks !! index with
        | Some (task, true) =>
            let tasks := <[index := task]> tasks in
            current_tx_length ←? calculate_tx_length tasks uniqueness_nonce;
            optimize_loop map tasks current_tx_length uniqueness_nonce
        | _ => optimize_loop map tasks current_tx_length uniqueness_nonce
        end
  end.

Definition instruction_size (ix : Instruction) : Z :=
  let size := default usize_max (instruction_wire_size ix) in
  if (size <=? usize_max)%Z then size else usize_max.

Definition try_optimize_tx_size_if_needed (tasks : list Task) (uniqueness_nonce : option N)
    : Rand (result (list Task * Z) SignerError) :=
  current_tx_length ←? calculate_tx_length tasks uniqueness_nonce;
  if (current_tx_length <=? MAX_TRANSACTION_V1_WIRE_SIZE)%Z
  then rret (Ok (tasks, current_tx_length))
  else
    key ← draw random_key;
    let sizes := map instruction_size (tasks_instructions key tasks) in
    optimize_loop (heap_of sizes) tasks current_tx_length uniqueness_nonce.

(** ** Strategies and plans *)

Definition MAX_COMPUTE_UNITS : Z := 1400000.

Definition attempt_lookup_tables (tasks : list Task) (uniqueness_nonce : option N) : Rand bool :=
  if (MAX_COMPUTE_UNITS <? tasks_compute_units tasks uniqueness_nonce)%Z then rret false
  else
    placeholder ← draw random_key;
    dummy_lookup_tables ←
      dummy_lookup_table (collect_lookup_table_keys placeholder tasks uniqueness_nonce);
    tx ← assemble_tasks_tx_with_uniqueness_nonce placeholder tasks 0 dummy_lookup_tables
           uniqueness_nonce;
    rret match tx with
         | Ok tx => (serialized_transaction_size tx <=? MAX_TRANSACTION_WIRE_SIZE)%Z
         | Err _ => false
         end.

Definition build_strategy (tasks : list Task) (validator : Pubkey) (uniqueness_nonce : option N)
    : Rand (result TransactionStrategy TaskStrategistError) :=
  if (MAX_COMPUTE_UNITS <? tasks_compute_units tasks uniqueness_nonce)%Z then rret (Err FailedToFit)
  else
    optimized ← try_optimize_tx_size_if_needed tasks uniqueness_nonce;
    match optimized with
    | Err e => rret (Err (Signer e))
    | Ok (optimized_tasks, size) =>
        if (size <=? MAX_TRANSACTION_V1_WIRE_SIZE)%Z
        then rret (Ok (mkTransactionStrategy optimized_tasks [] uniqueness_nonce))
        else
          as_is ← attempt_lookup_tables tasks uniqueness_nonce;
          with_alts ← (if as_is : bool then rret (Some tasks)
                       else
                         fits ← attempt_lookup_tables optimized_tasks uniqueness_nonce;
                         rret (if fits : bool then Some optimized_tasks else None));
          rret match with_alts with
               | None => Err FailedToFit
               | Some tasks =>
                   Ok (mkTransactionStrategy tasks
                         (collect_lookup_table_keys validator tasks uniqueness_nonce)
                         uniqueness_nonce)
               end
    end.

Definition build_split_plan (commit_tasks follow_up_tasks : list Task) (authority : Pubkey)
    (uniqueness_nonce : option N) : Rand (result TransactionPlan TaskStrategistError) :=
  commit_strategy ←? build_strategy commit_tasks authority uniqueness_nonce;
  follow_up_strategy ←? build_strategy follow_up_tasks authority uniqueness_nonce;
  rret (Ok (mkTransactionPlan commit_strategy (Some follow_up_strategy))).

Definition MAX_UNITED_TASKS_LEN : nat := 22.

Definition build_plan (commit_tasks follow_up_tasks : list Task) (authority : Pubkey)
    (uniqueness_nonce : option N) : Rand (result TransactionPlan TaskStrategistError) :=
  if is_nil follow_up_tasks && existsb is_commit commit_tasks then
    strategy ←? build_strategy commit_tasks authority uniqueness_nonce;
    rret (Ok (plan_of_strategy strategy))
  else if decide (MAX_UNITED_TASKS_LEN < length commit_tasks + length follow_up_tasks) then
    build_split_plan commit_tasks follow_up_tasks authority uniqueness_nonce
  else
    combined ← build_strategy (commit_tasks ++ follow_up_tasks) authority uniqueness_nonce;
    match combined with
    | Err FailedToFit => build_split_plan commit_tasks follow_up_tasks authority uniqueness_nonce
    | Err (Signer err) => rret (Err (Signer err))
    | Err (Compile err) => rret (Err (Compile err))
    | Ok strategy =>
        let combined_plan := plan_of_strategy strategy in
        if negb (plan_uses_alts combined_plan) then rret (Ok combined_plan)
        else
          split_plan ←? build_split_plan commit_tasks follow_up_tasks authority uniqueness_nonce;
          rret (Ok (if plan_uses_alts split_plan then combined_plan else split_plan))
    end.

(** ** Theorems *)

(** *** The same work, delivered differently *)

Definition redelivered (t t' : Task) : Prop := t' = t \/ t' = fst (try_use_buffer t).

Lemma try_use_buffer_unchanged t t' : try_use_buffer t = (t', false) -> t' = t.
Proof.
  destruct t as [[id u a d]|?|?]; cbn; [destruct d|..]; cbn; intros; by simplify_eq.
Qed.

Lemma try_use_buffer_once t t' b : try_use_buffer (fst (try_use_buffer t)) = (t', b) ->
  b = false /\ t' = fst (try_use_buffer t).
Proof. destruct t as [[id u a d]|?|?]; cbn; [destruct d|..]; cbn; intros; by simplify_eq. Qed.

Lemma redelivered_step t t' : redelivered t t' -> redelivered t (fst (try_use_buffer t')).
Proof.
  intros [->| ->]; [by right|]. right. destruct (try_use_buffer (fst (try_use_buffer t))) eqn:E.
  by apply try_use_buffer_once in E as [_ ->].
Qed.

Lemma redelivered_cu t t' : redelivered t t' -> task_compute_units t' = task_compute_units t.
Proof. intros [->| ->]; [done|]. destruct t as [[id u a d]|?|?]; [destruct d|..]; done. Qed.

Lemma redelivered_commit t t' : redelivered t t' -> is_commit t' = is_commit t.
Proof. intros [->| ->]; [done|]. destruct t as [[id u a d]|?|?]; [destruct d|..]; done. Qed.

Lemma redelivered_refl l : Forall2 redelivered l l.
Proof. induction l; constructor; [by left|done]. Qed.

Lemma redelivered_buffered l : Forall2 redelivered l (map (fun t => fst (try_use_buffer t)) l).
Proof. induction l; constructor; [by right|done]. Qed.

Lemma redelivered_units tasks tasks' nonce : Forall2 redelivered tasks tasks' ->
  tasks_compute_units tasks' nonce = tasks_compute_units tasks nonce.
Proof.
  unfold tasks_compute_units. generalize (match nonce with Some _ => UNIQUENESS_NOOP_COMPUTE_UNITS | None => 0%Z end).
  intros z Hr. revert z. induction Hr as [|t t' l l' Ht _ IH]; intros z; cbn; [done|].
  by rewrite (redelivered_cu t t').
Qed.

(** *** The heap *)

Lemma heap_of_elem sizes z i : (z, i) ∈ heap_of sizes -> i < length sizes.
Proof.
  unfold heap_of. rewrite merge_sort_Permutation, list_elem_of_lookup. intros [k Hk].
  rewrite list_lookup_imap in Hk. destruct (sizes !! k) eqn:E; simplify_eq/=.
  by apply lookup_lt_Some in E.
Qed.

Lemma heap_of_index sizes i : i < length sizes -> exists z, (z, i) ∈ heap_of sizes.
Proof.
  intros [z Hz]%lookup_lt_is_Some_2. exists z. unfold heap_of.
  rewrite merge_sort_Permutation, list_elem_of_lookup. exists i. by rewrite list_lookup_imap, Hz.
Qed.

(** The length of a transaction, as some placeholder key measures it. *)
Definition measures (tasks : list Task) (nonce : option N) (r : result Z SignerError) : Prop :=
  exists n, fst (calculate_tx_length tasks nonce n) = r.

(** Between the tasks it was given and all of them in buffers. *)
Definition between (todo : list (Z * nat)) (tasks tasks' : list Task) : Prop :=
  Forall2 redelivered tasks tasks'
  /\ forall i t t', tasks !! i = Some t -> tasks' !! i = Some t' ->
       (exists z, (z, i) ∈ todo) \/ t' = fst (try_use_buffer t).

Lemma between_unchanged z i todo tasks tasks' t :
  between ((z, i) :: todo) tasks tasks' -> tasks' !! i = Some t -> try_use_buffer t = (t, false) ->
  between todo tasks tasks'.
Proof.
  intros [Hr Hb] Hi Hf. split; [done|]. intros j u u' Hj Hj'.
  destruct (Hb j u u' Hj Hj') as [[z' [[= -> ->]|Hin]%elem_of_cons]|]; [|by left; exists z'|by right].
  right. assert (u' = t) as -> by congruence.
  destruct (Forall2_lookup_lr _ _ _ _ _ _ Hr Hj Hj') as [->| ->]; [by rewrite Hf|done].
Qed.

Lemma between_buffered z i todo tasks tasks' t t' :
  between ((z, i) :: todo) tasks tasks' -> tasks' !! i = Some t -> try_use_buffer t = (t', true) ->
  between todo tasks (<[i := t']> tasks').
Proof.
  intros [Hr Hb] Hi Hf.
  destruct (Forall2_lookup_r _ _ _ _ _ Hr Hi) as (u0 & Hu0 & Hrel).
  assert (t' = fst (try_use_buffer u0)) as Ht'.
  { destruct Hrel as [->| ->]; [by rewrite Hf|]. by apply try_use_buffer_once in Hf as [[=] _]. }
  split.
  - replace tasks with (<[i := u0]> tasks) by (by apply list_insert_id).
    apply Forall2_insert; [done|]. by right.
  - intros j u u' Hj Hj'. destruct (decide (i = j)) as [->|Hne].
    + rewrite list_lookup_insert_eq in Hj' by (by eapply lookup_lt_Some). simplify_eq. by right.
    + rewrite list_lookup_insert_ne in Hj' by done.
      destruct (Hb j u u' Hj Hj') as [[z' [[= -> ->]|Hin]%elem_of_cons]|]; [done|by left; exists z'|by right].
Qed.

Lemma optimize_loop_spec todo tasks tasks' size nonce n r n' :
  between todo tasks tasks' -> measures tasks' nonce (Ok size) ->
  (forall z i, (z, i) ∈ todo -> i < length tasks') ->
  optimize_loop todo tasks' size nonce n = (r, n') ->
  match r with
  | Ok (out, size') =>
      Forall2 redelivered tasks out /\ measures out nonce (Ok size')
      /\ ((MAX_TRANSACTION_V1_WIRE_SIZE < size')%Z -> out = map (fun t => fst (try_use_buffer t)) tasks)
  | Err e => exists out, Forall2 redelivered tasks out /\ measures out nonce (Err e)
  end.
Proof.
  revert tasks' size n. induction todo as [|[z i] todo IH]; intros tasks' size n Hb Hm Hlt Hrun.
  { cbn in Hrun. unfold rret in Hrun. simplify_eq. split_and!; [apply Hb|done|]. intros _.
    apply list_eq_Forall2. destruct Hb as [Hr Hb].
    apply Forall2_fmap_r. apply Forall2_flip. eapply Forall2_same_length_lookup_2.
    - by eapply Forall2_length.
    - intros j u u' Hj Hj'. destruct (Hb j u u' Hj Hj') as [[? Hin]|]; [|done]. by apply not_elem_of_nil in Hin. }
  cbn [optimize_loop] in Hrun. destruct (Z.leb_spec size MAX_TRANSACTION_V1_WIRE_SIZE).
  { unfold rret in Hrun. simplify_eq. split_and!; [apply Hb|done|lia]. }
  destruct (tasks' !! i) as [t|] eqn:Hi; cbn [fmap option_fmap option_map] in Hrun.
  2: { apply lookup_ge_None in Hi. specialize (Hlt z i (list_elem_of_here _ _)). lia. }
  destruct (try_use_buffer t) as [t' []] eqn:Hf.
  - unfold rtry, rbind in Hrun. destruct (calculate_tx_length _ _ n) as [[size'|e] n1] eqn:Hc.
    + eapply IH; [by eapply between_buffered|by exists n; rewrite Hc| |exact Hrun].
      intros z' j Hj. rewrite length_insert. eapply Hlt. by right.
    + unfold rret in Hrun. simplify_eq. exists (<[i := t']> tasks').
      split; [by eapply (between_buffered z i todo)|]. exists n. by rewrite Hc.
  - eapply IH; [|done| |exact Hrun].
    + eapply between_unchanged; [done..|]. rewrite Hf. f_equal. by apply try_use_buffer_unchanged.
    + intros z' j Hj. eapply Hlt. by right.
Qed.

Lemma try_optimize_spec tasks nonce n r n' :
  try_optimize_tx_size_if_needed tasks nonce n = (r, n') ->
  match r with
  | Ok (out, size) =>
      Forall2 redelivered tasks out /\ measures out nonce (Ok size)
      /\ ((MAX_TRANSACTION_V1_WIRE_SIZE < size)%Z -> out = map (fun t => fst (try_use_buffer t)) tasks)
  | Err e => exists out, Forall2 redelivered tasks out /\ measures out nonce (Err e)
  end.
Proof.
  unfold try_optimize_tx_size_if_needed, rtry, rbind.
  destruct (calculate_tx_length tasks nonce n) as [[size|e] n1] eqn:Hc.
  2: { intros [= <- <-]. exists tasks. split; [apply redelivered_refl|]. exists n. by rewrite Hc. }
  assert (measures tasks nonce (Ok size)) as Hm by (exists n; by rewrite Hc).
  destruct (Z.leb_spec size MAX_TRANSACTION_V1_WIRE_SIZE).
  { intros [= <- <-]. split_and!; [apply redelivered_refl|done|lia]. }
  cbn [draw]. apply optimize_loop_spec; [|done|].
  - split; [apply redelivered_refl|]. intros i t t' Hi _. left. apply heap_of_index.
    unfold tasks_instructions. rewrite !length_map. by eapply lookup_lt_Some.
  - intros z i Hin%heap_of_elem. unfold tasks_instructions in Hin. by rewrite !length_map in Hin.
Qed.

(** What a strategy promises of the transaction it will become. *)
Definition strategy_fits (s : TransactionStrategy) (validator : Pubkey) : Prop :=
  let nonce := ts_uniqueness_nonce s in
  (tasks_compute_units (ts_tasks s) nonce <= MAX_COMPUTE_UNITS)%Z
  /\ ((ts_lookup_tables_keys s = []
       /\ exists size, measures (ts_tasks s) nonce (Ok size) /\ (size <= MAX_TRANSACTION_V1_WIRE_SIZE)%Z)
      \/ (ts_lookup_tables_keys s = collect_lookup_table_keys validator (ts_tasks s) nonce
          /\ exists n, fst (attempt_lookup_tables (ts_tasks s) nonce n) = true)).

(** The outcome of [build_strategy], whatever the random source. *)
Definition strategy_spec (tasks : list Task) (validator : Pubkey) (nonce : option N)
    (r : result TransactionStrategy TaskStrategistError) : Prop :=
  match r with
  | Ok s => Forall2 redelivered tasks (ts_tasks s) /\ ts_uniqueness_nonce s = nonce
            /\ strategy_fits s validator
  | Err FailedToFit =>
      (MAX_COMPUTE_UNITS < tasks_compute_units tasks nonce)%Z
      \/ let buffered := map (fun t => fst (try_use_buffer t)) tasks in
         (exists size, measures buffered nonce (Ok size) /\ (MAX_TRANSACTION_V1_WIRE_SIZE < size)%Z)
         /\ (exists n, fst (attempt_lookup_tables tasks nonce n) = false)
         /\ (exists n, fst (attempt_lookup_tables buffered nonce n) = false)
  | Err (Signer e) => exists out, Forall2 redelivered tasks out /\ measures out nonce (Err e)
  | Err (Compile _) => False
  end.

Lemma build_strategy_spec tasks validator nonce n :
  strategy_spec tasks validator nonce (fst (build_strategy tasks validator nonce n)).
Proof.
  unfold build_strategy. destruct (Z.ltb_spec MAX_COMPUTE_UNITS (tasks_compute_units tasks nonce)); [by left|].
  unfold rbind. destruct (try_optimize_tx_size_if_needed tasks nonce n) as [[[out size]|e] n1] eqn:Ho;
    apply try_optimize_spec in Ho; [|done].
  destruct Ho as (Hr & Hm & Hall). pose proof (redelivered_units _ _ nonce Hr) as Hcu.
  destruct (Z.leb_spec size MAX_TRANSACTION_V1_WIRE_SIZE).
  { split_and!; [done|done|]. split; cbn -[tasks_compute_units MAX_COMPUTE_UNITS]; [lia|]. left. split; [done|]. by exists size. }
  destruct (attempt_lookup_tables tasks nonce n1) as [[] n2] eqn:Hb1.
  { split_and!; [apply redelivered_refl|done|]. split; cbn -[tasks_compute_units MAX_COMPUTE_UNITS]; [lia|]. right. split; [done|]. exists n1. by rewrite Hb1. }
  destruct (attempt_lookup_tables out nonce n2) as [[] n3] eqn:Hb2.
  - split_and!; [done|done|]. split; cbn -[tasks_compute_units MAX_COMPUTE_UNITS]; [lia|]. right. split; [done|]. exists n2. by rewrite Hb2.
  - right. rewrite <- (Hall ltac:(lia)). split_and!; [by exists size|exists n1; by rewrite Hb1|exists n2; by rewrite Hb2].
Qed.

(** A plan carries the commits and the follow-up, in order, each transaction fits,
    and a transaction that follows has no commits of its own. *)
Definition plan_carries (commit_tasks follow_up_tasks : list Task) (authority : Pubkey)
    (nonce : option N) (p : TransactionPlan) : Prop :=
  let built tasks s := strategy_spec tasks authority nonce (Ok s) in
  match tp_follow_up p with
  | None => built (commit_tasks ++ follow_up_tasks) (tp_current p)
  | Some f => built commit_tasks (tp_current p) /\ built follow_up_tasks f
  end.

Lemma build_split_plan_spec cs fs authority nonce n p n' :
  build_split_plan cs fs authority nonce n = (Ok p, n') ->
  plan_carries cs fs authority nonce p /\ is_Some (tp_follow_up p).
Proof.
  unfold build_split_plan, rtry, rbind. intros Hrun.
  pose proof (build_strategy_spec cs authority nonce n) as Hb1.
  destruct (build_strategy cs authority nonce n) as [[s|e] n1]; [|done].
  pose proof (build_strategy_spec fs authority nonce n1) as Hb2.
  destruct (build_strategy fs authority nonce n1) as [[f|e] n2]; [|done].
  unfold rret in Hrun. simplify_eq. done.
Qed.

Lemma build_plan_spec cs fs authority nonce n p n' :
  build_plan cs fs authority nonce n = (Ok p, n') -> plan_carries cs fs authority nonce p.
Proof.
  unfold build_plan. intros Hrun. destruct (is_nil fs && existsb is_commit cs) eqn:Hnil.
  { unfold rtry, rbind in Hrun. pose proof (build_strategy_spec cs authority nonce n) as Hb1.
    destruct (build_strategy cs authority nonce n) as [[s|e] n1]; [|done].
    unfold rret in Hrun. simplify_eq. destruct fs; [|done]. unfold plan_carries. cbn. by rewrite app_nil_r. }
  case_decide; [by apply build_split_plan_spec in Hrun as [? _]|].
  unfold rbind in Hrun. pose proof (build_strategy_spec (cs ++ fs) authority nonce n) as Hb1.
  destruct (build_strategy (cs ++ fs) authority nonce n) as [[s|[]] n1];
    [|by apply build_split_plan_spec in Hrun as [? _]|done..].
  destruct (plan_uses_alts (plan_of_strategy s)); cbn [negb] in Hrun; [|by unfold rret in Hrun; simplify_eq].
  unfold rtry, rbind in Hrun. destruct (build_split_plan cs fs authority nonce n1) as [[q|e] n2] eqn:Hq; [|done].
  apply build_split_plan_spec in Hq as [? _]. unfold rret in Hrun. destruct (plan_uses_alts q); by simplify_eq.
Qed.

(** [build_strategy] delivers exactly the tasks it is given, or fails for a real
    reason. A strategy holds the tasks in order, each as given or moved to a buffer,
    within the compute limit, and fits the wire size without lookup tables or with
    the tables it names. [FailedToFit] means that the compute limit is exceeded, or
    that even with every commit in a buffer the transaction is too large and lookup
    tables help neither form; a signing error is the signer's; it never fails to
    compile. *)
Theorem strategy_exact tasks validator nonce n :
  match fst (build_strategy tasks validator nonce n) with
  | Ok s => Forall2 redelivered tasks (ts_tasks s) /\ ts_uniqueness_nonce s = nonce
            /\ strategy_fits s validator
  | Err FailedToFit =>
      (MAX_COMPUTE_UNITS < tasks_compute_units tasks nonce)%Z
      \/ let buffered := map (fun t => fst (try_use_buffer t)) tasks in
         (exists size, measures buffered nonce (Ok size) /\ (MAX_TRANSACTION_V1_WIRE_SIZE < size)%Z)
         /\ (exists n, fst (attempt_lookup_tables tasks nonce n) = false)
         /\ (exists n, fst (attempt_lookup_tables buffered nonce n) = false)
  | Err (Signer e) => exists out, Forall2 redelivered tasks out /\ measures out nonce (Err e)
  | Err (Compile _) => False
  end.
Proof. exact (build_strategy_spec tasks validator nonce n). Qed.

(** C15: a settlement plan loses nothing and reorders nothing: it is one transaction
    with the commits followed by the follow-up tasks, or the commits alone and the
    follow-up alone, and each transaction fits. *)
Theorem plan_exact commit_tasks follow_up_tasks authority nonce n p n' :
  build_plan commit_tasks follow_up_tasks authority nonce n = (Ok p, n') ->
  let delivers tasks s :=
    Forall2 redelivered tasks (ts_tasks s) /\ ts_uniqueness_nonce s = nonce
    /\ strategy_fits s authority in
  match tp_follow_up p with
  | None => delivers (commit_tasks ++ follow_up_tasks) (tp_current p)
  | Some f => delivers commit_tasks (tp_current p) /\ delivers follow_up_tasks f
  end.
Proof. exact (build_plan_spec commit_tasks follow_up_tasks authority nonce n p n'). Qed.
End strategist.
