(* ===== verification/ExecErrors.v ===== *)
(** * Errors of settlement

    The error types of the committor and their classification: which failures are
    transient, which say that a transaction will never land, which can be repaired
    by splitting it. [committor/src/execution/error.rs], [transaction/error.rs],
    [preparation/error.rs], [preparation/delivery_preparator.rs],
    [task_builder.rs], [shared/account_state.rs] and [table-mania/src/error.rs]. *)

From stdpp Require Import base list strings.
From Stdlib Require Import ZArith Lia.
From S2P Require Import Prelude Intent Scheduler RpcClient Tasks Strategist.

(** ** Reading accounts of the base chain *)

Inductive TaskInfoProviderError :=
| AccountNotFoundError (key : Pubkey)
| InvalidAccountDataError (key : Pubkey)
| DelegationSessionChangedError (delegated_account : Pubkey) (delegation_slot snapshot_slot : Z)
| MinContextSlotNotReachedError (slot : Z) (e : MagicBlockRpcClientError)
| ProviderRpcError (e : MagicBlockRpcClientError).

Definition provider_is_transient (e : TaskInfoProviderError) : bool :=
  match e with
  | AccountNotFoundError _ => true
  | MinContextSlotNotReachedError _ _ => true
  | ProviderRpcError err => rpc_error_is_transient err
  | InvalidAccountDataError _ => false
  | DelegationSessionChangedError _ _ _ => false
  end.

Definition provider_signature (e : TaskInfoProviderError) : option Signature :=
  match e with
  | AccountNotFoundError _ => None
  | InvalidAccountDataError _ => None
  | DelegationSessionChangedError _ _ _ => None
  | MinContextSlotNotReachedError _ err => rpc_error_signature err
  | ProviderRpcError err => rpc_error_signature err
  end.

Definition JSON_RPC_SERVER_ERROR_MIN_CONTEXT_SLOT_NOT_REACHED : Z := -32016.

Definition is_min_context_slot_msg (msg : string) : bool :=
  contains "Minimum context slot has not been reached" msg
  || contains "Min context slot not reached" msg.

Definition map_client_error (min_context_slot : Z) (orig : MagicBlockRpcClientError)
    : TaskInfoProviderError :=
  match orig with
  | RpcClientError err | SendTransaction err =>
      match ce_kind err with
      | KindRpcError (ForUser msg) =>
          if is_min_context_slot_msg msg then MinContextSlotNotReachedError min_context_slot orig
          else ProviderRpcError orig
      | KindRpcError (RpcResponseError code message) =>
          if (code =? JSON_RPC_SERVER_ERROR_MIN_CONTEXT_SLOT_NOT_REACHED)%Z
             || is_min_context_slot_msg message
          then MinContextSlotNotReachedError min_context_slot orig
          else ProviderRpcError orig
      | _ => ProviderRpcError orig
      end
  | _ => ProviderRpcError orig
  end.

(** ** Building tasks *)

Inductive TaskBuilderError :=
| CommitTasksBuildError (e : TaskInfoProviderError)
| FollowUpTasksBuildError (e : TaskInfoProviderError)
| MissingDelegationMetadata (key : Pubkey).

Definition builder_signature (e : TaskBuilderError) : option Signature :=
  match e with
  | CommitTasksBuildError err => provider_signature err
  | FollowUpTasksBuildError err => provider_signature err
  | MissingDelegationMetadata _ => None
  end.

Definition builder_is_transient (e : TaskBuilderError) : bool :=
  match e with
  | CommitTasksBuildError err | FollowUpTasksBuildError err => provider_is_transient err
  | MissingDelegationMetadata _ => false
  end.

(** ** Preparation *)

Inductive TableManiaError :=
| TableRpcError (e : MagicBlockRpcClientError)
| CannotExtendDeactivatedTable (key : Pubkey)
| InvalidAuthority (a b : Pubkey)
| MaxExtendPubkeysExceeded (max n : nat)
| TimedOutWaitingForRemoteTablesToUpdate
| TimedOutWaitingForLocalTablesToUpdate.

Definition table_is_transient (e : TableManiaError) : bool :=
  match e with
  | TableRpcError err => rpc_error_is_transient err
  | TimedOutWaitingForRemoteTablesToUpdate | TimedOutWaitingForLocalTablesToUpdate => true
  | CannotExtendDeactivatedTable _ | InvalidAuthority _ _ | MaxExtendPubkeysExceeded _ _ => false
  end.

Inductive TransactionSendError :=
| SendCompile (e : CompileError)
| SendSigner (e : SignerError)
| SendRpc (e : MagicBlockRpcClientError).

Definition send_signature (e : TransactionSendError) : option Signature :=
  match e with SendRpc err => rpc_error_signature err | _ => None end.

Definition send_is_transient (e : TransactionSendError) : bool :=
  match e with
  | SendCompile _ | SendSigner _ => false
  | SendRpc err => rpc_error_is_transient err
  end.

Inductive BufferExecutionError :=
| AccountAlreadyInitializedError (e : TransactionError) (s : option Signature)
| BufferSendError (e : TransactionSendError).

Definition buffer_signature (e : BufferExecutionError) : option Signature :=
  match e with
  | AccountAlreadyInitializedError _ s => s
  | BufferSendError err => send_signature err
  end.

Definition buffer_is_transient (e : BufferExecutionError) : bool :=
  match e with
  | AccountAlreadyInitializedError _ _ => true
  | BufferSendError err => send_is_transient err
  end.

Inductive PreparationError :=
| ZeroRetriesRequested
| ChunksPDAMissing (pda : Pubkey)
| BorshError
| TableMania (e : TableManiaError)
| PreparationRpcError (e : MagicBlockRpcClientError)
| BufferExecution (e : BufferExecutionError).

Definition preparation_is_transient (e : PreparationError) : bool :=
  match e with
  | ZeroRetriesRequested | BorshError => false
  | ChunksPDAMissing _ => true
  | TableMania err => table_is_transient err
  | PreparationRpcError err => rpc_error_is_transient err
  | BufferExecution err => buffer_is_transient err
  end.

Definition preparation_signature (e : PreparationError) : option Signature :=
  match e with
  | PreparationRpcError err => rpc_error_signature err
  | BufferExecution err => buffer_signature err
  | _ => None
  end.

Inductive DeliveryPreparatorError :=
| FailedToPrepareBufferAccounts (e : PreparationError)
| FailedToCreateALTError (e : PreparationError).

Definition delivery_signature (e : DeliveryPreparatorError) : option Signature :=
  match e with
  | FailedToCreateALTError err | FailedToPrepareBufferAccounts err => preparation_signature err
  end.

Definition delivery_is_transient (e : DeliveryPreparatorError) : bool :=
  match e with
  | FailedToCreateALTError err | FailedToPrepareBufferAccounts err => preparation_is_transient err
  end.

Inductive TransactionPreparatorError :=
| PrepFailedToFit
| PrepCompile (e : CompileError)
| PrepSigner (e : SignerError)
| PrepGetLatestBlockhash (e : MagicBlockRpcClientError)
| DeliveryPreparation (e : DeliveryPreparatorError).

Definition prep_of_strategist (e : TaskStrategistError) : TransactionPreparatorError :=
  match e with
  | FailedToFit => PrepFailedToFit
  | Compile err => PrepCompile err
  | Signer err => PrepSigner err
  end.

Definition prep_signature (e : TransactionPreparatorError) : option Signature :=
  match e with DeliveryPreparation err => delivery_signature err | _ => None end.

Definition prep_is_transient (e : TransactionPreparatorError) : bool :=
  match e with
  | PrepFailedToFit | PrepCompile _ | PrepSigner _ => false
  | PrepGetLatestBlockhash err => rpc_error_is_transient err
  | DeliveryPreparation err => delivery_is_transient err
  end.

(** ** Execution of a settlement transaction *)

Inductive InternalError :=
| InternalSignerError (e : SignerError)
| InternalRpcError (e : MagicBlockRpcClientError).

Definition internal_signature (e : InternalError) : option Signature :=
  match e with InternalSignerError _ => None | InternalRpcError err => rpc_error_signature err end.

Definition internal_is_transient (e : InternalError) : bool :=
  match e with InternalSignerError _ => false | InternalRpcError err => rpc_error_is_transient err end.

Inductive TransactionExecutionError :=
| ActionsError (e : TransactionError) (s : option Signature)
| UndelegationError (e : TransactionError) (s : option Signature)
| CommitIDError (e : TransactionError) (s : option Signature)
| CpiLimitError (e : TransactionError) (s : option Signature)
| LoadedAccountsDataSizeExceeded (e : TransactionError) (s : option Signature)
| UnfinalizedAccountError (e : TransactionError) (s : option Signature)
| TransactionTooLargeError (e : InternalError)
| TxInternalError (e : InternalError).

Definition is_rejected (e : TransactionExecutionError) : bool :=
  match e with
  | TxInternalError (InternalRpcError (SentTransactionError _ _)) => true
  | TxInternalError _ => false
  | _ => true
  end.

Definition tx_is_transient (e : TransactionExecutionError) : bool :=
  match e with TxInternalError err => internal_is_transient err | _ => false end.

Definition is_recoverable_by_splitting (e : TransactionExecutionError) : bool :=
  match e with
  | CpiLimitError _ _ | LoadedAccountsDataSizeExceeded _ _ | TransactionTooLargeError _ => true
  | _ => false
  end.

(** [u8::checked_sub]. *)
Definition checked_sub (a b : Z) : option Z := if (b <=? a)%Z then Some (a - b)%Z else None.

Definition task_index (e : TransactionExecutionError) (task_instruction_offset : Z) : option Z :=
  match e with
  | CommitIDError (TxInstructionError index _) _
  | ActionsError (TxInstructionError index _) _
  | UndelegationError (TxInstructionError index _) _
  | UnfinalizedAccountError (TxInstructionError index _) _
  | CpiLimitError (TxInstructionError index _) _ => checked_sub index task_instruction_offset
  | _ => None
  end.

Definition tx_signature_of (e : TransactionExecutionError) : option Signature :=
  match e with
  | TxInternalError err => internal_signature err
  | TransactionTooLargeError err => internal_signature err
  | CommitIDError _ s | ActionsError _ s | UndelegationError _ s
  | UnfinalizedAccountError _ s | CpiLimitError _ s | LoadedAccountsDataSizeExceeded _ s => s
  end.

(** The custom error codes of the delegation program that the mapping recognises. *)
Class DlpErrors := {
  NONCE_OUT_OF_ORDER : Z;
  COMMIT_STATE_INVALID_ACCOUNT_OWNER : Z;
  COMMIT_STATE_ALREADY_INITIALIZED : Z;
  COMMIT_RECORD_INVALID_ACCOUNT_OWNER : Z;
  COMMIT_RECORD_ALREADY_INITIALIZED : Z }.

Section mapping.
Context `{DlpErrors}.

Definition is_unfinalized_code (code : Z) : bool :=
  existsb (Z.eqb code)
    [COMMIT_STATE_INVALID_ACCOUNT_OWNER; COMMIT_STATE_ALREADY_INITIALIZED;
     COMMIT_RECORD_INVALID_ACCOUNT_OWNER; COMMIT_RECORD_ALREADY_INITIALIZED].

Definition try_from_transaction_error (tasks : list Task) (task_instruction_offset : Z)
    (err : TransactionError) (signature : option Signature)
    : result TransactionExecutionError TransactionError :=
  match err with
  | TxInstructionError _ MaxInstructionTraceLengthExceeded => Ok (CpiLimitError err signature)
  | MaxLoadedAccountsDataSizeExceeded => Ok (LoadedAccountsDataSizeExceeded err signature)
  | TxInstructionError index instruction_err =>
      match checked_sub index task_instruction_offset with
      | None => Err err
      | Some action_index =>
          match tasks !! Z.to_nat action_index, instruction_err with
          | None, _ => Err err
          | Some (TaskCommitFinalize _), Custom code =>
              if (code =? NONCE_OUT_OF_ORDER)%Z then Ok (CommitIDError err signature)
              else if is_unfinalized_code code then Ok (UnfinalizedAccountError err signature)
              else Err err
          | Some (TaskCommitFinalize _), _ => Err err
          | Some (TaskBaseAction _), _ => Ok (ActionsError err signature)
          | Some (TaskUndelegate _), _ => Ok (UndelegationError err signature)
          end
      end
  | _ => Err err
  end.

(** [IntentErrorMapper] of [client.rs]. *)
Definition intent_error_map (tasks : list Task) (task_instruction_offset : Z)
    (error : MagicBlockRpcClientError) : TransactionExecutionError :=
  if is_transaction_too_large error then TransactionTooLargeError (InternalRpcError error)
  else map_magicblock_client_error (try_from_transaction_error tasks task_instruction_offset)
         (fun e => TxInternalError (InternalRpcError e)) error.

Definition intent_decide_flow (err : TransactionExecutionError) : ControlFlow :=
  match err with
  | TxInternalError (InternalRpcError err) => decide_rpc_error_flow err
  | _ => None
  end.
End mapping.

(** ** Execution of an intent *)

(** Errors of the outbox client: only that it failed matters here. *)
Abbreviation OutboxClientError := N.

Inductive IntentExecutorError :=
| SchedulerError (e : IntentSchedulerError)
| EmptyIntentError
| FailedToFitError
| ExecCompileError (e : CompileError)
| PoisonedIntentError
| ExecSignerError (e : SignerError)
| OutboxError (e : OutboxClientError)
| GetPendingSignatureStatusError (e : MagicBlockRpcClientError)
| PendingSignatureResolutionError (s : Signature)
| ExecTaskBuilderError (e : TaskBuilderError)
| FailedExecution (e : TransactionExecutionError)
| FailedPreparation (e : TransactionPreparatorError).

Definition exec_is_transient (e : IntentExecutorError) : bool :=
  match e with
  | GetPendingSignatureStatusError err => rpc_error_is_transient err
  | ExecTaskBuilderError err => builder_is_transient err
  | FailedExecution err => tx_is_transient err
  | FailedPreparation err => prep_is_transient err
  | _ => false
  end.

Definition exec_signature (e : IntentExecutorError) : option Signature :=
  match e with
  | FailedExecution err => tx_signature_of err
  | FailedPreparation err => prep_signature err
  | ExecTaskBuilderError err => builder_signature err
  | PendingSignatureResolutionError signature => Some signature
  | _ => None
  end.

Definition exec_of_strategist (e : TaskStrategistError) : IntentExecutorError :=
  match e with
  | FailedToFit => FailedToFitError
  | Compile err => ExecCompileError err
  | Signer err => ExecSignerError err
  end.

Definition is_terminal_execution_error (e : IntentExecutorError) : bool :=
  match e with
  | OutboxError _ | GetPendingSignatureStatusError _ | PendingSignatureResolutionError _
  | FailedPreparation _ | SchedulerError _ | PoisonedIntentError => false
  | FailedExecution err => negb (tx_is_transient err)
  | ExecTaskBuilderError err => negb (builder_is_transient err)
  | EmptyIntentError | FailedToFitError | ExecCompileError _ | ExecSignerError _ => true
  end.

(** ** What callbacks are told *)

Inductive ActionError :=
| TimeoutError
| ActionsFailed (e : TransactionError) (s : option Signature)
| IntentFailedError (message : string).
