(* ===== verification/ExecClient.v ===== *)
(** * The executor's view of the outside

    [committor/src/execution/client.rs] and the interfaces around it. [ExecEnv] has
    one field per call that settlement makes to the outside: the base chain's RPC,
    the outbox, the transaction preparator, the callback scheduler, the clock. An
    answer may depend on the whole history of calls. [Event] is an entry of that
    history; the answer is missing if the process was interrupted there. [EResume]
    marks the start of an execution and the outbox status it was given. *)

From stdpp Require Import base gmap sets list strings.
From Stdlib Require Import ZArith Lia.
From S2P Require Import Prelude Intent Outbox Runtime OutboxProgram Limits Tasks Process RpcClient.
From S2P Require Import Strategist ExecErrors.

Open Scope proc_scope.

(** A signature's status, if the node reports one: which commitment levels it has
    reached, and its error. *)
Record SignatureStatus := mkSignatureStatus {
  ss_satisfies_commitment : CommitmentLevel -> bool;
  ss_err : option TransactionError }.

Record DelegationMetadata := mkDelegationMetadata {
  dm_rent_payer : Pubkey;
  dm_requested_by_owner_program : bool }.

Abbreviation CallbackScheduleError := N.
Abbreviation CallbackReport := (list (result Signature CallbackScheduleError)).

Inductive Event (Tx : Type) :=
| EAccounts (keys : list Pubkey) (min_context_slot : option Z)
    (r : option (RpcResult (list (option Account))))
| ELatestBlockhash (r : option (RpcResult Hash))
| EBlockhashValid (h : Hash) (c : CommitmentLevel) (r : option (RpcResult bool))
| EStatuses (s : Signature) (r : option (RpcResult (list (option SignatureStatus))))
| ESend (tx : Tx) (tasks : list Task) (r : option (RpcResult SendOutcome))
| EInvalidateBlockhash
| EPrepare (s : TransactionStrategy)
| EFetchOutbox (id : N) (r : option (result (option OutboxIntentBundle) OutboxClientError))
| ESetStage (id : N) (stage : ExecutionStage) (nonces : list (Pubkey * Z))
    (r : option (result unit OutboxClientError))
| ENotifySent (c : SentCommit) (r : option (result unit OutboxClientError))
| ECallbacks (callbacks : list BaseActionCallback) (s : option Signature)
    (r : result unit ActionError)
| EClock
| ERandom
| ESleep
| EWorker
| EResume (status : OutboxIntentBundleStatus).
Arguments EAccounts {Tx} _ _ _.
Arguments ELatestBlockhash {Tx} _.
Arguments EBlockhashValid {Tx} _ _ _.
Arguments EStatuses {Tx} _ _.
Arguments ESend {Tx} _ _ _.
Arguments EInvalidateBlockhash {Tx}.
Arguments EPrepare {Tx} _.
Arguments EFetchOutbox {Tx} _ _.
Arguments ESetStage {Tx} _ _ _ _.
Arguments ENotifySent {Tx} _ _.
Arguments ECallbacks {Tx} _ _ _.
Arguments EClock {Tx}.
Arguments ERandom {Tx}.
Arguments ESleep {Tx}.
Arguments EWorker {Tx}.
Arguments EResume {Tx} _.

Class ExecEnv `{TxEnv} := {
  authority : Pubkey;
  compute_unit_price : Z;
  tx_signature : Transaction -> Signature;
  tx_blockhash : Transaction -> Hash;
  tx_is_v1 : Transaction -> bool;
  tx_message : Transaction -> Message;
  set_recent_blockhash : Message -> Hash -> Message;
  dlp_finalize : Pubkey -> Pubkey -> Instruction;
  delegation_program_id : Pubkey;
  delegation_record_pda : Pubkey -> Pubkey;
  delegation_metadata_pda : Pubkey -> Pubkey;
  commit_record_pda : Pubkey -> Pubkey;
  delegation_record_size : nat;
  parse_delegation_slot : list Z -> option Z;
  parse_metadata : list Z -> option DelegationMetadata;
  show_tx_error : TransactionExecutionError -> string;
  show_exec_error : IntentExecutorError -> string;
  debug_exec_error : IntentExecutorError -> string;
  show_callback_result : result Signature CallbackScheduleError -> string;
  ask_accounts : list (Event Transaction) -> list Pubkey -> option Z ->
    answer (RpcResult (list (option Account)));
  ask_latest_blockhash : list (Event Transaction) -> answer (RpcResult Hash);
  (* [MagicblockRpcClient::commitment] *)
  rpc_commitment : CommitmentLevel;
  ask_blockhash_valid : list (Event Transaction) -> Hash -> CommitmentLevel ->
    answer (RpcResult bool);
  ask_statuses : list (Event Transaction) -> Signature ->
    answer (RpcResult (list (option SignatureStatus)));
  ask_send : list (Event Transaction) -> Transaction -> answer (RpcResult SendOutcome);
  ask_invalidate : list (Event Transaction) -> answer unit;
  ask_prepare : list (Event Transaction) -> TransactionStrategy ->
    answer (result Message TransactionPreparatorError);
  ask_outbox : list (Event Transaction) -> N ->
    answer (result (option OutboxIntentBundle) OutboxClientError);
  ask_set_stage : list (Event Transaction) -> N -> ExecutionStage -> list (Pubkey * Z) ->
    answer (result unit OutboxClientError);
  ask_notify : list (Event Transaction) -> SentCommit -> answer (result unit OutboxClientError);
  ask_callbacks : list (Event Transaction) -> list BaseActionCallback -> option Signature ->
    result unit ActionError -> CallbackReport;
  ask_elapsed : list (Event Transaction) -> Z;
  ask_time_left : list (Event Transaction) -> option Z;
  ask_random : list (Event Transaction) -> N;
  ask_sleep : list (Event Transaction) -> Z -> answer unit;
  ask_cancelled : list (Event Transaction) -> bool;
  ask_retry_permit : list (Event Transaction) -> bool;
  ask_backoff : list (Event Transaction) -> Z -> answer bool;
  ask_executor_permit : list (Event Transaction) -> answer (option bool) }.

(** The closure over a status: its result once it has reached the commitment level. *)
Definition at_commitment (commitment : CommitmentLevel) (o : option SignatureStatus)
    : option (result unit TransactionError) :=
  match o with
  | Some status =>
      if ss_satisfies_commitment status commitment
      then Some (match ss_err status with Some e => Err e | None => Ok tt end)
      else None
  | None => None
  end.

Section client.
Context `{ExecEnv} `{DlpErrors} {St : Type}.
Abbreviation P A := (Proc (Event Transaction) St A).

(** ** Calls *)

Definition rpc_get_accounts (keys : list Pubkey) (min_context_slot : option Z)
    : P (RpcResult (list (option Account))) :=
  await (fun h => ask_accounts h keys min_context_slot) (EAccounts keys min_context_slot).
Definition rpc_latest_blockhash : P (RpcResult Hash) :=
  await ask_latest_blockhash ELatestBlockhash.
Definition rpc_is_blockhash_valid (hash : Hash) (commitment : CommitmentLevel) : P (RpcResult bool) :=
  await (fun h => ask_blockhash_valid h hash commitment) (EBlockhashValid hash commitment).
Definition rpc_statuses (s : Signature) : P (RpcResult (list (option SignatureStatus))) :=
  await (fun h => ask_statuses h s) (EStatuses s).
Definition rpc_send (tx : Transaction) (tasks : list Task) : P (RpcResult SendOutcome) :=
  await (fun h => ask_send h tx) (ESend tx tasks).
Definition invalidate_cached_blockhash : P unit :=
  await ask_invalidate (fun _ => EInvalidateBlockhash).
Definition prepare_for_strategy (s : TransactionStrategy)
    : P (result Message TransactionPreparatorError) :=
  await (fun h => ask_prepare h s) (fun _ => EPrepare s).
Definition fetch_outbox_intent (id : N) : P (result (option OutboxIntentBundle) OutboxClientError) :=
  await (fun h => ask_outbox h id) (EFetchOutbox id).
Definition set_intent_execution_stage (id : N) (stage : ExecutionStage) (nonces : list (Pubkey * Z))
    : P (result unit OutboxClientError) :=
  await (fun h => ask_set_stage h id stage nonces) (ESetStage id stage nonces).
Definition notify_commit_sent (c : SentCommit) : P (result unit OutboxClientError) :=
  await (fun h => ask_notify h c) (ENotifySent c).
Definition schedule_callbacks (callbacks : list BaseActionCallback) (s : option Signature)
    (r : result unit ActionError) : P CallbackReport :=
  call (fun h => ask_callbacks h callbacks s r) (fun _ => ECallbacks callbacks s r).
Definition sleep (ms : Z) : P unit := await (fun h => ask_sleep h ms) (fun _ => ESleep).
(** Time since some instant, what is left of a deadline, the random source. *)
Definition elapsed : P Z := call ask_elapsed (fun _ => EClock).
Definition time_left : P (option Z) := call ask_time_left (fun _ => EClock).
(** The worker's cancellation token and semaphores. *)
Definition is_cancelled : P bool := call ask_cancelled (fun _ => EWorker).
Definition try_acquire_retry : P bool := call ask_retry_permit (fun _ => EWorker).
(** [select!] with the cancellation first: [false] and [None] when it wins. *)
Definition backoff (ms : Z) : P bool := await (fun h => ask_backoff h ms) (fun _ => EWorker).
Definition acquire_executor : P (option bool) := await ask_executor_permit (fun _ => EWorker).
Definition random {A} (m : Rand A) : P A :=
  position ← call ask_random (fun _ => ERandom); pret (fst (m position)).

(** ** [IntentExecutionClient] *)

(** Until [retry_for] milliseconds have passed and [min_attempts] were made. *)
Definition stop_retrying (retry_for : Z) (min_attempts : nat) (i : nat) (t : Z) : bool :=
  negb ((t <? retry_for)%Z || (i <? min_attempts)).

Definition send_signed_tx_with_retries (tx : Transaction) (tasks : list Task)
    : P (result unit TransactionExecutionError) :=
  let task_instruction_offset :=
    if tx_is_v1 tx then 0%Z else COMPUTE_BUDGET_INSTRUCTION_COUNT in
  r ← send_transaction_with_retries elapsed sleep (rpc_send tx tasks) (fun e => e)
        (intent_error_map tasks task_instruction_offset) intent_decide_flow
        (stop_retrying 120000 3);
  pret (match r with Ok _ => Ok tt | Err e => Err e end).

Definition get_latest_blockhash : P (RpcResult Hash) :=
  get_with_retries elapsed sleep rpc_latest_blockhash (fun e => e) decide_rpc_error_flow
    (stop_retrying 60000 5).

(** Each signature's result at the commitment level asked for. *)
Definition get_signature_statuses_with_history_at_commitment (s : Signature)
    (commitment_config : CommitmentLevel)
    : P (RpcResult (list (option (result unit TransactionError)))) :=
  statuses ←? rpc_statuses s;
  pret (Ok (map (at_commitment commitment_config) statuses)).

Definition is_blockhash_valid (hash : Hash) : P (RpcResult bool) :=
  rpc_is_blockhash_valid hash rpc_commitment.

Definition finalize_legacy_commit (account : Pubkey)
    : P (result (result Signature TransactionExecutionError) TransactionPreparatorError) :=
  let ix := dlp_finalize authority account in
  let budgets := budget_instructions 120000 compute_unit_price in
  transaction ← random (assemble_tx_raw authority [ix] budgets []);
  match transaction with
  | Err e => pret (Err (prep_of_strategist e))
  | Ok transaction =>
      blockhash ← get_latest_blockhash;
      match blockhash with
      | Err e => pret (Err (PrepGetLatestBlockhash e))
      | Ok blockhash =>
          match sign_message (set_recent_blockhash (tx_message transaction) blockhash) authority with
          | Err e => pret (Err (PrepSigner e))
          | Ok transaction =>
              sent ← send_signed_tx_with_retries transaction [];
              pret (Ok (match sent with Ok _ => Ok (tx_signature transaction) | Err e => Err e end))
          end
      end
  end.

Fixpoint finalize_each (accounts : list (Pubkey * option Account))
    : P (result unit IntentExecutorError) :=
  match accounts with
  | [] => pret (Ok tt)
  | (pubkey, record) :: accounts =>
      if match record with
         | Some record => bool_decide (owner record = delegation_program_id)
         | None => false
         end
      then
        r ← finalize_legacy_commit pubkey;
        match r with
        | Err e => pret (Err (FailedPreparation e))
        | Ok (Err e) => pret (Err (FailedExecution e))
        | Ok (Ok _) => finalize_each accounts
        end
      else finalize_each accounts
  end.

Definition finalize_legacy_commits (accounts : list Pubkey)
    : P (result unit IntentExecutorError) :=
  if is_nil accounts then pret (Ok tt)
  else
    records ← rpc_get_accounts (map commit_record_pda accounts) None;
    match records with
    | Err e => pret (Err (FailedExecution (TxInternalError (InternalRpcError e))))
    | Ok records => finalize_each (zip accounts records)
    end.
End client.
