(* ===== verification/ConcreteExec.v ===== *)
(** * A concrete base layer

    Instances of the interfaces of the settlement path, used to evaluate it: a
    message is its instructions and its blockhash, a transaction a signed message.
    The base layer accepts the first commit transaction after the validator has
    stopped, and never sees the one in flight when it stopped. *)

From stdpp Require Import base gmap sets list strings.
From Stdlib Require Import ZArith.
From S2P Require Import Prelude Intent Outbox Runtime Limits Tasks Process RpcClient Strategist.
From S2P Require Import ExecErrors ExecClient.

Module ConcreteExec.
Definition program : Pubkey := DELEGATION_PROGRAM_ID.
Definition invoke (keys : list Pubkey) (bytes : list Z) : Instruction :=
  mkInstruction program (map (fun k => mkIxMeta k false true) keys) bytes.

#[export] Instance settlement : Settlement := {|
  undelegate_with_request a k o p := invoke [a; k; p] [];
  commit_finalize_from_buffer a k b args := invoke [a; k; b] [];
  dlp_commit_finalize a k args d := invoke [a; k] d;
  call_handler_v2 a d s e metas args := mkInstruction program metas (cha_data args);
  call_handler a d e metas args := mkInstruction program metas (cha_data args);
  COMMITTOR_PROGRAM_ID := 90%N;
  find_committor_address _ _ := (91%N, 255%Z);
  set_compute_unit_limit _ := mkInstruction 92 [] [];
  set_compute_unit_price _ := mkInstruction 92 [] [];
  Message := list Instruction * Hash;
  compile_v1 _ ixs _ := Some (ixs, 0%N);
  validate_v1 m := bool_decide (length (fst m) <= 16);
  compile_v0 _ ixs _ := Some (ixs, 0%N);
  num_required_signatures _ := 1;
  transaction_size n m := Some (64 * n + length (fst m));
  V1_MAX_TRANSACTION_SIZE := 4096;
  PACKET_DATA_SIZE := 1232 |}.

#[export] Instance task_env : TaskEnv := {|
  dlp_undelegate a k o p := invoke [a; k; p] [];
  compute_diff _ d := take 8 d;
  commit_finalize_size_budget n := n;
  commit_finalize_from_buffer_size_budget := 10000;
  undelegate_size_budget := 10000;
  undelegate_with_request_size_budget := 10000;
  call_handler_size_budget n := n;
  call_handler_v2_size_budget n := n;
  SMALL_SIZE_BUDGET := 1000;
  HUGE_SIZE_BUDGET := 100000;
  DLP_PROGRAM_SIZE_BUDGET := 1000 |}.

(** Bytes of an instruction: its data and its account indices. *)
Definition bytes_of (ix : Instruction) : Z :=
  Z.of_nat (3 + length (ix_accounts ix) + length (ix_data ix)).

#[export] Instance tx_env : TxEnv := {|
  Transaction := (list Instruction * Hash);
  v1_try_compile _ ixs h _ _ := Ok (ixs, h);
  v0_try_compile _ ixs _ h := Ok (ixs, h);
  sign_message m _ := Ok m;
  transaction_wire_size tx := Some (100 + foldr Z.add 0 (map bytes_of (fst tx)))%Z;
  instruction_wire_size ix := Some (bytes_of ix);
  random_key n := (1000 + n)%N;
  random_hash n := n;
  hash_order := elements |}.

#[export] Instance tx_env_laws : TxEnvLaws.
Proof. by constructor. Qed.

Definition record : Account := mkAccount 1 [7%Z] program false 0.

(** The validator has already started again from a recorded transaction. *)
Definition resumed (h : list (Event Transaction)) : bool :=
  existsb (fun ev => match ev with EResume (Executing _) => true | _ => false end) h.
Definition current_blockhash (h : list (Event Transaction)) : Hash := if resumed h then 2%N else 1%N.

(** [statuses] is the answer about any signature. *)
Definition exec_env_with (statuses : list (option SignatureStatus)) : ExecEnv := {|
  authority := 5%N;
  compute_unit_price := 1;
  tx_signature tx := (500 + snd tx)%N;
  tx_blockhash tx := snd tx;
  tx_is_v1 _ := true;
  tx_message tx := tx;
  set_recent_blockhash m h := (fst m, h);
  dlp_finalize a k := invoke [a; k] [];
  delegation_program_id := program;
  delegation_record_pda k := (100 + k)%N;
  delegation_metadata_pda k := (200 + k)%N;
  commit_record_pda k := (300 + k)%N;
  delegation_record_size := 1;
  parse_delegation_slot := head;
  parse_metadata _ := Some (mkDelegationMetadata 5 false);
  show_tx_error _ := "transaction"%string;
  show_exec_error _ := "execution"%string;
  debug_exec_error _ := "execution"%string;
  show_callback_result _ := "callback"%string;
  ask_accounts _ keys _ := Answer (Ok (map (fun _ => Some record) keys));
  ask_latest_blockhash h := Answer (Ok (current_blockhash h));
  rpc_commitment := Confirmed_;
  ask_blockhash_valid h hash _ := Answer (Ok (N.eqb hash (current_blockhash h)));
  ask_statuses _ _ := Answer (Ok statuses);
  ask_send h tx :=
    if resumed h then Answer (Ok (mkSendOutcome (500 + snd tx) None None)) else Interrupt Stopped;
  ask_invalidate _ := Answer tt;
  ask_prepare _ _ := Answer (Ok ([invoke [21%N] []], 0%N));
  ask_outbox _ _ := Answer (Ok None);
  ask_set_stage _ _ _ _ := Answer (Ok tt);
  ask_notify _ _ := Answer (Ok tt);
  ask_callbacks _ _ _ _ := [];
  ask_elapsed _ := 0%Z;
  ask_time_left _ := Some 1000%Z;
  ask_random _ := 0%N;
  ask_sleep _ _ := Answer tt;
  ask_cancelled _ := false;
  ask_retry_permit _ := true;
  ask_backoff _ _ := Answer true;
  ask_executor_permit _ := Answer (Some true) |}.

#[export] Instance exec_env : ExecEnv := exec_env_with [None].

#[export] Instance dlp_errors : DlpErrors := {|
  NONCE_OUT_OF_ORDER := 1;
  COMMIT_STATE_INVALID_ACCOUNT_OWNER := 2;
  COMMIT_STATE_ALREADY_INITIALIZED := 3;
  COMMIT_RECORD_INVALID_ACCOUNT_OWNER := 4;
  COMMIT_RECORD_ALREADY_INITIALIZED := 5 |}.

(** One account committed, another committed and undelegated. *)
Definition committed (k : Pubkey) : CommittedAccount :=
  mkCommittedAccount k (mkAccount 1 [1%Z; 2%Z] 8 false 0) 7 4.
Definition bundle : MagicIntentBundle :=
  mkMagicIntentBundle (Some (CommitStandalone [committed 21])) None None
    (Some (mkCommitAndUndelegate (CommitStandalone [committed 22]) UndelegateStandalone)) [].
Definition scheduled : ScheduledIntentBundle := mkScheduledIntentBundle 3 10 77 5 bundle.
Definition in_outbox (st : OutboxIntentBundleStatus) : OutboxIntentBundle :=
  mkOutboxIntentBundle scheduled st [] 255.
Definition in_flight : OutboxIntentBundleStatus := Executing (SingleStage (mkPendingTransaction 501 1)).

(** Eleven commits and one undelegation exceed the compute limit together. *)
Definition commits : list Task :=
  map (fun k => TaskCommitFinalize (mkCommitFinalizeTask 4 true (committed k) StateInArgs))
    (map N.of_nat (seq 21 11)).
Definition follow_up : list Task := [TaskUndelegate (mkUndelegateTask 21 8 5 false)].
Definition run : result TransactionPlan TaskStrategistError * N := build_plan commits follow_up 5 (Some 3%N) 0%N.
Definition plan : TransactionPlan :=
  match fst run with Ok p => p | Err _ => mkTransactionPlan TransactionStrategy_default None end.

Lemma planned : build_plan commits follow_up 5 (Some 3%N) 0%N = (Ok plan, snd run).
Proof. vm_compute. reflexivity. Qed.
Lemma plan_is_split : is_Some (tp_follow_up plan).
Proof. vm_compute. eexists. reflexivity. Qed.

Lemma plan_exact_witness :
  exists f, tp_follow_up plan = Some f /\ Forall2 redelivered follow_up (ts_tasks f).
Proof.
  pose proof (plan_exact commits follow_up 5 (Some 3%N) 0%N plan (snd run) planned) as Hp. cbv zeta in Hp.
  destruct plan_is_split as [f Hf]. exists f. split; [exact Hf|]. rewrite Hf in Hp. exact (proj1 (proj2 Hp)).
Defined.
End ConcreteExec.
