(* ===== verification/TaskBuilder.v ===== *)
(** * Building settlement tasks

    [committor/src/execution/task_builder.rs] and
    [committor/src/shared/account_state.rs]: which tasks settle an intent, from the
    intent and the delegation metadata read from the base chain. Both run in the
    process monad because they make RPC calls. The two calls of a [join!] run one
    after the other. *)

From stdpp Require Import base gmap sets list.
From Stdlib Require Import ZArith Lia.
From S2P Require Import Prelude Intent Limits Tasks Process RpcClient Strategist ExecErrors ExecClient.

Open Scope proc_scope.

(** [iter.collect::<HashMap<_, _>>()]: later entries win. *)
Definition collect_map {V} (l : list (Pubkey * V)) : gmap Pubkey V :=
  fold_left (fun m '(k, v) => <[k := v]> m) l ∅.

(** [chunks_exact(2)]. *)
Fixpoint pairs {A} (l : list A) : list (A * A) :=
  match l with
  | x :: y :: l => (x, y) :: pairs l
  | _ => []
  end.

Abbreviation AccountSnapshot := (Pubkey * Z)%type.

(** [iter().max().unwrap_or(0)]. *)
Definition max_slot (slots : list Z) : Z := foldr Z.max 0%Z slots.

Section task_info.
Context `{ExecEnv} `{DlpErrors} {St : Type}.
Abbreviation P A := (Proc (Event Transaction) St A).
Abbreviation InfoResult A := (result A TaskInfoProviderError).

(** ** [RpcTaskInfoProvider] *)

Definition NUM_FETCH_RETRIES : nat := 5.

Definition fetched_account (accounts : list (option Account)) (x : nat * Pubkey)
    : InfoResult Account :=
  match accounts !! x.1 with
  | Some (Some account) => Ok account
  | _ => Err (AccountNotFoundError x.2)
  end.

Definition fetch_accounts (pubkeys : list Pubkey) (min_context_slot : Z)
    : P (InfoResult (list Account)) :=
  if is_nil pubkeys then pret (Ok [])
  else
    r ← rpc_get_accounts pubkeys (Some min_context_slot);
    pret (let? accounts := res_map_err (map_client_error min_context_slot) r in
          try_collect (fetched_account accounts) (imap pair pubkeys)).

Definition fetch_attempt (pubkeys : list Pubkey) (min_context_slot : Z) (max_retries i : nat)
    : P (nat + InfoResult (list Account)) :=
  let i := S i in
  let retry err : P (nat + InfoResult (list Account)) :=
    if max_retries <=? i then pret (inr (Err err)) else (sleep 50 ;; pret (inl i)) in
  r ← fetch_accounts pubkeys min_context_slot;
  match r with
  | Ok value => pret (inr (Ok value))
  | Err err =>
      match err with
      | InvalidAccountDataError _ | DelegationSessionChangedError _ _ _ => pret (inr (Err err))
      | MinContextSlotNotReachedError _ _ => sleep 100 ;; retry err
      | AccountNotFoundError _ | ProviderRpcError _ => retry err
      end
  end.

Definition fetch_accounts_with_retries (pubkeys : list Pubkey) (min_context_slot : Z)
    (max_retries : nat) : P (InfoResult (list Account)) :=
  if is_nil pubkeys then pret (Ok [])
  else ploop (fetch_attempt pubkeys min_context_slot max_retries) 0.

(** The closure over one pair of record and metadata accounts: the record pins the
    delegation session the snapshot belongs to. *)
Definition check_delegation (x : (Account * Account) * AccountSnapshot)
    : InfoResult DelegationMetadata :=
  let '((record, metadata), (delegated_account, snapshot_slot)) := x in
  let record_pda := delegation_record_pda delegated_account in
  if negb (bool_decide (owner record = delegation_program_id))
     || negb (bool_decide (owner metadata = delegation_program_id))
  then Err (InvalidAccountDataError record_pda)
  else
    let? record_data :=
      if delegation_record_size <=? length (data record)
      then Ok (take delegation_record_size (data record))
      else Err (InvalidAccountDataError record_pda) in
    let? delegation_slot := ok_or (parse_delegation_slot record_data) (InvalidAccountDataError record_pda) in
    if (0 <? snapshot_slot)%Z && negb (delegation_slot =? snapshot_slot)%Z
    then Err (DelegationSessionChangedError delegated_account delegation_slot snapshot_slot)
    else ok_or (parse_metadata (data metadata))
           (InvalidAccountDataError (delegation_metadata_pda delegated_account)).

Definition fetch_metadata_with_retries (accounts : list AccountSnapshot) (min_context_slot : Z)
    (max_retries : nat) : P (InfoResult (list DelegationMetadata)) :=
  if is_nil accounts then pret (Ok [])
  else
    let pda_accounts :=
      concat (map (fun '(k, _) => [delegation_record_pda k; delegation_metadata_pda k]) accounts) in
    fetched ←? fetch_accounts_with_retries pda_accounts min_context_slot max_retries;
    pret (try_collect check_delegation (zip (pairs fetched) accounts)).

Definition fetch_delegation_metadata (accounts : list AccountSnapshot) (min_context_slot : Z)
    : P (InfoResult (gmap Pubkey DelegationMetadata)) :=
  metadata ←? fetch_metadata_with_retries accounts min_context_slot NUM_FETCH_RETRIES;
  pret (Ok (collect_map (zip (map fst accounts) metadata))).

Definition get_base_accounts (pubkeys : list Pubkey) (min_context_slot : Z)
    : P (InfoResult (gmap Pubkey Account)) :=
  accounts ←? fetch_accounts_with_retries pubkeys min_context_slot NUM_FETCH_RETRIES;
  pret (Ok (collect_map (zip pubkeys accounts))).

(** ** [TaskBuilder] *)

Definition snapshot_of (account : CommittedAccount) : AccountSnapshot :=
  (ca_pubkey account, ca_remote_slot account).

Definition get_follow_up_metadata_accounts (intent : ScheduledIntentBundle) : list AccountSnapshot :=
  map snapshot_of
    (Bundle.flatten2
       [Bundle.get_undelegate_intent_accounts (intent_bundle intent);
        Bundle.get_commit_finalize_and_undelegate_intent_accounts (intent_bundle intent)]).

Definition min_context_slot_of (intent : ScheduledIntentBundle) : Z :=
  max_slot (map ca_remote_slot (ScheduledIntentBundle.get_all_committed_accounts intent)).

Definition fetch_commit_inputs (intent : ScheduledIntentBundle)
    : P (result (gmap Pubkey Account) TaskBuilderError) :=
  let all_committed_accounts := ScheduledIntentBundle.get_all_committed_accounts intent in
  let min_context_slot := min_context_slot_of intent in
  let committed_accounts := map snapshot_of all_committed_accounts in
  let diffable_pubkeys :=
    map ca_pubkey
      (filter (fun a => COMMIT_STATE_SIZE_THRESHOLD < length (data (ca_account a)))
         all_committed_accounts) in
  metadata ← fetch_delegation_metadata committed_accounts min_context_slot;
  base_accounts ← get_base_accounts diffable_pubkeys min_context_slot;
  pret (match metadata with
        | Err e => Err (CommitTasksBuildError e)
        | Ok _ => Ok (match base_accounts with Ok m => m | Err _ => ∅ end)
        end).

(** [base_accounts.remove] threads the map through the accounts. *)
Fixpoint build_commit_tasks_from (accounts : list CommittedAccount) (allow_undelegation : bool)
    (base_accounts : gmap Pubkey Account) : list Task * gmap Pubkey Account :=
  match accounts with
  | [] => ([], base_accounts)
  | account :: accounts =>
      let base := base_accounts !! ca_pubkey account in
      let task := TaskCommitFinalize
        (create_commit_finalize_task (ca_commit_id account) allow_undelegation account base) in
      let '(tasks, base_accounts) :=
        build_commit_tasks_from accounts allow_undelegation (delete (ca_pubkey account) base_accounts) in
      (task :: tasks, base_accounts)
  end.

Definition build_commit_tasks (commit_type : CommitType) (allow_undelegation : bool)
    (base_accounts : gmap Pubkey Account) : list Task * gmap Pubkey Account :=
  build_commit_tasks_from (CommitType.get_committed_accounts commit_type) allow_undelegation
    base_accounts.

Definition base_action_tasks (commit : CommitType) : list Task :=
  match commit with
  | CommitWithBaseActions _ base_actions => create_action_tasks base_actions
  | CommitStandalone _ => []
  end.

(** The tasks of the commits, once the base accounts are known. *)
Definition commit_tasks_from (b : MagicIntentBundle) (base_accounts : gmap Pubkey Account)
    : list Task :=
  let opt {A} (f : A -> gmap Pubkey Account -> list Task * gmap Pubkey Account) o m :=
    match o with Some v => f v m | None => ([], m) end in
  let '(t1, m) := opt (fun v m => build_commit_tasks v false m) (commit b) base_accounts in
  let '(t2, m) := opt (fun v m => let '(t, m) := build_commit_tasks v false m in
                                  (t ++ base_action_tasks v, m)) (commit_finalize b) m in
  let '(t3, m) := opt (fun v m => build_commit_tasks (commit_action v) true m)
                    (commit_and_undelegate b) m in
  let '(t4, m) := opt (fun v m => let '(t, m) := build_commit_tasks (commit_action v) true m in
                                  (t ++ base_action_tasks (commit_action v), m))
                    (commit_finalize_and_undelegate b) m in
  create_action_tasks (standalone_actions b) ++ t1 ++ t2 ++ t3 ++ t4.

Definition commit_tasks (intent : ScheduledIntentBundle) : P (result (list Task) TaskBuilderError) :=
  base_accounts ←? fetch_commit_inputs intent;
  pret (Ok (commit_tasks_from (intent_bundle intent) base_accounts)).

Definition undelegate_task (account : CommittedAccount) (rent_reimbursement : Pubkey)
    (include_undelegation_request : bool) : Task :=
  TaskUndelegate (mkUndelegateTask (ca_pubkey account) (owner (ca_account account))
                    rent_reimbursement include_undelegation_request).

Definition delegation_metadata_for_pubkey (pubkey : Pubkey)
    (delegation_metadata : gmap Pubkey DelegationMetadata) : result DelegationMetadata TaskBuilderError :=
  ok_or (delegation_metadata !! pubkey) (MissingDelegationMetadata pubkey).

Definition create_undelegate_tasks (value : CommitAndUndelegate)
    (delegation_metadata : gmap Pubkey DelegationMetadata) : result (list Task) TaskBuilderError :=
  let? tasks :=
    try_collect (fun account =>
                   let? metadata := delegation_metadata_for_pubkey (ca_pubkey account) delegation_metadata in
                   Ok (undelegate_task account (dm_rent_payer metadata)
                         (dm_requested_by_owner_program metadata)))
      (CommitAndUndelegate.get_committed_accounts value) in
  Ok (match undelegate_action value with
      | UndelegateWithBaseActions actions => tasks ++ create_action_tasks actions
      | UndelegateStandalone => tasks
      end).

(** The follow-up tasks, once the delegation metadata is known. *)
Definition follow_up_tasks_from (b : MagicIntentBundle)
    (delegation_metadata : gmap Pubkey DelegationMetadata) : result (list Task) TaskBuilderError :=
  let t1 := match commit b with Some value => base_action_tasks value | None => [] end in
  let? t2 := match commit_and_undelegate b with
             | Some value =>
                 let? tasks := create_undelegate_tasks value delegation_metadata in
                 Ok (base_action_tasks (commit_action value) ++ tasks)
             | None => Ok []
             end in
  let? t3 := match commit_finalize_and_undelegate b with
             | Some value => create_undelegate_tasks value delegation_metadata
             | None => Ok []
             end in
  Ok (t1 ++ t2 ++ t3).

Definition follow_up_tasks (intent : ScheduledIntentBundle)
    : P (result (list Task) TaskBuilderError) :=
  metadata ← fetch_delegation_metadata (get_follow_up_metadata_accounts intent)
               (min_context_slot_of intent);
  pret (match metadata with
        | Err e => Err (FollowUpTasksBuildError e)
        | Ok delegation_metadata => follow_up_tasks_from (intent_bundle intent) delegation_metadata
        end).

(** ** The parts of the two task lists *)

Definition accounts_of (o : option CommitType) : list CommittedAccount :=
  default [] (CommitType.get_committed_accounts <$> o).
Definition actions_of (o : option CommitType) : list BaseAction :=
  match o with Some (CommitWithBaseActions _ actions) => actions | _ => [] end.

Lemma build_commit_tasks_accounts v und m :
  build_commit_tasks v und m = build_commit_tasks_from (accounts_of (Some v)) und m.
Proof. done. Qed.

Lemma base_action_tasks_actions v : base_action_tasks v = create_action_tasks (actions_of (Some v)).
Proof. by destruct v. Qed.

(** The base accounts left for each group do not matter to most statements. *)
Lemma commit_tasks_from_parts b m : exists m1 m2 m3 m4,
  commit_tasks_from b m
  = create_action_tasks (standalone_actions b)
    ++ fst (build_commit_tasks_from (accounts_of (commit b)) false m1)
    ++ (fst (build_commit_tasks_from (accounts_of (commit_finalize b)) false m2)
        ++ create_action_tasks (actions_of (commit_finalize b)))
    ++ fst (build_commit_tasks_from (accounts_of (commit_action <$> commit_and_undelegate b)) true m3)
    ++ fst (build_commit_tasks_from (accounts_of (commit_action <$> commit_finalize_and_undelegate b)) true m4)
    ++ create_action_tasks (actions_of (commit_action <$> commit_finalize_and_undelegate b)).
Proof.
  unfold commit_tasks_from. destruct b as [c cu cf cfu sa]. cbn.
  set (g1 := match c with Some v => _ | None => _ end).
  assert (fst g1 = fst (build_commit_tasks_from (accounts_of c) false m)) as E1 by by destruct c.
  destruct g1 as [t1 m1]. cbn in E1. rewrite E1. clear E1 t1.
  set (g2 := match cf with Some v => _ | None => _ end).
  assert (fst g2 = fst (build_commit_tasks_from (accounts_of cf) false m1) ++ create_action_tasks (actions_of cf)) as E2.
  { subst g2. destruct cf as [v|]; [|done]. rewrite build_commit_tasks_accounts, base_action_tasks_actions.
    by destruct (build_commit_tasks_from _ _ _). }
  destruct g2 as [t2 m2]. cbn in E2. rewrite E2. clear E2 t2.
  set (g3 := match cu with Some v => _ | None => _ end).
  assert (fst g3 = fst (build_commit_tasks_from (accounts_of (commit_action <$> cu)) true m2)) as E3 by by destruct cu.
  destruct g3 as [t3 m3]. cbn in E3. rewrite E3. clear E3 t3.
  set (g4 := match cfu with Some v => _ | None => _ end).
  assert (fst g4 = fst (build_commit_tasks_from (accounts_of (commit_action <$> cfu)) true m3)
                   ++ create_action_tasks (actions_of (commit_action <$> cfu))) as E4.
  { subst g4. destruct cfu as [v|]; [|done]. rewrite build_commit_tasks_accounts, base_action_tasks_actions.
    by destruct (build_commit_tasks_from _ _ _). }
  destruct g4 as [t4 m4]. cbn in E4. rewrite E4. by exists m, m1, m2, m3.
Qed.
End task_info.
