(* ===== verification/EstimateMatch.v ===== *)
(** * The size estimate agrees with settlement

    [core/src/intent/limits.rs] decides at scheduling time whether an intent can be
    settled, from an estimate of both settlement transactions.
    [committor/src/execution/task_builder.rs] builds the real tasks much later, on
    another machine state. This file relates the two: the estimate has one
    instruction per task, in the same order and at the same price. *)

From stdpp Require Import base gmap sets list.
From Stdlib Require Import ZArith Lia.
From S2P Require Import Prelude Intent Limits Tasks Strategist ExecErrors ExecClient ConcreteExec TaskBuilder.

Section match_.
Context `{ExecEnv}.

(** The arguments of a commit, as far as scheduling knows them, and in settlement: only
    then it is known whether the account may be undelegated and whether its state is sent
    as a difference to the base account. *)
Definition commit_args (a : CommittedAccount) (is_diff allow : bool) : CommitFinalizeArgs :=
  mkCommitFinalizeArgs (ca_commit_id a) (lamports (ca_account a)) is_diff allow.
Definition sends_diff (d : CommitDelivery) : bool :=
  match d with DiffInArgs _ | DiffInBuffer _ => true | _ => false end.

(** [x] is the estimate of [t]: the same compute units, and the same instruction up to
    these arguments and the rent payer of an undelegation. Large accounts are estimated
    with a buffer, so there the task is compared as it is with a buffer. *)
Definition estimates (authority : Pubkey) (x : Instruction * Z) (t : Task) : Prop :=
  x.2 = task_compute_units t
  /\ match t with
     | TaskCommitFinalize c =>
         let a := cft_committed_account c in
         let args := commit_args a (sends_diff (cft_delivery c)) (cft_allow_undelegation c) in
         if decide (COMMIT_STATE_SIZE_THRESHOLD < length (data (ca_account a))) then
           let buffer := buffer_pda authority (ca_pubkey a) (ca_commit_id a) in
           x.1 = commit_finalize_from_buffer authority (ca_pubkey a) buffer (commit_args a false false)
           /\ instruction (try_use_buffer t).1 authority
              = commit_finalize_from_buffer authority (ca_pubkey a) buffer args
         else
           x.1 = dlp_commit_finalize authority (ca_pubkey a) (commit_args a false false) (data (ca_account a))
           /\ instruction t authority = dlp_commit_finalize authority (ca_pubkey a) args (data (ca_account a))
     | TaskBaseAction _ => x.1 = instruction t authority
     | TaskUndelegate u =>
         let build := if ut_include_undelegation_request u then undelegate_with_request else dlp_undelegate in
         (exists payer, x.1 = undelegate_with_request authority (ut_delegated_account u) (ut_owner_program u) payer)
         /\ instruction t authority
            = build authority (ut_delegated_account u) (ut_owner_program u) (ut_rent_reimbursement u)
     end.

(** ** The estimate, group by group *)

Definition est_commits (authority : Pubkey) (t : CommitType) : EstimatedTransaction :=
  map (fun a => (commit_instruction a authority, TASK_CU)) (CommitType.get_committed_accounts t).
Definition est_actions (authority : Pubkey) (l : list BaseAction) : EstimatedTransaction :=
  map (fun a => action a authority) l.
Definition est_undelegations (authority : Pubkey) (t : CommitType) (u : UndelegateType)
    : EstimatedTransaction :=
  map (fun a => (undelegation authority a 0%N, TASK_CU)) (CommitType.get_committed_accounts t)
  ++ est_actions authority (actions_of_undelegate u).

Lemma estimate_intent_parts authority e t ud (combined : bool) :
  let e' := estimate_intent authority e (Some t, ud, combined) in
  e_commits e' = e_commits e ++ est_commits authority t
                 ++ (if combined then est_actions authority (actions_of_commit t) else [])
  /\ e_follow_up e' = e_follow_up e
                 ++ (if combined then [] else est_actions authority (actions_of_commit t))
                 ++ match ud with Some u => est_undelegations authority t u | None => [] end.
Proof.
  cbn. set (accs := CommitType.get_committed_accounts t). unfold est_undelegations, est_actions, est_commits.
  fold accs. destruct ud as [u|].
  - destruct (push_undelegations authority accs
      match t with
      | CommitStandalone _ => mkEstimate (e_commits e ++ map (fun a => (commit_instruction a authority, TASK_CU)) accs)
                                (e_follow_up e) (e_undelegations e)
      | CommitWithBaseActions _ base_actions =>
          if combined
          then mkEstimate ((e_commits e ++ map (fun a => (commit_instruction a authority, TASK_CU)) accs)
                           ++ map (fun a => action a authority) base_actions) (e_follow_up e) (e_undelegations e)
          else mkEstimate (e_commits e ++ map (fun a => (commit_instruction a authority, TASK_CU)) accs)
                 (e_follow_up e ++ map (fun a => action a authority) base_actions) (e_undelegations e)
      end) as [Hc Hf].
    destruct u as [|acts], t as [l|l base]; try destruct combined; cbn in *; rewrite ?Hc, ?Hf; cbn;
      by rewrite ?app_nil_r, ?app_assoc.
  - destruct t as [l|l base]; try destruct combined; cbn; by rewrite ?app_nil_r, ?app_assoc.
Qed.

Definition opt_group {A B} (f : A -> list B) (o : option A) : list B :=
  match o with Some a => f a | None => [] end.

Lemma estimate_intent_opt authority e o ud (combined : bool) :
  (o = None -> ud = None) ->
  let e' := estimate_intent authority e (o, ud, combined) in
  e_commits e' = e_commits e
    ++ opt_group (fun t => est_commits authority t
                           ++ (if combined then est_actions authority (actions_of_commit t) else [])) o
  /\ e_follow_up e' = e_follow_up e
    ++ opt_group (fun t => (if combined then [] else est_actions authority (actions_of_commit t))
                           ++ match ud with Some u => est_undelegations authority t u | None => [] end) o.
Proof.
  destruct o as [t|]; intros Hn.
  - apply estimate_intent_parts.
  - cbn. by rewrite !app_nil_r.
Qed.

Lemma draft_parts b authority :
  e_commits (draft b authority) =
    est_actions authority (standalone_actions b)
    ++ opt_group (est_commits authority) (commit b)
    ++ opt_group (fun t => est_commits authority t ++ est_actions authority (actions_of_commit t))
         (commit_finalize b)
    ++ opt_group (fun v => est_commits authority (commit_action v)) (commit_and_undelegate b)
    ++ opt_group (fun v => est_commits authority (commit_action v)
                           ++ est_actions authority (actions_of_commit (commit_action v)))
         (commit_finalize_and_undelegate b)
  /\ e_follow_up (draft b authority) =
    opt_group (fun t => est_actions authority (actions_of_commit t)) (commit b)
    ++ opt_group (fun v => est_actions authority (actions_of_commit (commit_action v))
                           ++ est_undelegations authority (commit_action v) (undelegate_action v))
         (commit_and_undelegate b)
    ++ opt_group (fun v => est_undelegations authority (commit_action v) (undelegate_action v))
         (commit_finalize_and_undelegate b).
Proof.
  unfold draft, intents_of. cbn [fold_left].
  destruct (estimate_intent_opt authority
    (mkEstimate (map (fun a => action a authority) (standalone_actions b)) [] [])
    (commit b) None false) as [C1 F1]; [done|].
  match type of C1 with context [e_commits ?e] => set (e1 := e) in * end.
  destruct (estimate_intent_opt authority e1 (commit_finalize b) None true) as [C2 F2]; [done|].
  set (e2 := estimate_intent authority e1 _) in *.
  destruct (estimate_intent_opt authority e2 (commit_action <$> commit_and_undelegate b)
    (undelegate_action <$> commit_and_undelegate b) false) as [C3 F3]; [by destruct (commit_and_undelegate b)|].
  set (e3 := estimate_intent authority e2 _) in *.
  destruct (estimate_intent_opt authority e3 (commit_action <$> commit_finalize_and_undelegate b)
    (undelegate_action <$> commit_finalize_and_undelegate b) true) as [C4 F4];
    [by destruct (commit_finalize_and_undelegate b)|].
  rewrite C4, C3, C2, C1, F4, F3, F2, F1. unfold est_actions.
  destruct (commit b), (commit_finalize b), (commit_and_undelegate b),
    (commit_finalize_and_undelegate b); cbn; by rewrite ?app_nil_r, <- ?app_assoc.
Qed.

(** ** The tasks, group by group *)

Lemma actions_estimated authority l :
  Forall2 (estimates authority) (est_actions authority l) (create_action_tasks l).
Proof.
  induction l as [|a l IH]; constructor; [|done].
  unfold estimates, action. cbn. by destruct (source_program a).
Qed.

Lemma base_actions_estimated authority t :
  Forall2 (estimates authority) (est_actions authority (actions_of_commit t)) (base_action_tasks t).
Proof. destruct t; [constructor|]. apply actions_estimated. Qed.

Lemma commit_estimated authority a allow base :
  estimates authority (commit_instruction a authority, TASK_CU)
    (TaskCommitFinalize (create_commit_finalize_task (ca_commit_id a) allow a base)).
Proof.
  split; [done|]. unfold commit_instruction, create_commit_finalize_task, commit_delivery. cbn.
  destruct (decide (COMMIT_STATE_SIZE_THRESHOLD < length (data (ca_account a)))); [|done].
  by destruct base.
Qed.
Lemma commits_estimated authority accounts allow m :
  Forall2 (estimates authority) (map (fun a => (commit_instruction a authority, TASK_CU)) accounts)
    (build_commit_tasks_from accounts allow m).1.
Proof.
  revert m. induction accounts as [|a l IH]; intros m; cbn; [constructor|].
  specialize (IH (delete (ca_pubkey a) m)). destruct (build_commit_tasks_from l allow _) as [ts m'].
  constructor; [|done]. apply commit_estimated.
Qed.

Lemma undelegations_estimated authority v md ts :
  create_undelegate_tasks v md = Ok ts ->
  Forall2 (estimates authority)
    (est_undelegations authority (commit_action v) (undelegate_action v)) ts.
Proof.
  unfold create_undelegate_tasks, est_undelegations, CommitAndUndelegate.get_committed_accounts.
  generalize (CommitType.get_committed_accounts (commit_action v)). intros accs.
  destruct (try_collect _ accs) as [us|e] eqn:Hc; cbn; [|done]. intros [= <-].
  assert (Forall2 (estimates authority)
            (map (fun a => (undelegation authority a 0%N, TASK_CU)) accs) us) as Hu.
  { revert us Hc. induction accs as [|a l IH]; intros us; cbn; [intros [= <-]; constructor|].
    destruct (delegation_metadata_for_pubkey (ca_pubkey a) md) as [d|]; cbn; [|done].
    destruct (try_collect _ l) as [us'|]; cbn; [|done]. intros [= <-].
    constructor; [|by apply IH]. split; [done|]. split; [by exists 0%N|done]. }
  destruct (undelegate_action v); cbn; [by rewrite app_nil_r|]. apply Forall2_app; [done|apply actions_estimated].
Qed.

Lemma commit_tasks_estimated authority b m :
  Forall2 (estimates authority) (e_commits (draft b authority)) (commit_tasks_from b m).
Proof.
  rewrite (proj1 (draft_parts b authority)). unfold commit_tasks_from, build_commit_tasks.
  destruct (commit b) as [c|], (commit_finalize b) as [cf|], (commit_and_undelegate b) as [cu|],
    (commit_finalize_and_undelegate b) as [cfu|]; cbn [opt_group];
    repeat match goal with
    | |- context [build_commit_tasks_from ?l ?u ?m] =>
        pose proof (commits_estimated authority l u m);
        destruct (build_commit_tasks_from l u m) as [? ?]; cbn [fst] in *
    end;
    repeat (apply Forall2_app || apply actions_estimated || apply base_actions_estimated
            || assumption || constructor).
Qed.

Lemma follow_up_tasks_estimated authority b md ts :
  follow_up_tasks_from b md = Ok ts ->
  Forall2 (estimates authority) (e_follow_up (draft b authority)) ts.
Proof.
  rewrite (proj2 (draft_parts b authority)). unfold follow_up_tasks_from.
  destruct (commit b) as [c|], (commit_and_undelegate b) as [cu|],
    (commit_finalize_and_undelegate b) as [cfu|]; cbn [opt_group];
    repeat match goal with
    | |- context [create_undelegate_tasks ?v ?m] =>
        let E := fresh "E" in destruct (create_undelegate_tasks v m) eqn:E; cbn [res_bind];
        [apply (undelegations_estimated authority) in E|done]
    end; intros [= <-]; rewrite ?app_nil_l, ?app_nil_r;
    repeat (apply Forall2_app || apply actions_estimated || apply base_actions_estimated
            || assumption || constructor).
Qed.

(** ** Compute units *)

Definition saturating_total (cus : list Z) (n : Z) : Z :=
  fold_left (fun total cu => saturating_add u32_max total cu) cus n.

Lemma saturating_total_mono cus n n' : (n <= n')%Z ->
  (saturating_total cus n <= saturating_total cus n')%Z.
Proof.
  revert n n'. induction cus as [|cu cus IH]; intros n n' Hn; cbn; [done|].
  apply IH. unfold saturating_add. lia.
Qed.

Lemma estimated_units authority xs ts nonce :
  Forall2 (estimates authority) xs ts ->
  (tasks_compute_units ts nonce <= compute_units_of xs)%Z.
Proof.
  intros Hx.
  assert (forall n, fold_left (fun sum task => saturating_add u32_max sum (task_compute_units task)) ts n
                    = saturating_total (map snd xs) n) as Hts.
  { induction Hx as [|x t xs ts [Hcu _] _ IH]; intros n; cbn; [done|]. by rewrite IH, Hcu. }
  assert (compute_units_of xs = saturating_total (map snd xs) 1000) as ->.
  { unfold compute_units_of, saturating_total. generalize 1000%Z. clear.
    induction xs as [|x xs IH]; intros n; cbn; [done|]. apply IH. }
  unfold tasks_compute_units. rewrite Hts. apply saturating_total_mono.
  unfold UNIQUENESS_NOOP_COMPUTE_UNITS. destruct nonce; lia.
Qed.

Lemma fits_units tasks authority : fits tasks authority = true -> (compute_units_of tasks <= 1400000)%Z.
Proof. unfold fits. destruct (Z.ltb_spec 1400000 (compute_units_of tasks)); [done|lia]. Qed.

Lemma with_payers_units authority und payers f :
  compute_units_of (with_payers authority und payers f) = compute_units_of f.
Proof.
  unfold with_payers. revert f. generalize (zip und payers). clear und payers.
  induction l as [|[[i a] p] l IH]; intros f; cbn [fold_left]; [done|].
  etransitivity; [apply IH|]. unfold compute_units_of.
  generalize 1000%Z. revert i. induction f as [|[ix cu] f IHf]; intros [|i] n; cbn; try done.
Qed.

(** C14: an intent that passes the size check at scheduling time is settled by tasks
    that the check has priced: whatever base accounts and delegation metadata the
    committor reads later, its commit tasks and its follow-up tasks match the two
    estimated transactions one for one: in the same order, with the same compute units and
    with the same instruction, up to the arguments only settlement knows ([estimates]); and
    neither list exceeds the compute limit that makes [build_strategy] fail. *)
Theorem settlement_matches_estimate b authority :
  let e := draft b authority in
  (Z.of_nat (size (used_keys e authority) + length (e_undelegations e)) < 2 ^ 32)%Z ->
  is_intent_within_limits b authority = Some true ->
  forall base_accounts delegation_metadata nonce,
  (Forall2 (estimates authority) (e_commits e) (commit_tasks_from b base_accounts)
   /\ (tasks_compute_units (commit_tasks_from b base_accounts) nonce <= MAX_COMPUTE_UNITS)%Z)
  /\ forall tasks, follow_up_tasks_from b delegation_metadata = Ok tasks ->
     Forall2 (estimates authority) (e_follow_up e) tasks
     /\ (tasks_compute_units tasks nonce <= MAX_COMPUTE_UNITS)%Z.
Proof.
  intros e Hsz Hfit base md nonce.
  destruct (assign_payers_total authority (e_undelegations e) (e_follow_up e) 0 (used_keys e authority))
    as (ps & _ & _ & _ & Hass); [nia|].
  unfold is_intent_within_limits, estimate in Hfit. fold e in Hfit. rewrite Hass in Hfit.
  cbn [mbind option_bind] in Hfit. injection Hfit as [Hc Hf]%andb_true_iff. apply fits_units in Hc, Hf.
  rewrite with_payers_units in Hf. split; [|intros ts Hts].
  - pose proof (commit_tasks_estimated authority b base) as He. split; [done|].
    exact (Z.le_trans _ _ _ (estimated_units authority _ _ nonce He) ltac:(done)).
  - pose proof (follow_up_tasks_estimated authority b md ts Hts) as He. split; [done|].
    exact (Z.le_trans _ _ _ (estimated_units authority _ _ nonce He) ltac:(done)).
Qed.
End match_.

Module ConcreteMatch.
Import ConcreteExec.

Lemma settlement_matches_estimate_witness :
  Forall2 (estimates 5) (e_commits (draft bundle 5)) (commit_tasks_from bundle ∅).
Proof.
  apply (settlement_matches_estimate bundle 5) with (delegation_metadata := ∅) (nonce := None);
    vm_compute; reflexivity.
Defined.
End ConcreteMatch.
