(* ===== verification/Runner.v ===== *)
(** * Running the settlement transactions of an intent

    [committor/src/execution/transaction/runner.rs], [recovery.rs] and [utils.rs]:
    [TransactionExecutor] sends the current transaction, repairs or splits it when
    it is rejected, and goes on with the follow-up transaction. Its fields are the
    state of a process; the immutable ones are section variables. The resources
    recorded for clean-up are not part of the state. *)

From stdpp Require Import base gmap sets list strings.
From Stdlib Require Import ZArith Lia.
From S2P Require Import Prelude Intent Outbox Limits Tasks Process RpcClient Strategist.
From S2P Require Import ExecErrors ExecClient.

Open Scope proc_scope.

Record IntentExecutionReport := mkReport {
  rp_progress : ExecutionProgress;
  rp_patched_errors : list TransactionExecutionError;
  rp_callbacks_report : CallbackReport }.

Definition ExecutionProgress_default : ExecutionProgress := mkExecutionProgress None Preparing.
Definition report_default : IntentExecutionReport := mkReport ExecutionProgress_default [] [].

Record ExecutionOutput := mkExecutionOutput {
  eo_confirmed_commit : option Signature;
  eo_signature : Signature }.

Definition output_progress (o : ExecutionOutput) : ExecutionProgress :=
  mkExecutionProgress (eo_confirmed_commit o) (Confirmed (eo_signature o)).

(** The mutable fields of [TransactionExecutor]. *)
Record Exec := mkExec {
  ex_report : IntentExecutionReport;
  ex_current : TransactionStrategy;
  ex_follow_up : option TransactionStrategy;
  ex_pending : option PendingTransaction;
  ex_attempt : Z }.

Definition set_progress (p : ExecutionProgress) (e : Exec) : Exec :=
  mkExec (mkReport p (rp_patched_errors (ex_report e)) (rp_callbacks_report (ex_report e)))
    (ex_current e) (ex_follow_up e) (ex_pending e) (ex_attempt e).
Definition set_transaction (t : TransactionProgress) (e : Exec) : Exec :=
  set_progress (mkExecutionProgress (confirmed_commit (rp_progress (ex_report e))) t) e.
Definition add_patched_error (err : TransactionExecutionError) (e : Exec) : Exec :=
  mkExec (mkReport (rp_progress (ex_report e)) (rp_patched_errors (ex_report e) ++ [err])
            (rp_callbacks_report (ex_report e)))
    (ex_current e) (ex_follow_up e) (ex_pending e) (ex_attempt e).
Definition add_callback_report (r : CallbackReport) (e : Exec) : Exec :=
  mkExec (mkReport (rp_progress (ex_report e)) (rp_patched_errors (ex_report e))
            (rp_callbacks_report (ex_report e) ++ r))
    (ex_current e) (ex_follow_up e) (ex_pending e) (ex_attempt e).
Definition set_current (s : TransactionStrategy) (e : Exec) : Exec :=
  mkExec (ex_report e) s (ex_follow_up e) (ex_pending e) (ex_attempt e).
Definition set_follow_up (s : option TransactionStrategy) (e : Exec) : Exec :=
  mkExec (ex_report e) (ex_current e) s (ex_pending e) (ex_attempt e).
Definition set_pending (p : option PendingTransaction) (e : Exec) : Exec :=
  mkExec (ex_report e) (ex_current e) (ex_follow_up e) p (ex_attempt e).
Definition set_attempt (n : Z) (e : Exec) : Exec :=
  mkExec (ex_report e) (ex_current e) (ex_follow_up e) (ex_pending e) n.

Definition ex_confirmed (e : Exec) : option Signature := confirmed_commit (rp_progress (ex_report e)).

(** ** Pure helpers of [utils.rs] and [runner.rs] *)

Definition recovery_commit_nonces (tasks : list Task) : list (Pubkey * Z) :=
  omap (fun task => match task with
                    | TaskCommitFinalize t => Some (ca_pubkey (cft_committed_account t), cft_commit_id t)
                    | _ => None
                    end) tasks.

Definition requires_uniqueness_nonce (commit_tasks : list Task) : bool :=
  existsb (fun task => match task with TaskCommitFinalize t => (cft_commit_id t <=? 1)%Z | _ => false end)
    commit_tasks.

(** [rposition]. *)
Fixpoint rposition {A} (p : A -> bool) (l : list A) : option nat :=
  match l with
  | [] => None
  | x :: l => match rposition p l with
              | Some i => Some (S i)
              | None => if p x then Some 0 else None
              end
  end.

(** [position]. *)
Fixpoint position {A} (p : A -> bool) (l : list A) : option nat :=
  match l with
  | [] => None
  | x :: l => if p x then Some 0 else S <$> position p l
  end.

Definition has_tasks_after_commit (s : TransactionStrategy) : bool :=
  match rposition is_commit (ts_tasks s) with
  | Some index => index + 1 <? length (ts_tasks s)
  | None => false
  end.

Inductive PendingSignatureStatus := StatusSucceeded | StatusPending | StatusRejected | StatusAnomalous.

(** The answer of [check_pending_signature] once both calls have returned. *)
Definition signature_verdict (blockhash_still_valid : bool)
    (statuses : list (option (result unit TransactionError))) : PendingSignatureStatus :=
  match head statuses with
  | Some (Some (Ok _)) => StatusSucceeded
  | Some (Some (Err _)) => StatusRejected
  | Some None => if blockhash_still_valid then StatusPending else StatusRejected
  | None => StatusAnomalous
  end.

Inductive flow := FlowContinue | FlowBreak.

Definition TRANSACTION_LOOP_CEILING : Z := 10.
Definition MAX_CONSECUTIVE_ANOMALIES : nat := 5.

Section runner.
Context `{ExecEnv} `{DlpErrors}.

(** [Some(i) <= last_commit_ind]: [None] is below every [Some]. *)
Definition split_for_follow_up (strategy : TransactionStrategy)
    : TransactionStrategy * TransactionStrategy :=
  let n := match rposition is_commit (ts_tasks strategy) with Some i => S i | None => 0 end in
  let nonce := ts_uniqueness_nonce strategy in
  let strategy_of tasks :=
    mkTransactionStrategy tasks
      (if is_nil (ts_lookup_tables_keys strategy) then []
       else collect_lookup_table_keys authority tasks nonce) nonce in
  (strategy_of (take n (ts_tasks strategy)), strategy_of (drop n (ts_tasks strategy))).

Definition handle_undelegation_error (strategy : TransactionStrategy)
    : TransactionStrategy * list BaseActionCallback :=
  match position is_undelegate (ts_tasks strategy) with
  | Some position =>
      (refresh_lookup_table_keys
         (mkTransactionStrategy (take position (ts_tasks strategy)) (ts_lookup_tables_keys strategy)
            (ts_uniqueness_nonce strategy)) authority,
       omap (fun t => snd (extract_task_callback t)) (drop position (ts_tasks strategy)))
  | None => (strategy, [])
  end.

Definition action_error_of_tx (e : TransactionExecutionError) : ActionError :=
  match e with
  | ActionsError err signature => ActionsFailed err signature
  | _ => IntentFailedError (show_tx_error e)
  end.
Definition action_error_of (e : IntentExecutorError) : ActionError :=
  match e with
  | FailedExecution err => action_error_of_tx err
  | _ => IntentFailedError (show_exec_error e)
  end.

Definition pending_of (tx : Transaction) : PendingTransaction :=
  mkPendingTransaction (tx_signature tx) (tx_blockhash tx).

(** ** Pending signatures: any state *)

Section pending.
Context {St : Type}.
Abbreviation P A := (Proc (Event Transaction) St A).

Definition check_pending_signature (pending : PendingTransaction)
    : P (result PendingSignatureStatus IntentExecutorError) :=
  valid ← is_blockhash_valid (pt_blockhash pending);
  match valid with
  | Err e => pret (Err (GetPendingSignatureStatusError e))
  | Ok blockhash_still_valid =>
      statuses ← get_signature_statuses_with_history_at_commitment (pt_signature pending) Finalized;
      pret (match statuses with
            | Err e => Err (GetPendingSignatureStatusError e)
            | Ok statuses => Ok (signature_verdict blockhash_still_valid statuses)
            end)
  end.

Definition resolve_iteration (pending : PendingTransaction) (consecutive_anomalies : nat)
    : P (nat + result bool IntentExecutorError) :=
  let next n : P (nat + result bool IntentExecutorError) :=
    if MAX_CONSECUTIVE_ANOMALIES <=? n
    then pret (inr (Err (PendingSignatureResolutionError (pt_signature pending))))
    else (sleep 2000 ;; pret (inl n)) in
  status ← check_pending_signature pending;
  match status with
  | Err e => pret (inr (Err e))
  | Ok StatusSucceeded => pret (inr (Ok true))
  | Ok StatusRejected => pret (inr (Ok false))
  | Ok StatusPending => next 0
  | Ok StatusAnomalous => next (S consecutive_anomalies)
  end.

Definition resolve_pending_signature (pending : PendingTransaction)
    : P (result bool IntentExecutorError) :=
  ploop (resolve_iteration pending) 0.

Definition prepare_transaction (strategy : TransactionStrategy)
    : P (result Transaction TransactionPreparatorError) :=
  prepared_message ←? prepare_for_strategy strategy;
  blockhash ← get_latest_blockhash;
  pret (match blockhash with
        | Err e => Err (PrepGetLatestBlockhash e)
        | Ok blockhash =>
            res_map_err PrepSigner
              (sign_message (set_recent_blockhash prepared_message blockhash) authority)
        end).
End pending.

(** ** [TransactionExecutor] *)

Context (intent_id : N) (committed_pubkeys : list Pubkey).
Abbreviation P A := (Proc (Event Transaction) Exec A).

Definition handle_actions_result (strategy : TransactionStrategy) (signature : option Signature)
    (r : result unit ActionError) : P TransactionStrategy :=
  let '(strategy, callbacks) :=
    match r with
    | Ok _ | Err TimeoutError => extract_action_callbacks strategy
    | Err _ => remove_actions strategy authority
    end in
  if is_nil callbacks then pret strategy
  else
    report ← schedule_callbacks callbacks signature r;
    pmodify (add_callback_report report) ;;
    pret strategy.

Definition execute_callbacks (signature : option Signature) (r : result unit ActionError) : P unit :=
  e ← pget;
  current ← handle_actions_result (ex_current e) signature r;
  pmodify (set_current current) ;;
  match r, ex_follow_up e with
  | Err _, Some follow_up =>
      follow_up ← handle_actions_result follow_up signature r;
      pmodify (set_follow_up (Some follow_up))
  | _, _ => pret tt
  end.

Definition is_combined (e : Exec) : bool :=
  bool_decide (ex_follow_up e = None) && bool_decide (ex_confirmed e = None).

Definition recover_pending_from_outbox : P (option PendingTransaction) :=
  r ← fetch_outbox_intent intent_id;
  e ← pget;
  pret (match r with
        | Ok (Some bundle) =>
            pe_transaction <$>
              opt_filter (fun pending =>
                bool_decide (pe_has_follow_up pending = bool_decide (is_Some (ex_follow_up e)))
                && bool_decide (bool_decide (is_Some (pe_confirmed_commit pending))
                                = bool_decide (is_Some (ex_confirmed e))))
                (from_status (status bundle))
        | Ok None => None
        | Err _ => None
        end).

Definition recover (err : TransactionExecutionError) : P (result flow IntentExecutorError) :=
  e ← pget;
  let can_repair_commits :=
    bool_decide (ex_confirmed e = None) && negb (is_nil committed_pubkeys)
    && existsb is_commit (ts_tasks (ex_current e)) in
  if negb can_repair_commits && bool_decide (ex_confirmed e = None) then pret (Ok FlowBreak)
  else
    match err with
    | ActionsError te signature =>
        current ← handle_actions_result (ex_current e) signature (Err (ActionsFailed te signature));
        pmodify (set_current current) ;;
        pret (Ok FlowContinue)
    | UnfinalizedAccountError _ _ =>
        if can_repair_commits then
          match task_index err (task_instruction_offset (ex_current e)) ≫=
                  fun index => ts_tasks (ex_current e) !! Z.to_nat index with
          | Some (TaskCommitFinalize task) =>
              r ← finalize_legacy_commit (ca_pubkey (cft_committed_account task));
              pret (match r with
                    | Err e => Err (FailedPreparation e)
                    | Ok (Err e) => Err (FailedExecution e)
                    | Ok (Ok _) => Ok FlowContinue
                    end)
          | _ => pret (Ok FlowBreak)
          end
        else pret (Ok FlowBreak)
    | UndelegationError _ _ =>
        if existsb is_undelegate (ts_tasks (ex_current e)) then
          let '(current, callbacks) := handle_undelegation_error (ex_current e) in
          pmodify (set_current current) ;;
          if is_nil callbacks then pret (Ok FlowContinue)
          else
            report ← schedule_callbacks callbacks (tx_signature_of err) (Err (action_error_of_tx err));
            pmodify (add_callback_report report) ;;
            pret (Ok FlowContinue)
        else pret (Ok FlowBreak)
    | _ => pret (Ok FlowBreak)
    end.

Abbreviation Sent := (result (result Signature TransactionExecutionError) IntentExecutorError).

(** [execute_current] once a send has returned. *)
Definition handle_sent (commit : option Signature) (signature : Signature)
    (execution_result : result unit TransactionExecutionError) : P (unit + Sent) :=
  pmodify (set_pending None) ;;
  match execution_result with
  | Ok _ =>
      pmodify (set_transaction (Confirmed signature)) ;;
      pret (inr (Ok (Ok signature)))
  | Err execution_err =>
      (if is_rejected execution_err
       then pmodify (set_transaction (Rejected signature))
       else pret tt) ;;
      flow ← recover execution_err;
      match flow with
      | Err err => pret (inr (Err err))
      | Ok FlowBreak => pret (inr (Ok (Err execution_err)))
      | Ok FlowContinue =>
          invalidate_cached_blockhash ;;
          e ← pget;
          match commit, is_nil (ts_tasks (ex_current e)), execution_err with
          | Some commit_signature, true, ActionsError _ _ =>
              pmodify (add_patched_error execution_err) ;;
              pret (inr (Ok (Ok commit_signature)))
          | Some _, true, _ => pret (inr (Ok (Err execution_err)))
          | _, _, _ =>
              if (TRANSACTION_LOOP_CEILING <=? ex_attempt e)%Z
              then pret (inr (Ok (Err execution_err)))
              else (pmodify (add_patched_error execution_err) ;; pret (inl tt))
          end
      end
  end.

(** [execute_current] once no transaction is pending: prepare, record, send. *)
Definition send_current (commit : option Signature) (has_follow_up : bool) : P (unit + Sent) :=
  e ← pget;
  pmodify (set_attempt (ex_attempt e + 1)) ;;
  prepared ← prepare_transaction (ex_current e);
  match prepared with
  | Err err => pret (inr (Err (FailedPreparation err)))
  | Ok prepared_transaction =>
      let pending := pending_of prepared_transaction in
      pmodify (set_transaction (Prepared (pt_signature pending))) ;;
      stage ← set_intent_execution_stage intent_id
                (into_stage (mkPendingExecution pending commit has_follow_up))
                (recovery_commit_nonces (ts_tasks (ex_current e)));
      match stage with
      | Err err => pret (inr (Err (OutboxError err)))
      | Ok _ =>
          pmodify (set_pending (Some pending)) ;;
          pmodify (set_transaction (Submitted (pt_signature pending))) ;;
          execution_result ← send_signed_tx_with_retries prepared_transaction (ts_tasks (ex_current e));
          handle_sent commit (pt_signature pending) execution_result
      end
  end.

(** A pending transaction is resolved first; [Some] ends [execute_current]. *)
Definition resolve_current : P (option Sent) :=
  e ← pget;
  match ex_pending e with
  | None => pret None
  | Some pending =>
      pmodify (set_transaction (Submitted (pt_signature pending))) ;;
      landed ← resolve_pending_signature pending;
      match landed with
      | Err err => pret (Some (Err err))
      | Ok true =>
          pmodify (set_transaction (Confirmed (pt_signature pending))) ;;
          pret (Some (Ok (Ok (pt_signature pending))))
      | Ok false =>
          pmodify (set_transaction (Rejected (pt_signature pending))) ;;
          pmodify (set_pending None) ;;
          pret None
      end
  end.

(** Nothing is left to do after a confirmed commit, or the current transaction is sent. *)
Definition send_unless_done (commit : option Signature) (has_follow_up reconciled_outbox : bool)
    : P (bool + Sent) :=
  e ← pget;
  match commit, is_nil (ts_tasks (ex_current e)) with
  | Some commit_signature, true => pret (inr (Ok (Ok commit_signature)))
  | _, _ =>
      r ← send_current commit has_follow_up;
      pret (match r with inl _ => inl reconciled_outbox | inr r => inr r end)
  end.

(** The pending transaction of the outbox, once per [execute_current]. *)
Definition reconcile_outbox (reconciled_outbox : bool) : P bool :=
  e ← pget;
  if bool_decide (ex_pending e = None) && negb reconciled_outbox then
    pending ← recover_pending_from_outbox;
    pmodify (set_pending pending) ;;
    pret true
  else pret reconciled_outbox.

(** One iteration of [execute_current]; the argument is [reconciled_outbox]. *)
Definition current_iteration (commit : option Signature) (has_follow_up reconciled_outbox : bool)
    : P (bool + Sent) :=
  reconciled_outbox ← reconcile_outbox reconciled_outbox;
  resolved ← resolve_current;
  match resolved with
  | Some r => pret (inr r)
  | None => send_unless_done commit has_follow_up reconciled_outbox
  end.

Definition execute_current : P Sent :=
  e ← pget;
  ploop (current_iteration (ex_confirmed e) (bool_decide (is_Some (ex_follow_up e)))) false.

Definition execute_with_timeout : P Sent :=
  left ← time_left;
  e ← pget;
  if has_actions_callbacks (ex_current e)
     || match ex_follow_up e with Some s => has_actions_callbacks s | None => false end
  then
    r ← match left with
        | Some _ => ptimeout execute_current
        | None => pret None
        end;
    match r with
    | Some r => pret r
    | None => execute_callbacks None (Err TimeoutError) ;; execute_current
    end
  else execute_current.

(** The last [match] of an iteration of [execute]: the follow-up, or the result. *)
Definition conclude (r : result Signature IntentExecutorError)
    : P (unit + result ExecutionOutput IntentExecutorError) :=
  match r with
  | Err err => pret (inr (Err err))
  | Ok signature =>
      e ← pget;
      match ex_follow_up e with
      | Some follow_up =>
          pmodify (set_follow_up None) ;;
          pmodify (set_current follow_up) ;;
          pmodify (set_progress (mkExecutionProgress (Some signature) Preparing)) ;;
          pmodify (set_pending None) ;;
          pmodify (set_attempt 0) ;;
          pret (inl tt)
      | None =>
          let output := mkExecutionOutput (ex_confirmed e) signature in
          pmodify (set_progress (output_progress output)) ;;
          pret (inr (Ok output))
      end
  end.

(** The end of an iteration of [execute], from the callbacks on. *)
Definition finish_iteration (r : Sent) : P (unit + result ExecutionOutput IntentExecutorError) :=
  e ← pget;
  let unsettled := bool_decide (ex_confirmed e = None) && negb (is_nil committed_pubkeys) in
  let landed := match r with Ok (Ok _) => true | _ => false end in
  let report_callbacks := (is_combined e || is_ok r) && (negb unsettled || landed) in
  let r := let? r := r in res_map_err FailedExecution r in
  (if report_callbacks
   then execute_callbacks (match r with Ok s => Some s | Err _ => None end)
          (match r with Ok _ => Ok tt | Err err => Err (action_error_of err) end)
   else pret tt) ;;
  conclude r.

(** One iteration of [execute]: a rejected combined transaction may be split. *)
Definition execute_iteration (_ : unit) : P (unit + result ExecutionOutput IntentExecutorError) :=
  r ← execute_with_timeout;
  e ← pget;
  match r with
  | Ok (Err err) =>
      if is_combined e && negb (is_nil committed_pubkeys) && has_tasks_after_commit (ex_current e)
         && is_recoverable_by_splitting err
      then
        let '(current, follow_up) := split_for_follow_up (ex_current e) in
        pmodify (set_current current) ;;
        pmodify (set_follow_up (Some follow_up)) ;;
        pmodify (set_attempt 0) ;;
        pmodify (add_patched_error err) ;;
        pret (inl tt)
      else finish_iteration r
  | _ => finish_iteration r
  end.

Definition execute : P (result ExecutionOutput IntentExecutorError) :=
  ploop execute_iteration tt.
End runner.

Definition exec_new (report : IntentExecutionReport) (plan : TransactionPlan) : Exec :=
  mkExec report (tp_current plan) (tp_follow_up plan) None 0.

Definition resume_follow_up (report : IntentExecutionReport) (commit_signature : Signature)
    (strategy : TransactionStrategy) : Exec :=
  let e := exec_new report (plan_of_strategy strategy) in
  set_progress (mkExecutionProgress (Some commit_signature) (transaction (rp_progress report))) e.
