(* ===== verification/IntentExec.v ===== *)
(** * Executing an intent

    [committor/src/execution/intent.rs], [utils.rs], [report.rs], [mod.rs] and
    [execute_with_retries] of [worker.rs]: from the outbox record of an intent to
    its settlement and the report that closes the record. A recorded transaction is
    resolved before anything new is built. *)

From stdpp Require Import base gmap sets list strings.
From Stdlib Require Import ZArith Lia.
From S2P Require Import Prelude Intent Outbox OutboxProgram Limits Tasks Process RpcClient.
From S2P Require Import Strategist ExecErrors ExecClient TaskBuilder Runner.

Open Scope proc_scope.

Record IntentExecutionResult := mkIntentExecutionResult {
  ier_inner : result ExecutionOutput IntentExecutorError;
  ier_progress : ExecutionProgress;
  ier_callbacks_reported : bool }.

Definition is_retriable (r : IntentExecutionResult) (has_dedup_guard : bool) : bool :=
  match ier_inner r with
  | Ok _ => false
  | Err err =>
      if ier_callbacks_reported r || negb (can_retry (ier_progress r)) || negb (exec_is_transient err)
      then false
      else has_dedup_guard || match err with FailedExecution _ => false | _ => true end
  end.

(** [ScheduledBaseIntentMeta]. *)
Record IntentMeta := mkIntentMeta {
  im_id : N;
  im_slot : Z;
  im_blockhash : Hash;
  im_payer : Pubkey;
  im_included_pubkeys : list Pubkey;
  im_requested_undelegation : bool }.

Definition meta_of (intent : ScheduledIntentBundle) : IntentMeta :=
  mkIntentMeta (intent_id intent) (intent_slot intent) (intent_blockhash intent) (intent_payer intent)
    (ScheduledIntentBundle.get_all_committed_pubkeys intent)
    (Bundle.has_undelegate_intent (intent_bundle intent)).

Definition MAX_INTENT_ATTEMPTS : nat := 3.

Section intent.
Context `{ExecEnv} `{DlpErrors}.
Abbreviation P A := (Proc (Event Transaction) IntentExecutionReport A).
Abbreviation IntentResult A := (result A IntentExecutorError).

Definition set_report_progress (p : ExecutionProgress) : P unit :=
  pmodify (fun r => mkReport p (rp_patched_errors r) (rp_callbacks_report r)).
Definition set_report_transaction (t : TransactionProgress) : P unit :=
  r ← pget; set_report_progress (mkExecutionProgress (confirmed_commit (rp_progress r)) t).

(** ** Strategies *)

Definition strategist {A} (m : Rand (result A TaskStrategistError)) : P (IntentResult A) :=
  r ← random m; pret (res_map_err exec_of_strategist r).

Definition built {A} (m : P (result A TaskBuilderError)) : P (IntentResult A) :=
  r ← m; pret (res_map_err ExecTaskBuilderError r).

Definition build_strategy_for (status : OutboxIntentBundleStatus) (intent : ScheduledIntentBundle)
    (committed_pubkeys : list Pubkey) : P (IntentResult TransactionPlan) :=
  let pending := from_status status in
  if bool_decide (pending = None) && is_nil committed_pubkeys then
    tasks ←? built (commit_tasks intent);
    s ←? strategist (build_strategy tasks authority (Some (intent_id intent)));
    pret (Ok (plan_of_strategy s))
  else
    commit_result ← built (commit_tasks intent);
    follow_up_result ← built (follow_up_tasks intent);
    match commit_result, follow_up_result with
    | Err e, _ => pret (Err e)
    | Ok _, Err e => pret (Err e)
    | Ok commit_tasks, Ok follow_up_tasks =>
        let nonce := if is_nil committed_pubkeys || requires_uniqueness_nonce commit_tasks
                     then Some (intent_id intent) else None in
        match pending with
        | Some progress =>
            if pe_has_follow_up progress
            then strategist (build_split_plan commit_tasks follow_up_tasks authority nonce)
            else
              s ←? strategist (build_strategy (commit_tasks ++ follow_up_tasks) authority nonce);
              pret (Ok (plan_of_strategy s))
        | None => strategist (build_plan commit_tasks follow_up_tasks authority nonce)
        end
    end.

Definition build_follow_up (intent : ScheduledIntentBundle) : P (IntentResult TransactionStrategy) :=
  let accounts :=
    map snapshot_of
      (Bundle.flatten2 [Bundle.get_commit_intent_accounts (intent_bundle intent);
                        Bundle.get_undelegate_intent_accounts (intent_bundle intent)]) in
  _ ←? (if is_nil accounts then pret (Ok tt)
        else
          metadata ← fetch_delegation_metadata accounts (max_slot (map snd accounts));
          match metadata with
          | Err e => pret (Err (ExecTaskBuilderError (FollowUpTasksBuildError e)))
          | Ok _ => finalize_legacy_commits (map fst accounts)
          end);
  tasks ←? built (follow_up_tasks intent);
  let uniqueness_nonce :=
    if existsb (fun account => (ca_commit_id account =? 1)%Z)
         (ScheduledIntentBundle.get_all_committed_accounts intent)
    then Some (intent_id intent) else None in
  strategist (build_strategy tasks authority uniqueness_nonce).

(** ** [execute_inner] *)

Definition run_executor (intent : ScheduledIntentBundle) (committed_pubkeys : list Pubkey)
    (new : IntentExecutionReport -> Exec) : P (IntentResult ExecutionOutput) :=
  pzoom new ex_report (execute (intent_id intent) committed_pubkeys).

(** The executor the report's progress asks for, and its run. *)
Definition execute_work (status : OutboxIntentBundleStatus) (intent : ScheduledIntentBundle)
    : P (IntentResult ExecutionOutput) :=
  let committed_pubkeys := ScheduledIntentBundle.get_all_committed_pubkeys intent in
  r ← pget;
  match confirmed_commit (rp_progress r) with
  | Some commit_signature =>
      strategy ←? build_follow_up intent;
      run_executor intent [] (fun report => resume_follow_up report commit_signature strategy)
  | None =>
      plan ←? build_strategy_for status intent committed_pubkeys;
      run_executor intent committed_pubkeys (fun report => exec_new report plan)
  end.

Definition execute_inner (status : OutboxIntentBundleStatus) (intent : ScheduledIntentBundle)
    : P (IntentResult ExecutionOutput) :=
  match from_status status with
  | Some pending =>
      let signature := pt_signature (pe_transaction pending) in
      set_report_progress (mkExecutionProgress (pe_confirmed_commit pending) (Submitted signature)) ;;
      succeeded ←? resolve_pending_signature (pe_transaction pending);
      if succeeded : bool then
        set_report_transaction (Confirmed signature) ;;
        if negb (pe_has_follow_up pending)
        then pret (Ok (mkExecutionOutput (pe_confirmed_commit pending) signature))
        else
          set_report_progress (mkExecutionProgress (Some signature) Preparing) ;;
          execute_work status intent
      else
        set_report_transaction (Rejected signature) ;;
        execute_work status intent
  | None =>
      if Bundle.is_empty (intent_bundle intent) then pret (Err EmptyIntentError)
      else execute_work status intent
  end.

(** ** Reporting *)

Definition build_sent_commit (meta : IntentMeta) (r : IntentResult ExecutionOutput)
    (report : IntentExecutionReport) : SentCommit :=
  let progress := match r with Ok output => output_progress output | Err _ => rp_progress report end in
  let error := match r with Ok _ => None | Err e => Some e end in
  mkSentCommit (im_id meta) (im_slot meta) (im_blockhash meta) (im_payer meta)
    (signatures progress (error ≫= exec_signature))
    (im_included_pubkeys meta) [] (im_requested_undelegation meta)
    (debug_exec_error <$> error)
    (map show_tx_error (rp_patched_errors report))
    (map show_callback_result (rp_callbacks_report report)).

Definition report_and_close_intent (r : IntentResult ExecutionOutput) (meta : IntentMeta)
    : P (IntentResult ExecutionOutput) :=
  report ← pget;
  let keep := match r with
              | Err err => negb (is_terminal_execution_error err)
                           || (negb (is_nil (im_included_pubkeys meta))
                               && bool_decide (confirmed_commit (rp_progress report) = None))
              | Ok _ => false
              end in
  if keep then pret r
  else
    sent ← notify_commit_sent (build_sent_commit meta r report);
    pret (match sent with Err e => Err (OutboxError e) | Ok _ => r end).
End intent.

Section worker.
Context `{ExecEnv} `{DlpErrors}.

(** The state of a worker is only the history. *)
Abbreviation W A := (Proc (Event Transaction) unit A).

Definition execute_intent (intent : ScheduledIntentBundle) (status : OutboxIntentBundleStatus)
    : W IntentExecutionResult :=
  pzoom (fun _ => report_default) (fun _ => tt)
    (r ← execute_inner status intent;
     r ← report_and_close_intent r (meta_of intent);
     report ← pget;
     pret (mkIntentExecutionResult r (rp_progress report)
             (negb (is_nil (rp_callbacks_report report))))).

Definition reconcile_intent (intent : OutboxIntentBundle) : W OutboxIntentBundle :=
  r ← fetch_outbox_intent (ob_intent_id intent);
  pret (match r with Ok (Some bundle) => bundle | _ => intent end).

(** One attempt: the number of earlier attempts and the intent as last seen. [None]
    is a cancelled execution. *)
Definition attempt_iteration (intent : OutboxIntentBundle) (s : nat * OutboxIntentBundle)
    : W ((nat * OutboxIntentBundle) + option IntentExecutionResult) :=
  let '(attempt, current_intent) := s in
  let has_dedup_guard := negb (is_nil (ob_committed_pubkeys intent)) in
  cancelled ← is_cancelled;
  if cancelled : bool then pret (inr None)
  else
    let attempt := S attempt in
    current_intent ← (if 1 <? attempt then reconcile_intent current_intent else pret current_intent);
    cancelled ← is_cancelled;
    if cancelled : bool then pret (inr None)
    else
      r ← execute_intent (inner current_intent) (status current_intent);
      if (MAX_INTENT_ATTEMPTS <=? attempt) || negb (is_retriable r has_dedup_guard)
      then pret (inr (Some r))
      else
        permit ← try_acquire_retry;
        if negb permit then pret (inr (Some r))
        else
          slept ← backoff (1000 * Z.of_nat attempt + Z.of_N (ob_intent_id intent mod 8) * 125);
          if negb slept then pret (inr None)
          else
            permit ← acquire_executor;
            pret (match permit with
                  | None => inr None
                  | Some true => inl (attempt, current_intent)
                  | Some false => inr (Some r)
                  end).

Definition execute_with_retries (intent : OutboxIntentBundle) : W (option IntentExecutionResult) :=
  ploop (attempt_iteration intent) (0, intent).
End worker.
