(* ===== verification/RunnerSafety.v ===== *)
(** * Safety of settlement

    A commit must not be sent again while an earlier transaction that carries it
    may still land. This file follows the history of calls: which commit
    transactions were sent, which of them are known to be dead, what the outbox may
    hold. The invariants are kept at every [await], so they survive timeouts,
    crashes and restarts. *)

From stdpp Require Import base gmap sets list strings.
From Stdlib Require Import ZArith Lia.
From S2P Require Import Prelude Intent Outbox Limits Tasks Process RpcClient Strategist.
From S2P Require Import ExecErrors ExecClient TaskBuilder Runner IntentExec.

Open Scope proc_scope.

Section safety.
Context `{ExecEnv} `{DlpErrors}.
Abbreviation Ev := (Event Transaction).

(** ** What the history says *)

Definition offset_of (tx : Transaction) : Z :=
  if tx_is_v1 tx then 0%Z else COMPUTE_BUDGET_INSTRUCTION_COUNT.

(** A transaction that carries commits was sent. *)
Definition sent (h : list Ev) (tx : Transaction) : Prop :=
  exists tasks r, ESend tx tasks r ∈ h /\ existsb is_commit tasks = true.

(** An answer to a send that refuses the transaction: it was executed and failed, a
    node reports an error of its own instructions or accounts, or it is too large. *)
Definition own_error (e : TransactionError) : Prop :=
  match e with TxInstructionError _ _ | MaxLoadedAccountsDataSizeExceeded => True | _ => False end.
Definition refuses (r : RpcResult SendOutcome) : Prop :=
  match r with
  | Ok outcome => is_Some (so_confirmed_err outcome) \/ is_Some (so_processed_err outcome)
  | Err (SentTransactionError _ _) => True
  | Err (RpcClientError e | SendTransaction e) =>
      (exists te, ce_kind e = KindTransactionError te /\ own_error te)
      \/ is_send_transaction_too_large e = true
  | Err _ => False
  end.

(** An answer about its status, [valid] being whether its blockhash was valid before:
    it finally failed, or it had expired and has no final status. *)
Definition status_refutes (valid : bool) (statuses : list (option SignatureStatus)) : Prop :=
  match head statuses with
  | Some (Some st) => if ss_satisfies_commitment st Finalized then is_Some (ss_err st) else valid = false
  | Some None => valid = false
  | None => False
  end.

(** The base layer has answered that [tx] is dead. *)
Inductive refuted (h : list Ev) (tx : Transaction) : Prop :=
| refuted_by_node tasks r : ESend tx tasks (Some r) ∈ h -> refuses r -> refuted h tx
| refuted_by_status h1 h2 valid statuses :
    h = h1 ++ EBlockhashValid (tx_blockhash tx) rpc_commitment (Some (Ok valid))
           :: EStatuses (tx_signature tx) (Some (Ok statuses)) :: h2 ->
    status_refutes valid statuses -> refuted h tx.

(** Every commit transaction that was sent is dead. *)
Definition quiet (h : list Ev) : Prop := forall tx, sent h tx -> refuted h tx.

(** Every one but [p]. *)
Definition quiet_but (p : PendingTransaction) (h : list Ev) : Prop :=
  forall tx, sent h tx -> refuted h tx \/ pending_of tx = p.

(** What the outbox may hold: a write without a positive answer may have failed. *)
Definition outbox_step (sts : list OutboxIntentBundleStatus) (ev : Ev)
    : list OutboxIntentBundleStatus :=
  match ev with
  | ESetStage _ stage _ (Some (Ok _)) => [Executing stage]
  | ESetStage _ stage _ _ => Executing stage :: sts
  | EResume st => [st]
  | _ => sts
  end.
Definition outbox_may_hold (h : list Ev) : list OutboxIntentBundleStatus :=
  fold_left outbox_step h [Accepted].

(** The outbox is known to hold [tx] as the transaction in flight. *)
Definition recorded (h : list Ev) (tx : Transaction) : Prop :=
  exists pe, outbox_may_hold h = [Executing (into_stage pe)] /\ pe_transaction pe = pending_of tx.

(** When a commit is sent, it is recorded and all earlier commit transactions but
    itself are dead. *)
Definition disciplined (h : list Ev) : Prop :=
  forall h1 h2 tx tasks r, h = h1 ++ ESend tx tasks r :: h2 -> existsb is_commit tasks = true ->
  recorded h1 tx /\ forall tx', sent h1 tx' -> refuted h1 tx' \/ tx' = tx.

(** Resuming from [st] cannot miss a live commit transaction. *)
Definition reflects (h : list Ev) (st : OutboxIntentBundleStatus) : Prop :=
  quiet h
  \/ exists pe, from_status st = Some pe
     /\ (is_Some (pe_confirmed_commit pe) \/ quiet_but (pe_transaction pe) h).

Definition safe (h : list Ev) : Prop :=
  disciplined h /\ Forall (reflects h) (outbox_may_hold h).

(** Events that neither send a commit nor touch the outbox. *)
Definition neutral (ev : Ev) : Prop :=
  match ev with
  | ESend _ tasks _ => existsb is_commit tasks = false
  | ESetStage _ _ _ _ | EResume _ => False
  | _ => True
  end.

(** ** Adding events *)

Lemma refuted_app h h' tx : refuted h tx -> refuted (h ++ h') tx.
Proof.
  intros [tasks r Hin Hr|h1 h2 v sts -> Hv].
  - eapply refuted_by_node; [apply elem_of_app; by left|done].
  - eapply refuted_by_status; [|done]. by rewrite <- app_assoc.
Qed.

Lemma sent_app h h' tx : sent (h ++ h') tx <-> sent h tx \/ sent h' tx.
Proof.
  split.
  - intros (ts & r & [Hin|Hin]%elem_of_app & Hc); [left|right]; by exists ts, r.
  - intros [(ts & r & Hin & Hc)|(ts & r & Hin & Hc)]; exists ts, r; split; [set_solver|done..|set_solver|done].
Qed.

Lemma sent_one ev tx : sent [ev] tx <->
  exists tasks r, ev = ESend tx tasks r /\ existsb is_commit tasks = true.
Proof.
  split.
  - intros (ts & r & Hin%list_elem_of_singleton & Hc). by exists ts, r.
  - intros (ts & r & -> & Hc). exists ts, r. split; [by apply list_elem_of_singleton|done].
Qed.

Lemma sent_neutral evs tx : Forall neutral evs -> ~ sent evs tx.
Proof.
  intros Hn (tasks & r & Hin & Hc). rewrite Forall_forall in Hn. apply Hn in Hin. cbn in Hin. congruence.
Qed.

Lemma quiet_neutral h evs : Forall neutral evs -> quiet h -> quiet (h ++ evs).
Proof.
  intros Hn Hq tx [Hs|Hs]%sent_app; [by apply refuted_app, Hq|by apply sent_neutral in Hs].
Qed.

Lemma quiet_but_neutral p h evs : Forall neutral evs -> quiet_but p h -> quiet_but p (h ++ evs).
Proof.
  intros Hn Hq tx [Hs|Hs]%sent_app; [|by apply sent_neutral in Hs].
  destruct (Hq tx Hs); [left; by apply refuted_app|by right].
Qed.

Lemma reflects_neutral h evs st : Forall neutral evs -> reflects h st -> reflects (h ++ evs) st.
Proof.
  intros Hn [Hq|(pe & Hpe & [Hc|Hq])]; [left; by apply quiet_neutral|right; exists pe; eauto..].
  split; [done|]. right. by apply quiet_but_neutral.
Qed.

(** A history ends either with its last event or inside its beginning. *)
Lemma snoc_split {A} (h : list A) ev h1 x h2 : h ++ [ev] = h1 ++ x :: h2 ->
  (h1 = h /\ x = ev /\ h2 = []) \/ exists h2', h2 = h2' ++ [ev] /\ h = h1 ++ x :: h2'.
Proof.
  destruct h2 as [|y h2 _] using rev_ind; intros Heq.
  - apply app_inj_tail in Heq as [-> ->]. by left.
  - right. exists h2. rewrite app_comm_cons, app_assoc in Heq.
    apply app_inj_tail in Heq as [-> ->]. done.
Qed.

Lemma disciplined_snoc h ev : disciplined h ->
  (forall tx tasks r, ev = ESend tx tasks r -> existsb is_commit tasks = true ->
     recorded h tx /\ forall tx', sent h tx' -> refuted h tx' \/ tx' = tx) ->
  disciplined (h ++ [ev]).
Proof.
  intros Hd Hev h1 h2 tx tasks r [(-> & <- & ->)|(h2' & -> & ->)]%snoc_split Hc; [by eapply Hev|].
  by eapply Hd.
Qed.

Lemma outbox_may_hold_snoc h ev : outbox_may_hold (h ++ [ev]) = outbox_step (outbox_may_hold h) ev.
Proof. unfold outbox_may_hold. by rewrite fold_left_app. Qed.

Lemma outbox_may_hold_neutral h evs : Forall neutral evs -> outbox_may_hold (h ++ evs) = outbox_may_hold h.
Proof.
  intros Hn. unfold outbox_may_hold. rewrite fold_left_app. generalize (fold_left outbox_step h [Accepted]).
  induction Hn as [|ev evs Hev _ IH]; intros l; cbn; [done|]. rewrite IH. by destruct ev.
Qed.

Lemma safe_neutral h evs : Forall neutral evs -> safe h -> safe (h ++ evs).
Proof.
  intros Hn [Hd Ho]. split.
  - clear Ho. induction evs as [|ev evs IH] using rev_ind; [by rewrite app_nil_r|].
    apply Forall_app in Hn as [Hn Hev]. rewrite Forall_singleton in Hev. rewrite app_assoc.
    apply disciplined_snoc; [by apply IH|]. intros tx tasks r -> Hc. cbn in Hev. congruence.
  - rewrite outbox_may_hold_neutral by done. eapply Forall_impl; [exact Ho|].
    intros st. by apply reflects_neutral.
Qed.

(** Sending a recorded transaction. *)
Lemma safe_send h tx tasks r pe :
  safe h -> outbox_may_hold h = [Executing (into_stage pe)] ->
  existsb is_commit tasks = true -> pe_transaction pe = pending_of tx ->
  quiet_but (pending_of tx) h -> (forall tx', sent h tx' -> refuted h tx' \/ tx' = tx) ->
  safe (h ++ [ESend tx tasks r]) /\ quiet_but (pending_of tx) (h ++ [ESend tx tasks r]).
Proof.
  intros [Hd Ho] Hm Hc Hpe Hq Hall.
  assert (quiet_but (pending_of tx) (h ++ [ESend tx tasks r])) as Hq'.
  { intros tx' [Hs|(? & ? & [= <- <- <-] & _)%sent_one]%sent_app; [|by right].
    destruct (Hq tx' Hs); [left; by apply refuted_app|by right]. }
  split; [|done]. split.
  - apply disciplined_snoc; [done|]. intros ? ? ? [= <- <- <-] _. split; [by exists pe|done].
  - rewrite outbox_may_hold_snoc, Hm. cbn. apply Forall_singleton. right.
    destruct pe as [p [c|] []]; cbn in *; subst p; eexists; cbn; eauto.
Qed.

(** Recording a transaction: everything sent is dead, or a commit is confirmed. *)
Lemma safe_stage h id pe nonces r :
  safe h -> quiet h \/ is_Some (pe_confirmed_commit pe) ->
  safe (h ++ [ESetStage id (into_stage pe) nonces r]).
Proof.
  intros [Hd Ho] Hq. set (ev := ESetStage id (into_stage pe) nonces r).
  assert (reflects (h ++ [ev]) (Executing (into_stage pe))) as Hnew.
  { destruct Hq as [Hq|Hc].
    - left. intros tx [Hs|(? & ? & [=] & _)%sent_one]%sent_app. by apply refuted_app, Hq.
    - right. destruct pe as [p c f]; cbn in *. destruct c as [c|]; [|by destruct Hc].
      eexists. split; [done|]. left. by eexists. }
  assert (Forall (reflects (h ++ [ev])) (outbox_may_hold h)) as Hold.
  { eapply Forall_impl; [exact Ho|]. intros st [Hq'|(pe' & Hpe & [Hc|Hq'])].
    - left. intros tx [Hs|(? & ? & [=] & _)%sent_one]%sent_app. by apply refuted_app, Hq'.
    - right. exists pe'. eauto.
    - right. exists pe'. split; [done|]. right.
      intros tx [Hs|(? & ? & [=] & _)%sent_one]%sent_app.
      destruct (Hq' tx Hs); [left; by apply refuted_app|by right]. }
  split; [apply disciplined_snoc; [done|]; by intros ? ? ? [=]|].
  rewrite outbox_may_hold_snoc. subst ev. cbn. destruct r as [[[]|]|]; by constructor.
Qed.

(** ** Calls that are neutral *)

Lemma elapsed_neutral {St} : extends (St := St) neutral (fun _ => False) elapsed.
Proof. by apply extends_call. Qed.
Lemma sleep_neutral {St} ms : extends (St := St) neutral (fun _ => True) (sleep ms).
Proof. by apply extends_await. Qed.
Lemma random_neutral {St A} (m : Rand A) : extends (St := St) neutral (fun _ => False) (random m).
Proof. apply extends_bind; [by apply extends_call|]. intros. apply extends_ret. Qed.

(** The end of a failed attempt only waits. *)
Lemma after_error_spec {St R M} (Pe : Ev -> Prop) flow stop i (e : M) (w : World Ev St) :
  Pe EClock -> Pe ESleep ->
  wp (after_error (R := R) elapsed sleep flow stop i e)
    (fun r w' => grows Pe w w' /\ match r with inl _ => True | inr a => a = Err e end)
    (fun _ w' => grows Pe w w') w.
Proof.
  intros Hc Hs. unfold after_error. destruct (flow e) as [d|]; [|split; [apply grows_refl|done]].
  apply wp_bind. eapply wp_mono; [by apply (extends_call Pe)| |done]. intros t w1 [G1 _].
  destruct (stop i t); [by split|]. apply wp_bind.
  eapply wp_mono; [by apply (extends_await Pe _ _ (fun _ => False))| |].
  - intros [] w2 [G2 _]. split; [by eapply grows_trans|done].
  - intros j w2 G2. by eapply grows_trans.
Qed.

Lemma get_with_retries_neutral {St R E M} (attempt : Proc Ev St (result R E)) (map : E -> M) flow stop :
  extends neutral (fun _ => True) attempt ->
  extends neutral (fun _ => False) (get_with_retries elapsed sleep attempt map flow stop).
Proof.
  intros Ha. apply extends_loop. intros i. apply extends_bind_call; [done|].
  intros [v|e]; [apply extends_ret|]. intros w.
  eapply wp_mono; [by apply (after_error_spec neutral)|by intros r w' [G _]|done].
Qed.

Lemma get_latest_blockhash_neutral {St} : extends (St := St) neutral (fun _ => False) get_latest_blockhash.
Proof. apply get_with_retries_neutral. by apply extends_await. Qed.

(** The error the executor makes of the answer to one send. *)
Definition send_error (tx : Transaction) (tasks : list Task) (r : RpcResult SendOutcome)
    : option TransactionExecutionError :=
  match (let? outcome := r in into_result outcome) with
  | Ok _ => None
  | Err e => Some (intent_error_map tasks (offset_of tx) e)
  end.

Lemma rejected_refuses tx tasks r e :
  send_error tx tasks r = Some e -> is_rejected e = true -> refuses r.
Proof.
  unfold send_error, refuses. destruct r as [[sig p c]|err]; cbn.
  { unfold into_result. cbn. destruct c, p; cbn; naive_solver. }
  assert (forall te s e', try_from_transaction_error tasks (offset_of tx) te s = Ok e' -> own_error te) as Hown.
  { intros [] s e' He; try exact I; cbn in He; naive_solver. }
  intros [= <-]. unfold intent_error_map. destruct (is_transaction_too_large err) eqn:Hlarge.
  { intros _. destruct err; try done; right; exact Hlarge. }
  destruct err as [ce|ce|ce| |ce| | | ]; cbn; try done; unfold try_map_client_error;
    (destruct (ce_kind ce) as [| | | | | |te|] eqn:Hk; try done);
    (destruct (try_from_transaction_error tasks (offset_of tx) te None) eqn:Ht; [|done]);
    intros _; left; exists te; (split; [done|by eapply Hown]).
Qed.

Lemma verdict_refutes valid statuses :
  signature_verdict valid (map (at_commitment Finalized) statuses) = StatusRejected -> status_refutes valid statuses.
Proof.
  unfold signature_verdict, status_refutes. destruct statuses as [|[st|] sts]; cbn; [done| |by destruct valid].
  destruct (ss_satisfies_commitment st Finalized), (ss_err st), valid; done.
Qed.

(** Events of sending one transaction. *)
Definition of_tx (tx : Transaction) (tasks : list Task) (ev : Ev) : Prop :=
  match ev with
  | ESend tx' tasks' _ => tx' = tx /\ tasks' = tasks
  | EClock | ESleep => True
  | _ => False
  end.

Lemma of_tx_neutral tx tasks ev : existsb is_commit tasks = false -> of_tx tx tasks ev -> neutral ev.
Proof. intros Hc. destruct ev; try done. by intros [_ ->]. Qed.

(** A failed send has its answer in the history. *)
Definition send_answer (tx : Transaction) (tasks : list Task) {A}
    (r : result A TransactionExecutionError) (h : list Ev) : Prop :=
  match r with
  | Ok _ => True
  | Err e => exists ans, ESend tx tasks (Some ans) ∈ h /\ send_error tx tasks ans = Some e
  end.

Lemma send_attempt_spec {St} tx tasks i (w : World Ev St) :
  wp (send_attempt elapsed sleep (rpc_send tx tasks) (fun e => e)
        (intent_error_map tasks (offset_of tx)) intent_decide_flow (stop_retrying 120000 3) i)
    (fun r w' => grows (of_tx tx tasks) w w' /\ awaits w' < awaits w
                 /\ match r with inl _ => True | inr a => send_answer tx tasks a (history w') end)
    (fun _ w' => grows (of_tx tx tasks) w w') w.
Proof.
  apply wp_bind. apply wp_await; [intros; apply grows_refl|..].
  2: { intros n j Hn _. apply grows_one; [lia|done]. }
  intros n ans Hn _. set (w1 := mkWorld (state w) (history w ++ [ESend tx tasks (Some ans)]) n).
  assert (grows (of_tx tx tasks) w w1) as G1 by (apply grows_one; [lia|done]).
  assert (send_error tx tasks ans =
    match (let? o := ans in res_map_err (fun e => e) (into_result o)) with
    | Ok _ => None | Err e => Some (intent_error_map tasks (offset_of tx) e) end) as He.
  { unfold send_error. destruct ans as [o|e]; cbn; [|done]. by destruct (into_result o). }
  destruct (let? o := ans in res_map_err (fun e => e) (into_result o)) as [sig|e];
    [split_and!; [done|cbn; lia|done]|].
  eapply wp_mono; [by apply (after_error_spec (of_tx tx tasks))| |intros j w2; by apply grows_trans].
  intros r w2 [G2 Hr]. split_and!; [by eapply grows_trans|destruct G2 as (_ & ? & _); cbn in *; lia|].
  destruct r as [|a]; [done|]. subst a. exists ans. split; [|done].
  destruct G2 as (_ & _ & evs & -> & _). cbn. set_solver.
Qed.

Lemma send_signed_spec {St} tx tasks (w : World Ev St) :
  wp (send_signed_tx_with_retries tx tasks)
    (fun r w' => grows (of_tx tx tasks) w w' /\ awaits w' < awaits w
                 /\ send_answer tx tasks r (history w'))
    (fun _ w' => grows (of_tx tx tasks) w w') w.
Proof.
  apply wp_bind.
  eapply (wp_mono _ (fun r w' => grows (of_tx tx tasks) w w' /\ awaits w' < awaits w
    /\ send_answer tx tasks r (history w'))); [|by intros [] w'|intros i w'; exact id].
  apply (wp_loop _ (fun _ w' => grows (of_tx tx tasks) w w')); [|apply grows_refl].
  intros i w1 G1. eapply wp_mono; [apply send_attempt_spec| |intros j w2; by apply grows_trans].
  intros r w2 (G2 & Hlt & Hr). assert (grows (of_tx tx tasks) w w2) by (by eapply grows_trans).
  destruct r as [|a]; [done|]. split_and!; [done| |done]. destruct G1 as (_ & ? & _). lia.
Qed.

Lemma grows_mono {St} (P Q : Ev -> Prop) (w w' : World Ev St) :
  (forall ev, P ev -> Q ev) -> grows P w w' -> grows Q w w'.
Proof. intros HPQ (? & ? & evs & ? & HF). split_and!; [done..|]. exists evs. split; [done|]. by eapply Forall_impl. Qed.

Lemma send_empty_neutral {St} tx :
  extends (St := St) neutral (fun _ => False) (send_signed_tx_with_retries tx []).
Proof.
  intros w. eapply wp_mono; [apply send_signed_spec| |].
  - intros r w' (G & _). split; [|done]. eapply grows_mono; [|exact G]. intros ev. by apply of_tx_neutral.
  - intros i w'. apply grows_mono. intros ev. by apply of_tx_neutral.
Qed.

(** The body of a neutral process, construct by construct. *)
Ltac neutral_step :=
  first
    [ apply extends_ret | apply extends_get | by apply extends_await | by apply extends_call
    | apply random_neutral | apply elapsed_neutral | apply get_latest_blockhash_neutral
    | apply send_empty_neutral | (eapply extends_weaken; [apply sleep_neutral|done])
    | apply extends_try; [|intros ?] | apply extends_bind; [|intros ?] | case_match | progress cbv zeta ].

Lemma finalize_legacy_commit_neutral {St} k :
  extends (St := St) neutral (fun _ => False) (finalize_legacy_commit k).
Proof. unfold finalize_legacy_commit. repeat neutral_step. Qed.

Lemma finalize_each_neutral {St} l : extends (St := St) neutral (fun _ => False) (finalize_each l).
Proof.
  induction l as [|[k r] l IH]; cbn [finalize_each]; [apply extends_ret|].
  assert (extends (St := St) neutral (fun _ => False)
            (pbind (finalize_legacy_commit k) (fun r => match r with
               | Ok (Ok _) => finalize_each l
               | Ok (Err e) => pret (Err (FailedExecution e))
               | Err e => pret (Err (FailedPreparation e)) end))) as Hb.
  { apply extends_bind; [apply finalize_legacy_commit_neutral|]. intros [[]|]; [done|apply extends_ret..]. }
  by case_match.
Qed.

Lemma finalize_legacy_commits_neutral {St} l :
  extends (St := St) neutral (fun _ => False) (finalize_legacy_commits l).
Proof. unfold finalize_legacy_commits. repeat (apply finalize_each_neutral || neutral_step). Qed.

Lemma fetch_accounts_with_retries_neutral {St} keys slot n :
  extends (St := St) neutral (fun _ => False) (fetch_accounts_with_retries keys slot n).
Proof.
  unfold fetch_accounts_with_retries. destruct keys as [|k keys]; cbn; [apply extends_ret|].
  apply extends_loop. intros i. unfold fetch_attempt. apply extends_bind_call.
  - unfold fetch_accounts. cbn. apply extends_bind_call; [by apply extends_await|]. intros. apply extends_ret.
  - intros [v|e]; repeat neutral_step.
Qed.

Lemma fetch_delegation_metadata_neutral {St} l slot :
  extends (St := St) neutral (fun _ => False) (fetch_delegation_metadata l slot).
Proof.
  unfold fetch_delegation_metadata, fetch_metadata_with_retries.
  repeat (apply fetch_accounts_with_retries_neutral || neutral_step).
Qed.

Lemma commit_tasks_neutral {St} intent : extends (St := St) neutral (fun _ => False) (commit_tasks intent).
Proof.
  unfold commit_tasks, fetch_commit_inputs, get_base_accounts.
  repeat (apply fetch_delegation_metadata_neutral || apply fetch_accounts_with_retries_neutral || neutral_step).
Qed.

Lemma follow_up_tasks_neutral {St} intent :
  extends (St := St) neutral (fun _ => False) (follow_up_tasks intent).
Proof. unfold follow_up_tasks. repeat (apply fetch_delegation_metadata_neutral || neutral_step). Qed.

Lemma prepare_transaction_neutral {St} s :
  extends (St := St) neutral (fun _ => True) (prepare_transaction s).
Proof.
  unfold prepare_transaction, ptry. apply extends_bind_call; [by apply extends_await|].
  intros. repeat neutral_step.
Qed.

(** A pending signature that is found dead is refuted by the last two answers. *)
Lemma check_pending_spec {St} p (w : World Ev St) :
  wp (check_pending_signature p)
    (fun r w' => grows neutral w w' /\ awaits w' < awaits w
                 /\ (r = Ok StatusRejected -> forall tx, pending_of tx = p -> refuted (history w') tx))
    (fun _ w' => grows neutral w w') w.
Proof.
  apply wp_bind. apply wp_await; [intros; apply grows_refl|..].
  2: { intros n i Hn _. apply grows_one; [lia|done]. }
  intros n v Hn _. set (w1 := mkWorld _ _ n).
  assert (grows neutral w w1) as G1 by (apply grows_one; [lia|done]).
  destruct v as [v|e]; [|split_and!; [done|cbn; lia|done]].
  apply wp_bind. unfold get_signature_statuses_with_history_at_commitment. apply wp_try.
  apply wp_await; [done|..].
  2: { intros m i Hm _. eapply grows_trans; [exact G1|]. apply grows_one; [lia|done]. }
  intros m sts Hm _. set (w2 := mkWorld _ _ m).
  assert (grows neutral w w2) as G2 by (eapply grows_trans; [exact G1|]; apply grows_one; [lia|done]).
  destruct sts as [sts|e]; (split_and!; [done|cbn in *; lia|]); [|done].
  intros [= Hv] tx <-. apply (refuted_by_status _ _ (history w) [] v sts); [|by apply verdict_refutes].
  cbn. by rewrite <- app_assoc.
Qed.

Lemma resolve_pending_spec {St} p (w : World Ev St) :
  wp (resolve_pending_signature p)
    (fun r w' => grows neutral w w' /\ awaits w' < awaits w
                 /\ (r = Ok false -> forall tx, pending_of tx = p -> refuted (history w') tx))
    (fun _ w' => grows neutral w w') w.
Proof.
  apply (wp_loop _ (fun _ w' => grows neutral w w')); [|apply grows_refl].
  intros n w1 G1. unfold resolve_iteration. apply wp_bind.
  eapply wp_mono; [apply check_pending_spec| |intros i w2; by apply grows_trans].
  intros r w2 (G2 & Hlt & Hr). assert (grows neutral w w2) as G by (by eapply grows_trans).
  assert (awaits w1 <= awaits w) by apply G1.
  assert (forall k, wp (if MAX_CONSECUTIVE_ANOMALIES <=? k
      then pret (inr (Err (PendingSignatureResolutionError (pt_signature p))))
      else pbind (sleep 2000) (fun _ => pret (inl k)))
    (fun (r : nat + result bool IntentExecutorError) w' => match r with
       | inl _ => grows neutral w w' /\ awaits w' < awaits w1
       | inr a => grows neutral w w' /\ awaits w' < awaits w
           /\ (a = Ok false -> forall tx, pending_of tx = p -> refuted (history w') tx) end)
    (fun _ w' => grows neutral w w') w2) as Hnext.
  { intros k. destruct (MAX_CONSECUTIVE_ANOMALIES <=? k); [split_and!; [done|lia|done]|].
    apply wp_bind. eapply wp_mono; [apply sleep_neutral| |intros i w3; by apply grows_trans].
    intros [] w3 [G3 D]. specialize (D I). split; [by eapply grows_trans|lia]. }
  destruct r as [[]|e]; try apply Hnext; (split_and!; [done|lia|]); auto; done.
Qed.
End safety.
