(* ===== verification/TaskSafety.v ===== *)
(** * What the task builder guarantees

    [task_builder.rs] and [account_state.rs]: the tasks cover the intent, and they
    are built only after the base layer has shown the delegation session every
    committed snapshot belongs to. *)

From stdpp Require Import base gmap sets list strings.
From Stdlib Require Import ZArith Lia.
From S2P Require Import Prelude Intent Outbox Limits Tasks Process RpcClient Strategist.
From S2P Require Import ExecErrors ExecClient ConcreteExec TaskBuilder Runner IntentExec RunnerSafety.

Open Scope proc_scope.

(** ** Coverage *)

Definition commit_of (t : Task) : option (CommittedAccount * Z * bool) :=
  match t with
  | TaskCommitFinalize c => Some (cft_committed_account c, cft_commit_id c, cft_allow_undelegation c)
  | _ => None
  end.
Definition undelegation_of (t : Task) : option UndelegateTask :=
  match t with TaskUndelegate u => Some u | _ => None end.
Definition action_of (t : Task) : option BaseAction :=
  match t with TaskBaseAction (BaseActionTaskV1 a | BaseActionTaskV2 a _) => Some a | _ => None end.

Definition undelegate_actions_of (o : option CommitAndUndelegate) : list BaseAction :=
  match undelegate_action <$> o with Some (UndelegateWithBaseActions actions) => actions | _ => [] end.

Lemma action_tasks_project l :
  omap commit_of (create_action_tasks l) = [] /\ omap undelegation_of (create_action_tasks l) = []
  /\ omap action_of (create_action_tasks l) = l.
Proof.
  split_and!; [by induction l..|]. induction l as [|a l IH]; [done|]. cbn.
  destruct (source_program a); cbn; f_equal; exact IH.
Qed.

Section tasks.
Context `{ExecEnv} `{DlpErrors}.

Lemma commit_tasks_project accounts und m :
  omap commit_of (fst (build_commit_tasks_from accounts und m))
    = map (fun a => (a, ca_commit_id a, und)) accounts
  /\ omap undelegation_of (fst (build_commit_tasks_from accounts und m)) = []
  /\ omap action_of (fst (build_commit_tasks_from accounts und m)) = [].
Proof.
  revert m. induction accounts as [|a accounts IH]; intros m; [done|]. cbn.
  specialize (IH (delete (ca_pubkey a) m)).
  destruct (build_commit_tasks_from accounts und (delete (ca_pubkey a) m)) as [ts m']. cbn in *.
  destruct IH as (-> & -> & ->). done.
Qed.

Definition undelegate_task_of (md : gmap Pubkey DelegationMetadata) (a : CommittedAccount) : option UndelegateTask :=
  (fun d => mkUndelegateTask (ca_pubkey a) (owner (ca_account a)) (dm_rent_payer d)
              (dm_requested_by_owner_program d)) <$> md !! ca_pubkey a.

Lemma undelegate_tasks_project v md ts :
  create_undelegate_tasks v md = Ok ts ->
  omap commit_of ts = []
  /\ map Some (omap undelegation_of ts) = map (undelegate_task_of md) (CommitAndUndelegate.get_committed_accounts v)
  /\ omap action_of ts = undelegate_actions_of (Some v).
Proof.
  unfold create_undelegate_tasks. generalize (CommitAndUndelegate.get_committed_accounts v). intros accs.
  destruct (try_collect _ accs) as [us|e] eqn:Hc; cbn; [|done]. apply try_collect_Ok in Hc.
  assert (omap commit_of us = [] /\ omap action_of us = []
          /\ map Some (omap undelegation_of us) = map (undelegate_task_of md) accs) as (Hcm & Hac & Hun).
  { induction Hc as [|a u accs us Ha _ IH]; [done|]. destruct IH as (IH1 & IH2 & IH3).
    unfold delegation_metadata_for_pubkey in Ha. destruct (md !! ca_pubkey a) as [d|] eqn:Hd; cbn in Ha; [|done].
    injection Ha as <-. cbn. unfold undelegate_task_of at 1. rewrite Hd. cbn. split_and!; [exact IH1|exact IH2|by f_equal]. }
  intros [= <-]. unfold undelegate_actions_of. cbn [fmap option_fmap option_map].
  destruct (undelegate_action v) as [|actions]; [done|].
  destruct (action_tasks_project actions) as (H1a & H2a & H3a).
  by rewrite !omap_app, Hcm, Hac, H1a, H2a, H3a, !app_nil_r.
Qed.

(** The groups of an intent, with whether an account of the group is released. *)
Definition undelegated_accounts (b : MagicIntentBundle) : list CommittedAccount :=
  accounts_of (commit_action <$> commit_and_undelegate b)
  ++ accounts_of (commit_action <$> commit_finalize_and_undelegate b).
Definition kept_accounts (b : MagicIntentBundle) : list CommittedAccount :=
  accounts_of (commit b) ++ accounts_of (commit_finalize b).
Definition all_actions (b : MagicIntentBundle) : list BaseAction :=
  standalone_actions b ++ actions_of (commit b) ++ actions_of (commit_finalize b)
  ++ actions_of (commit_action <$> commit_and_undelegate b)
  ++ actions_of (commit_action <$> commit_finalize_and_undelegate b)
  ++ undelegate_actions_of (commit_and_undelegate b)
  ++ undelegate_actions_of (commit_finalize_and_undelegate b).

Definition follow_up_group (o : option CommitAndUndelegate) (md : gmap Pubkey DelegationMetadata)
    : result (list Task) TaskBuilderError :=
  match o with Some v => create_undelegate_tasks v md | None => Ok [] end.

Lemma follow_up_group_project o md ts :
  follow_up_group o md = Ok ts ->
  omap commit_of ts = []
  /\ map Some (omap undelegation_of ts) = map (undelegate_task_of md) (accounts_of (commit_action <$> o))
  /\ omap action_of ts = undelegate_actions_of o.
Proof. destruct o as [v|]; cbn; [apply undelegate_tasks_project|]. by intros [= <-]. Qed.

Lemma follow_up_tasks_from_parts b md ts :
  follow_up_tasks_from b md = Ok ts ->
  exists t2 t3, follow_up_group (commit_and_undelegate b) md = Ok t2
    /\ follow_up_group (commit_finalize_and_undelegate b) md = Ok t3
    /\ ts = create_action_tasks (actions_of (commit b))
            ++ (create_action_tasks (actions_of (commit_action <$> commit_and_undelegate b)) ++ t2) ++ t3.
Proof.
  unfold follow_up_tasks_from, follow_up_group.
  assert (match commit b with Some v => base_action_tasks v | None => [] end
          = create_action_tasks (actions_of (commit b))) as ->
    by (destruct (commit b); [apply base_action_tasks_actions|done]).
  destruct (commit_and_undelegate b) as [v|]; cbn.
  - rewrite base_action_tasks_actions. destruct (create_undelegate_tasks v md) as [t2|e]; cbn; [|done].
    destruct (commit_finalize_and_undelegate b) as [v'|]; cbn; [|intros [= <-]; eauto].
    destruct (create_undelegate_tasks v' md) as [t3|e]; cbn; [|done]. intros [= <-]. eauto.
  - destruct (commit_finalize_and_undelegate b) as [v'|]; cbn; [|intros [= <-]; exists [], []; done].
    destruct (create_undelegate_tasks v' md) as [t3|e]; cbn; [|done]. intros [= <-]. by exists [], t3.
Qed.

(** C17: the settlement tasks of an intent cover it exactly, whatever base accounts
    and delegation metadata were read. The commits and follow-up tasks together hold
    one commit per committed account, with its commit id and with the permission to
    undelegate exactly for the accounts to undelegate; one undelegation per account
    to undelegate, paid back to the rent payer the metadata names; and every base
    action once. *)
Theorem tasks_cover_intent b base_accounts delegation_metadata follow_up :
  follow_up_tasks_from b delegation_metadata = Ok follow_up ->
  let tasks := commit_tasks_from b base_accounts ++ follow_up in
  omap commit_of tasks
    = map (fun a => (a, ca_commit_id a, false)) (kept_accounts b)
      ++ map (fun a => (a, ca_commit_id a, true)) (undelegated_accounts b)
  /\ map Some (omap undelegation_of tasks)
     = map (undelegate_task_of delegation_metadata) (undelegated_accounts b)
  /\ omap action_of tasks ≡ₚ all_actions b
  /\ kept_accounts b ++ undelegated_accounts b ≡ₚ Bundle.get_all_committed_accounts b.
Proof.
  intros (t2 & t3 & Ht2 & Ht3 & ->)%follow_up_tasks_from_parts. cbv zeta.
  destruct (commit_tasks_from_parts b base_accounts) as (m1 & m2 & m3 & m4 & ->).
  apply follow_up_group_project in Ht2 as (C2 & U2 & A2), Ht3 as (C3 & U3 & A3).
  pose proof action_tasks_project as Ha. pose proof commit_tasks_project as Hc.
  unfold kept_accounts, undelegated_accounts, all_actions. split_and!.
  - rewrite !omap_app, !(fun l => proj1 (Ha l)), !(fun a u m => proj1 (Hc a u m)), C2, C3, !map_app.
    by rewrite !app_nil_r, <- !app_assoc.
  - rewrite !omap_app, !(fun l => proj1 (proj2 (Ha l))), !(fun a u m => proj1 (proj2 (Hc a u m))), !map_app.
    by rewrite U2, U3.
  - rewrite !omap_app, !(fun l => proj2 (proj2 (Ha l))), !(fun a u m => proj2 (proj2 (Hc a u m))), A2, A3.
    rewrite !app_nil_l. solve_Permutation.
  - destruct b as [c cu cf cfu sa]. unfold Bundle.get_all_committed_accounts, Bundle.flatten2. cbn.
    destruct c, cu, cf, cfu; cbn; unfold accounts_of; cbn; rewrite ?app_nil_r; solve_Permutation.
Qed.

(** ** The delegation session of every snapshot *)

(** The base layer has answered a request for [keys] at [slot] with [answers]. *)
Definition answered (h : list (Event Transaction)) (keys : list Pubkey) (slot : Z)
    (answers : list (option Account)) : Prop :=
  EAccounts keys (Some slot) (Some (Ok answers)) ∈ h.

Lemma imap_pair_lookup keys (answers : list (option Account)) accounts :
  Forall2 (fun x account => fetched_account answers x = Ok account) (imap pair keys) accounts ->
  length accounts = length keys
  /\ forall i account, accounts !! i = Some account -> answers !! i = Some (Some account).
Proof.
  intros Hf. split; [by rewrite <- (Forall2_length _ _ _ Hf), length_imap|].
  intros i account Hi. destruct (Forall2_lookup_r _ _ _ _ _ Hf Hi) as (x & Hx & Hacc).
  rewrite list_lookup_imap in Hx. destruct (keys !! i); cbn in Hx; [|done]. injection Hx as <-.
  unfold fetched_account in Hacc. cbn in Hacc. repeat case_match; by simplify_eq.
Qed.

Definition fetched {St} (keys : list Pubkey) (slot : Z)
    (r : result (list Account) TaskInfoProviderError) (w : World (Event Transaction) St) : Prop :=
  forall accounts, r = Ok accounts -> length accounts = length keys
  /\ exists answers, answered (history w) keys slot answers
     /\ forall i account, accounts !! i = Some account -> answers !! i = Some (Some account).

Lemma fetch_accounts_answered {St} keys slot (w : World (Event Transaction) St) : is_nil keys = false ->
  wp (fetch_accounts keys slot) (fun r w' => fetched keys slot r w' /\ awaits w' < awaits w) (fun _ _ => True) w.
Proof.
  intros Hnil. unfold fetch_accounts. rewrite Hnil. apply wp_bind, wp_await; [done| |done].
  intros k a Hk _. split; [|cbn; lia]. intros accounts Hok.
  destruct a as [answers|e]; cbn in Hok; [|done]. apply try_collect_Ok, imap_pair_lookup in Hok as [Hl Hi].
  split; [done|]. exists answers. split; [|done]. apply elem_of_app. right. constructor.
Qed.

Lemma wp_sleep {St A} ms (k : Proc (Event Transaction) St A) Q w :
  (forall w', awaits w' < awaits w -> wp k Q (fun _ _ => True) w') ->
  wp (sleep ms ;; k) Q (fun _ _ => True) w.
Proof. intros Hk. apply wp_bind, wp_await; [done| |done]. intros n a Hn _. apply Hk. cbn. lia. Qed.

Lemma fetch_with_retries_answered {St} keys slot n (w : World (Event Transaction) St) : is_nil keys = false ->
  wp (fetch_accounts_with_retries keys slot n) (fetched keys slot) (fun _ _ => True) w.
Proof.
  intros Hnil. unfold fetch_accounts_with_retries. rewrite Hnil.
  apply (wp_loop _ (fun _ _ => True)); [|done]. intros i w1 _. unfold fetch_attempt. cbv zeta.
  apply wp_bind. eapply wp_mono; [by apply fetch_accounts_answered| |done]. intros r w2 [Hf Hlt].
  destruct r as [accounts|err]; [exact Hf|].
  destruct err; repeat first [ (intros ? [=]) | (split; [done|lia]) | (apply wp_sleep; intros ? ?)
                             | case_match | done ].
Qed.

Lemma pairs_lookup {A} (l : list A) i a b :
  l !! (2 * i) = Some a -> l !! (2 * i + 1) = Some b -> pairs l !! i = Some (a, b).
Proof.
  revert i. induction l as [l IH] using (induction_ltof1 _ length). unfold ltof in IH.
  destruct l as [|x [|y l]]; intros i; [done| |].
  - destruct i as [|i]; [done|]. replace (2 * S i) with (S (S (2 * i))) by lia. done.
  - destruct i as [|i]; [by intros [= ->] [= ->]|].
    replace (2 * S i) with (S (S (2 * i))) by lia. cbn [lookup list_lookup plus]. intros Ha Hb.
    cbn [pairs lookup list_lookup]. apply IH; [cbn; lia|done|done].
Qed.

Definition session_pdas (accounts : list AccountSnapshot) : list Pubkey :=
  concat (map (fun '(k, _) => [delegation_record_pda k; delegation_metadata_pda k]) accounts).

Lemma session_pdas_length accounts : length (session_pdas accounts) = 2 * length accounts.
Proof. induction accounts as [|[k s] accounts IH]; [done|]. unfold session_pdas in *. cbn [map concat app length]. rewrite IH. lia. Qed.

(** The [i]-th pair of [answers] shows the delegation session of the snapshot. *)
Definition shows_session (answers : list (option Account)) (i : nat) (snapshot : AccountSnapshot) : Prop :=
  exists record metadata slot md,
    answers !! (2 * i) = Some (Some record) /\ answers !! (2 * i + 1) = Some (Some metadata)
    /\ owner record = delegation_program_id /\ owner metadata = delegation_program_id
    /\ delegation_record_size <= length (data record)
    /\ parse_delegation_slot (take delegation_record_size (data record)) = Some slot
    /\ ((0 < snapshot.2)%Z -> slot = snapshot.2)
    /\ parse_metadata (data metadata) = Some md.

Lemma check_delegation_shows answers i record metadata snapshot md :
  answers !! (2 * i) = Some (Some record) -> answers !! (2 * i + 1) = Some (Some metadata) ->
  check_delegation ((record, metadata), snapshot) = Ok md -> shows_session answers i snapshot.
Proof.
  destruct snapshot as [k s]. intros Hr Hm. unfold check_delegation.
  destruct (bool_decide_reflect (owner record = delegation_program_id)) as [Ho|]; [|done].
  destruct (bool_decide_reflect (owner metadata = delegation_program_id)) as [Ho'|]; [|done]. cbn [negb orb].
  destruct (Nat.leb_spec delegation_record_size (length (data record))) as [Hl|]; cbn; [|done].
  destruct (parse_delegation_slot _) as [slot|] eqn:Hs; cbn; [|done].
  destruct ((0 <? s)%Z && negb (slot =? s)%Z) eqn:Hguard; [done|].
  destruct (parse_metadata (data metadata)) as [d|] eqn:Hd; cbn; [|done]. intros _.
  exists record, metadata, slot, d. split_and!; try done. intros Hpos. cbn in Hpos.
  apply andb_false_iff in Hguard as [?%Z.ltb_ge|?%negb_false_iff%Z.eqb_eq]; [lia|done].
Qed.

Lemma fetch_metadata_shows {St} accounts slot (w : World (Event Transaction) St) : accounts <> [] ->
  wp (fetch_delegation_metadata accounts slot)
    (fun r w' => is_ok r = true -> exists answers, answered (history w') (session_pdas accounts) slot answers
       /\ forall i snapshot, accounts !! i = Some snapshot -> shows_session answers i snapshot)
    (fun _ _ => True) w.
Proof.
  intros Hne. unfold fetch_delegation_metadata, fetch_metadata_with_retries.
  replace (is_nil accounts) with false by by destruct accounts. cbv zeta. fold (session_pdas accounts).
  apply wp_try, wp_try. eapply wp_mono; [apply fetch_with_retries_answered; by destruct accounts as [|[]]| |done].
  intros [fetched_accounts|e] w1 Hf; [|done].
  destruct (Hf _ eq_refl) as (Hlen & answers & Hans & Hlook). rewrite session_pdas_length in Hlen.
  destruct (try_collect _ _) as [mds|e] eqn:Hc; cbn; [|done]. intros _. exists answers. split; [done|].
  apply try_collect_Ok in Hc. intros i snapshot Hi. pose proof (lookup_lt_Some _ _ _ Hi) as Hlt.
  destruct (lookup_lt_is_Some_2 fetched_accounts (2 * i)) as [record Hr]; [lia|].
  destruct (lookup_lt_is_Some_2 fetched_accounts (2 * i + 1)) as [metadata Hm]; [lia|].
  assert (zip (pairs fetched_accounts) accounts !! i = Some ((record, metadata), snapshot)) as Hz
    by (apply lookup_zip_Some; split; [by apply pairs_lookup|done]).
  destruct (Forall2_lookup_l _ _ _ _ _ Hc Hz) as (md & _ & Hok).
  eapply check_delegation_shows; [by apply Hlook..|exact Hok].
Qed.

Lemma get_base_accounts_neutral {St} keys slot :
  extends (St := St) neutral (fun _ => False) (get_base_accounts keys slot).
Proof. apply extends_try; [apply fetch_accounts_with_retries_neutral|]. intros accounts. apply extends_ret. Qed.

(** C16: no commit is built for an account that has left its delegation session. When
    the commit tasks of an intent are built, one answer of the base layer, no older
    than the newest committed snapshot, has shown for every committed account a
    delegation record and metadata owned by the delegation program; where the
    snapshot names its session by a slot, the record is of this very session. *)
Theorem commit_tasks_of_live_sessions {St} intent (w w' : World (Event Transaction) St) tasks :
  commit_tasks intent w = Done (Ok tasks) w' ->
  ScheduledIntentBundle.get_all_committed_accounts intent <> [] ->
  let accounts := map snapshot_of (ScheduledIntentBundle.get_all_committed_accounts intent) in
  exists answers, answered (history w') (session_pdas accounts) (min_context_slot_of intent) answers
  /\ forall i snapshot, accounts !! i = Some snapshot -> shows_session answers i snapshot.
Proof.
  intros Hrun Hne. cbv zeta. set (accounts := map _ _).
  enough (wp (commit_tasks intent) (fun r w' => is_ok r = true ->
    exists answers, answered (history w') (session_pdas accounts) (min_context_slot_of intent) answers
      /\ forall i snapshot, accounts !! i = Some snapshot -> shows_session answers i snapshot)
    (fun _ _ => True) w) as Hwp by (unfold wp in Hwp; rewrite Hrun in Hwp; by apply Hwp).
  unfold commit_tasks, fetch_commit_inputs. cbv zeta. apply wp_try, wp_bind.
  eapply wp_mono; [apply fetch_metadata_shows| |done].
  { by destruct (ScheduledIntentBundle.get_all_committed_accounts intent). }
  intros r w1 Hr. apply wp_bind. eapply wp_mono; [apply get_base_accounts_neutral| |done].
  intros base w2 [(_ & _ & evs & Hh & _) _]. destruct r as [md|e]; cbn; [|done]. intros _.
  destruct (Hr eq_refl) as (answers & Hans & Hall). exists answers. split; [|exact Hall].
  unfold answered. rewrite Hh. apply elem_of_app. by left.
Qed.
End tasks.

Module ConcreteTasks.
Import ConcreteExec.

Definition metadata : gmap Pubkey DelegationMetadata := {[22%N := mkDelegationMetadata 5 true]}.
Definition released : list Task := match follow_up_tasks_from bundle metadata with Ok ts => ts | _ => [] end.

Lemma tasks_cover_intent_witness :
  map Some (omap undelegation_of (commit_tasks_from bundle ∅ ++ released))
  = [Some (mkUndelegateTask 22 8 5 true)].
Proof.
  destruct (tasks_cover_intent bundle ∅ metadata released) as (_ & Hu & _); [vm_compute; reflexivity|].
  exact Hu.
Defined.

Definition start : World (Event Transaction) unit := mkWorld tt [] 9.
Definition built : outcome (Event Transaction) unit (result (list Task) TaskBuilderError) :=
  commit_tasks scheduled start.
Definition after : World (Event Transaction) unit := match built with Done _ w => w | _ => start end.
Definition built_tasks : list Task := match built with Done (Ok ts) _ => ts | _ => [] end.

Lemma commit_tasks_of_live_sessions_witness : length built_tasks = 2 /\
  exists answers, answered (history after) [121%N; 221%N; 122%N; 222%N] 7 answers
  /\ shows_session answers 1 (22%N, 7%Z).
Proof.
  split; [vm_compute; reflexivity|].
  destruct (commit_tasks_of_live_sessions scheduled start after built_tasks) as (answers & Ha & Hs).
  - vm_compute. reflexivity.
  - discriminate.
  - exists answers. split; [exact Ha|]. apply Hs. reflexivity.
Defined.
End ConcreteTasks.
