(* ===== verification/RunnerInv.v ===== *)
(** * The executor's invariant

    The state of [TransactionExecutor] against the history of calls, at every
    [await] of [runner.rs] and [recovery.rs]: a transaction that may still land is
    the pending one, a follow-up carries no commits, and an attempt that reports it
    may be retried has left nothing alive. *)

From stdpp Require Import base gmap sets list strings.
From Stdlib Require Import ZArith Lia.
From S2P Require Import Prelude Intent Outbox Limits Tasks Process RpcClient Strategist.
From S2P Require Import ExecErrors ExecClient TaskBuilder Runner IntentExec RunnerSafety.

Open Scope proc_scope.

Definition no_commits (s : TransactionStrategy) : Prop := existsb is_commit (ts_tasks s) = false.

Section inv.
Context `{ExecEnv} `{DlpErrors}.
Abbreviation Ev := (Event Transaction).

Record base (e : Exec) (h : list Ev) : Prop := mkBase {
  base_safe : safe h;
  base_follow_up : forall s, ex_follow_up e = Some s -> no_commits s;
  base_confirmed : is_Some (ex_confirmed e) -> no_commits (ex_current e) /\ ex_follow_up e = None;
  base_retry : can_retry (rp_progress (ex_report e)) = true -> quiet h }.

Definition live (e : Exec) (h : list Ev) : Prop :=
  is_Some (ex_confirmed e)
  \/ match ex_pending e with Some p => quiet_but p h | None => quiet h end.

(** The invariant at every [await]; [c] is the confirmed commit. *)
Definition keeps (c : option Signature) (w : World Ev Exec) : Prop :=
  base (state w) (history w) /\ live (state w) (history w) /\ ex_confirmed (state w) = c.

(** ** Events *)

Lemma base_neutral e h evs : Forall neutral evs -> base e h -> base e (h ++ evs).
Proof.
  intros Hn [Hs Hf Hc Hr]. split; [by apply safe_neutral|done..|]. intros. by apply quiet_neutral, Hr.
Qed.

Lemma live_neutral e h evs : Forall neutral evs -> live e h -> live e (h ++ evs).
Proof.
  intros Hn [Hc|Hl]; [by left|]. right. destruct (ex_pending e); [by apply quiet_but_neutral|by apply quiet_neutral].
Qed.

Lemma keeps_grows c w w' : grows neutral w w' -> keeps c w -> keeps c w'.
Proof.
  intros (Hs & _ & evs & Hh & Hn) (Hb & Hl & Hc). unfold keeps. rewrite Hs, Hh.
  split_and!; [by apply base_neutral|by apply live_neutral|done].
Qed.

Lemma keeps_extends {A} (C : A -> Prop) m c w : extends neutral C m -> keeps c w ->
  wp m (fun a w' => keeps c w' /\ grows neutral w w' /\ (C a -> awaits w' < awaits w))
    (fun _ => keeps c) w.
Proof.
  intros Hm Hk. eapply wp_mono; [apply Hm| |].
  - intros a w' [G D]. split_and!; [by eapply keeps_grows|done|done].
  - intros i w' G. exact (keeps_grows c w w' G Hk).
Qed.

(** ** State changes *)

(** The follow-up of [e'] carries no commits if that of [e] does not. *)
Definition weaker (o o' : option TransactionStrategy) : Prop :=
  match o, o' with
  | Some s, Some s' => no_commits s -> no_commits s'
  | None, None => True
  | _, _ => False
  end.

Lemma weaker_refl o : weaker o o.
Proof. destruct o; cbn; auto. Qed.

Definition same_core (e e' : Exec) : Prop :=
  weaker (ex_follow_up e) (ex_follow_up e') /\ ex_pending e' = ex_pending e
  /\ rp_progress (ex_report e') = rp_progress (ex_report e)
  /\ (no_commits (ex_current e) -> no_commits (ex_current e')).

Lemma same_core_base e e' h : same_core e e' -> base e h -> base e' h.
Proof.
  intros (Hf & Hp & Hr & Hn) [Hs B1 B2 B3]. split; unfold ex_confirmed in *; rewrite ?Hr; try done.
  - intros s Hs'. rewrite Hs' in Hf. destruct (ex_follow_up e) as [s0|]; [|done]. apply Hf. auto.
  - intros [Hc Hnf]%B2. split; [auto|]. rewrite Hnf in Hf. by destruct (ex_follow_up e').
Qed.

Lemma same_core_keeps c e e' h n n' :
  same_core e e' -> keeps c (mkWorld e h n) -> keeps c (mkWorld e' h n').
Proof.
  intros Hsc (Hb & Hl & Hc). pose proof Hsc as (Hf & Hp & Hr & Hn).
  unfold keeps, live, ex_confirmed in *. cbn in *.
  split_and!; [by eapply same_core_base|by rewrite Hr, Hp|by rewrite Hr].
Qed.

(** Invariants that callbacks and neutral calls keep. *)
Record stable (K : World Ev Exec -> Prop) : Prop := mkStable {
  stable_grows w w' : grows neutral w w' -> K w -> K w';
  stable_core e e' h n : same_core e e' -> K (mkWorld e h n) -> K (mkWorld e' h n) }.

Definition based (c : option Signature) (w : World Ev Exec) : Prop :=
  base (state w) (history w) /\ ex_confirmed (state w) = c.

Lemma stable_keeps c : stable (keeps c).
Proof. split; [intros; by eapply keeps_grows|intros; by eapply same_core_keeps]. Qed.

Lemma stable_based c : stable (based c).
Proof.
  split.
  - intros w w' (Hs & _ & evs & Hh & Hn) [Hb Hc]. unfold based. rewrite Hs, Hh. split; [by apply base_neutral|done].
  - intros e e' h n Hsc [Hb Hc]. split; [by eapply same_core_base|]. destruct Hsc as (_ & _ & Hr & _).
    unfold ex_confirmed in *. cbn in *. by rewrite Hr.
Qed.

(** A transaction that is not known to be dead keeps a fresh attempt away. *)
Lemma keeps_transaction c e h n t :
  keeps c (mkWorld e h n) ->
  (match t with Submitted _ | Confirmed _ => True | _ => quiet h \/ is_Some c end) ->
  keeps c (mkWorld (set_transaction t e) h n).
Proof.
  intros ([Hs B1 B2 B3] & Hl & Hc) Ht. unfold keeps, live, ex_confirmed in *. cbn in *.
  split_and!; [|done|done]. split; cbn; [done..|]. unfold can_retry. cbn. rewrite Hc.
  intros [Hn%bool_decide_eq_true Hr]%andb_true_iff. rewrite Hn in Ht.
  destruct t; try done; (destruct Ht as [|[? [=]]]; done).
Qed.

Lemma keeps_pending c e h n p :
  keeps c (mkWorld e h n) -> is_Some c \/ quiet_but p h ->
  keeps c (mkWorld (set_pending (Some p) e) h n).
Proof. intros ([] & Hl & <-) Hp. split_and!; [by split|by destruct Hp; [left|right]|done]. Qed.

Lemma keeps_no_pending c e h n :
  keeps c (mkWorld e h n) -> is_Some c \/ quiet h -> keeps c (mkWorld (set_pending None e) h n).
Proof. intros ([] & Hl & <-) Hp. split_and!; [by split|by destruct Hp; [left|right]|done]. Qed.

(** ** Callbacks *)

Lemma filter_no_commits (P : Task -> Prop) `{!forall t, Decision (P t)} l :
  existsb is_commit l = false -> existsb is_commit (filter P l) = false.
Proof.
  induction l as [|t l IH]; [done|]. cbn [existsb]. intros [Ht Hl]%orb_false_iff. rewrite filter_cons.
  destruct (decide (P t)); cbn; [by rewrite Ht, IH|by apply IH].
Qed.

Lemma take_no_commits n l : existsb is_commit l = false -> existsb is_commit (take n l) = false.
Proof.
  revert n. induction l as [|t l IH]; intros [|n]; cbn; try done. intros [-> Hl]%orb_false_iff. by apply IH.
Qed.

Lemma extract_is_commit t : is_commit (fst (extract_task_callback t)) = is_commit t.
Proof. destruct t as [?|?|b]; try done. cbn. by destruct (extract_callback b). Qed.

Lemma extract_no_commits s : no_commits s -> no_commits (fst (extract_action_callbacks s)).
Proof.
  unfold no_commits, extract_action_callbacks. cbn. induction (ts_tasks s) as [|t l IH]; [done|].
  cbn. by rewrite extract_is_commit, !orb_false_iff; intros [? ?]; split; [|apply IH].
Qed.

Lemma refresh_no_commits s a : no_commits s -> no_commits (refresh_lookup_table_keys s a).
Proof. unfold refresh_lookup_table_keys. by destruct (uses_alts s). Qed.

Lemma remove_no_commits s a : no_commits s -> no_commits (fst (remove_actions s a)).
Proof.
  intros Hs%extract_no_commits. unfold remove_actions. destruct (extract_action_callbacks s) as [s' cbs].
  cbn in *. apply refresh_no_commits. by apply filter_no_commits.
Qed.

Lemma handle_actions_spec K s sig r w :
  stable K -> K w ->
  wp (handle_actions_result s sig r)
    (fun s' w' => K w' /\ same_core (state w) (state w') /\ ex_current (state w') = ex_current (state w)
                  /\ ex_follow_up (state w') = ex_follow_up (state w)
                  /\ awaits w' = awaits w /\ (no_commits s -> no_commits s'))
    (fun _ _ => False) w.
Proof.
  intros HK Hk. unfold handle_actions_result.
  assert (no_commits s -> no_commits (fst (match r with
    | Ok _ | Err TimeoutError => extract_action_callbacks s
    | Err _ => remove_actions s authority end))) as Hs.
  { destruct r as [|[]]; (apply extract_no_commits || apply remove_no_commits). }
  destruct (match r with
    | Ok _ | Err TimeoutError => extract_action_callbacks s
    | Err _ => remove_actions s authority end) as [s' cbs].
  assert (forall e, same_core e e) as Hrefl by (intros e; split_and!; [apply weaker_refl|done..]).
  destruct (is_nil cbs); [by split_and!; try apply Hrefl|].
  apply wp_bind. unfold schedule_callbacks, call, wp at 1. cbv zeta. apply wp_modify.
  split; [|split; [split_and!; [apply weaker_refl|done..]|by split_and!]].
  eapply (stable_core K HK (state w)); [split_and!; [apply weaker_refl|done..]|].
  eapply (stable_grows K HK); [|exact Hk]. split_and!; [done|done|]. eexists [_]. split; [done|]. by repeat constructor.
Qed.

Lemma stable_set_current K e h n s :
  stable K -> K (mkWorld e h n) -> (no_commits (ex_current e) -> no_commits s) ->
  K (mkWorld (set_current s e) h n).
Proof.
  intros HK Hk Hs. eapply (stable_core K HK); [|exact Hk]. split_and!; [apply weaker_refl|done..].
Qed.

Lemma execute_callbacks_spec K sig r w :
  stable K -> K w ->
  wp (execute_callbacks sig r) (fun _ w' => K w' /\ awaits w' = awaits w) (fun _ _ => False) w.
Proof.
  intros HK Hk. unfold execute_callbacks. apply wp_get. apply wp_bind.
  eapply wp_mono; [by apply (handle_actions_spec K)| |done].
  intros s1 w1 (Hk1 & Hc1 & Hcur & Hfu & Ha & Hs). apply wp_modify.
  set (w2 := mkWorld (set_current s1 (state w1)) (history w1) (awaits w1)).
  assert (K w2) as Hk2.
  { destruct w1. apply stable_set_current; [done..|]. cbn in *. by rewrite Hcur. }
  destruct r as [|err]; [done|]. destruct (ex_follow_up (state w)) as [f|] eqn:Hf; [|done].
  apply wp_bind. eapply wp_mono; [by apply (handle_actions_spec K)| |done].
  intros f' w3 (Hk3 & _ & Hcur3 & Hfu3 & Ha3 & Hs3). split; [|cbn in *; lia]. destruct w3 as [e3 h3 n3]. cbn in *.
  eapply (stable_core K HK); [|exact Hk3]. split_and!; [|done..]. cbn. by rewrite Hfu3, Hfu.
Qed.

(** ** Recovery *)

Lemma undelegation_no_commits s : no_commits s -> no_commits (fst (handle_undelegation_error s)).
Proof.
  unfold handle_undelegation_error. destruct (position is_undelegate (ts_tasks s)); [|done].
  intros Hs. apply refresh_no_commits. by apply take_no_commits.
Qed.

Lemma recover_unrejected committed err w Q I :
  is_rejected err = false -> Q (Ok FlowBreak) w -> wp (recover committed err) Q I w.
Proof.
  intros Hr HQ. unfold recover. apply wp_get. case_match; [done|]. by destruct err.
Qed.

Lemma recover_spec committed err c w :
  keeps c w ->
  wp (recover committed err) (fun _ w' => keeps c w' /\ awaits w' <= awaits w) (fun _ => keeps c) w.
Proof.
  intros Hk. unfold recover. apply wp_get. case_match; [by split|].
  destruct err as [te s|te s|te s|te s|te s|te s|ie|ie]; try by split.
  - apply wp_bind. eapply wp_mono; [apply (handle_actions_spec (keeps c)); [apply stable_keeps|done]| |done].
    intros s1 w1 (Hk1 & _ & Hcur & _ & Ha & Hs). apply wp_modify. split; [|cbn; lia].
    destruct w1. apply stable_set_current; [apply stable_keeps|done|]. cbn in *. by rewrite Hcur.
  - case_match; [|by split].
    pose proof (undelegation_no_commits (ex_current (state w))) as Hs.
    destruct (handle_undelegation_error (ex_current (state w))) as [s1 cbs]. apply wp_modify.
    assert (keeps c (mkWorld (set_current s1 (state w)) (history w) (awaits w))) as Hk1.
    { destruct w. by apply stable_set_current; [apply stable_keeps|..]. }
    destruct (is_nil cbs); [by split|].
    apply wp_bind. unfold schedule_callbacks, call, wp at 1. cbv zeta. apply wp_modify. split; [|done].
    eapply (same_core_keeps _ (set_current s1 (state w)) _ _ (awaits w)); [by split_and!; [apply weaker_refl|..]|].
    eapply keeps_grows; [|exact Hk1].
    split_and!; [done|done|]. eexists [_]. split; [done|]. by repeat constructor.
  - case_match; [|by split]. case_match; [|by split]. case_match; [|by split..].
    apply wp_bind. eapply wp_mono; [apply (keeps_extends _ _ _ _ (finalize_legacy_commit_neutral _) Hk)| |done].
    intros r w1 (Hk1 & (_ & Hle & _) & _). by destruct r as [[]|]; split.
Qed.

(** ** Sending the current transaction *)

Definition only (tx : Transaction) (h : list Ev) : Prop :=
  forall tx', sent h tx' -> refuted h tx' \/ tx' = tx.

Lemma only_quiet_but tx h : only tx h -> quiet_but (pending_of tx) h.
Proof. intros Ho tx' Hs. destruct (Ho tx' Hs) as [| ->]; [by left|by right]. Qed.

Lemma of_tx_safe tx tasks pe h evs :
  Forall (of_tx tx tasks) evs -> safe h -> outbox_may_hold h = [Executing (into_stage pe)] ->
  pe_transaction pe = pending_of tx -> quiet h \/ existsb is_commit tasks = false ->
  safe (h ++ evs) /\ (quiet h -> only tx (h ++ evs)).
Proof.
  intros He Hs Hm Hpe Hq. destruct (existsb is_commit tasks) eqn:Hc.
  - destruct Hq as [Hq|]; [|done].
    assert (safe (h ++ evs) /\ only tx (h ++ evs)
            /\ outbox_may_hold (h ++ evs) = [Executing (into_stage pe)]) as (? & ? & _); [|done].
    induction evs as [|ev evs IH] using rev_ind.
    { rewrite app_nil_r. split_and!; [done| |done]. intros tx' ?. left. by apply Hq. }
    apply Forall_app in He as [He Hev]. rewrite Forall_singleton in Hev.
    destruct (IH He) as (Hs1 & Ho1 & Hm1). rewrite app_assoc.
    assert (neutral ev -> safe ((h ++ evs) ++ [ev]) /\ only tx ((h ++ evs) ++ [ev])
            /\ outbox_may_hold ((h ++ evs) ++ [ev]) = [Executing (into_stage pe)]) as Hneutral.
    { intros Hn. assert (Forall neutral [ev]) by (by constructor).
      split_and!; [by apply safe_neutral| |by rewrite outbox_may_hold_neutral].
      intros tx' [Hx|Hx]%sent_app; [|by apply sent_neutral in Hx].
      destruct (Ho1 tx' Hx); [left; by apply refuted_app|by right]. }
    destruct ev; try done; [|by apply Hneutral..]. destruct Hev as [-> ->].
    destruct (safe_send (h ++ evs) tx tasks r pe) as [Hs2 _]; try done; [by apply only_quiet_but|].
    split_and!; [done| |by rewrite outbox_may_hold_snoc].
    intros tx' [Hx|(? & ? & [= <- <- <-] & _)%sent_one]%sent_app; [|by right].
    destruct (Ho1 tx' Hx); [left; by apply refuted_app|by right].
  - assert (Forall neutral evs) as Hn.
    { eapply Forall_impl; [exact He|]. intros ev. by apply of_tx_neutral. }
    split; [by apply safe_neutral|]. intros Hq' tx' Hx. left. by apply (quiet_neutral h evs).
Qed.

(** What is known once a transaction has been sent. *)
Definition settles (c : option Signature)
    (r : result (result Signature TransactionExecutionError) IntentExecutorError) (w : World Ev Exec)
    : Prop :=
  base (state w) (history w) /\ ex_confirmed (state w) = c
  /\ forall err, r = Ok (Err err) -> is_rejected err = true -> keeps c w.

Lemma keeps_settles c r w : keeps c w -> settles c r w.
Proof. intros Hk. split_and!; [apply Hk|apply Hk|done]. Qed.

Lemma base_state e e' h : base e h ->
  ex_follow_up e' = ex_follow_up e -> ex_current e' = ex_current e -> ex_confirmed e' = ex_confirmed e ->
  (can_retry (rp_progress (ex_report e')) = true -> quiet h \/ is_Some (ex_confirmed e)) ->
  base e' h.
Proof.
  intros [B1 B2 B3 B4] Hf Hc Hcc Hr. split; rewrite ?Hf, ?Hc, ?Hcc; try done.
  intros Hcr. destruct (Hr Hcr) as [|Hs]; [done|]. unfold can_retry in Hcr.
  apply andb_true_iff in Hcr as [Hn%bool_decide_eq_true _]. unfold ex_confirmed in *.
  rewrite <- Hcc, Hn in Hs. by destruct Hs.
Qed.

Definition sent_post (c : option Signature)
    (r : unit + result (result Signature TransactionExecutionError) IntentExecutorError)
    (w : World Ev Exec) : Prop :=
  match r with inl _ => keeps c w | inr r => settles c r w end.

Lemma handle_sent_spec committed c signature r w :
  base (state w) (history w) -> ex_confirmed (state w) = c ->
  can_retry (rp_progress (ex_report (state w))) = false ->
  (forall e, r = Err e -> is_rejected e = true -> is_Some c \/ quiet (history w)) ->
  wp (handle_sent committed c signature r) (fun r w' => sent_post c r w' /\ awaits w' <= awaits w)
    (fun _ => keeps c) w.
Proof.
  intros Hb Hc Hcr Hr. unfold handle_sent. apply wp_modify. destruct r as [[]|err].
  { apply wp_modify. split; [|done]. split_and!; [|done|done]. eapply base_state; [exact Hb|done..|].
    unfold can_retry. cbn. by rewrite andb_false_r. }
  destruct (is_rejected err) eqn:Hrej.
  2: { apply wp_bind. cbn [wp pret]. apply wp_bind. apply recover_unrejected; [done|].
       split; [|done]. split_and!; [|done|intros ? [= <-]; congruence].
       eapply base_state; [exact Hb|done..|]. cbn. by rewrite Hcr. }
  apply wp_modify. specialize (Hr err eq_refl Hrej).
  pose (w1 := mkWorld (set_transaction (Rejected signature) (set_pending None (state w)))
                (history w) (awaits w)).
  assert (keeps c w1) as Hk1.
  { split_and!; [|by rewrite <- Hc in Hr; destruct Hr; [left|right]|done].
    eapply base_state; [exact Hb|done..|]. rewrite Hc. tauto. }
  apply wp_bind. eapply wp_mono; [apply (recover_spec committed err c w1 Hk1)| |done].
  intros fl w2 [Hk2 Hle]. cbn [awaits] in Hle.
  destruct fl as [[]|e]; [|by split; [apply keeps_settles|]..].
  apply wp_bind. eapply wp_mono; [apply (keeps_extends (fun _ => False) invalidate_cached_blockhash c w2); [by apply extends_await|done]| |done].
  intros [] w3 (Hk3 & (_ & Hle3 & _) & _). apply wp_get.
  assert (awaits w3 <= awaits w) as Hle' by (cbn in *; lia).
  assert (keeps c (mkWorld (add_patched_error err (state w3)) (history w3) (awaits w3))) as Hp.
  { destruct w3. eapply same_core_keeps; [|exact Hk3]. by split_and!; [apply weaker_refl|..]. }
  assert (forall r, sent_post c (inr r) w3) as Hs by (intros; by apply keeps_settles).
  assert (wp (if (TRANSACTION_LOOP_CEILING <=? ex_attempt (state w3))%Z
              then pret (inr (Ok (Err err)))
              else pbind (pmodify (add_patched_error err)) (fun _ => pret (inl tt)))
            (fun r w' => sent_post c r w' /\ awaits w' <= awaits w) (fun _ => keeps c) w3) as Hend.
  { case_match; [by split|]. by apply wp_modify. }
  destruct c as [cs|]; [|exact Hend]. destruct (is_nil (ts_tasks (ex_current (state w3)))); [|exact Hend].
  destruct err; try (by split). apply wp_modify. split; [by apply keeps_settles|done].
Qed.

Lemma quiet_stage h id stage nonces r : quiet h -> quiet (h ++ [ESetStage id stage nonces r]).
Proof. intros Hq tx [Hs|(? & ? & [=] & _)%sent_one]%sent_app. by apply refuted_app, Hq. Qed.

Lemma keeps_stage c e h n m id pe nonces r :
  keeps c (mkWorld e h n) -> pe_confirmed_commit pe = c -> is_Some c \/ quiet h ->
  (c = None -> ex_pending e = None) ->
  keeps c (mkWorld e (h ++ [ESetStage id (into_stage pe) nonces r]) m).
Proof.
  intros ([B1 B2 B3 B4] & Hl & Hc) Hpe Hq Hp. cbn in *. split_and!; cbn; [|by destruct Hq as [|Hq]; [left; rewrite Hc|destruct c; [left; rewrite Hc; by eexists|right; rewrite Hp by done; by apply quiet_stage]]|done].
  split; cbn; [|done..|].
  - apply safe_stage; [done|]. rewrite Hpe. tauto.
  - intros Hr. apply quiet_stage. auto.
Qed.

(** The executor while [tx], which is recorded, is being sent. *)
Lemma keeps_sending c e h n m evs tx tasks pe :
  keeps c (mkWorld e h n) -> ex_pending e = Some (pending_of tx) ->
  can_retry (rp_progress (ex_report e)) = false ->
  outbox_may_hold h = [Executing (into_stage pe)] -> pe_transaction pe = pending_of tx ->
  is_Some c \/ quiet h -> (is_Some c -> existsb is_commit tasks = false) ->
  Forall (of_tx tx tasks) evs ->
  keeps c (mkWorld e (h ++ evs) m) /\ (is_Some c \/ only tx (h ++ evs)).
Proof.
  intros ([B1 B2 B3 B4] & Hl & Hc) Hp Hcr Hm Hpe Hq Hno He. cbn in *.
  destruct (of_tx_safe tx tasks pe h evs) as [Hs Ho]; try done.
  { destruct Hq; [right; auto|by left]. }
  assert (is_Some c \/ only tx (h ++ evs)) as Hco by (destruct Hq; [by left|right; auto]).
  split; [|done]. split_and!; cbn; [|unfold live; rewrite Hp, Hc; destruct Hco; [by left|right; by apply only_quiet_but]|done].
  split; cbn; [done..|congruence].
Qed.

Lemma send_current_spec id committed c hf w :
  keeps c w -> ex_pending (state w) = None ->
  wp (send_current id committed c hf)
    (fun r w' => sent_post c r w' /\ awaits w' < awaits w) (fun _ => keeps c) w.
Proof.
  intros Hk Hp. unfold send_current. apply wp_get. apply wp_modify.
  pose (w1 := mkWorld (set_attempt (ex_attempt (state w) + 1) (state w)) (history w) (awaits w)).
  assert (keeps c w1) as Hk1 by (destruct w; eapply same_core_keeps; [|exact Hk]; by split_and!; [apply weaker_refl|..]).
  apply wp_bind.
  eapply wp_mono; [apply (keeps_extends _ _ c w1 (prepare_transaction_neutral _) Hk1)| |done].
  intros pr w2 (Hk2 & (Hst2 & Hle2 & _) & Hlt2). specialize (Hlt2 I).
  destruct pr as [tx|err]; [|by split; [apply keeps_settles|]].
  assert (is_Some c \/ quiet (history w2)) as Hq.
  { destruct Hk2 as (_ & [Hl|Hl] & Hc2); [left; by rewrite <- Hc2|right]. by rewrite Hst2 in Hl; cbn in Hl; rewrite Hp in Hl. }
  set (p := pending_of tx). cbv zeta. apply wp_modify.
  pose (e3 := set_transaction (Prepared (pt_signature p)) (state w2)).
  assert (keeps c (mkWorld e3 (history w2) (awaits w2))) as Hk3.
  { destruct w2. apply keeps_transaction; [done|]. cbn. tauto. }
  assert (ex_pending e3 = None) as Hp3 by (cbn; rewrite Hst2; cbn; done).
  assert (is_Some c -> existsb is_commit (ts_tasks (ex_current (state w))) = false) as Hno.
  { intros Hc. destruct Hk as ([_ _ B3 _] & _ & Hcc). rewrite <- Hcc in Hc. by destruct (B3 Hc). }
  set (pe := mkPendingExecution p c hf). apply wp_bind. apply wp_await; [done|..].
  2: { intros n i _ _. by eapply keeps_stage. }
  intros n ans Hn _. cbn [awaits history state] in Hn |- *.
  match goal with |- wp _ _ _ ?w => set (w4 := w) end.
  assert (keeps c w4) as Hk4 by (by eapply keeps_stage).
  destruct ans as [[]|err]; [|by split; [apply keeps_settles|cbn in *; lia]].
  apply wp_modify. apply wp_modify.
  pose (w5 := mkWorld (set_transaction (Submitted (pt_signature p)) (set_pending (Some p) e3)) (history w4) n).
  assert (outbox_may_hold (history w4) = [Executing (into_stage pe)]) as Hm
    by (unfold w4; cbn [history]; by rewrite outbox_may_hold_snoc).
  assert (is_Some c \/ quiet (history w4)) as Hq4 by (destruct Hq; [by left|right; by apply quiet_stage]).
  assert (keeps c w5) as Hk5.
  { apply keeps_transaction; [|done]. apply keeps_pending; [exact Hk4|].
    destruct Hq4 as [|Hq4]; [by left|right]. intros tx' Hs. left. by apply Hq4. }
  apply wp_bind. eapply wp_mono; [apply (send_signed_spec tx _ w5)| |].
  2: { intros i w6 (Hst & _ & evs & Hh & Hf). destruct w6 as [e6 h6 n6]. cbn in *. subst e6 h6.
       eapply (keeps_sending c _ _ n _ evs tx); try done. unfold can_retry. cbn. by rewrite andb_false_r. }
  intros r w6 ((Hst & Hle6 & evs & Hh & Hf) & Hlt & Hans).
  destruct (keeps_sending c (state w5) (history w5) n (awaits w6) evs tx (ts_tasks (ex_current (state w))) pe)
    as [Hk6 Ho6]; try done. { unfold can_retry. cbn. by rewrite andb_false_r. }
  rewrite <- Hst, <- Hh in Hk6. rewrite <- Hh in Ho6.
  eapply wp_mono; [apply (handle_sent_spec committed c)| |done].
  - apply Hk6.
  - apply Hk6.
  - rewrite Hst. unfold can_retry. cbn. by rewrite andb_false_r.
  - intros err -> Hrej. destruct Ho6 as [|Ho6]; [by left|right]. destruct Hans as (ans & Hin & Herr).
    intros tx' Hs. destruct (Ho6 tx' Hs) as [| ->]; [done|].
    eapply refuted_by_node; [exact Hin|by eapply rejected_refuses].
  - intros r' w7 [Hpost Hle7]. split; [done|]. cbn in *. lia.
Qed.

(** ** [execute_current] *)

(** Asking the outbox for a recorded transaction. *)
Lemma reconcile_spec id b c w :
  keeps c w ->
  wp (reconcile_outbox id b)
    (fun _ w' => keeps c w' /\ awaits w' <= awaits w
                 /\ (b = false -> ex_pending (state w') = None -> awaits w' < awaits w))
    (fun _ => keeps c) w.
Proof.
  intros Hk. unfold reconcile_outbox. apply wp_get. case_bool_decide as Hp; cbn; [|by split_and!].
  destruct b; cbn; [by split_and!|].
  apply wp_bind. unfold recover_pending_from_outbox. apply wp_bind.
  eapply wp_mono; [apply (keeps_extends (fun _ => True) (fetch_outbox_intent id) c w); [by apply extends_await|done]| |done].
  intros r w1 (Hk1 & (Hst & Hle & _) & Hlt). specialize (Hlt I). apply wp_get. cbn [wp pret].
  match goal with |- context [pmodify (set_pending ?o)] => generalize o; intros o' end.
  apply wp_modify. split_and!; [|cbn; lia|done].
  destruct w1 as [e1 h1 n1]. cbn in Hst. subst e1.
  assert (is_Some c \/ quiet h1) as Hq.
  { destruct Hk1 as (_ & [Hl|Hl] & Hc1); [left; by rewrite <- Hc1|right]. cbn in Hl. by rewrite Hp in Hl. }
  destruct o' as [p|]; [apply keeps_pending; [done|]|by apply keeps_no_pending].
  destruct Hq as [|Hq]; [by left|right]. intros tx Hs. left. by apply Hq.
Qed.

Lemma resolve_current_spec c w :
  keeps c w ->
  wp resolve_current
    (fun r w' => awaits w' <= awaits w /\ (ex_pending (state w) <> None -> awaits w' < awaits w)
       /\ match r with Some r => settles c r w' | None => keeps c w' /\ ex_pending (state w') = None end)
    (fun _ => keeps c) w.
Proof.
  intros Hk. unfold resolve_current. apply wp_get.
  destruct (ex_pending (state w)) as [p|] eqn:Hp; [|by split_and!]. apply wp_modify.
  pose (w1 := mkWorld (set_transaction (Submitted (pt_signature p)) (state w)) (history w) (awaits w)).
  assert (keeps c w1) as Hk1 by (destruct w; by apply keeps_transaction).
  apply wp_bind. eapply wp_mono; [apply (resolve_pending_spec p w1)| |].
  2: { intros i w2 G. exact (keeps_grows c w1 w2 G Hk1). }
  intros r w2 (G & Hlt & Href). pose proof (keeps_grows c w1 w2 G Hk1) as Hk2.
  assert (ex_pending (state w2) = Some p) as Hp2 by (destruct G as (-> & _); done).
  destruct w2 as [e2 h2 n2]. cbn in Hlt, Hp2.
  assert (n2 <= awaits w) by lia.
  destruct r as [[]|err]; [| |split_and!; [done|done|by apply keeps_settles]].
  { apply wp_modify. split_and!; [done|done|]. by apply keeps_settles, keeps_transaction. }
  assert (is_Some c \/ quiet h2) as Hq.
  { destruct Hk2 as (_ & [Hl|Hl] & Hc2); [left; by rewrite <- Hc2|right]. cbn in Hl. rewrite Hp2 in Hl.
    intros tx Hs. destruct (Hl tx Hs) as [|Heq]; [done|]. by apply Href. }
  apply wp_modify. apply wp_modify. split_and!; [done|done| |done].
  apply keeps_no_pending; [|done]. apply keeps_transaction; [done|]. tauto.
Qed.

Lemma send_unless_done_spec id committed c hf b w :
  keeps c w -> ex_pending (state w) = None ->
  wp (send_unless_done id committed c hf b)
    (fun r w' => awaits w' <= awaits w
       /\ match r with inl _ => keeps c w' /\ awaits w' < awaits w | inr r => settles c r w' end)
    (fun _ => keeps c) w.
Proof.
  intros Hk Hp. unfold send_unless_done. apply wp_get.
  assert (wp (pbind (send_current id committed c hf)
                (fun r => pret (match r with inl _ => inl b | inr r => inr r end)))
    (fun r w' => awaits w' <= awaits w
       /\ match r with inl _ => keeps c w' /\ awaits w' < awaits w | inr r => settles c r w' end)
    (fun _ => keeps c) w) as Hs.
  { apply wp_bind. eapply wp_mono; [by apply send_current_spec| |done].
    intros [[]|r] w3 [Hpost Hlt3]; cbn in Hpost |- *; (split; [lia|]); done. }
  destruct c; [|exact Hs]. destruct (is_nil _); [|exact Hs]. split; [done|]. by apply keeps_settles.
Qed.

Lemma current_iteration_spec id committed c hf b w :
  keeps c w ->
  wp (current_iteration id committed c hf b)
    (fun r w' => (b = false -> awaits w' < awaits w) /\ awaits w' <= awaits w
       /\ match r with inl _ => keeps c w' /\ awaits w' < awaits w | inr r => settles c r w' end)
    (fun _ => keeps c) w.
Proof.
  intros Hk. unfold current_iteration. apply wp_bind.
  eapply wp_mono; [by apply reconcile_spec| |done]. intros b' w1 (Hk1 & Hle1 & Hlt1).
  apply wp_bind. eapply wp_mono; [by apply resolve_current_spec| |done]. intros r w2 (Hle2 & Hlt2 & Hr).
  assert (b = false -> awaits w2 < awaits w) as Hb.
  { intros Hb. destruct (ex_pending (state w1)) eqn:Hp; [|specialize (Hlt1 Hb eq_refl); lia].
    specialize (Hlt2 ltac:(done)). lia. }
  destruct r as [r|]; [by split_and!; [|lia|]|]. destruct Hr as [Hk2 Hp2].
  eapply wp_mono; [by apply send_unless_done_spec| |done].
  intros r w3 (Hle3 & Hr3). split_and!; [intros Hf; specialize (Hb Hf); lia|lia|].
  destruct r; [|done]. destruct Hr3. split; [done|lia].
Qed.

Lemma execute_current_spec id committed c w :
  keeps c w ->
  wp (execute_current id committed) (fun r w' => settles c r w' /\ awaits w' < awaits w)
    (fun _ => keeps c) w.
Proof.
  intros Hk. unfold execute_current. apply wp_get.
  replace (ex_confirmed (state w)) with c by (symmetry; apply Hk).
  apply (wp_loop _ (fun b w' => keeps c w' /\ awaits w' <= awaits w /\ (b = true -> awaits w' < awaits w)));
    [|by split_and!].
  intros b w1 (Hk1 & Hle & Hlt). eapply wp_mono; [by apply current_iteration_spec| |done].
  intros r w2 (Hf & Hle2 & Hr). destruct r as [b'|r].
  - destruct Hr as [Hk2 Hlt2]. split; [|done]. split_and!; [done|lia|lia].
  - split; [done|]. destruct b; [specialize (Hlt eq_refl); lia|specialize (Hf eq_refl); lia].
Qed.

(** ** [execute] *)

Lemma execute_current_spends id committed : spends (execute_current id committed).
Proof.
  unfold execute_current, current_iteration, reconcile_outbox, recover_pending_from_outbox, resolve_current,
    resolve_pending_signature, resolve_iteration, check_pending_signature, send_unless_done, send_current,
    prepare_transaction, get_latest_blockhash, get_with_retries, get_attempt, after_error,
    get_signature_statuses_with_history_at_commitment, ptry, handle_sent, recover, handle_actions_result,
    send_signed_tx_with_retries, send_transaction_with_retries, send_attempt, after_error,
    finalize_legacy_commit, random, sleep, elapsed.
  repeat first [ spends_step | progress unfold after_error ].
Qed.

Lemma execute_with_timeout_spec id committed c w :
  keeps c w ->
  wp (execute_with_timeout id committed) (fun r w' => settles c r w' /\ awaits w' < awaits w)
    (fun _ => keeps c) w.
Proof.
  intros Hk. unfold execute_with_timeout. apply wp_bind. unfold time_left, call, wp at 1. cbv zeta.
  match goal with |- wp _ _ _ ?w => set (w1 := w) end.
  assert (keeps c w1) as Hk1.
  { eapply keeps_grows; [|exact Hk]. split_and!; [done|done|]. eexists [_]. split; [done|]. by repeat constructor. }
  assert (awaits w1 = awaits w) as Ha by done. apply wp_get.
  assert (forall w2, keeps c w2 -> awaits w2 <= awaits w ->
    wp (execute_current id committed) (fun r w' => settles c r w' /\ awaits w' < awaits w)
      (fun _ => keeps c) w2) as Hcur.
  { intros w2 Hk2 Hle. eapply wp_mono; [by apply execute_current_spec| |done]. intros r w3 [? ?]. split; [done|lia]. }
  case_match; [|apply Hcur; [done|lia]]. apply wp_bind.
  assert (forall w2, keeps c w2 -> awaits w2 <= awaits w ->
    wp (pbind (execute_callbacks None (Err TimeoutError)) (fun _ => execute_current id committed))
      (fun r w' => settles c r w' /\ awaits w' < awaits w) (fun _ => keeps c) w2) as Hlate.
  { intros w2 Hk2 Hle. apply wp_bind. eapply wp_mono; [apply (execute_callbacks_spec (keeps c)); [apply stable_keeps|done]| |done].
    intros [] w3 [Hk3 Ha3]. apply Hcur; [done|lia]. }
  destruct (ask_time_left (history w)); [|apply Hlate; [done|lia]].
  apply wp_timeout.
  eapply wp_mono;
    [exact (wp_spends _ _ _ _ (execute_current_spends id committed) (execute_current_spec id committed c w1 Hk1))| |].
  - intros r w2 [[Hs Hlt] Hle]. split; [done|lia].
  - intros [] w2 [Hk2 Hle]; [|done]. apply Hlate; [done|lia].
Qed.

Lemma rposition_drop l :
  existsb is_commit (drop (match rposition is_commit l with Some i => S i | None => 0 end) l) = false.
Proof.
  induction l as [|t l IH]; [done|]. cbn [rposition]. destruct (rposition is_commit l) as [i|]; [exact IH|].
  destruct (is_commit t) eqn:Ht; cbn in *; [by rewrite drop_0 in IH|]. by rewrite Ht.
Qed.

Lemma split_no_commits s : no_commits (snd (split_for_follow_up s)).
Proof. unfold split_for_follow_up, no_commits. cbn. apply rposition_drop. Qed.

(** An execution that has ended. *)
Definition finished (w : World Ev Exec) : Prop :=
  safe (history w) /\ (can_retry (rp_progress (ex_report (state w))) = true -> quiet (history w)).

Definition running (w : World Ev Exec) : Prop := exists c, keeps c w.

Definition iteration_post (n : nat) (r : unit + result ExecutionOutput IntentExecutorError)
    (w : World Ev Exec) : Prop :=
  match r with inl _ => running w /\ awaits w < n | inr _ => finished w end.

Lemma conclude_spec c r w n :
  based c w -> awaits w < n -> wp (conclude r) (iteration_post n) (fun _ => running) w.
Proof.
  intros [[B1 B2 B3 B4] Hc] Hn. destruct r as [sig|err]; [|split; [done|auto]]. apply wp_get.
  destruct (ex_follow_up (state w)) as [f|] eqn:Hf.
  - split; [|done]. exists (Some sig). split_and!; [|by left; eexists|done].
    split; cbn; [done|done|intros _; split; [by apply B2|done]|done].
  - split; [done|]. cbn. unfold can_retry. cbn. by rewrite andb_false_r.
Qed.

Lemma finish_iteration_spec committed c r w n :
  settles c r w -> awaits w < n ->
  wp (finish_iteration committed r) (iteration_post n) (fun _ => running) w.
Proof.
  intros (Hb & Hc & _) Hn. unfold finish_iteration. apply wp_get. cbv zeta. apply wp_bind.
  match goal with |- wp (if ?b then _ else _) _ _ _ => destruct b end; [|by apply (conclude_spec c)].
  eapply wp_mono; [apply (execute_callbacks_spec (based c)); [apply stable_based|done]| |done].
  intros [] w' [Hb' Ha]. apply (conclude_spec c); [done|lia].
Qed.

Lemma execute_iteration_spec id committed w :
  running w -> wp (execute_iteration id committed tt) (iteration_post (awaits w)) (fun _ => running) w.
Proof.
  intros [c Hk]. unfold execute_iteration. apply wp_bind.
  eapply wp_mono; [by apply execute_with_timeout_spec| |intros i w' Hk'; by exists c].
  intros r w1 [Hs Hlt]. apply wp_get.
  destruct r as [[sig|err]|err]; [by eapply finish_iteration_spec| |by eapply finish_iteration_spec].
  destruct (is_combined (state w1) && _ && _ && _) eqn:Hsplit; [|by eapply finish_iteration_spec].
  apply andb_true_iff in Hsplit as [Hsplit Hrec]. apply andb_true_iff in Hsplit as [Hsplit _].
  apply andb_true_iff in Hsplit as [Hcomb _]. apply andb_true_iff in Hcomb as [_ Hcn%bool_decide_eq_true].
  assert (is_rejected err = true) as Hrej by (by destruct err).
  destruct Hs as (_ & _ & Hk1). specialize (Hk1 err eq_refl Hrej).
  pose proof (split_no_commits (ex_current (state w1))) as Hno.
  destruct (split_for_follow_up (ex_current (state w1))) as [cur fol]. cbn in Hno.
  split; [|done]. exists c. destruct Hk1 as ([B1 B2 B3 B4] & Hl & Hc1). rewrite Hcn in Hc1. subst c.
  split_and!; [|done|done]. split; cbn; [done|by intros ? [= <-]| |done].
  intros Hx. unfold ex_confirmed in *. cbn in *. rewrite Hcn in Hx. by destruct Hx.
Qed.

Lemma execute_spec id committed w :
  running w -> wp (execute id committed) (fun _ => finished) (fun _ => running) w.
Proof.
  intros Hr. apply (wp_loop _ (fun _ => running)); [|done].
  intros [] w1 Hr1. eapply wp_mono; [by apply execute_iteration_spec| |done].
  intros [[]|r] w2 Hp; exact Hp.
Qed.

Lemma running_safe w : running w -> safe (history w).
Proof. intros (c & [Hs _ _ _] & _). done. Qed.
End inv.
