(* ===== verification/SettleOnce.v ===== *)
(** * An intent is settled at most once

    The executor's invariant carried through [intent.rs] and the retries of
    [worker.rs], over any number of crashes and restarts of the validator. *)

From stdpp Require Import base gmap sets list strings.
From Stdlib Require Import ZArith Lia.
From S2P Require Import Prelude Intent Outbox Limits Tasks Process RpcClient Strategist.
From S2P Require Import ExecErrors ExecClient TaskBuilder Runner IntentExec RunnerSafety RunnerInv.
From S2P Require Import ConcreteExec.

Open Scope proc_scope.

(** ** Commits are not in the follow-up *)

Lemma existsb_app_false {A} (p : A -> bool) l l' :
  existsb p l = false -> existsb p l' = false -> existsb p (l ++ l') = false.
Proof. intros H1 H2. by rewrite existsb_app, H1, H2. Qed.

Lemma action_tasks_no_commits l : existsb is_commit (create_action_tasks l) = false.
Proof. by induction l. Qed.

Lemma base_action_tasks_no_commits t : existsb is_commit (base_action_tasks t) = false.
Proof. destruct t; [done|]. apply action_tasks_no_commits. Qed.

Lemma undelegate_tasks_no_commits v md ts :
  create_undelegate_tasks v md = Ok ts -> existsb is_commit ts = false.
Proof.
  unfold create_undelegate_tasks. generalize (CommitAndUndelegate.get_committed_accounts v). intros accs.
  destruct (try_collect _ accs) as [us|e] eqn:Hc; cbn; [|done]. intros [= <-].
  assert (existsb is_commit us = false) as Hu.
  { apply try_collect_Ok in Hc. induction Hc as [|a u accs us Ha _ IH]; [done|]. cbn. rewrite IH, orb_false_r.
    destruct (delegation_metadata_for_pubkey (ca_pubkey a) md); cbn in Ha; by simplify_eq. }
  destruct (undelegate_action v); [done|]. by apply existsb_app_false; [|apply action_tasks_no_commits].
Qed.

Lemma follow_up_tasks_no_commits b md ts :
  follow_up_tasks_from b md = Ok ts -> existsb is_commit ts = false.
Proof.
  unfold follow_up_tasks_from. intros Hts.
  destruct (match commit_and_undelegate b with Some v => _ | None => Ok [] end) as [t2|] eqn:E2;
    cbn in Hts; [|done].
  destruct (match commit_finalize_and_undelegate b with Some v => _ | None => Ok [] end) as [t3|] eqn:E3;
    cbn in Hts; [|done].
  injection Hts as <-. apply existsb_app_false; [|apply existsb_app_false].
  - destruct (commit b); [apply base_action_tasks_no_commits|done].
  - destruct (commit_and_undelegate b) as [v|]; [|by simplify_eq].
    destruct (create_undelegate_tasks v md) eqn:Hu; cbn in E2; [|done]. injection E2 as <-.
    apply existsb_app_false; [apply base_action_tasks_no_commits|by eapply undelegate_tasks_no_commits].
  - destruct (commit_finalize_and_undelegate b); [by eapply undelegate_tasks_no_commits|by simplify_eq].
Qed.

Lemma redelivered_commits l l' :
  Forall2 redelivered l l' -> existsb is_commit l' = existsb is_commit l.
Proof. induction 1 as [|t t' l l' Ht _ IH]; [done|]. cbn. by rewrite IH, (redelivered_commit t t'). Qed.

Section once.
Context `{ExecEnv} `{DlpErrors}.
Abbreviation Ev := (Event Transaction).
Abbreviation R := IntentExecutionReport.

(** A neutral process whose result has a property. *)
Definition yields {St A} (V : A -> Prop) (m : Proc Ev St A) : Prop := forall w,
  wp m (fun a w' => grows neutral w w' /\ V a) (fun _ w' => grows neutral w w') w.

Lemma yields_extends {St A} (C : A -> Prop) (m : Proc Ev St A) :
  extends neutral C m -> yields (fun _ => True) m.
Proof. intros Hm w. eapply wp_mono; [apply Hm|intros a w' [G _]; by split|done]. Qed.

Lemma yields_ret {St A} (V : A -> Prop) a : V a -> yields (St := St) V (pret a).
Proof. intros HV w. split; [apply grows_refl|done]. Qed.

Lemma yields_bind {St A B} (V : A -> Prop) (V' : B -> Prop) (m : Proc Ev St A) k :
  yields V m -> (forall a, V a -> yields V' (k a)) -> yields V' (pbind m k).
Proof.
  intros Hm Hk w. apply wp_bind. eapply wp_mono; [apply Hm| |done]. intros a w1 [G1 HV].
  eapply wp_mono; [by apply (Hk a)| |intros i w2; by apply grows_trans].
  intros b w2 [G2 HV']. split; [by eapply grows_trans|done].
Qed.

Definition ok_yields {St A E} (V : A -> Prop) (m : Proc Ev St (result A E)) : Prop :=
  yields (fun r => forall a, r = Ok a -> V a) m.

Lemma ok_yields_any {St A E} C (m : Proc Ev St (result A E)) :
  extends neutral C m -> ok_yields (fun _ => True) m.
Proof. intros Hm w. eapply wp_mono; [apply Hm|intros a w' [G _]; by split|done]. Qed.

Lemma ok_yields_try {St A B E} (V : A -> Prop) (V' : B -> Prop) (m : Proc Ev St (result A E)) k :
  ok_yields V m -> (forall a, V a -> ok_yields V' (k a)) -> ok_yields V' (ptry m k).
Proof.
  intros Hm Hk. eapply yields_bind; [exact Hm|]. intros [a|e] HV; [by apply Hk, HV|]. by apply yields_ret.
Qed.


Lemma strategist_yields {A} (V : A -> Prop) (m : Rand (result A TaskStrategistError)) :
  (forall n a, fst (m n) = Ok a -> V a) -> ok_yields V (strategist m).
Proof.
  intros Hm. unfold strategist, random. intros w. unfold wp, pbind, call, pret. cbv zeta. split.
  - split_and!; [done|done|]. eexists [_]. split; [done|]. by repeat constructor.
  - intros a. specialize (Hm (ask_random (history w))). destruct (fst (m _)); cbn; intros; simplify_eq; auto.
Qed.

Lemma built_yields {A} (V : A -> Prop) (m : Proc Ev R (result A TaskBuilderError)) :
  ok_yields V m -> ok_yields V (built m).
Proof.
  intros Hm. eapply yields_bind; [exact Hm|]. intros [a|e] HV; apply yields_ret; [|done].
  intros ? [= <-]. by apply HV.
Qed.

(** ** Strategies *)

Lemma follow_up_tasks_yields {St} intent :
  ok_yields (St := St) (fun ts => existsb is_commit ts = false) (follow_up_tasks intent).
Proof.
  unfold follow_up_tasks. eapply yields_bind; [eapply yields_extends, fetch_delegation_metadata_neutral|].
  intros [md|e] _; apply yields_ret; [|done]. intros ts. apply follow_up_tasks_no_commits.
Qed.

Lemma build_strategy_no_commits tasks nonce n s :
  existsb is_commit tasks = false -> fst (build_strategy tasks authority nonce n) = Ok s -> no_commits s.
Proof.
  intros Ht Hs. pose proof (build_strategy_spec tasks authority nonce n) as Hspec. rewrite Hs in Hspec.
  destruct Hspec as (Hr & _). unfold no_commits. by rewrite (redelivered_commits _ _ Hr).
Qed.

Definition plan_split (p : TransactionPlan) : Prop := forall s, tp_follow_up p = Some s -> no_commits s.

Lemma plan_carries_split cs fs nonce p :
  existsb is_commit fs = false -> plan_carries cs fs authority nonce p -> plan_split p.
Proof.
  intros Hf Hp s Hs. unfold plan_carries in Hp. rewrite Hs in Hp. destruct Hp as [_ (Hr & _)].
  unfold no_commits. by rewrite (redelivered_commits _ _ Hr).
Qed.

Lemma build_strategy_for_yields st intent keys : ok_yields plan_split (build_strategy_for st intent keys).
Proof.
  unfold build_strategy_for. cbv zeta. case_match.
  - eapply (ok_yields_try (fun _ => True)); [apply built_yields|].
    { eapply ok_yields_any, commit_tasks_neutral. }
    intros ts _. eapply (ok_yields_try (fun _ => True)); [by apply strategist_yields|].
    intros s _. apply yields_ret. intros ? [= <-] ? [=].
  - eapply yields_bind; [apply built_yields with (V := fun _ => True)|].
    { eapply ok_yields_any, commit_tasks_neutral. }
    intros cr _. eapply yields_bind; [apply built_yields, follow_up_tasks_yields|]. intros fr Hfr.
    destruct cr as [cs|e]; [|by apply yields_ret]. destruct fr as [fs|e]; [|by apply yields_ret].
    specialize (Hfr fs eq_refl). destruct (from_status st) as [pe|]; [destruct (pe_has_follow_up pe)|].
    + apply strategist_yields. intros n p Hp. destruct (build_split_plan _ _ _ _ n) as [r n'] eqn:E. cbn in Hp. subst r.
      apply build_split_plan_spec in E as [Hc _]. by eapply plan_carries_split.
    + eapply (ok_yields_try (fun _ => True)); [by apply strategist_yields|].
      intros s _. apply yields_ret. intros ? [= <-] ? [=].
    + apply strategist_yields. intros n p Hp. destruct (build_plan _ _ _ _ n) as [r n'] eqn:E. cbn in Hp. subst r.
      apply build_plan_spec in E. by eapply plan_carries_split.
Qed.

Lemma build_follow_up_yields intent : ok_yields no_commits (build_follow_up intent).
Proof.
  unfold build_follow_up. cbv zeta. eapply (ok_yields_try (fun _ => True)).
  - case_match; [by apply yields_ret|].
    eapply yields_bind; [eapply yields_extends, fetch_delegation_metadata_neutral|].
    intros [md|e] _; [|by apply yields_ret].
    eapply ok_yields_any, finalize_legacy_commits_neutral.
  - intros _ _. eapply ok_yields_try; [apply built_yields, follow_up_tasks_yields|].
    intros ts Hts. apply strategist_yields. intros n s. by apply build_strategy_no_commits.
Qed.

(** ** [execute_inner] *)

(** An attempt that may be retried has left nothing alive. *)
Definition reported (w : World Ev R) : Prop :=
  safe (history w) /\ (can_retry (rp_progress (state w)) = true -> quiet (history w)).
Definition stopped {St} (_ : interrupt) (w : World Ev St) : Prop := safe (history w).

Lemma grows_safe {St} (w w' : World Ev St) : grows neutral w w' -> safe (history w) -> safe (history w').
Proof. intros (_ & _ & evs & -> & Hn). by apply safe_neutral. Qed.
Lemma grows_quiet {St} (w w' : World Ev St) : grows neutral w w' -> quiet (history w) -> quiet (history w').
Proof. intros (_ & _ & evs & -> & Hn). by apply quiet_neutral. Qed.
Lemma grows_reflects {St} (w w' : World Ev St) st :
  grows neutral w w' -> reflects (history w) st -> reflects (history w') st.
Proof. intros (_ & _ & evs & -> & Hn). by apply reflects_neutral. Qed.

Lemma can_retry_confirmed p : is_Some (confirmed_commit p) -> can_retry p = false.
Proof. intros [c Hc]. unfold can_retry. by rewrite Hc. Qed.

Lemma run_executor_spec intent keys new w :
  running (mkWorld (new (state w)) (history w) (awaits w)) ->
  wp (run_executor intent keys new) (fun _ => reported) stopped w.
Proof.
  intros Hr. apply wp_zoom. eapply wp_mono; [by apply execute_spec| |].
  - intros r w' Hf. exact Hf.
  - intros i w'. apply running_safe.
Qed.

Lemma execute_work_spec st intent w :
  safe (history w) -> (confirmed_commit (rp_progress (state w)) = None -> quiet (history w)) ->
  wp (execute_work st intent) (fun _ => reported) stopped w.
Proof.
  intros Hs Hq. unfold execute_work. cbv zeta. apply wp_get.
  destruct (confirmed_commit (rp_progress (state w))) as [sig|] eqn:Hc.
  - apply wp_try. eapply wp_mono; [apply build_follow_up_yields| |intros i w' G; exact (grows_safe _ _ G Hs)].
    intros r w1 [G HV]. pose proof (grows_safe _ _ G Hs) as Hs1. pose proof G as (Hst & _).
    destruct r as [s|e].
    + apply run_executor_spec. exists (Some sig). split_and!; [|by left; eexists|done].
      split; cbn; [done|done|intros _; split; [by apply HV|done]|]. unfold can_retry. done.
    + split; [done|]. rewrite Hst, can_retry_confirmed; [done|]. by rewrite Hc.
  - specialize (Hq eq_refl). apply wp_try.
    eapply wp_mono; [apply build_strategy_for_yields| |intros i w' G; exact (grows_safe _ _ G Hs)].
    intros r w1 [G HV]. pose proof (grows_safe _ _ G Hs) as Hs1. pose proof (grows_quiet _ _ G Hq) as Hq1.
    destruct r as [plan|e]; [|by split]. destruct G as (Hst & _).
    apply run_executor_spec. exists None. unfold keeps, live, ex_confirmed. cbn. rewrite Hst, Hc.
    split_and!; [|by right|done]. split; cbn; [done|by apply HV| |done].
    unfold ex_confirmed. cbn. rewrite Hc. intros [? [=]].
Qed.

Lemma execute_inner_spec st intent w :
  safe (history w) -> reflects (history w) st -> rp_progress (state w) = ExecutionProgress_default ->
  wp (execute_inner st intent) (fun _ => reported) stopped w.
Proof.
  intros Hs Hr Hp. unfold execute_inner. destruct (from_status st) as [pe|] eqn:Hst.
  2: { assert (quiet (history w)) as Hq by (destruct Hr as [|(? & ? & _)]; [done|congruence]).
       case_match; [by split|]. by apply execute_work_spec. }
  cbv zeta. apply wp_modify. apply wp_try.
  eapply wp_mono; [apply resolve_pending_spec| |intros i w' G; exact (grows_safe _ _ G Hs)].
  intros r w1 (G & _ & Href). pose proof (grows_safe _ _ G Hs) as Hs1. pose proof (grows_reflects _ _ st G Hr) as Hr1.
  destruct r as [[]|e].
  - apply wp_bind, wp_get, wp_modify. case_match.
    + split; [done|]. cbn. unfold can_retry. cbn. by rewrite andb_false_r.
    + apply wp_modify. by apply execute_work_spec.
  - apply wp_bind, wp_get, wp_modify. apply execute_work_spec; [done|]. cbn.
    destruct G as (Hst1 & _). rewrite Hst1. cbn. intros Hcn.
    destruct Hr1 as [|(pe' & Hpe & Hl)]; [done|]. assert (pe' = pe) as -> by congruence.
    destruct Hl as [Hc|Hl]; [rewrite Hcn in Hc; by destruct Hc|].
    intros tx Htx. destruct (Hl tx Htx) as [|Heq]; [done|]. by apply Href.
  - split; [done|]. destruct G as (-> & _). cbn. unfold can_retry. cbn. by rewrite andb_false_r.
Qed.

(** ** The worker *)

Lemma report_and_close_spec r meta w :
  reported w -> wp (report_and_close_intent r meta) (fun _ => reported) stopped w.
Proof.
  intros [Hs Hq]. unfold report_and_close_intent. apply wp_get. cbv zeta. case_match; [by split|].
  apply wp_bind.
  eapply wp_mono; [by apply (extends_await neutral _ _ (fun _ => False))| |intros i w' G; exact (grows_safe _ _ G Hs)].
  intros r' w' [G _]. pose proof G as (Hst & _). split; [by eapply grows_safe|]. rewrite Hst.
  intros Hc. eapply grows_quiet; [done|auto].
Qed.

Definition attempt_left (r : IntentExecutionResult) (h : list Ev) : Prop :=
  safe h /\ (can_retry (ier_progress r) = true -> quiet h).

Lemma execute_intent_spec intent st w :
  safe (history w) -> reflects (history w) st ->
  wp (execute_intent intent st) (fun r w' => attempt_left r (history w')) stopped w.
Proof.
  intros Hs Hr. apply wp_zoom. apply wp_bind.
  eapply wp_mono; [by apply execute_inner_spec| |by intros i w'].
  intros r w1 Hrep. apply wp_bind. eapply wp_mono; [by apply report_and_close_spec| |by intros i w'].
  intros r' w2 Hrep2. apply wp_get. exact Hrep2.
Qed.

Lemma is_retriable_can_retry r b : is_retriable r b = true -> can_retry (ier_progress r) = true.
Proof.
  unfold is_retriable. destruct (ier_inner r); [done|].
  destruct (ier_callbacks_reported r), (can_retry (ier_progress r)); cbn; try done.
Qed.


Lemma execute_spends id committed : spends (execute id committed).
Proof.
  pose proof (execute_current_spends id committed) as Hcur.
  unfold execute, execute_iteration, execute_with_timeout, finish_iteration, conclude, execute_callbacks,
    handle_actions_result. repeat spends_step.
Qed.

Lemma yields_spends {St A} (V : A -> Prop) (m : Proc Ev St A) : yields V m -> spends m.
Proof.
  intros Hm w. specialize (Hm w). unfold wp in Hm.
  destruct (m w) as [a w'|i w'|]; [destruct Hm as [(_ & ? & _) _]|destruct Hm as (_ & ? & _)|]; done.
Qed.

Lemma execute_intent_spends intent st : spends (execute_intent intent st).
Proof.
  assert (forall id keys, spends (execute id keys)) as Hex by apply execute_spends.
  assert (forall keys, spends (build_strategy_for st intent keys)) as Hb
    by (intros; eapply yields_spends, build_strategy_for_yields).
  pose proof (yields_spends _ _ (build_follow_up_yields intent)) as Hf.
  unfold execute_intent, execute_inner, execute_work, report_and_close_intent, set_report_transaction,
    set_report_progress, run_executor, ptry, resolve_pending_signature, resolve_iteration,
    check_pending_signature, is_blockhash_valid, get_signature_statuses_with_history_at_commitment,
    get_with_retries, get_attempt, after_error, elapsed, sleep, notify_commit_sent.
  repeat first [ apply Hex | apply Hb | spends_step | progress unfold after_error ].
Qed.

(** The loop of [execute_with_retries]: a retry starts with nothing alive, so a
    stale record does no harm. *)
Definition retrying (s : nat * OutboxIntentBundle) (w : World Ev unit) : Prop :=
  safe (history w) /\ reflects (history w) (status (snd s)) /\ (0 < fst s -> quiet (history w)).

Lemma retrying_grows s w w' : grows neutral w w' -> retrying s w -> retrying s w'.
Proof.
  intros G (Hs & Hr & Hq). split_and!; [exact (grows_safe _ _ G Hs)|exact (grows_reflects _ _ _ G Hr)|].
  intros Hn. exact (grows_quiet _ _ G (Hq Hn)).
Qed.

Lemma quiet_retrying s w : safe (history w) -> quiet (history w) -> retrying s w.
Proof. intros Hs Hq. split_and!; [done|by left|done]. Qed.

Lemma reconcile_intent_spec attempt intent w :
  retrying (attempt, intent) w ->
  wp (if 1 <? S attempt then reconcile_intent intent else pret intent)
    (fun intent' w' => retrying (attempt, intent') w' /\ awaits w' <= awaits w) stopped w.
Proof.
  intros HJ. destruct attempt as [|attempt]; [by split|]. cbn [Nat.ltb Nat.leb].
  apply wp_bind.
  eapply wp_mono; [by apply (extends_await neutral _ _ (fun _ => False))| |].
  - intros r w' [G _]. apply (retrying_grows _ _ _ G) in HJ as (Hs & _ & Hq). split.
    + apply quiet_retrying; [done|]. apply Hq. cbn. lia.
    + by destruct G as (_ & ? & _).
  - intros i w' G. exact (grows_safe _ _ G (proj1 HJ)).
Qed.

(** What follows a retriable attempt. *)
Lemma retry_spec attempt (intent : OutboxIntentBundle) (r : IntentExecutionResult) ms (w : World Ev unit) n :
  safe (history w) -> quiet (history w) -> awaits w <= n ->
  wp (permit ← try_acquire_retry;
      if negb permit then pret (inr (Some r))
      else
        slept ← backoff ms;
        if negb slept then pret (inr None)
        else
          permit ← acquire_executor;
          pret (match permit with
                | None => inr None
                | Some true => inl (attempt, intent)
                | Some false => inr (Some r)
                end))
    (fun s w' => match s with
                 | inl s => retrying s w' /\ awaits w' < n
                 | inr _ => safe (history w')
                 end) stopped w.
Proof.
  intros Hs Hq Hn. apply wp_bind.
  eapply wp_mono; [by apply (extends_call neutral)| |intros i w' G; exact (grows_safe _ _ G Hs)].
  intros permit w1 [G1 _]. pose proof (grows_safe _ _ G1 Hs) as Hs1. pose proof (grows_quiet _ _ G1 Hq) as Hq1.
  destruct permit; [|done]. apply wp_bind.
  eapply wp_mono; [by apply (extends_await neutral _ _ (fun _ => True))| |intros i w' G; exact (grows_safe _ _ G Hs1)].
  intros slept w2 [G2 D]. pose proof (grows_safe _ _ G2 Hs1) as Hs2. pose proof (grows_quiet _ _ G2 Hq1) as Hq2.
  destruct slept; [|done]. apply wp_bind.
  eapply wp_mono; [by apply (extends_await neutral _ _ (fun _ => True))| |intros i w' G; exact (grows_safe _ _ G Hs2)].
  intros permit w3 [G3 _]. pose proof (grows_safe _ _ G3 Hs2) as Hs3. pose proof (grows_quiet _ _ G3 Hq2) as Hq3.
  destruct permit as [ [|] |]; [|done..]. split; [by apply quiet_retrying|].
  destruct G1 as (_ & ? & _), G3 as (_ & ? & _). specialize (D I). lia.
Qed.

Lemma attempt_iteration_spec intent s w :
  retrying s w ->
  wp (attempt_iteration intent s)
    (fun r w' => match r with
                 | inl s' => retrying s' w' /\ awaits w' < awaits w
                 | inr _ => safe (history w')
                 end) stopped w.
Proof.
  destruct s as [attempt current]. intros HJ. unfold attempt_iteration. cbv zeta. apply wp_bind.
  eapply wp_mono; [by apply (extends_call neutral)| |intros i w' G; exact (grows_safe _ _ G (proj1 HJ))].
  intros cancelled w1 [G1 _]. apply (retrying_grows _ _ _ G1) in HJ as HJ1. destruct G1 as (_ & Ha1 & _).
  destruct cancelled; [apply HJ1|]. apply wp_bind.
  eapply wp_mono; [by apply reconcile_intent_spec| |done]. intros current' w2 [HJ2 Ha2]. apply wp_bind.
  eapply wp_mono; [by apply (extends_call neutral)| |intros i w' G; exact (grows_safe _ _ G (proj1 HJ2))].
  intros cancelled w3 [G3 _]. apply (retrying_grows _ _ _ G3) in HJ2 as (Hs3 & Hr3 & _).
  destruct G3 as (_ & Ha3 & _). destruct cancelled; [done|]. apply wp_bind.
  eapply wp_mono;
    [exact (wp_spends _ _ _ _ (execute_intent_spends _ _) (execute_intent_spec (inner current') _ _ Hs3 Hr3))
    | |by intros i w' [? _]].
  intros r w4 [[Hs4 Hq4] Ha4]. case_match eqn:Hb; [done|]. apply orb_false_iff in Hb as [_ Hb].
  apply negb_false_iff, is_retriable_can_retry in Hb. apply retry_spec; [done|auto|lia].
Qed.

Lemma execute_with_retries_spec intent w :
  safe (history w) -> reflects (history w) (status intent) ->
  wp (execute_with_retries intent) (fun _ w' => safe (history w')) stopped w.
Proof.
  intros Hs Hr. apply (wp_loop _ retrying); [intros s w' HJ; by apply attempt_iteration_spec|].
  split_and!; [done|done|cbn; lia].
Qed.

(** ** Lifetimes *)

(** The calls made for one intent by a validator that may stop at any [await] and
    start again: it then resumes from what the outbox holds. *)
Definition trace {St A} (o : outcome Ev St A) : option (list Ev) :=
  match o with
  | Done _ w | Interrupted _ w => Some (history w)
  | OutOfFuel => None
  end.

Definition resume (h : list Ev) (record : OutboxIntentBundle) (calls : nat) : list Ev :=
  default [] (trace (execute_with_retries record (mkWorld tt (h ++ [EResume (status record)]) calls))).

Inductive lifetime (intent : ScheduledIntentBundle) : list Ev -> Prop :=
| lifetime_accepted : lifetime intent []
| lifetime_run h record calls h' :
    lifetime intent h -> inner record = intent -> status record ∈ outbox_may_hold h ->
    trace (execute_with_retries record (mkWorld tt (h ++ [EResume (status record)]) calls)) = Some h' ->
    lifetime intent h'.

Lemma safe_resume h st : safe h -> st ∈ outbox_may_hold h ->
  safe (h ++ [EResume st]) /\ reflects (h ++ [EResume st]) st.
Proof.
  intros [Hd Ho] Hst. rewrite Forall_forall in Ho. specialize (Ho st Hst).
  assert (reflects (h ++ [EResume st]) st) as Hr.
  { assert (forall tx, sent (h ++ [EResume st]) tx -> sent h tx) as Hsent
      by (intros tx [|(? & ? & [=] & _)%sent_one]%sent_app; done).
    destruct Ho as [Hq|(pe & Hpe & [Hc|Hq])]; [left|right; exists pe; by eauto|right; exists pe].
    - intros tx Htx. apply refuted_app, Hq. auto.
    - split; [done|right]. intros tx Htx. destruct (Hq tx); [auto|left; by apply refuted_app|by right]. }
  split; [|done]. split.
  - by apply disciplined_snoc.
  - rewrite outbox_may_hold_snoc. cbn. by apply Forall_singleton.
Qed.

Lemma lifetime_safe intent h : lifetime intent h -> safe h.
Proof.
  induction 1 as [|h record calls h' _ IH Hi Hst Htr].
  - split; [by intros [] ? ? ? ? [=]|]. repeat constructor. by intros ? (? & ? & ?%not_elem_of_nil & _).
  - destruct (safe_resume h (status record) IH Hst) as [Hs Hr].
    pose proof (execute_with_retries_spec record (mkWorld tt (h ++ [EResume (status record)]) calls) Hs Hr) as Hwp.
    unfold wp in Hwp. destruct (execute_with_retries _ _) as [a w|i w|]; cbn in Htr; by simplify_eq.
Qed.

(** ** What a lifetime guarantees *)

Lemma ordered_sends h tx tx' : sent h tx -> sent h tx' -> tx = tx' \/
  exists h1 h2 t tasks r t',
    h = h1 ++ ESend t tasks r :: h2 /\ existsb is_commit tasks = true /\ sent h1 t'
    /\ ((t = tx /\ t' = tx') \/ (t = tx' /\ t' = tx)).
Proof.
  intros (ts & r & Hin & Hc) (ts' & r' & Hin' & Hc').
  apply list_elem_of_split in Hin as (h1 & h2 & ->).
  apply elem_of_app in Hin' as [Hin'|[[= -> _ _]|Hin']%elem_of_cons]; [right|by left|right].
  - exists h1, h2, tx, ts, r, tx'. split_and!; [done|done|by exists ts', r'|by left].
  - apply list_elem_of_split in Hin' as (h3 & h4 & ->).
    exists (h1 ++ ESend tx ts r :: h3), h4, tx', ts', r', tx. rewrite <- app_assoc.
    split_and!; [done|done|exists ts, r; split; [set_solver|done]|by right].
Qed.

(** C1: a commit is never sent while an earlier transaction that carries it may
    still land. Over any number of timeouts, crashes at an [await] and restarts from
    what the outbox may hold, whenever the validator sends a transaction with
    commits, the outbox is known to record exactly this transaction as the one in
    flight, and every other commit transaction sent before was found dead: a node
    rejected it, its final status is an error, or its blockhash had expired while it
    had no final status. *)
Theorem commits_sent_one_at_a_time intent h : lifetime intent h ->
  forall h1 h2 tx tasks r, h = h1 ++ ESend tx tasks r :: h2 -> existsb is_commit tasks = true ->
  recorded h1 tx /\ forall tx', sent h1 tx' -> refuted h1 tx' \/ tx' = tx.
Proof. intros Hl. exact (proj1 (lifetime_safe intent h Hl)). Qed.

(** C2: an intent is settled at most once. When no transaction that was found dead
    has landed, at most one of the transactions that carry the commits of the intent
    lands, over any number of retries, crashes and restarts. *)
Theorem settled_at_most_once intent h (lands : Transaction -> Prop) :
  lifetime intent h -> (forall tx, refuted h tx -> ~ lands tx) ->
  forall tx tx', sent h tx -> sent h tx' -> lands tx -> lands tx' -> tx = tx'.
Proof.
  intros Hl Hdead tx tx' Hs Hs' Hla Hla'. 
  destruct (ordered_sends h tx tx' Hs Hs') as [Heq|(h1 & h2 & t & ts & r & t' & Hh & Hc & Hs1 & Ht)]; [exact Heq|].
  destruct (lifetime_safe intent h Hl) as [Hd _].
  destruct (proj2 (Hd h1 h2 t ts r Hh Hc) t' Hs1) as [Hr|Heq]; [|destruct Ht as [[-> ->]|[-> ->]]; congruence].
  assert (refuted h t') as Hr' by (rewrite Hh; by apply refuted_app).
  destruct Ht as [[-> ->]|[-> ->]]; by destruct (Hdead _ Hr').
Qed.

(** C4: a restart never loses a commit in flight: whatever the outbox may hold when
    the validator starts again, either every commit transaction sent before is dead,
    or the record names a confirmed commit, or it names the only commit transaction
    that may still land, with the blockhash that decides its fate. *)
Theorem restart_knows_the_commit_in_flight intent h st :
  lifetime intent h -> st ∈ outbox_may_hold h ->
  quiet h \/ exists pe, from_status st = Some pe
    /\ (is_Some (pe_confirmed_commit pe) \/ quiet_but (pe_transaction pe) h).
Proof.
  intros Hl Hst. destruct (lifetime_safe intent h Hl) as [_ Ho]. rewrite Forall_forall in Ho. exact (Ho st Hst).
Qed.
End once.

(** ** A crash in the middle of a send

    The validator stops while the first transaction is being sent. After the restart
    it finds it expired without a status, sends a second one and closes the intent. *)
Module ConcreteSettle.
Import ConcreteExec.

Definition first_life : list (Event Transaction) := resume [] (in_outbox Accepted) 60.
Definition two_lives : list (Event Transaction) := resume first_life (in_outbox in_flight) 60.

Lemma first_lifetime : lifetime scheduled first_life.
Proof.
  apply (lifetime_run scheduled [] (in_outbox Accepted) 60); [constructor|done| |by vm_compute].
  vm_compute. constructor.
Qed.
Lemma in_flight_held : in_flight ∈ outbox_may_hold first_life.
Proof. vm_compute. constructor. Qed.
Lemma two_lifetimes : lifetime scheduled two_lives.
Proof.
  apply (lifetime_run scheduled first_life (in_outbox in_flight) 60);
    [apply first_lifetime|done|apply in_flight_held|by vm_compute].
Qed.

Definition first_tx : Transaction := ([invoke [21%N] []], 1%N).
Definition second_tx : Transaction := ([invoke [21%N] []], 2%N).
Definition commit_task (k : Pubkey) (und : bool) : Task :=
  TaskCommitFinalize (mkCommitFinalizeTask 4 und (committed k) StateInArgs).
Definition settlement_tasks : list Task :=
  [commit_task 21 false; commit_task 22 true; TaskUndelegate (mkUndelegateTask 22 8 5 false)].

(** The history around the second send. *)
Definition before_second : list (Event Transaction) := take 25 two_lives.

Lemma commits_sent_one_at_a_time_witness :
  recorded before_second second_tx /\ (refuted before_second first_tx \/ first_tx = second_tx).
Proof.
  destruct (commits_sent_one_at_a_time scheduled two_lives two_lifetimes before_second (drop 26 two_lives)
              second_tx settlement_tasks (Some (Ok (mkSendOutcome 502 None None)))) as [Hr Hall].
  - vm_compute. reflexivity.
  - reflexivity.
  - split; [exact Hr|]. apply Hall. exists settlement_tasks, None. split; [|reflexivity].
    apply list_elem_of_lookup. exists 11. vm_compute. reflexivity.
Defined.

(** Only the second transaction lands. *)
Definition lands (tx : Transaction) : Prop := snd tx = 2%N.
Definition reported_dead (ev : Event Transaction) : bool :=
  match ev with
  | EBlockhashValid hash _ _ => N.eqb hash 1
  | ESend _ _ (Some (Ok (mkSendOutcome _ None None))) | ESend _ _ None => true
  | ESend _ _ _ => false
  | _ => true
  end.

Lemma dead_does_not_land tx : refuted two_lives tx -> ~ lands tx.
Proof.
  assert (forall ev, ev ∈ two_lives -> reported_dead ev = true) as Hall.
  { intros ev Hin%list_elem_of_In. revert ev Hin. apply forallb_forall. vm_compute. reflexivity. }
  intros [tasks r Hin Hr|h1 h2 v sts Hh _] Hl.
  - apply Hall in Hin. cbn in Hin. destruct r as [[sig [p|] [c|]]|]; [done..| |done].
    destruct Hr as [[? [=]]|[? [=]]].
  - assert (EBlockhashValid (tx_blockhash tx) rpc_commitment (Some (Ok v)) ∈ two_lives) as Hin
      by (rewrite Hh; apply elem_of_app; right; constructor).
    apply Hall, N.eqb_eq in Hin. unfold lands in Hl. cbn in Hin. congruence.
Qed.

Lemma settled_at_most_once_witness :
  exists tx, sent two_lives tx /\ lands tx /\ forall tx', sent two_lives tx' -> lands tx' -> tx' = tx.
Proof.
  assert (sent two_lives second_tx) as Hs.
  { exists settlement_tasks, (Some (Ok (mkSendOutcome 502 None None))). split; [|reflexivity].
    apply list_elem_of_lookup. exists 25. vm_compute. reflexivity. }
  exists second_tx. split; [exact Hs|]. split; [reflexivity|]. intros tx' Hs' Hl.
  apply (settled_at_most_once scheduled two_lives lands two_lifetimes dead_does_not_land);
    [exact Hs'|exact Hs|exact Hl|reflexivity].
Defined.

Lemma restart_knows_the_commit_in_flight_witness :
  quiet first_life \/ exists pe, from_status in_flight = Some pe
    /\ (is_Some (pe_confirmed_commit pe) \/ quiet_but (pe_transaction pe) first_life).
Proof. exact (restart_knows_the_commit_in_flight scheduled first_life in_flight first_lifetime in_flight_held). Defined.
End ConcreteSettle.

(** ** A landed transaction that is not final yet

    The blockhash is looked up at the commitment of the client, the status at
    [finalized]. A transaction whose blockhash has expired at the client's commitment
    is taken for dead if it has not reached [finalized], also when it has landed
    without an error. *)
Lemma unfinalized_taken_for_dead `{ExecEnv} {St} p (w : World (Event Transaction) St) r w' st :
  check_pending_signature p w = Done r w' ->
  history w' = history w ++ [EBlockhashValid (pt_blockhash p) rpc_commitment (Some (Ok false));
                             EStatuses (pt_signature p) (Some (Ok [Some st]))] ->
  ss_satisfies_commitment st Finalized = false -> r = Ok StatusRejected.
Proof.
  unfold check_pending_signature, is_blockhash_valid, rpc_is_blockhash_valid, pbind, await.
  destruct (awaits w) as [|n]; [done|]. destruct (ask_blockhash_valid _ _ _) as [[v|e]|i]; [|..|done]; cbn.
  2: { intros [= <- <-] Hh. cbn in Hh. by apply app_inv_head in Hh. }
  unfold get_signature_statuses_with_history_at_commitment, rpc_statuses, ptry, pbind, await. cbn.
  destruct n as [|n]; [done|]. destruct (ask_statuses _ _) as [[sts|e]|i]; [|..|done]; cbn;
    intros [= <- <-] Hh Hs; cbn in Hh; rewrite <- app_assoc in Hh; apply app_inv_head in Hh; [|done].
  injection Hh as -> ->. cbn. by rewrite Hs.
Qed.
