(* ===== verification/Link.v ===== *)
(** * Chainlink: account images

    Chainlink ([chainlink/src]) brings accounts of the base layer into the
    validator. This file has the data it works on and its pure functions: clone
    requests ([cloner/mod.rs]), delegation records ([fetch_cloner/delegation.rs]),
    associated token accounts ([fetch_cloner/ata_projection.rs]), the classification
    of fetched accounts ([fetch_cloner/pipeline.rs]), loaded programs
    ([remote_account_provider/program_account.rs]) and the tracker of delegated
    accounts that look like the delegation program's own
    ([fetch_cloner/mod.rs]).

    An [AccountBuilder] and an [AccountSharedData] are both a [SharedAccount]. The
    layouts of the delegation program and of the loaders are external: they are the
    fields of [LinkApi]. *)

From stdpp Require Import base gmap sets list strings sorting.
From Stdlib Require Import ZArith Lia.
From S2P Require Import Prelude Intent Runtime TokenPrograms Limits Construction RpcClient.

(** ** Images *)

Definition with_slot (s : Z) (a : SharedAccount) : SharedAccount :=
  mkSharedAccount (sa_lamports a) (sa_data a) (sa_owner a) (sa_mode a) (sa_rent_funded a) s
    (sa_commit_seq a) (sa_executable a) (sa_rent_epoch a).
Definition with_executable (b : bool) (a : SharedAccount) : SharedAccount :=
  mkSharedAccount (sa_lamports a) (sa_data a) (sa_owner a) (sa_mode a) (sa_rent_funded a)
    (sa_slot a) (sa_commit_seq a) b (sa_rent_epoch a).

Definition is_mode (m : AccountMode) (a : SharedAccount) : bool := bool_decide (sa_mode a = m).
Definition is_any_mode (ms : list AccountMode) (a : SharedAccount) : bool :=
  bool_decide (sa_mode a ∈ ms).

Inductive RemoteAccountUpdateSource := SourceFetch | SourceSubscription.

Inductive RemoteAccount :=
| NotFound (slot : Z)
| Found (account : SharedAccount) (source : RemoteAccountUpdateSource).

Definition remote_slot (r : RemoteAccount) : Z :=
  match r with Found a _ => sa_slot a | NotFound s => s end.
Definition fresh_account (r : RemoteAccount) : option SharedAccount :=
  match r with Found a _ => Some a | NotFound _ => None end.
Definition is_owned_by_delegation_program (r : RemoteAccount) : bool :=
  match fresh_account r with
  | Some a => bool_decide (sa_owner a = DELEGATION_PROGRAM_ID)
  | None => false
  end.

Inductive SubscriptionSource := SubAccount | SubProgram | SubReplay.

Record ForwardedSubscriptionUpdate := mkUpdate {
  up_pubkey : Pubkey;
  up_account : RemoteAccount;
  up_source : SubscriptionSource }.

Inductive SubscriptionReason :=
| DirectAccount
| DelegationRecordReason
| ProgramDataReason
| UndelegationTracking
| AtaProjection.

#[export] Instance SubscriptionReason_eq_dec : EqDecision SubscriptionReason.
Proof. solve_decision. Defined.

(** ** Clone requests *)

Record DelegationActions := mkDelegationActions {
  da_source_program : Pubkey;
  da_actions : list Instruction }.

Definition DelegationActions_new (source_program : Pubkey) (actions : list Instruction)
    : option DelegationActions :=
  if is_nil actions then None else Some (mkDelegationActions source_program actions).

(** The programs and accounts the actions name, other than the target. *)
Definition dependencies (d : DelegationActions) (target : Pubkey) : list (Pubkey * bool) :=
  filter (fun p => p.1 <> target)
    (concat (map (fun ix => (ix_program_id ix, false)
                            :: map (fun m => (im_pubkey m, im_writable m)) (ix_accounts ix))
               (da_actions d))).

Inductive ClonePostDelegationMode :=
| NoPostDelegation
| ExecuteActions (d : DelegationActions)
| RescueUndelegate (source_program : Pubkey).

Definition delegation_of (m : ClonePostDelegationMode) : option DelegationActions :=
  match m with ExecuteActions d => Some d | NoPostDelegation | RescueUndelegate _ => None end.
Definition has_actions (m : ClonePostDelegationMode) : bool := bool_decide (is_Some (delegation_of m)).
Definition mode_from (actions : option DelegationActions) : ClonePostDelegationMode :=
  match actions with Some d => ExecuteActions d | None => NoPostDelegation end.

Record CloneSourceSlots := mkCloneSourceSlots { cs_data : Z; cs_view : Z }.
Definition slots_single (slot : Z) : CloneSourceSlots := mkCloneSourceSlots slot slot.
Definition slots_projected (ata eata : Z) : CloneSourceSlots := mkCloneSourceSlots ata (Z.max ata eata).

Record AccountCloneRequest := mkAccountCloneRequest {
  cr_pubkey : Pubkey;
  cr_account : SharedAccount;
  cr_mode : ClonePostDelegationMode;
  cr_delegated_to_other : option Pubkey;
  cr_source_slots : option CloneSourceSlots }.

Definition with_image (a : SharedAccount) (r : AccountCloneRequest) : AccountCloneRequest :=
  mkAccountCloneRequest (cr_pubkey r) a (cr_mode r) (cr_delegated_to_other r) (cr_source_slots r).
Definition with_post_delegation (m : ClonePostDelegationMode) (r : AccountCloneRequest)
    : AccountCloneRequest :=
  mkAccountCloneRequest (cr_pubkey r) (cr_account r) m (cr_delegated_to_other r) (cr_source_slots r).
Definition source_slots (r : AccountCloneRequest) : CloneSourceSlots :=
  default (slots_single (sa_slot (cr_account r))) (cr_source_slots r).

(** ** Errors *)

(** An error of the account store or of the engine; those the sources do not name
    are [OtherEngineError]. *)
Inductive EngineError :=
| TransactionExecution (e : TransactionError)
| TransactionCompile
| Sanitization
| SignatureError
| SignatureVerification
| Serde
| AccountChanged
| ShuttingDown
| ServiceUnavailable
| Internal (msg : string)
| TaskError
| Keeper (code : N)
| OtherEngineError (code : N).

Inductive ClonerError :=
| InvalidAtaProjection (msg : string)
| EngineFailure (e : EngineError)
| FailedToCloneRegularAccount (k : Pubkey) (e : ClonerError)
| FailedToCloneProgram (k : Pubkey) (e : ClonerError)
| FailedToEvictAccount (k : Pubkey) (e : ClonerError)
| OtherClonerError (code : N).

Fixpoint allows_rescue (e : ClonerError) : bool :=
  match e with
  | FailedToCloneRegularAccount _ error => allows_rescue error
  | EngineFailure (TransactionExecution _ | TransactionCompile | Sanitization | SignatureError
                  | SignatureVerification | Serde) => true
  | _ => false
  end.

(** Why accounts could not be resolved: the text of the error, as data. *)
Inductive ResolutionFailure :=
| RpcCallTimeout
| RpcCallFailed (e : ClientError)
| ResponseBelowMinContext (slot min : Z)
| WrongResultCount (got wanted : nat)
| MaxRetriesReached
| FailedAccounts (ks : list Pubkey)
| NoAccountResult.

(** The limit that ended the attempts to match slots. *)
Inductive MatchLimit := MaxRetries | MaxTotalTime.

Inductive RemoteAccountProviderError :=
| RecvrError
| AccountSubscriptionDoesNotExist
| AccountSubscriptionsTaskFailed
| AccountResolutionsFailed (why : ResolutionFailure)
| ClockAccountCouldNotBeResolved
| SlotsDidNotMatch (slots : list Z) (limit : MatchLimit)
| MatchingSlotsNotSatisfyingMinContextSlot (slots : list Z) (min : Z) (limit : MatchLimit)
| AccountDataSliceFetchFailed (k : Pubkey) (min : Z)
| UnsupportedProgramLoader (msg : string)
| LoaderV1StateMissingProgramAccount (k : Pubkey)
| LoaderV2StateMissingProgramAccount (k : Pubkey)
| LoaderV3StateMissingProgramDataAccount (k : Pubkey)
| LoaderV4StateMissingProgramAccount (k : Pubkey)
| LoaderV4StateInvalidLength (k : Pubkey) (len : nat)
| LoaderV4StateDeserializationFailed (k : Pubkey) (msg : string)
| OtherProviderError (code : N).

Inductive RiskError :=
| HighRiskAddresses (addresses : list string)
| RiskRequest (code : N).

(** A [ProgramError] of the delegation program's layouts. *)
Abbreviation RecordError := (option N).
Definition InvalidRecordData : RecordError := None.

Inductive ChainlinkError :=
| ProviderError (e : RemoteAccountProviderError)
| LinkJoinError
| LinkKeeper (code : N)
| LinkClonerError (e : ClonerError)
| EnsureAccountsTimeout (secs : Z)
| InvalidDelegationRecord (k : Pubkey) (e : RecordError)
| InvalidDelegationCommitSequence (k : Pubkey) (id : Z)
| InvalidDelegationActions (k : Pubkey) (msg : string)
| InvalidTokenAccount (k : Pubkey) (msg : string)
| DelegatedAccountResolutionsFailed (msg : string)
| ResolvedAccountCouldNoLongerBeFound (k : Pubkey)
| FailedToSubscribeToAccount (k : Pubkey) (e : RemoteAccountProviderError)
| FailedToResolveProgramDataAccount (data program : Pubkey)
| ProgramAccountResolutionsFailed (msg : string)
| UnexpectedAccountCount (expected got : nat)
| MissingDelegationActionAccounts (ks : list Pubkey)
| RiskCheckFailed (e : RiskError).

Abbreviation LinkResult A := (result A ChainlinkError).

(** ** The delegation program and the loaders *)

Record DelegationRecord := mkDelegationRecord {
  dr_authority : Pubkey;
  dr_owner : Pubkey;
  dr_delegation_slot : Z;
  dr_lamports : Z;
  dr_commit_frequency_ms : Z }.

Record UndelegationRequest := mkUndelegationRequest {
  ur_delegated_account : Pubkey;
  ur_expires_at_slot : Z }.

Inductive LoaderV4Status := Retracted | Deployed | Finalized.

Class LinkApi := {
  record_pda : Pubkey -> Pubkey;
  metadata_pda : Pubkey -> Pubkey;
  fee_vault_pda : Pubkey -> Pubkey;
  record_size : nat;
  parse_record : list Z -> result DelegationRecord RecordError;
  (** The last commit id. *)
  parse_delegation_metadata : list Z -> option Z;
  parse_undelegation_request : list Z -> option UndelegationRequest;
  is_commit_record : list Z -> bool;
  is_program_config : list Z -> bool;
  RawActions : Type;
  decode_actions : list Z -> result RawActions string;
  decrypt_actions : Pubkey -> RawActions -> result (list Instruction) string;
  program_data_address : Pubkey -> Pubkey;
  programdata_metadata_size : nat;
  (** The upgrade authority, [Ok None] for a state that is not program data. *)
  parse_loader_v3 : list Z -> result (option (option Pubkey)) string;
  loader_v4_offset : nat;
  read_loader_v4 : list Z -> Pubkey * LoaderV4Status;
  requires_persistence : AccountMode -> bool;
  encode_schedule_bundle : MagicIntentBundleArgs -> list Z;
  show_key : Pubkey -> string;
  show_chainlink_error : ChainlinkError -> string }.

Definition LOADER_V1 : Pubkey := 0x8c42495714b01b82b756f4b4d904645f859523bd6ba1884e91f6a802.
Definition LOADER_V2 : Pubkey := 0xc6f321524347dd186837935669fa8f9428e15a396ea1884e91f6a802.
Definition LOADER_V3 : Pubkey := 0x8004107a53c0d224c1163db9c2002bae63f73e1510e2b0a1884e91f6a802.
Definition LOADER_V4 : Pubkey := 0x183683cfc828c0d2f34cda7f7b2e88d3c58b0aad7ae3515111b41205.
Definition NATIVE_LOADER : Pubkey :=
  0x8003979a5c45c065f7ad7da053f1a988485712b02f28a48b14bf848705.
Definition EPHEMERAL_SYSTEM_PROGRAM_ID : Pubkey :=
  0xe8872541cf2aa1fee9b35cfecf1a5f265726ef9ffbd911ed6b7b8a03.

Section images.
Context `{TokenEnv} `{LinkApi}.

(** ** Delegation records *)

Definition parse_post_delegation_actions (actions_data : list Z) (record_pubkey validator : Pubkey)
    : LinkResult (list Instruction) :=
  let? actions :=
    res_map_err (fun e => InvalidDelegationActions record_pubkey
                            ("Failed to deserialize PostDelegationActions: " +:+ e))
      (decode_actions actions_data) in
  res_map_err (fun e => InvalidDelegationActions record_pubkey
                          ("Failed to parse/decrypt PostDelegationActions: " +:+ e))
    (decrypt_actions validator actions).

Definition parse_delegation_record (data : list Z) (record_pubkey validator : Pubkey)
    : LinkResult (DelegationRecord * option DelegationActions) :=
  if decide (length data < record_size)
  then Err (InvalidDelegationRecord record_pubkey InvalidRecordData)
  else
    let? record := res_map_err (InvalidDelegationRecord record_pubkey)
                     (parse_record (take record_size data)) in
    if decide (length data <= record_size) then Ok (record, None)
    else if decide (dr_authority record <> validator) then Ok (record, None)
    else
      let? actions := parse_post_delegation_actions (drop record_size data) record_pubkey validator in
      Ok (record, DelegationActions_new (dr_owner record) actions).

Definition parse_raw_eata_pda (account_pubkey : Pubkey) (data : list Z) (owner_program : Pubkey)
    : option (Pubkey * Pubkey) :=
  if decide (owner_program <> EATA_PROGRAM_ID) then None
  else
    eata ← try_from_account_data data;
    '(derived_eata, bump) ← try_derive_eata_address_and_bump (ea_owner eata) (ea_mint eata);
    if decide (derived_eata = account_pubkey /\ bump = ea_bump eata)
    then Some (ea_owner eata, ea_mint eata) else None.

(** The validator an account is delegated to, if it is neither this one nor none. *)
Definition delegated_to_other (validator : Pubkey) (record : DelegationRecord) : option Pubkey :=
  if decide (dr_authority record = validator \/ dr_authority record = 0%N) then None
  else Some (dr_authority record).

Definition apply_record (validator account_pubkey : Pubkey) (account : SharedAccount)
    (record : DelegationRecord) : SharedAccount :=
  let is_confined := bool_decide (dr_authority record = 0%N) in
  let is_delegated_to_us := bool_decide (delegated_to_other validator record = None) in
  let is_raw_eata :=
    bool_decide (is_Some (parse_raw_eata_pda account_pubkey (sa_data account) (dr_owner record))) in
  let mode :=
    if is_confined then Magic
    else if is_delegated_to_us && negb is_raw_eata then Delegated
    else Mirrored in
  let account := with_mode mode (with_owner (dr_owner record) account) in
  if is_confined then with_lamports 0 account
  else if bool_decide (mode = Delegated) then with_slot (dr_delegation_slot record) account
  else account.

Definition is_delegation_record_data (data : list Z) : bool :=
  bool_decide (record_size <= length data) && is_ok (parse_record (take record_size data)).

Definition is_internal_dlp_account_data (data : list Z) : bool :=
  is_delegation_record_data data
  || bool_decide (is_Some (parse_delegation_metadata data))
  || is_commit_record data
  || is_program_config data.

(** [true] keeps the local image of an account that is undelegating. *)
Definition account_still_undelegating_on_chain (is_delegated_to_us_on_chain : bool)
    (remote_slot_in_bank : Z) (deleg_record : option DelegationRecord) : bool :=
  if is_delegated_to_us_on_chain then
    let delegation_slot := default 0%Z (dr_delegation_slot <$> deleg_record) in
    bool_decide (delegation_slot <= remote_slot_in_bank)%Z
  else false.

(** ** Associated token accounts *)

Definition derive_eata_pubkey (ata_info : AtaInfo) : option Pubkey :=
  fst <$> try_derive_eata_address_and_bump (ai_owner ata_info) (ai_mint ata_info).

Definition derive_eata_pubkey_from_ata_account (ata_pubkey : Pubkey) (ata_account : SharedAccount)
    : option Pubkey :=
  is_ata ata_pubkey (sa_owner ata_account) (sa_data ata_account) ≫= derive_eata_pubkey.

Definition ata_info_from_layout (ata_pubkey : Pubkey) (data : list Z) : option AtaInfo :=
  if decide (length data < 64) then None
  else
    let mint := key_of_bytes (slice 0 32 data) in
    let wallet_owner := key_of_bytes (slice 32 64 data) in
    let ata_pubkeys := try_derive_supported_ata_pubkeys wallet_owner mint in
    if sap_contains ata_pubkeys ata_pubkey then Some (mkAtaInfo mint wallet_owner) else None.

Definition derive_eata_pubkey_from_ata_layout (ata_pubkey : Pubkey) (data : list Z) : option Pubkey :=
  ata_info_from_layout ata_pubkey data ≫= derive_eata_pubkey.

Definition derive_supported_ata_pubkeys (owner mint : Pubkey) : list Pubkey :=
  omap id (token_2022_first (try_derive_supported_ata_pubkeys owner mint)).

Definition derive_supported_ata_pubkeys_from_raw_eata (eata_pubkey : Pubkey) (data : list Z)
    : option (list Pubkey) :=
  '(wallet_owner, mint) ← parse_raw_eata_pda eata_pubkey data EATA_PROGRAM_ID;
  Some (derive_supported_ata_pubkeys wallet_owner mint).

Definition project_delegated_ata (validator : Pubkey) (ata_account : SharedAccount)
    (eata_data : list Z) (record : DelegationRecord) : option SharedAccount :=
  if decide (dr_authority record <> validator \/ dr_owner record <> EATA_PROGRAM_ID) then None
  else
    eata ← try_from_account_data eata_data;
    projected_ata ← project_into_ata_account eata ata_account;
    Some (with_mode Delegated (with_slot (dr_delegation_slot record) projected_ata)).

Definition is_ata_projection (r : AccountCloneRequest) : bool :=
  is_mode Delegated (cr_account r)
  && bool_decide (is_Some (is_ata (cr_pubkey r) (sa_owner (cr_account r)) (sa_data (cr_account r)))).
(** ** Token accounts taken over *)

Definition SPL_ACCOUNT_LEN : nat := 165.

Definition unpack_token (data : list Z) : option TokenAccount :=
  d ← get_slice 0 SPL_ACCOUNT_LEN data; spl_unpack d.

Definition is_frozen (a : TokenAccount) : bool := bool_decide (ta_state a = 2%N).
Definition with_allowance (o : option Pubkey) (n : Z) (a : TokenAccount) : TokenAccount :=
  mkTokenAccount (ta_mint a) (ta_owner a) (ta_amount a) o (ta_state a) (ta_is_native a) n
    (ta_close_authority a).
Definition with_amount (n : Z) (a : TokenAccount) : TokenAccount :=
  mkTokenAccount (ta_mint a) (ta_owner a) n (ta_delegate a) (ta_state a) (ta_is_native a)
    (ta_delegated_amount a) (ta_close_authority a).

Definition merged_allowance (local_token token : TokenAccount)
    : result (option Pubkey * Z) ClonerError :=
  match ta_delegate local_token, ta_delegate token with
  | None, _ => Ok (ta_delegate token, ta_delegated_amount token)
  | _, None => Ok (ta_delegate local_token, ta_delegated_amount local_token)
  | Some a, Some b =>
      if decide (a = b) then
        let local_allowance := Z.min (ta_amount local_token) (ta_delegated_amount local_token) in
        let projected_allowance := Z.min (ta_amount token) (ta_delegated_amount token) in
        let? allowance := ok_or (checked_add u64_max local_allowance projected_allowance)
                            (InvalidAtaProjection "merged delegate allowance overflows") in
        Ok (Some a, allowance)
      else Err (InvalidAtaProjection "Magic ATA and projection approve different SPL delegates")
  end.

(** The projection with the balance of the local Magic ATA added. *)
Definition merge (k : Pubkey) (local projection : SharedAccount) : result SharedAccount ClonerError :=
  let? magic :=
    ok_or (magic ← try_get_magic_ata_info k local;
           if decide (mai_token_program magic = sa_owner projection) then Some magic else None)
      (InvalidAtaProjection "local account is not a matching Magic ATA") in
  let? local_token := ok_or (unpack_token (sa_data local))
                        (InvalidAtaProjection "invalid local token data") in
  let? token := ok_or (unpack_token (sa_data projection))
                  (InvalidAtaProjection "invalid projection token data") in
  if decide (ta_mint token <> mai_mint magic \/ ta_owner token <> mai_wallet_owner magic)
  then Err (InvalidAtaProjection "projection mint or wallet owner does not match")
  else if bool_decide (0 < mai_amount magic)%Z && (is_frozen local_token || is_frozen token)
  then Err (InvalidAtaProjection "funded takeover requires both accounts to be unfrozen")
  else
    let? '(delegate, delegated_amount) := merged_allowance local_token token in
    let? amount := ok_or (checked_add u64_max (ta_amount token) (mai_amount magic))
                     (InvalidAtaProjection "merged balance overflows") in
    let token := with_amount amount (with_allowance delegate delegated_amount token) in
    let? packed := ok_or (spl_pack token (take SPL_ACCOUNT_LEN (sa_data projection)))
                     (InvalidAtaProjection "invalid projection token layout") in
    Ok (with_data (packed ++ drop SPL_ACCOUNT_LEN (sa_data projection)) projection).

(** ** Clone requests *)

Definition immutable_account_mode (lamports : Z) : AccountMode :=
  if decide (lamports = 0%Z) then Missing else Mirrored.

Definition normalize_immutable_account (r : AccountCloneRequest) : AccountCloneRequest :=
  let account := cr_account r in
  if negb (is_any_mode [Mirrored; Missing] account) then r
  else
    let mode := immutable_account_mode (sa_lamports account) in
    if decide (mode = sa_mode account) then r else with_image (with_mode mode account) r.

Definition normalize_unresolved_dlp_clone_request (validator : Pubkey) (r : AccountCloneRequest)
    : LinkResult AccountCloneRequest :=
  let claims_delegation := is_any_mode [Delegated; Magic] (cr_account r) in
  if bool_decide (sa_owner (cr_account r) <> DELEGATION_PROGRAM_ID) || negb claims_delegation
  then Ok r
  else if decide (cr_pubkey r = fee_vault_pda validator) then Ok r
  else if has_actions (cr_mode r)
  then Err (InvalidDelegationActions (cr_pubkey r)
              "post-delegation actions attached to unresolved DLP-owned clone target")
  else Ok (with_image (with_mode Mirrored (cr_account r)) r).

Definition undelegation_action (authority k : Pubkey) : Instruction :=
  let args := mkMagicIntentBundleArgs None
                (Some (mkCommitAndUndelegateArgs (CommitStandaloneArgs [2]) UndelegateStandaloneArgs))
                None None [] in
  mkInstruction MAGIC_PROGRAM_ID
    [mkIxMeta authority true false; mkIxMeta MAGIC_CONTEXT_PUBKEY false true; mkIxMeta k false true]
    (encode_schedule_bundle args).
End images.
