(* ===== verification/LinkResolve.v ===== *)
(** * Chainlink: classification

    How fetched accounts are sorted before they are cloned: the classes of
    [fetch_cloner/pipeline.rs], the subscriptions a batch gives back, programs and
    their loaders ([remote_account_provider/program_account.rs]), which actions need
    a risk check, and the tracker of delegated accounts whose data looks like an
    account of the delegation program ([DlpCollisionTracker] in
    [fetch_cloner/mod.rs]).

    The iteration order of a Rust hash set is not relied on: [elements] stands for
    it. A bounded cache is external: its operations are the fields of [Lru]. *)

From stdpp Require Import base gmap sets list strings sorting.
From Stdlib Require Import ZArith Lia.
From S2P Require Import Prelude Intent Runtime TokenPrograms Limits Link.

(** ** Programs *)

Inductive RemoteProgramLoader := V1 | V2 | V3 | V4.

#[export] Instance RemoteProgramLoader_eq_dec : EqDecision RemoteProgramLoader.
Proof. solve_decision. Defined.

Record LoadedProgram := mkLoadedProgram {
  lp_program_id : Pubkey;
  lp_authority : Pubkey;
  lp_program_data : list Z;
  lp_loader : RemoteProgramLoader;
  lp_loader_status : LoaderV4Status;
  lp_remote_slot : Z }.

Record ProgramDataWithAuthority := mkProgramDataWithAuthority {
  pda_authority : Pubkey;
  pda_program_data : list Z;
  pda_loader_status : LoaderV4Status }.

Abbreviation ProviderResult A := (result A RemoteAccountProviderError).

Section programs.
Context `{TokenEnv} `{LinkApi}.

Definition loader_of_key (k : Pubkey) : ProviderResult RemoteProgramLoader :=
  if decide (k = LOADER_V1) then Ok V1
  else if decide (k = LOADER_V2) then Ok V2
  else if decide (k = LOADER_V3) then Ok V3
  else if decide (k = LOADER_V4) then Ok V4
  else Err (UnsupportedProgramLoader (show_key k)).

Definition get_state_v1_v2 (program_id : Pubkey) (program_account : list Z)
    : ProviderResult ProgramDataWithAuthority :=
  Ok (mkProgramDataWithAuthority program_id program_account Finalized).

Definition get_state_v3 (program_id : Pubkey) (program_data_account : list Z)
    : ProviderResult ProgramDataWithAuthority :=
  let invalid := LoaderV4StateInvalidLength program_id (length program_data_account) in
  let? meta_data := ok_or (get_slice 0 programdata_metadata_size program_data_account) invalid in
  let? state := res_map_err (LoaderV4StateDeserializationFailed program_id)
                  (parse_loader_v3 meta_data) in
  match state with
  | Some upgrade_authority_address =>
      let authority := default program_id upgrade_authority_address in
      Ok (mkProgramDataWithAuthority authority (drop programdata_metadata_size program_data_account)
            Deployed)
  | None =>
      Err (UnsupportedProgramLoader "LoaderV3 program data account is not in ProgramData state")
  end.

Definition get_state_v4 (program_id : Pubkey) (program_account : list Z)
    : ProviderResult ProgramDataWithAuthority :=
  let? data := ok_or (get_slice 0 loader_v4_offset program_account)
                 (LoaderV4StateInvalidLength program_id (length program_account)) in
  let '(authority, status) := read_loader_v4 data in
  Ok (mkProgramDataWithAuthority authority (drop loader_v4_offset program_account) status).

Definition try_get_data_with_authority (loader : RemoteProgramLoader) (program_id : Pubkey)
    (program_account program_data_account : option SharedAccount)
    : ProviderResult (ProgramDataWithAuthority * Z) :=
  match loader, program_account, program_data_account with
  | V1, None, _ => Err (LoaderV1StateMissingProgramAccount program_id)
  | V2, None, _ => Err (LoaderV2StateMissingProgramAccount program_id)
  | V3, _, None => Err (LoaderV3StateMissingProgramDataAccount program_id)
  | V4, None, _ => Err (LoaderV4StateMissingProgramAccount program_id)
  | V1, Some a, _ | V2, Some a, _ =>
      let? data := get_state_v1_v2 program_id (sa_data a) in Ok (data, sa_slot a)
  | V3, _, Some a => let? data := get_state_v3 program_id (sa_data a) in Ok (data, sa_slot a)
  | V4, Some a, _ => let? data := get_state_v4 program_id (sa_data a) in Ok (data, sa_slot a)
  end.

(** [ProgramAccountResolver::try_new] and [into_loaded_program]. *)
Definition resolve_loaded_program (program_id owner : Pubkey)
    (program_account program_data_account : option SharedAccount) : ProviderResult LoadedProgram :=
  let? loader := loader_of_key owner in
  let? '(d, remote_slot) :=
    try_get_data_with_authority loader program_id program_account program_data_account in
  Ok (mkLoadedProgram program_id (pda_authority d) (pda_program_data d) loader (pda_loader_status d)
        remote_slot).

Definition resolve_program (program : LoadedProgram) : option AccountCloneRequest :=
  match lp_loader_status program with
  | Retracted => None
  | Deployed | Finalized =>
      let owner := match lp_loader program with V1 => LOADER_V1 | V2 | V3 | V4 => LOADER_V4 end in
      let account :=
        with_slot (lp_remote_slot program)
          (with_executable true
            (with_mode Mirrored
              (with_owner owner
                (with_data (lp_program_data program)
                  (with_lamports (minimum_balance (length (lp_program_data program))) no_account))))) in
      Some (mkAccountCloneRequest (lp_program_id program) account NoPostDelegation None None)
  end.

(** An unset or empty list allows every program. *)
Definition is_program_allowed (allowed_programs : option (gset N)) (program_id : Pubkey) : bool :=
  match allowed_programs with
  | None => true
  | Some allowed => bool_decide (allowed = ∅) || bool_decide (program_id ∈ allowed)
  end.

Definition program_subscription_is_too_broad (program_id : Pubkey) : bool :=
  bool_decide (program_id = TOKEN_PROGRAM_ID) || bool_decide (program_id = TOKEN_2022_PROGRAM_ID)
  || bool_decide (program_id = ASSOCIATED_TOKEN_PROGRAM_ID).

(** ** Fetched accounts *)

Record ClassifiedAccounts := mkClassifiedAccounts {
  ca_not_found : list (Pubkey * Z);
  ca_plain : list AccountCloneRequest;
  ca_owned_by_deleg : list (Pubkey * SharedAccount * Z);
  ca_programs : list (Pubkey * SharedAccount * Z);
  ca_atas : list (Pubkey * SharedAccount * AtaInfo * Z) }.

Definition classified_default : ClassifiedAccounts := mkClassifiedAccounts [] [] [] [] [].

Definition classify_program (k : Pubkey) (account : SharedAccount) (slot : Z)
    (programs : list (Pubkey * SharedAccount * Z)) : list (Pubkey * SharedAccount * Z) :=
  if decide (sa_owner account = NATIVE_LOADER) then programs else programs ++ [(k, account, slot)].

Definition classify (c : ClassifiedAccounts) (acc : RemoteAccount) (k : Pubkey)
    : ClassifiedAccounts * option AccountCloneRequest :=
  match acc with
  | NotFound slot =>
      (mkClassifiedAccounts (ca_not_found c ++ [(k, slot)]) (ca_plain c) (ca_owned_by_deleg c)
         (ca_programs c) (ca_atas c), None)
  | Found account _ =>
      let slot := sa_slot account in
      if decide (sa_owner account = DELEGATION_PROGRAM_ID) then
        (mkClassifiedAccounts (ca_not_found c) (ca_plain c)
           (ca_owned_by_deleg c ++ [(k, account, slot)]) (ca_programs c) (ca_atas c), None)
      else if sa_executable account then
        (mkClassifiedAccounts (ca_not_found c) (ca_plain c) (ca_owned_by_deleg c)
           (classify_program k account slot (ca_programs c)) (ca_atas c), None)
      else
        match is_ata k (sa_owner account) (sa_data account) with
        | Some ata =>
            (mkClassifiedAccounts (ca_not_found c) (ca_plain c) (ca_owned_by_deleg c)
               (ca_programs c) (ca_atas c ++ [(k, account, ata, slot)]), None)
        | None => (c, Some (mkAccountCloneRequest k account NoPostDelegation None None))
        end
  end.

Definition push_plain (c : ClassifiedAccounts) (o : option AccountCloneRequest) : ClassifiedAccounts :=
  match o with
  | Some r => mkClassifiedAccounts (ca_not_found c) (ca_plain c ++ [r]) (ca_owned_by_deleg c)
                (ca_programs c) (ca_atas c)
  | None => c
  end.

Definition classify_remote_accounts (accs : list RemoteAccount) (pubkeys : list Pubkey)
    : ClassifiedAccounts :=
  foldl (fun c '(acc, k) => let '(c, o) := classify c acc k in push_plain c o)
    classified_default (zip accs pubkeys).
End programs.

(** ** Batches *)

Record AccountWithCompanion := mkAccountWithCompanion {
  ac_pubkey : Pubkey;
  ac_account : SharedAccount;
  ac_companion_pubkey : Pubkey;
  ac_companion_account : option SharedAccount }.

Definition resolve_account_with_companion (k companion_pubkey : Pubkey) (acc companion : RemoteAccount)
    : LinkResult AccountWithCompanion :=
  match acc, companion with
  | NotFound _, _ => Err (ResolvedAccountCouldNoLongerBeFound k)
  | Found acc _, NotFound _ => Ok (mkAccountWithCompanion k acc companion_pubkey None)
  | Found acc _, Found comp _ => Ok (mkAccountWithCompanion k acc companion_pubkey (Some comp))
  end.

Record FetchAndCloneResult := mkFetchAndCloneResult {
  fr_not_found_on_chain : list (Pubkey * Z);
  fr_missing_delegation_record : list (Pubkey * Z) }.

(** Writable if any action writes it. *)
Definition collect_delegation_action_dependencies (accounts_to_clone : list AccountCloneRequest)
    : gmap N bool :=
  foldl (fun deps request =>
           match delegation_of (cr_mode request) with
           | Some delegation =>
               foldl (fun (deps : gmap N bool) '(k, writable) =>
                        <[k := default false (deps !! k) || writable]> deps)
                 deps (dependencies delegation (cr_pubkey request))
           | None => deps
           end) ∅ accounts_to_clone.

Abbreviation SubscriptionRelease := (Pubkey * SubscriptionReason)%type.

Definition releases_for (reason : SubscriptionReason) (ks : list Pubkey) : list SubscriptionRelease :=
  map (fun k => (k, reason)) ks.

Definition compute_subscription_releases (all_requested_pubkeys : list Pubkey)
    (accounts_to_clone : list AccountCloneRequest) (loaded_programs : list LoadedProgram)
    (record_subs : list Pubkey) (program_data_subs : gset N) : list SubscriptionRelease :=
  let cloned_accounts : gmap N bool :=
    list_to_map (rev (map (fun r => (cr_pubkey r, is_mode Delegated (cr_account r)))
                        accounts_to_clone)) in
  let loaded_program_ids : gset N := list_to_set (map lp_program_id loaded_programs) in
  let direct_releases : gset N :=
    list_to_set (filter (fun k => k ∉ dom cloned_accounts /\ k ∉ loaded_program_ids)
                   all_requested_pubkeys)
    ∪ list_to_set (map fst (filter (fun p => p.2 = true) (map_to_list cloned_accounts)))
    ∪ list_to_set record_subs
    ∪ program_data_subs in
  releases_for DirectAccount (elements direct_releases)
  ++ releases_for DelegationRecordReason record_subs
  ++ releases_for ProgramDataReason (elements program_data_subs).

(** ** Post-delegation actions *)

Inductive AmlCheckStrategy := AllSigners | RelevantPrograms.

Definition RISK_RELEVANT_PROGRAMS : list Pubkey :=
  [TOKEN_PROGRAM_ID; TOKEN_2022_PROGRAM_ID; EATA_PROGRAM_ID; MAGIC_PROGRAM_ID; system_program_id;
   EPHEMERAL_SYSTEM_PROGRAM_ID].

Definition instruction_involves_risk_relevant_program (ix : Instruction) : bool :=
  bool_decide (ix_program_id ix ∈ RISK_RELEVANT_PROGRAMS)
  || existsb (fun m => bool_decide (im_pubkey m ∈ RISK_RELEVANT_PROGRAMS)) (ix_accounts ix).

Definition delegation_actions_require_risk_check (strategy : AmlCheckStrategy)
    (delegation_actions : list Instruction) : bool :=
  match strategy with
  | AllSigners => true
  | RelevantPrograms => existsb instruction_involves_risk_relevant_program delegation_actions
  end.

(** [sort_unstable] and [dedup]. *)
Fixpoint dedup_strings (l : list string) : list string :=
  match l with
  | x :: l =>
      match l with
      | y :: _ => if decide (x = y) then dedup_strings l else x :: dedup_strings l
      | [] => [x]
      end
  | [] => []
  end.
Definition string_le (a b : string) : Prop := String.leb a b = true.
#[export] Instance string_le_dec : RelDecision string_le.
Proof. intros a b. unfold string_le. apply _. Defined.
Definition sort_strings : list string -> list string := merge_sort string_le.

Definition signer_addresses `{LinkApi} (delegation_actions : list Instruction) : list string :=
  dedup_strings
    (sort_strings
       (concat (map (fun ix => map (fun m => show_key (im_pubkey m))
                                 (filter (fun m => im_signer m = true) (ix_accounts ix)))
                  delegation_actions))).

Definition action_dependency_needs_fetch (local : option (Z * AccountMode)) (remote_slot : Z)
    (writable : bool) : bool :=
  match local with
  | None => negb writable
  | Some (slot, mode) =>
      bool_decide (slot < remote_slot)%Z && writable && bool_decide (mode <> Delegated)
  end.

(** ** Bounded caches

    [lru_get] also renews an entry; [lru_get_or_insert] adds the value if there is
    none; both then replace the value with [f] of it, as a caller does through the
    mutable reference they return. *)

Class Lru := {
  lru : Type -> Type;
  lru_new : forall {V}, nat -> lru V;
  lru_peek : forall {V}, lru V -> Pubkey -> option V;
  lru_len : forall {V}, lru V -> nat;
  lru_cap : forall {V}, lru V -> nat;
  lru_get_mut : forall {V}, lru V -> Pubkey -> (V -> V) -> lru V * option V;
  lru_get_or_insert_mut : forall {V}, lru V -> Pubkey -> V -> (V -> V) -> lru V * V;
  lru_put : forall {V}, lru V -> Pubkey -> V -> lru V;
  lru_push : forall {V}, lru V -> Pubkey -> V -> lru V * option (Pubkey * V);
  lru_pop : forall {V}, lru V -> Pubkey -> lru V * option V;
  lru_iter : forall {V}, lru V -> list (Pubkey * V) }.

Definition lru_get `{Lru} {V} (c : lru V) (k : Pubkey) : lru V * option V := lru_get_mut c k id.
Definition lru_contains `{Lru} {V} (c : lru V) (k : Pubkey) : bool := bool_decide (is_Some (lru_peek c k)).

(** What the code relies on, for the caches the operations build: an entry is there
    until it is removed, or until a new key is added to a full cache. *)
Class LruLaws `{Lru} := {
  lru_wf : forall {V}, lru V -> Prop;
  lru_new_wf V n : 0 < n -> lru_wf (lru_new (V := V) n);
  lru_new_peek V n k : lru_peek (lru_new (V := V) n) k = None;
  lru_new_len V n : lru_len (lru_new (V := V) n) = 0;
  lru_new_cap V n : lru_cap (lru_new (V := V) n) = n;
  lru_get_mut_spec V (c : lru V) k f c' o : lru_wf c -> lru_get_mut c k f = (c', o) ->
    lru_wf c' /\ o = f <$> lru_peek c k /\ lru_len c' = lru_len c /\ lru_cap c' = lru_cap c
    /\ forall k', lru_peek c' k' = if decide (k' = k) then f <$> lru_peek c k else lru_peek c k';
  lru_insert_spec V (c : lru V) k v f c' x : lru_wf c -> lru_get_or_insert_mut c k v f = (c', x) ->
    lru_wf c' /\ x = f (default v (lru_peek c k)) /\ lru_cap c' = lru_cap c
    /\ lru_peek c' k = Some x
    /\ (forall k', k' <> k -> lru_peek c' k' = lru_peek c k' \/ lru_peek c' k' = None)
    /\ (lru_len c < lru_cap c \/ is_Some (lru_peek c k) ->
        lru_len c' = (if decide (is_Some (lru_peek c k)) then lru_len c else S (lru_len c))
        /\ forall k', k' <> k -> lru_peek c' k' = lru_peek c k');
  lru_pop_spec V (c : lru V) k c' o : lru_wf c -> lru_pop c k = (c', o) ->
    lru_wf c' /\ o = lru_peek c k /\ lru_cap c' = lru_cap c
    /\ lru_len c' = (if decide (is_Some (lru_peek c k)) then pred (lru_len c) else lru_len c)
    /\ forall k', lru_peek c' k' = if decide (k' = k) then None else lru_peek c k' }.

(** ** Colliding accounts *)

Record ParkedCollisionCandidate := mkParked { pk_pubkey : Pubkey; pk_slot : Z }.

Definition SEEN_DELEGATION_RECORD_SLOTS_CAPACITY : nat := 65536.
Definition PARKED_COLLISION_UPDATES_CAPACITY : nat := 16384.

Section tracker.
Context `{LinkApi} `{Lru}.

Record DlpCollisionTracker := mkTracker {
  tr_record_slots : lru Z;
  tr_parked : lru ParkedCollisionCandidate }.

Definition tracker_new : DlpCollisionTracker :=
  mkTracker (lru_new SEEN_DELEGATION_RECORD_SLOTS_CAPACITY) (lru_new PARKED_COLLISION_UPDATES_CAPACITY).

Definition sight_record (t : DlpCollisionTracker) (record_pubkey : Pubkey) (slot : Z)
    : DlpCollisionTracker * option ParkedCollisionCandidate :=
  let '(record_slots, sighted_slot) :=
    lru_get_or_insert_mut (tr_record_slots t) record_pubkey slot (fun s => Z.max s slot) in
  match lru_peek (tr_parked t) record_pubkey with
  | Some candidate =>
      if decide (pk_slot candidate <= sighted_slot)%Z then
        let '(parked, released) := lru_pop (tr_parked t) record_pubkey in
        (mkTracker record_slots parked, released)
      else (mkTracker record_slots (tr_parked t), None)
  | None => (mkTracker record_slots (tr_parked t), None)
  end.

Definition park_is_full (t : DlpCollisionTracker) (record_pubkey : Pubkey) : bool :=
  negb (lru_contains (tr_parked t) record_pubkey)
  && bool_decide (PARKED_COLLISION_UPDATES_CAPACITY <= lru_len (tr_parked t)).

Definition park (t : DlpCollisionTracker) (record_pubkey : Pubkey) (c : ParkedCollisionCandidate)
    : DlpCollisionTracker :=
  mkTracker (tr_record_slots t)
    (fst (lru_get_or_insert_mut (tr_parked t) record_pubkey c
            (fun p => mkParked (pk_pubkey p) (Z.max (pk_slot p) (pk_slot c))))).

Definition preserve_released_candidate (t : DlpCollisionTracker) (candidate : ParkedCollisionCandidate)
    : DlpCollisionTracker * bool :=
  let record_pubkey := record_pda (pk_pubkey candidate) in
  if park_is_full t record_pubkey then (t, false) else (park t record_pubkey candidate, true).

Definition check_or_park (t : DlpCollisionTracker) (update : ForwardedSubscriptionUpdate)
    : DlpCollisionTracker * bool :=
  let record_pubkey := record_pda (up_pubkey update) in
  let update_slot := remote_slot (up_account update) in
  let '(record_slots, seen) := lru_get (tr_record_slots t) record_pubkey in
  let t := mkTracker record_slots (tr_parked t) in
  let sighted := match seen with
                 | Some record_slot => bool_decide (update_slot <= record_slot)%Z
                 | None => false
                 end in
  if sighted then (t, true)
  else if park_is_full t record_pubkey then (t, false)
  else (park t record_pubkey (mkParked (up_pubkey update) update_slot), false).
End tracker.
