(* ===== verification/LinkClient.v ===== *)
(** * Chainlink: the engine and the base layer

    Chainlink is asynchronous code in the monad of [Process]. [LinkEnv] has one
    field per call it makes: the engine's account store and leases, the remote
    account provider, the risk server. [LEvent] is an entry of the history of these
    calls. The local accounts belong to the engine and change while Chainlink waits,
    so each look at them is a call answered by the environment; [interfere] is what
    other tasks do to Chainlink's own caches meanwhile. Concurrent tasks of one
    batch run one after the other, in the order they are spawned; tasks that outlive
    the call are an event ([LSpawn]).

    On these calls: the cloner ([cloner/mod.rs], [cloner/ata.rs]), the risk service
    ([aml/src/lib.rs]) and subscriptions ([fetch_cloner/subscription.rs]). *)

From stdpp Require Import base gmap sets list strings.
From Stdlib Require Import ZArith Lia.
From S2P Require Import Prelude Intent Runtime TokenPrograms Limits RpcClient Process Link LinkResolve.

Open Scope proc_scope.

(** A lease on an account: what the engine held when it was granted. *)
Record AccountAccessor := mkAccessor {
  ac_key : Pubkey;
  ac_observed : option (AccountMode * Z);
  ac_lease : N }.

Record PostFinalize := mkPostFinalize {
  pf_source_program : Pubkey;
  pf_actions : list Instruction }.

Record ObservedUndelegationRequest := mkObserved {
  ou_request_pda : Pubkey;
  ou_delegated_account : Pubkey;
  ou_expires_at_slot : Z;
  ou_observed_slot : Z }.

Inductive SubscriptionCall :=
| Acquire (k : Pubkey) (reason : SubscriptionReason)
| Ensure (k : Pubkey) (reason : SubscriptionReason)
| Release (k : Pubkey) (reason : SubscriptionReason)
| ReleaseSilently (k : Pubkey) (reason : SubscriptionReason)
| Forget (k : Pubkey) (reason : SubscriptionReason)
| PreferGrpc (k : Pubkey)
| SendStale (k : Pubkey)
| Unsubscribe (k : Pubkey).

Inductive Spawned :=
| SubscribeProgram (owner : Pubkey)
| VerifyProgram (k : Pubkey) (account : SharedAccount)
| UndelegationObserved (r : ObservedUndelegationRequest).

Inductive LEvent :=
| LRead (k : Pubkey) (r : result (option SharedAccount) N)
| LLifecycle (k : Pubkey) (r : option (AccountMode * Z))
| LContains (k : Pubkey) (r : result bool N)
| LLease (k : Pubkey) (r : option (result AccountAccessor EngineError))
| LMissing (ks : list Pubkey) (r : option (result (list AccountAccessor) EngineError))
| LMaterialize (lease : AccountAccessor) (expected : option SharedAccount) (image : SharedAccount)
    (actions : option PostFinalize) (r : option (result unit EngineError))
| LDelete (lease : AccountAccessor) (r : option (result unit EngineError))
| LFetch (ks : list Pubkey) (mark_empty : option (list Pubkey)) (floor : option Z)
    (r : option (ProviderResult (list RemoteAccount)))
| LMatch (ks : list Pubkey) (floor : option Z) (r : option (ProviderResult (list RemoteAccount)))
| LSnapshot (ks : list Pubkey) (floor : Z) (r : option (ProviderResult (list RemoteAccount)))
| LSlice (k : Pubkey) (len : nat) (floor : Z) (r : option (ProviderResult (option (list Z))))
| LRisk (address : string) (r : option (result bool N))
| LSub (c : SubscriptionCall) (r : option (ProviderResult unit))
| LHasReason (ks : list Pubkey) (reason : SubscriptionReason) (r : option bool)
| LWatching (k : Pubkey) (b : bool)
| LChainSlot (slot : Z)
| LNow (t : Z)
| LClaims (n : Z)
| LSpawn (s : Spawned).

(** Chainlink's own state. *)
Record ProgramVerifyState := mkProgramVerifyState {
  pv_programdata_header : option (list Z);
  pv_verified_at : Z;
  pv_deferred_verify : bool }.

Record Caches `{Lru} := mkCaches {
  known_empty_eatas : lru unit;
  program_verify_cache : lru ProgramVerifyState;
  programdata_index : lru Pubkey;
  programdata_sweep_cursor : Z;
  fetch_count : Z;
  dlp_collision_tracker : DlpCollisionTracker }.

Class LinkEnv `{Lru} := {
  validator_pubkey : Pubkey;
  engine_authority : Pubkey;
  allowed_programs : option (gset N);
  (** The strategy of the risk service, if there is one. *)
  risk_service : option AmlCheckStrategy;
  (** [AccountAccessor::skipped], [into_eviction] and [into_cached_eviction]. *)
  lease_skips : AccountAccessor -> AccountMode -> Z -> bool;
  lease_evictable : AccountAccessor -> bool;
  lease_cached_evictable : AccountAccessor -> bool;
  ask_read : list LEvent -> Pubkey -> result (option SharedAccount) N;
  ask_lifecycle : list LEvent -> Pubkey -> option (AccountMode * Z);
  ask_contains : list LEvent -> Pubkey -> result bool N;
  ask_lease : list LEvent -> Pubkey -> answer (result (option (AccountMode * Z) * N) EngineError);
  ask_missing : list LEvent -> list Pubkey -> answer (result (list AccountAccessor) EngineError);
  ask_materialize : list LEvent -> AccountAccessor -> option SharedAccount -> SharedAccount ->
    option PostFinalize -> answer (result unit EngineError);
  ask_delete : list LEvent -> AccountAccessor -> answer (result unit EngineError);
  ask_fetch : list LEvent -> list Pubkey -> option (list Pubkey) -> option Z ->
    answer (ProviderResult (list RemoteAccount));
  ask_match : list LEvent -> list Pubkey -> option Z -> answer (ProviderResult (list RemoteAccount));
  ask_snapshot : list LEvent -> list Pubkey -> Z -> answer (ProviderResult (list RemoteAccount));
  ask_slice : list LEvent -> Pubkey -> nat -> Z -> answer (ProviderResult (option (list Z)));
  ask_risk : list LEvent -> string -> answer (result bool N);
  ask_sub : list LEvent -> SubscriptionCall -> answer (ProviderResult unit);
  ask_has_reason : list LEvent -> list Pubkey -> SubscriptionReason -> answer bool;
  ask_watching : list LEvent -> Pubkey -> bool;
  ask_chain_slot : list LEvent -> Z;
  ask_now : list LEvent -> Z;
  ask_claims : list LEvent -> Z;
  interfere : list LEvent -> Caches -> Caches }.

Section client.
Context `{TokenEnv} `{LinkApi} `{LinkEnv}.
Abbreviation P A := (Proc LEvent Caches A).

(** ** Calls *)

(** Other tasks run while this one waits. *)
Definition yield : P unit := fun w =>
  Done tt (mkWorld (interfere (history w) (state w)) (history w) (awaits w)).
Definition lawait {A} (ask : list LEvent -> answer A) (log : option A -> LEvent) : P A :=
  a ← await ask log; yield ;; pret a.
Definition ltimeout {A} (m : P A) : P (option A) := r ← ptimeout m; yield ;; pret r.
Definition update {A} (f : Caches -> Caches * A) : P A :=
  c ← pget; pmodify (fun _ => fst (f c)) ;; pret (snd (f c)).

Definition loader_read (k : Pubkey) : P (result (option SharedAccount) N) :=
  call (fun h => ask_read h k) (LRead k).
(** [.ok().flatten()] on a read. *)
Definition read_account (k : Pubkey) : P (option SharedAccount) :=
  r ← loader_read k; pret (match r with Ok o => o | Err _ => None end).
Definition account_mode (k : Pubkey) : P (option AccountMode) :=
  r ← call (fun h => ask_lifecycle h k) (LLifecycle k); pret (fst <$> r).
Definition loader_contains (k : Pubkey) : P (result bool N) :=
  call (fun h => ask_contains h k) (LContains k).
Definition contains_account (k : Pubkey) : P bool :=
  r ← loader_contains k; pret (match r with Ok b => b | Err _ => false end).

Definition granted (k : Pubkey) (r : result (option (AccountMode * Z) * N) EngineError)
    : result AccountAccessor EngineError :=
  match r with Ok (observed, id) => Ok (mkAccessor k observed id) | Err e => Err e end.
Definition engine_account (k : Pubkey) : P (result AccountAccessor EngineError) :=
  r ← lawait (fun h => ask_lease h k) (fun o => LLease k (granted k <$> o)); pret (granted k r).
Definition missing_accounts (ks : list Pubkey) : P (result (list AccountAccessor) EngineError) :=
  lawait (fun h => ask_missing h ks) (LMissing ks).
Definition materialize (lease : AccountAccessor) (expected : option SharedAccount)
    (image : SharedAccount) (actions : option PostFinalize) : P (result unit EngineError) :=
  lawait (fun h => ask_materialize h lease expected image actions)
    (LMaterialize lease expected image actions).
Definition delete_lease (lease : AccountAccessor) : P (result unit EngineError) :=
  lawait (fun h => ask_delete h lease) (LDelete lease).

Definition try_get_multi (ks : list Pubkey) (mark_empty : option (list Pubkey)) (floor : option Z)
    : P (ProviderResult (list RemoteAccount)) :=
  lawait (fun h => ask_fetch h ks mark_empty floor) (LFetch ks mark_empty floor).
Definition try_get_multi_until_slots_match (ks : list Pubkey) (floor : option Z)
    : P (ProviderResult (list RemoteAccount)) :=
  lawait (fun h => ask_match h ks floor) (LMatch ks floor).
Definition fetch_snapshot_until_slot (ks : list Pubkey) (floor : Z)
    : P (ProviderResult (list RemoteAccount)) :=
  lawait (fun h => ask_snapshot h ks floor) (LSnapshot ks floor).
Definition get_account_data_slice (k : Pubkey) (len : nat) (floor : Z)
    : P (ProviderResult (option (list Z))) :=
  lawait (fun h => ask_slice h k len floor) (LSlice k len floor).
Definition assess_address (address : string) : P (result bool N) :=
  lawait (fun h => ask_risk h address) (LRisk address).
Definition subscription (c : SubscriptionCall) : P (ProviderResult unit) :=
  lawait (fun h => ask_sub h c) (LSub c).
Definition has_any_subscription_reason (ks : list Pubkey) (reason : SubscriptionReason) : P bool :=
  lawait (fun h => ask_has_reason h ks reason) (LHasReason ks reason).
Definition is_watching (k : Pubkey) : P bool := call (fun h => ask_watching h k) (LWatching k).
Definition chain_slot : P Z := call ask_chain_slot LChainSlot.
Definition now : P Z := call ask_now LNow.
Definition remote_account_claims : P Z := call ask_claims LClaims.
Definition spawn (s : Spawned) : P unit := call (fun _ => tt) (fun _ => LSpawn s).

(** ** Subscriptions *)

Fixpoint release_subs (releases : list SubscriptionRelease) : P unit :=
  match releases with
  | [] => pret tt
  | (k, reason) :: releases => subscription (Release k reason) ;; release_subs releases
  end.

Fixpoint acquire_each (acquired ks : list Pubkey) (reason : SubscriptionReason)
    : P (LinkResult unit) :=
  match ks with
  | [] => pret (Ok tt)
  | k :: ks =>
      r ← subscription (Acquire k reason);
      match r with
      | Err e =>
          release_subs (releases_for reason acquired) ;;
          pret (Err (FailedToSubscribeToAccount k e))
      | Ok _ => acquire_each (acquired ++ [k]) ks reason
      end
  end.
Definition acquire_subs (ks : list Pubkey) (reason : SubscriptionReason) : P (LinkResult unit) :=
  acquire_each [] ks reason.

Definition release_program_data_subs (program_data : Pubkey) : P unit :=
  release_subs [(program_data, DirectAccount); (program_data, ProgramDataReason)].

Definition acquire_subscription_reason (k : Pubkey) (reason : SubscriptionReason)
    : P (LinkResult unit) :=
  r ← subscription (Acquire k reason); pret (res_map_err (FailedToSubscribeToAccount k) r).

(** ** The risk service *)

Fixpoint assess_each (addresses : list string) : P (result (list (string * bool)) RiskError) :=
  match addresses with
  | [] => pret (Ok [])
  | a :: addresses =>
      r ← assess_address a;
      match r with
      | Err code => pret (Err (RiskRequest code))
      | Ok risky => rest ←? assess_each addresses; pret (Ok ((a, risky) :: rest))
      end
  end.

Definition check_addresses (addresses : list string) : P (result unit RiskError) :=
  assessments ←? assess_each addresses;
  let risky := map fst (filter (fun p => p.2 = true) assessments) in
  pret (if is_nil risky then Ok tt else Err (HighRiskAddresses risky)).

(** ** The cloner *)

Definition claim_materialization (k : Pubkey) (ata_projection : bool)
    : P (result (option AccountAccessor) ClonerError) :=
  r ← engine_account k;
  match r with
  | Err e => pret (Err (EngineFailure e))
  | Ok accessor =>
      match ac_observed accessor with
      | Some (Magic, _) =>
          if negb ata_projection then pret (Ok None)
          else
            r ← loader_read k;
            pret (match r with
                  | Err code => Err (EngineFailure (Keeper code))
                  | Ok (Some account) =>
                      Ok (if decide (is_Some (try_get_magic_ata_info k account))
                          then Some accessor else None)
                  | Ok None => Ok None
                  end)
      | _ => pret (Ok (Some accessor))
      end
  end.

(** [retries] is 2 at the start. *)
Fixpoint ata_materialize (retries : nat) (accessor : AccountAccessor) (projection : SharedAccount)
    (actions : option PostFinalize) : P (result unit ClonerError) :=
  r ← loader_read (ac_key accessor);
  match r with
  | Err code => pret (Err (EngineFailure (Keeper code)))
  | Ok o =>
      let expected := default no_account o in
      match (if is_mode Magic expected then merge (ac_key accessor) expected projection
             else Ok projection) with
      | Err e => pret (Err e)
      | Ok account =>
          r ← materialize accessor (Some expected) account actions;
          match r, retries with
          | Err AccountChanged, S retries =>
              r ← engine_account (ac_key accessor);
              match r with
              | Err e => pret (Err (EngineFailure e))
              | Ok accessor => ata_materialize retries accessor projection actions
              end
          | r, _ => pret (res_map_err EngineFailure r)
          end
      end
  end.

(** [cloner::clone_account]. *)
Definition cloner_clone_account (accessor : AccountAccessor) (request : AccountCloneRequest)
    : P (result unit ClonerError) :=
  let incoming := cr_account request in
  let stale :=
    match ac_observed accessor with
    | Some ((Delegated | Undelegating), delegation_slot) =>
        is_any_mode [Missing; Mirrored] incoming
        && negb (bool_decide (delegation_slot < sa_slot incoming)%Z)
    | _ => false
    end in
  if stale then pret (Ok tt)
  else
    let actions :=
      match cr_mode request with
      | NoPostDelegation => None
      | ExecuteActions d => Some (mkPostFinalize (da_source_program d) (da_actions d))
      | RescueUndelegate source_program =>
          Some (mkPostFinalize source_program [undelegation_action engine_authority (cr_pubkey request)])
      end in
    let empty_placeholder := is_mode Missing incoming && bool_decide (actions = None) in
    result ←
      (if is_ata_projection request && negb (lease_skips accessor (sa_mode incoming) (sa_slot incoming))
       then ata_materialize 2 accessor incoming actions
       else r ← materialize accessor None incoming actions; pret (res_map_err EngineFailure r));
    match result with
    | Ok _ => pret (Ok tt)
    | Err error =>
        let failed := Err (FailedToCloneRegularAccount (cr_pubkey request) error) in
        let lifecycle_conflict :=
          match error with
          | EngineFailure (TransactionExecution (TxInstructionError 1 InvalidArgument)) => true
          | _ => false
          end in
        if empty_placeholder && lifecycle_conflict then
          claim ←? claim_materialization (cr_pubkey request) false;
          pret (match claim with None => Ok tt | Some _ => failed end)
        else pret failed
    end.

Definition cloner_clone_program (accessor : AccountAccessor) (request : AccountCloneRequest)
    : P (result unit ClonerError) :=
  r ← materialize accessor None (cr_account request) None;
  pret (res_map_err (fun e => FailedToCloneProgram (cr_pubkey request) (EngineFailure e)) r).

Definition claim_account_eviction (k : Pubkey) : P (result (option AccountAccessor) ClonerError) :=
  r ← engine_account k;
  pret (match r with
        | Err e => Err (EngineFailure e)
        | Ok accessor => Ok (if lease_evictable accessor then Some accessor else None)
        end).

Definition delete_claimed_account (accessor : AccountAccessor) (k : Pubkey)
    : P (result unit ClonerError) :=
  r ← delete_lease accessor;
  pret (res_map_err (fun e => FailedToEvictAccount k (EngineFailure e)) r).

Definition evict_account (k : Pubkey) : P (result unit ClonerError) :=
  claim ←? claim_account_eviction k;
  match claim with
  | None => pret (Ok tt)
  | Some accessor => delete_claimed_account accessor k
  end.

Definition claim_cached_account_eviction {R} (k : Pubkey) (inspect : SharedAccount -> R)
    : P (result (option (AccountAccessor * R)) ClonerError) :=
  r ← engine_account k;
  match r with
  | Err e => pret (Err (EngineFailure e))
  | Ok accessor =>
      if negb (lease_cached_evictable accessor) then pret (Ok None)
      else
        value ← loader_read k;
        pret (match value with
              | Err code => Err (EngineFailure (Keeper code))
              | Ok value => Ok ((fun account => (accessor, inspect account)) <$> value)
              end)
  end.
End client.
