(* ===== verification/FetchCloner.v ===== *)
(** * Chainlink: fetching and cloning

    [chainlink/fetch_cloner]: a batch of accounts is fetched, classified and
    resolved against delegation records, program data and eATAs, and every account
    is then cloned under a lease of the engine. A delegated account may come with
    actions to run after its delegation; the accounts they name are fetched and
    cloned first, so [clone_account] is recursive: its recursive uses are the
    parameter [clone_rec], and [clone_account] ties the knot with as many levels as
    there are calls left, since every level makes a call. *)

From stdpp Require Import base gmap sets list strings pretty.
From Stdlib Require Import ZArith Lia.
From S2P Require Import Prelude Intent Runtime TokenPrograms Limits Process Link LinkResolve LinkClient.

Open Scope proc_scope.

Inductive ProgramDataWatch := Installed | AlreadyInstalled | EvictedConcurrently.
Inductive RefreshDecision := RefreshNo | RefreshYes | YesAndMarkEmptyIfNotFound.

Section fetch_cloner.
Context `{TokenEnv} `{LinkApi} `{LinkEnv}.
Abbreviation P A := (Proc LEvent Caches A).

Definition set_programdata_index (i : lru Pubkey) (c : Caches) : Caches :=
  mkCaches _ (known_empty_eatas c) (program_verify_cache c) i (programdata_sweep_cursor c)
    (fetch_count c) (dlp_collision_tracker c).
Definition add_fetch_count (n : nat) : P unit :=
  pmodify (fun c => mkCaches _ (known_empty_eatas c) (program_verify_cache c) (programdata_index c)
                      (programdata_sweep_cursor c) (wadd 64 (fetch_count c) (Z.of_nat n))
                      (dlp_collision_tracker c)).

Definition forget_program_data (k : Pubkey) : P unit :=
  subscription (Forget k ProgramDataReason) ;; pret tt.

(** ** Program watches *)

(** The index is locked for the lookup and the insertion together. *)
Definition index_insert (program_data program_id : Pubkey) (c : Caches)
    : Caches * option (option (Pubkey * Pubkey)) :=
  let '(i, found) := lru_get (programdata_index c) program_data in
  match found with
  | Some _ => (set_programdata_index i c, None)
  | None => let '(i, evicted) := lru_push i program_data program_id in
            (set_programdata_index i c, Some evicted)
  end.
Definition index_get (program_data : Pubkey) : P (option Pubkey) :=
  update (fun c => let '(i, o) := lru_get (programdata_index c) program_data in
                   (set_programdata_index i c, o)).
Definition index_pop (program_data : Pubkey) : P (option Pubkey) :=
  update (fun c => let '(i, o) := lru_pop (programdata_index c) program_data in
                   (set_programdata_index i c, o)).

Definition watch_programdata (program_id : Pubkey) : P (LinkResult ProgramDataWatch) :=
  let program_data := program_data_address program_id in
  inserted ← update (index_insert program_data program_id);
  match inserted with
  | None => pret (Ok AlreadyInstalled)
  | Some evicted =>
      match evicted with
      | Some (evicted_program_data, evicted_program_id) =>
          forget_program_data evicted_program_data ;; evict_account evicted_program_id ;; pret tt
      | None => pret tt
      end ;;
      r ← acquire_subscription_reason program_data ProgramDataReason;
      match r with
      | Err err => index_pop program_data ;; pret (Err err)
      | Ok _ =>
          still ← index_get program_data;
          match still with
          | None => forget_program_data program_data ;; pret (Ok EvictedConcurrently)
          | Some _ => subscription (PreferGrpc program_id) ;; pret (Ok Installed)
          end
      end
  end.

Definition unwatch_programdata (program_id : Pubkey) : P unit :=
  let program_data := program_data_address program_id in
  popped ← index_pop program_data;
  match popped with Some _ => forget_program_data program_data | None => pret tt end.

Definition clone_program (program : LoadedProgram) : P (LinkResult unit) :=
  let program_id := lp_program_id program in
  let is_loaderv3 := bool_decide (lp_loader program = V3) in
  match resolve_program program with
  | None => pret (Ok tt)
  | Some request =>
      installed_watch ←
        (if is_loaderv3
         then r ← watch_programdata program_id;
              pret (match r with Ok Installed => true | _ => false end)
         else pret false);
      claim ← claim_materialization (cr_pubkey request) false;
      match claim with
      | Err e => pret (Err (LinkClonerError e))
      | Ok None => pret (Ok tt)
      | Ok (Some accessor) =>
          result ← cloner_clone_program accessor request;
          match result with
          | Ok _ =>
              (if is_loaderv3 then watch_programdata program_id ;; pret tt else pret tt) ;;
              pret (Ok tt)
          | Err e =>
              (if installed_watch : bool then unwatch_programdata program_id else pret tt) ;;
              pret (Err (LinkClonerError e))
          end
      end
  end.

(** ** Delegation records *)

Definition fetch_and_parse_delegation_record (account_pubkey : Pubkey) (min_context_slot : Z)
    : P (option (DelegationRecord * option DelegationActions)) :=
  let record_pubkey := record_pda account_pubkey in
  acquired ← acquire_subscription_reason record_pubkey DelegationRecordReason;
  fetched ← try_get_multi_until_slots_match [record_pubkey] (Some min_context_slot);
  let res :=
    match fetched with
    | Ok records =>
        match last records ≫= fresh_account with
        | Some account =>
            match parse_delegation_record (sa_data account) record_pubkey validator_pubkey with
            | Ok parsed => Some parsed
            | Err _ => None
            end
        | None => None
        end
    | Err _ => None
    end in
  present ← contains_account record_pubkey;
  release_subs ((if present : bool then [] else [(record_pubkey, DirectAccount)])
                ++ (if is_ok acquired then [(record_pubkey, DelegationRecordReason)] else [])) ;;
  pret res.

Definition initial_commit_id (request : AccountCloneRequest) : P (LinkResult Z) :=
  let image := cr_account request in
  match (if is_ata_projection request
         then ok_or (derive_eata_pubkey_from_ata_account (cr_pubkey request) image)
                (InvalidDelegationRecord (cr_pubkey request) InvalidRecordData)
         else Ok (cr_pubkey request)) with
  | Err e => pret (Err e)
  | Ok delegated_pubkey =>
      let record_pubkey := record_pda delegated_pubkey in
      let metadata_pubkey := metadata_pda delegated_pubkey in
      accounts ← fetch_snapshot_until_slot [record_pubkey; metadata_pubkey]
                   (cs_view (source_slots request));
      let invalid := InvalidDelegationRecord record_pubkey InvalidRecordData in
      pret
        (let? accounts := res_map_err ProviderError accounts in
         match accounts with
         | [record; metadata] =>
             let? record := ok_or (fresh_account record) invalid in
             let? metadata := ok_or (fresh_account metadata) invalid in
             if decide (sa_owner record <> DELEGATION_PROGRAM_ID
                        \/ sa_owner metadata <> DELEGATION_PROGRAM_ID)
             then Err invalid
             else
               let? data := ok_or (get_slice 0 record_size (sa_data record)) invalid in
               let? record := res_map_err (fun _ => invalid) (parse_record data) in
               let expected_owner :=
                 if is_ata_projection request then EATA_PROGRAM_ID else sa_owner image in
               if decide (dr_authority record <> validator_pubkey \/ dr_owner record <> expected_owner
                          \/ dr_delegation_slot record <> sa_slot image)
               then Err invalid
               else
                 let? last_commit_id := ok_or (parse_delegation_metadata (sa_data metadata)) invalid in
                 if decide (last_commit_id <= u32_max)%Z then Ok last_commit_id
                 else Err (InvalidDelegationCommitSequence metadata_pubkey last_commit_id)
         | _ => Err invalid
         end)
  end.

Definition task_to_fetch_with_companion (k companion_pubkey : Pubkey) (slot : Z)
    : P (LinkResult AccountWithCompanion) :=
  add_fetch_count 2 ;;
  accs ← try_get_multi_until_slots_match [k; companion_pubkey] (Some slot);
  pret (let? accs := res_map_err ProviderError accs in
        match accs with
        | [acc; deleg] => resolve_account_with_companion k companion_pubkey acc deleg
        | _ => Err (UnexpectedAccountCount 2 (length accs))
        end).

Definition task_to_fetch_with_delegation_record (k : Pubkey) (slot : Z)
    : P (LinkResult AccountWithCompanion) :=
  task_to_fetch_with_companion k (record_pda k) slot.

Definition task_to_fetch_with_program_data (k : Pubkey) (slot : Z)
    : P (LinkResult AccountWithCompanion) :=
  task_to_fetch_with_companion k (program_data_address k) slot.

Definition cleanup_direct_subscription_for_delegated_account (k : Pubkey) : P unit :=
  subscription (ReleaseSilently k DirectAccount) ;; pret tt.
Definition cleanup_undelegation_tracking_for_completed_account (k : Pubkey) : P unit :=
  subscription (ReleaseSilently k UndelegationTracking) ;; pret tt.
End fetch_cloner.
