(* ===== verification/LinkPipeline.v ===== *)
(** * Chainlink: the clone pipeline

    [fetch_cloner/pipeline.rs], the batch part of [fetch_cloner/ata_projection.rs]
    and the functions of [fetch_cloner/mod.rs] that clone a batch or one account. *)

From stdpp Require Import base gmap sets list strings pretty.
From Stdlib Require Import ZArith Lia.
From S2P Require Import Prelude Intent Runtime TokenPrograms Limits Process Link LinkResolve LinkClient.
From S2P Require Import FetchCloner.

Open Scope proc_scope.

Record ResolvedDelegatedAccounts := mkResolvedDelegated {
  rd_accounts_to_clone : list AccountCloneRequest;
  rd_record_subs : list Pubkey;
  rd_missing_delegation_record : list (Pubkey * Z) }.

Record ResolvedPrograms := mkResolvedPrograms {
  rp_loaded_programs : list LoadedProgram;
  rp_program_data_subs : gset N }.

Definition successes {A E} (l : list (result A E)) : list A :=
  omap (fun r => match r with Ok a => Some a | Err _ => None end) l.
Definition failures {A E} (l : list (result A E)) : list E :=
  omap (fun r => match r with Ok _ => None | Err e => Some e end) l.

Definition effective_slot (min_context_slot : option Z) (account_slot : Z) : Z :=
  match min_context_slot with Some min_slot => Z.max min_slot account_slot | None => account_slot end.

Section pipeline.
Context `{TokenEnv} `{LinkApi} `{LinkEnv}.
Abbreviation P A := (Proc LEvent Caches A).

(** Tasks of a join set. *)
Fixpoint join_all {A B} (f : A -> P B) (l : list A) : P (list B) :=
  match l with
  | [] => pret []
  | a :: l => b ← f a; bs ← join_all f l; pret (b :: bs)
  end.

Definition show_errors (errors : list ChainlinkError) : string :=
  String.concat ", " (map show_chainlink_error errors).

(** ** Delegated accounts *)

Definition delegated_releases (owned : list (Pubkey * SharedAccount * Z)) (record_subs : list Pubkey)
    : list SubscriptionRelease :=
  releases_for DirectAccount (map (fun o => o.1.1) owned ++ record_subs)
  ++ releases_for DelegationRecordReason record_subs.

(** The clone request of one account, with the owner program to subscribe to and
    whether its delegation record is missing. *)
Definition delegated_request (a : AccountWithCompanion)
    : LinkResult (AccountCloneRequest * option Pubkey * bool) :=
  let k := ac_pubkey a in
  let account := ac_account a in
  let source_slots := slots_single (sa_slot account) in
  match ac_companion_account a with
  | Some record_data =>
      let? '(record, delegation_actions) :=
        parse_delegation_record (sa_data record_data) (ac_companion_pubkey a) validator_pubkey in
      let other := delegated_to_other validator_pubkey record in
      let account := apply_record validator_pubkey k account record in
      let delegated := is_mode Delegated account in
      let owner_program :=
        if delegated && negb (program_subscription_is_too_broad (dr_owner record))
        then Some (dr_owner record) else None in
      let delegation_actions := if delegated then delegation_actions else None in
      Ok (mkAccountCloneRequest k account (mode_from delegation_actions) other (Some source_slots),
          owner_program, false)
  | None =>
      Ok (mkAccountCloneRequest k account NoPostDelegation None (Some source_slots),
          None, negb (is_internal_dlp_account_data (sa_data account)))
  end.

Fixpoint resolve_each (on_error : list SubscriptionRelease) (accounts : list AccountWithCompanion)
    (acc : list AccountCloneRequest) (missing : list (Pubkey * Z)) (owners : gset N)
    : P (LinkResult (list AccountCloneRequest * list (Pubkey * Z) * gset N)) :=
  match accounts with
  | [] => pret (Ok (acc, missing, owners))
  | a :: accounts =>
      match delegated_request a with
      | Err err => release_subs on_error ;; pret (Err err)
      | Ok (request, owner_program, record_missing) =>
          let k := cr_pubkey request in
          let missing := if record_missing : bool then missing ++ [(k, sa_slot (cr_account request))]
                         else missing in
          let owners := match owner_program with Some o => {[o]} ∪ owners | None => owners end in
          (if is_mode Delegated (cr_account request) then
             mode ← account_mode k;
             match mode with
             | Some Delegated | None => pret tt
             | Some _ => cleanup_undelegation_tracking_for_completed_account k
             end ;;
             cleanup_direct_subscription_for_delegated_account k
           else pret tt) ;;
          resolve_each on_error accounts (acc ++ [request]) missing owners
      end
  end.

Definition resolve_delegated_accounts (owned : list (Pubkey * SharedAccount * Z))
    (plain : list AccountCloneRequest) (min_context_slot : option Z)
    : P (LinkResult ResolvedDelegatedAccounts) :=
  let record_subs := map (fun o => record_pda o.1.1) owned in
  _ ←? acquire_subs record_subs DelegationRecordReason;
  joined ← join_all (fun o => task_to_fetch_with_delegation_record o.1.1
                                (effective_slot min_context_slot o.2)) owned;
  if negb (is_nil (failures joined)) then
    release_subs (delegated_releases owned record_subs) ;;
    pret (Err (DelegatedAccountResolutionsFailed (show_errors (failures joined))))
  else
    resolved ←? resolve_each (delegated_releases owned record_subs) (successes joined) plain [] ∅;
    let '(accounts_to_clone, missing, owners) := resolved in
    release_subs (releases_for DirectAccount (map (fun o => o.1.1) owned)) ;;
    join_all (fun owner => spawn (SubscribeProgram owner)) (elements owners) ;;
    pret (Ok (mkResolvedDelegated accounts_to_clone record_subs missing)).

(** ** Programs *)

(** The fetched accounts in pairs, a program and its data. *)
Fixpoint resolve_pairs (programs : list (Pubkey * SharedAccount * Z)) (accs : list RemoteAccount)
    : list (LinkResult AccountWithCompanion) :=
  match programs, accs with
  | (k, _, _) :: programs, a :: d :: accs =>
      resolve_account_with_companion k (program_data_address k) a d :: resolve_pairs programs accs
  | (_, _, _) :: _, [_] =>
      [Err (ProgramAccountResolutionsFailed
              "LoaderV3 fetch: expected 2 accounts (program + data) per pair, got 1")]
  | _, _ => []
  end.

(** The programs of the pairs, and the errors of those without program data. *)
Fixpoint load_pairs (l : list AccountWithCompanion)
    : LinkResult (list LoadedProgram * list ChainlinkError) :=
  match l with
  | [] => Ok ([], [])
  | a :: l =>
      match ac_companion_account a with
      | Some program_data =>
          let? p := res_map_err ProviderError
                      (resolve_loaded_program (ac_pubkey a) (sa_owner (ac_account a)) None
                         (Some program_data)) in
          let? '(ps, es) := load_pairs l in Ok (p :: ps, es)
      | None =>
          let? '(ps, es) := load_pairs l in
          Ok (ps, FailedToResolveProgramDataAccount (ac_companion_pubkey a) (ac_pubkey a) :: es)
      end
  end.

Definition load_single (o : Pubkey * SharedAccount * Z) : LinkResult LoadedProgram :=
  let '(program_id, program_account, _) := o in
  res_map_err ProviderError
    (resolve_loaded_program program_id (sa_owner program_account) (Some program_account) None).

Definition resolve_programs_with_program_data (programs : list (Pubkey * SharedAccount * Z))
    (min_context_slot : option Z) : P (LinkResult ResolvedPrograms) :=
  let loaderv3_programs := filter (fun o => sa_owner o.1.2 = LOADER_V3) programs in
  let single_account_programs := filter (fun o => sa_owner o.1.2 <> LOADER_V3) programs in
  let pubkeys_to_fetch :=
    concat (map (fun o => [o.1.1; program_data_address o.1.1]) loaderv3_programs) in
  let batch_min_context_slot :=
    foldl (fun s o => Some (Z.max (default 0%Z s) (effective_slot min_context_slot o.2)))
      min_context_slot loaderv3_programs in
  let program_data_subs : gset N :=
    list_to_set (map (fun o => program_data_address o.1.1) loaderv3_programs) in
  _ ←? acquire_subs (elements program_data_subs) ProgramDataReason;
  fetch_result ←
    (if is_nil pubkeys_to_fetch then pret (Ok [])
     else add_fetch_count (length pubkeys_to_fetch) ;;
          try_get_multi_until_slots_match pubkeys_to_fetch batch_min_context_slot);
  let '(errors, with_data) :=
    match fetch_result with
    | Ok remote_accounts =>
        if decide (length remote_accounts <> length pubkeys_to_fetch) then
          ([ProgramAccountResolutionsFailed
              ("LoaderV3 fetch: expected " +:+ pretty (length pubkeys_to_fetch)
               +:+ " accounts, got " +:+ pretty (length remote_accounts))], [])
        else
          let pairs := resolve_pairs loaderv3_programs remote_accounts in
          (failures pairs, successes pairs)
    | Err err => ([ProviderError err], [])
    end in
  match load_pairs with_data with
  | Err e => pret (Err e)
  | Ok (loaded, no_data) =>
      match try_collect load_single single_account_programs with
      | Err e => pret (Err e)
      | Ok single =>
          let errors := errors ++ no_data in
          if negb (is_nil errors) then
            release_subs (releases_for DirectAccount pubkeys_to_fetch
                          ++ releases_for ProgramDataReason (elements program_data_subs)) ;;
            pret (Err (ProgramAccountResolutionsFailed (show_errors errors)))
          else pret (Ok (mkResolvedPrograms (loaded ++ single) program_data_subs))
      end
  end.
(** ** Token accounts *)

(** The key of the eATA, the default key if it cannot be derived. *)
Definition eata_companion (info : AtaInfo) : Pubkey := default 0%N (derive_eata_pubkey info).

Definition ata_subscriptions (atas : list (Pubkey * SharedAccount * AtaInfo * Z)) : list Pubkey :=
  elements (list_to_set (C := gset N)
              (concat (map (fun '(k, _, info, _) => k :: option_list (derive_eata_pubkey info)) atas))).

Definition eata_record (input : AccountWithCompanion)
    : P (option (DelegationRecord * option DelegationActions)) :=
  match ac_companion_account input with
  | None => pret None
  | Some _ =>
      context_slot ← chain_slot;
      fetch_and_parse_delegation_record (ac_companion_pubkey input) context_slot
  end.

Definition ata_request (input : AccountWithCompanion)
    (deleg : option (DelegationRecord * option DelegationActions)) : AccountCloneRequest :=
  let k := ac_pubkey input in
  let ata_account := ac_account input in
  match ac_companion_account input, deleg with
  | Some eata, Some (record, delegation_actions) =>
      let other := delegated_to_other validator_pubkey record in
      match project_delegated_ata validator_pubkey ata_account (sa_data eata) record with
      | Some projected_ata =>
          mkAccountCloneRequest k projected_ata (mode_from delegation_actions) other
            (Some (slots_projected (sa_slot ata_account) (sa_slot eata)))
      | None => mkAccountCloneRequest k ata_account NoPostDelegation other None
      end
  | _, _ => mkAccountCloneRequest k ata_account NoPostDelegation None None
  end.

Definition resolve_ata_with_eata_projection (atas : list (Pubkey * SharedAccount * AtaInfo * Z))
    (min_context_slot : option Z) : P (list AccountCloneRequest) :=
  if is_nil atas then pret []
  else
    let pubkeys_to_subscribe := ata_subscriptions atas in
    acquired ← acquire_subs pubkeys_to_subscribe AtaProjection;
    ata_results ← join_all (fun '(k, _, info, slot) =>
                              task_to_fetch_with_companion k (eata_companion info)
                                (effective_slot min_context_slot slot)) atas;
    let ata_inputs := successes ata_results in
    deleg_results ← join_all eata_record ata_inputs;
    let accounts_to_clone := zip_with ata_request ata_inputs deleg_results in
    release_subs (releases_for DirectAccount pubkeys_to_subscribe
                  ++ if is_ok acquired then releases_for AtaProjection pubkeys_to_subscribe else []) ;;
    pret accounts_to_clone.

(** ** Risk *)

Definition validate_post_delegation_action_signers (actions : list Instruction)
    : P (LinkResult unit) :=
  match risk_service with
  | None => pret (Ok tt)
  | Some strategy =>
      if negb (delegation_actions_require_risk_check strategy actions) then pret (Ok tt)
      else
        let signers := signer_addresses actions in
        if is_nil signers then pret (Ok tt)
        else r ← check_addresses signers; pret (res_map_err RiskCheckFailed r)
  end.

(** ** Undelegating accounts *)

Definition still_delegated_eata (record : DelegationRecord) : bool :=
  bool_decide (dr_owner record = EATA_PROGRAM_ID) && bool_decide (dr_authority record = validator_pubkey).

Definition undelegation_refresh (k : Pubkey) (delegation_slot : Z) (eata_pubkey : option Pubkey)
    : P RefreshDecision :=
  still_delegated ←
    match eata_pubkey with
    | Some eata_pubkey =>
        slot ← chain_slot;
        projected_record ← fetch_and_parse_delegation_record eata_pubkey slot;
        pret (match projected_record with Some (r, _) => still_delegated_eata r | None => false end)
    | None => pret false
    end;
  if still_delegated : bool then pret RefreshNo
  else
    slot ← chain_slot;
    record ← fetch_and_parse_delegation_record k slot;
    match record with
    | None => pret YesAndMarkEmptyIfNotFound
    | Some (record, _) =>
        let delegated_on_chain := bool_decide (dr_authority record = validator_pubkey
                                               \/ dr_authority record = 0%N) in
        let still_undelegating :=
          account_still_undelegating_on_chain delegated_on_chain delegation_slot (Some record) in
        pret (if still_undelegating then RefreshNo else RefreshYes)
    end.
End pipeline.
