(* ===== verification/LinkClone.v ===== *)
(** * Chainlink: cloning

    [FetchCloner::clone_accounts], [clone_account] and what they call. *)

From stdpp Require Import base gmap sets list strings sorting.
From Stdlib Require Import ZArith Lia.
From S2P Require Import Prelude Intent Runtime TokenPrograms Limits Process Link LinkResolve LinkClient.
From S2P Require Import FetchCloner LinkPipeline.

Open Scope proc_scope.

(** Keys are ordered as their bytes. *)
Definition key_order (k : Pubkey) : Z := from_le_bytes (rev (key_bytes k)).
Definition key_le (a b : Pubkey) : Prop := (key_order a <= key_order b)%Z.
#[export] Instance key_le_dec : RelDecision key_le.
Proof. intros a b. unfold key_le. apply _. Defined.

Section clone.
Context `{TokenEnv} `{LinkApi} `{LinkEnv}.
Abbreviation P A := (Proc LEvent Caches A).

(** The recursive uses of [clone_account]. *)
Section batch.
Context (clone_rec : AccountCloneRequest -> P (LinkResult unit)).

Definition materialize_accounts (requests : list AccountCloneRequest) : P (LinkResult unit) :=
  results ← join_all clone_rec requests;
  pret (try_for_each id results).

Definition clone_accounts_and_programs (accounts_to_clone : list AccountCloneRequest)
    (loaded_programs : list LoadedProgram) : P (LinkResult unit) :=
  programs ← join_all clone_program
               (filter (fun p => is_program_allowed allowed_programs (lp_program_id p) = true)
                  loaded_programs);
  match try_for_each id programs with
  | Err e => pret (Err e)
  | Ok _ =>
      let with_actions := filter (fun r => has_actions (cr_mode r) = true) accounts_to_clone in
      let without_actions := filter (fun r => has_actions (cr_mode r) = false) accounts_to_clone in
      _ ←? materialize_accounts without_actions;
      materialize_accounts with_actions
  end.

(** The absent read-only dependencies that the batch does not bring itself. *)
Fixpoint missing_dependencies (requests : list AccountCloneRequest) (programs : list LoadedProgram)
    (deps : list (Pubkey * bool)) : P (LinkResult (list Pubkey)) :=
  match deps with
  | [] => pret (Ok [])
  | (dependency, writable) :: deps =>
      if negb writable && negb (bool_decide (dependency ∈ map cr_pubkey requests))
         && negb (bool_decide (dependency ∈ map lp_program_id programs))
      then
        present ← loader_contains dependency;
        match present with
        | Err code => pret (Err (LinkKeeper code))
        | Ok present =>
            pending ←? missing_dependencies requests programs deps;
            pret (Ok (if present : bool then pending else dependency :: pending))
        end
      else missing_dependencies requests programs deps
  end.

(** What a batch has resolved so far. *)
Record Batch := mkBatch {
  bt_requested : list Pubkey;
  bt_accounts : list AccountCloneRequest;
  bt_programs : list LoadedProgram;
  bt_record_subs : list Pubkey;
  bt_program_data_subs : gset N }.

Definition batch_releases (b : Batch) : list SubscriptionRelease :=
  compute_subscription_releases (bt_requested b) (bt_accounts b) (bt_programs b) (bt_record_subs b)
    (bt_program_data_subs b).

(** The prefetch of absent read-only dependencies of the batch's actions. *)
Definition prefetch_dependencies (b : Batch) (missing : list Pubkey) (min_context_slot : option Z)
    : P (LinkResult Batch) :=
  add_fetch_count (length missing) ;;
  accs ← try_get_multi missing None min_context_slot;
  match accs with
  | Err e => pret (Err (ProviderError e))
  | Ok accs =>
      let b := mkBatch (bt_requested b ++ missing) (bt_accounts b) (bt_programs b) (bt_record_subs b)
                 (bt_program_data_subs b) in
      let c := classify_remote_accounts accs missing in
      resolved ← resolve_delegated_accounts (ca_owned_by_deleg c) (ca_plain c) min_context_slot;
      match resolved with
      | Err err => release_subs (batch_releases b) ;; pret (Err err)
      | Ok d =>
          if negb (is_nil (rd_missing_delegation_record d)) then
            release_subs (batch_releases
              (mkBatch (bt_requested b) (bt_accounts b) (bt_programs b)
                 (bt_record_subs b ++ rd_record_subs d) (bt_program_data_subs b))) ;;
            pret (Err (MissingDelegationActionAccounts (map fst (rd_missing_delegation_record d))))
          else
            let b := mkBatch (bt_requested b ++ rd_record_subs d) (bt_accounts b) (bt_programs b)
                       (bt_record_subs b ++ rd_record_subs d) (bt_program_data_subs b) in
            programs ← resolve_programs_with_program_data (ca_programs c) min_context_slot;
            match programs with
            | Err err =>
                release_subs (batch_releases
                  (mkBatch (bt_requested b) (bt_accounts b ++ rd_accounts_to_clone d) (bt_programs b)
                     (bt_record_subs b) (bt_program_data_subs b))) ;;
                pret (Err err)
            | Ok p =>
                atas ← resolve_ata_with_eata_projection (ca_atas c) min_context_slot;
                pret (Ok (mkBatch (bt_requested b ++ elements (rp_program_data_subs p))
                            (bt_accounts b ++ rd_accounts_to_clone d ++ atas)
                            (bt_programs b ++ rp_loaded_programs p) (bt_record_subs b)
                            (bt_program_data_subs b ∪ rp_program_data_subs p)))
            end
      end
  end.

(** A slot floor is raised to the freshest slot seen. *)
Definition raise_floor (slot : option Z) : P (option Z) :=
  match slot with
  | Some subscription_slot => s ← chain_slot; pret (Some (Z.max subscription_slot s))
  | None => pret None
  end.

Definition clone_accounts (pubkeys : list Pubkey) (c : ClassifiedAccounts)
    (mark_empty_if_not_found : option (list Pubkey)) (slot : option Z)
    : P (LinkResult FetchAndCloneResult) :=
  min_context_slot ← raise_floor slot;
  let not_found :=
    match mark_empty_if_not_found with
    | Some mark_empty => filter (fun p => p.1 ∉ mark_empty) (ca_not_found c)
    | None => ca_not_found c
    end in
  resolved ← resolve_delegated_accounts (ca_owned_by_deleg c) (ca_plain c) min_context_slot;
  match resolved with
  | Err err => release_subs (releases_for DirectAccount pubkeys) ;; pret (Err err)
  | Ok d =>
      programs ← resolve_programs_with_program_data (ca_programs c) min_context_slot;
      match programs with
      | Err err =>
          release_subs (releases_for DirectAccount (pubkeys ++ rd_record_subs d)
                        ++ releases_for DelegationRecordReason (rd_record_subs d)) ;;
          pret (Err err)
      | Ok p =>
          atas ← resolve_ata_with_eata_projection (ca_atas c) min_context_slot;
          let b := mkBatch (pubkeys ++ rd_record_subs d ++ elements (rp_program_data_subs p))
                     (rd_accounts_to_clone d ++ atas) (rp_loaded_programs p) (rd_record_subs d)
                     (rp_program_data_subs p) in
          missing ←? missing_dependencies (bt_accounts b) (bt_programs b)
                       (map_to_list (collect_delegation_action_dependencies (bt_accounts b)));
          b ←? (if is_nil missing then pret (Ok b) else prefetch_dependencies b missing min_context_slot);
          _ ←? clone_accounts_and_programs (bt_accounts b) (bt_programs b);
          release_subs (batch_releases b) ;;
          pret (Ok (mkFetchAndCloneResult not_found (rd_missing_delegation_record d)))
      end
  end.

Definition fetch_accounts (pubkeys : list Pubkey) (mark_empty : option (list Pubkey))
    (slot : option Z) : P (LinkResult (list RemoteAccount)) :=
  add_fetch_count (length pubkeys) ;;
  min_context_slot ← raise_floor slot;
  accs ← try_get_multi pubkeys mark_empty min_context_slot;
  pret (res_map_err ProviderError accs).

Definition fetch_and_clone_accounts (pubkeys : list Pubkey) (mark_empty : option (list Pubkey))
    (slot : option Z) : P (LinkResult FetchAndCloneResult) :=
  accs ←? fetch_accounts pubkeys mark_empty slot;
  clone_accounts pubkeys (classify_remote_accounts accs pubkeys) mark_empty slot.

(** Which of the present accounts are left as they are, and which are undelegating
    and have to be checked. *)
Fixpoint bank_check (force_refresh : gset N) (confirmed : option (Pubkey * Z)) (pubkeys : list Pubkey)
    (in_bank : gset N) (checks : list (Pubkey * Z * option Pubkey))
    : P (gset N * list (Pubkey * Z * option Pubkey)) :=
  match pubkeys with
  | [] => pret (in_bank, checks)
  | k :: pubkeys =>
      local ← read_account k;
      if decide (k ∈ force_refresh) then
        let keep :=
          match local with
          | Some account =>
              is_mode Undelegating account
              && negb (match confirmed with
                       | Some (confirmed_pubkey, delegation_slot) =>
                           bool_decide (confirmed_pubkey = k)
                           && bool_decide (sa_slot account < delegation_slot)%Z
                       | None => false
                       end)
          | None => false
          end in
        bank_check force_refresh confirmed pubkeys (if keep then {[k]} ∪ in_bank else in_bank) checks
      else
        match local with
        | Some account =>
            if is_mode Undelegating account then
              bank_check force_refresh confirmed pubkeys in_bank
                (checks ++ [(k, sa_slot account,
                             derive_eata_pubkey_from_ata_layout k (sa_data account))])
            else bank_check force_refresh confirmed pubkeys ({[k]} ∪ in_bank) checks
        | None => bank_check force_refresh confirmed pubkeys in_bank checks
        end
  end.

(** A check that times out keeps the local image. *)
Definition check_undelegating (c : Pubkey * Z * option Pubkey) : P (Pubkey * option RefreshDecision) :=
  let '(k, slot, eata_pubkey) := c in
  decision ← ltimeout (undelegation_refresh k slot eata_pubkey);
  pret (k, decision).

Definition kept (d : Pubkey * option RefreshDecision) : bool :=
  match d.2 with Some RefreshNo | None => true | Some _ => false end.
Definition marked_empty (d : Pubkey * option RefreshDecision) : bool :=
  match d.2 with Some YesAndMarkEmptyIfNotFound => true | _ => false end.

Definition fetch_and_clone_accounts_with_dedup_forced_refresh (pubkeys : list Pubkey)
    (mark_empty_if_not_found : option (list Pubkey)) (slot : option Z) (force_refresh : gset N)
    (confirmed_redelegation : option (Pubkey * Z)) : P (LinkResult FetchAndCloneResult) :=
  checked ← bank_check force_refresh confirmed_redelegation pubkeys ∅ [];
  let '(in_bank, checks) := checked in
  decisions ← join_all check_undelegating checks;
  let in_bank : gset N := in_bank ∪ list_to_set (map fst (filter (fun d => kept d = true) decisions)) in
  let fetch_pubkeys := filter (fun k => k ∉ in_bank) pubkeys in
  let mark_empty : gset N :=
    list_to_set (default [] mark_empty_if_not_found)
    ∪ list_to_set (map fst (filter (fun d => marked_empty d = true) decisions)) in
  let mark_empty := if decide (mark_empty = ∅) then None else Some (elements mark_empty) in
  if is_nil fetch_pubkeys then pret (Ok (mkFetchAndCloneResult [] []))
  else fetch_and_clone_accounts fetch_pubkeys mark_empty slot.

(** ** Post-delegation actions *)

Fixpoint dependencies_to_fetch (writable_dependencies : gset N) (remote_slot : Z) (deps : list Pubkey)
    : P (LinkResult (list Pubkey)) :=
  match deps with
  | [] => pret (Ok [])
  | dependency :: deps =>
      local ← loader_read dependency;
      match local with
      | Err code => pret (Err (LinkKeeper code))
      | Ok local =>
          pending ←? dependencies_to_fetch writable_dependencies remote_slot deps;
          pret (Ok (if action_dependency_needs_fetch
                         ((fun a => (sa_slot a, sa_mode a)) <$> local) remote_slot
                         (bool_decide (dependency ∈ writable_dependencies))
                    then dependency :: pending else pending))
      end
  end.

Definition ensure_delegation_action_dependencies (k : Pubkey) (remote_slot : Z)
    (delegation : DelegationActions) : P (LinkResult unit) :=
  _ ←? validate_post_delegation_action_signers (da_actions delegation);
  let deps := dependencies delegation k in
  let writable : gset N := list_to_set (map fst (filter (fun d => d.2 = true) deps)) in
  pending ←? dependencies_to_fetch writable remote_slot (elements (list_to_set (C := gset N) (map fst deps)));
  if is_nil pending then pret (Ok tt)
  else
    result ←? fetch_and_clone_accounts_with_dedup_forced_refresh pending None (Some remote_slot)
                writable None;
    if is_nil (fr_missing_delegation_record result) then pret (Ok tt)
    else pret (Err (MissingDelegationActionAccounts
                      (merge_sort key_le (map fst (fr_missing_delegation_record result))))).

(** ** One account *)

Definition submit_account (accessor : AccountAccessor) (request : AccountCloneRequest)
    : P (result unit ClonerError) := cloner_clone_account accessor request.

Definition rescue_failed_activation (accessor : AccountAccessor) (request : AccountCloneRequest)
    (err : ChainlinkError) : P (LinkResult unit) :=
  r ← submit_account accessor request;
  pret (match r with Ok _ => Ok tt | Err _ => Err err end).

(** The actions of the request and the outcome of fetching what they need. *)
Definition prepare_activation (request : AccountCloneRequest)
    : P (LinkResult (option (Pubkey * LinkResult unit))) :=
  match delegation_of (cr_mode request) with
  | None => pret (Ok None)
  | Some delegation =>
      if negb (is_mode Delegated (cr_account request)) then
        pret (Err (InvalidDelegationActions (cr_pubkey request)
                     "post-delegation actions attached to non-delegated clone target"))
      else
        r ← ensure_delegation_action_dependencies (cr_pubkey request)
              (Z.max (cs_view (source_slots request)) (sa_slot (cr_account request))) delegation;
        pret (Ok (Some (da_source_program delegation, r)))
  end.

(** The commit number of a session that starts here. *)
Definition seed_commit_id (accessor : AccountAccessor) (request : AccountCloneRequest)
    : P (LinkResult AccountCloneRequest) :=
  let image := cr_account request in
  if is_mode Delegated image && negb (lease_skips accessor Delegated (sa_slot image)) then
    commit_seq ←? initial_commit_id request;
    pret (Ok (with_image (with_commit_seq commit_seq image) request))
  else pret (Ok request).

Definition activate (accessor : AccountAccessor) (request : AccountCloneRequest) (source_program : Pubkey)
    (ready : LinkResult unit) : P (LinkResult unit) :=
  let rescue := with_post_delegation (RescueUndelegate source_program) request in
  match ready with
  | Err err => rescue_failed_activation accessor rescue err
  | Ok _ =>
      r ← submit_account accessor request;
      match r with
      | Ok _ => pret (Ok tt)
      | Err err =>
          if negb (allows_rescue err) then pret (Err (LinkClonerError err))
          else
            claim ← claim_materialization (cr_pubkey rescue) (is_ata_projection rescue);
            match claim with
            | Err e => pret (Err (LinkClonerError e))
            | Ok None => pret (Ok tt)
            | Ok (Some accessor) => rescue_failed_activation accessor rescue (LinkClonerError err)
            end
      end
  end.

Definition normalize_request (request : AccountCloneRequest) : LinkResult AccountCloneRequest :=
  let? request :=
    if is_ata_projection request then
      let? account := ok_or (normalize_native_token_account_for_local_clone (cr_account request))
                        (InvalidTokenAccount (cr_pubkey request)
                           "delegated ATA token data is malformed") in
      Ok (with_image account request)
    else Ok request in
  let? request := normalize_unresolved_dlp_clone_request validator_pubkey request in
  Ok (normalize_immutable_account request).

Definition clone_account_body (request : AccountCloneRequest) : P (LinkResult unit) :=
  match normalize_request request with
  | Err e => pret (Err e)
  | Ok request =>
      activation ←? prepare_activation request;
      claim ← claim_materialization (cr_pubkey request) (is_ata_projection request);
      match claim with
      | Err e => pret (Err (LinkClonerError e))
      | Ok None => pret (Ok tt)
      | Ok (Some accessor) =>
          request ←? seed_commit_id accessor request;
          match activation with
          | None =>
              r ← submit_account accessor request; pret (res_map_err LinkClonerError r)
          | Some (source_program, ready) => activate accessor request source_program ready
          end
      end
  end.
End batch.

Fixpoint clone_account_fuel (n : nat) (request : AccountCloneRequest) : P (LinkResult unit) :=
  match n with
  | O => fun _ => OutOfFuel
  | S n => clone_account_body (clone_account_fuel n) request
  end.
Definition clone_account (request : AccountCloneRequest) : P (LinkResult unit) := fun w =>
  clone_account_fuel (S (awaits w)) request w.
End clone.
