(* ===== verification/LinkUpdate.v ===== *)
(** * Chainlink: requests and subscription updates

    The entry points: accounts requested by a transaction
    ([fetch_and_clone_requested_accounts], [ensure_accounts] in [chainlink/mod.rs]),
    updates of subscribed accounts ([process_subscription_update]), updates of
    programs ([fetch_cloner/program_loader.rs]), the periodic check of program
    watches, and the removal of unwatched and evicted accounts. *)

From stdpp Require Import base gmap sets list strings.
From Stdlib Require Import ZArith Lia.
From S2P Require Import Prelude Intent Runtime TokenPrograms Limits Process Link LinkResolve LinkClient.
From S2P Require Import FetchCloner LinkPipeline LinkClone.

Open Scope proc_scope.

Inductive DlpProgramUpdateInterest :=
| DropLocalDelegatedAuthoritative
| ProcessUndelegating
| ProcessAtaProjection
| ProcessDirectlyWatched
| DiscoverDelegatedAccount.

Record ResolvedSubscriptionAccount := mkResolved {
  rs_account : SharedAccount;
  rs_delegation : option (DelegationRecord * option DelegationActions);
  rs_source_slots : option CloneSourceSlots }.
Definition resolved_plain (a : SharedAccount) : ResolvedSubscriptionAccount := mkResolved a None None.

Definition PROGRAM_VERIFY_THROTTLE : Z := 60000.
Definition PROGRAMDATA_DEPLOY_SLOT_PREFIX_LEN : nat := 12.
Definition PROGRAMDATA_STATE_TAG : Z := 3.
Definition PROGRAMDATA_SWEEP_MAX_CONSECUTIVE_FAILURES : nat := 3.
Definition MAX_RELEASE_CLONE_ATTEMPTS : nat := 3.
Definition ENSURE_ACCOUNTS_TIMEOUT : Z := 30.

Section update.
Context `{TokenEnv} `{LinkApi} `{LinkEnv}.
Abbreviation P A := (Proc LEvent Caches A).

(** ** Requested accounts *)

Fixpoint classify_requested (c : ClassifiedAccounts) (leases : list AccountAccessor)
    (images : list RemoteAccount)
    : ClassifiedAccounts * list (AccountAccessor * AccountCloneRequest) * list Pubkey :=
  match leases with
  | [] => (c, [], [])
  | lease :: leases =>
      let k := ac_key lease in
      let '(c, o) := match head images with Some acc => classify c acc k | None => (c, None) end in
      let '(c, plain, complex) := classify_requested c leases (tail images) in
      match o with
      | Some request => (c, (lease, request) :: plain, complex)
      | None => (c, plain, k :: complex)
      end
  end.

(** Every plain image is submitted; the first error is kept. *)
Fixpoint submit_plain (plain : list (AccountAccessor * AccountCloneRequest))
    : P (option ClonerError) :=
  match plain with
  | [] => pret None
  | (lease, request) :: plain =>
      r ← submit_account lease (normalize_immutable_account request);
      rest ← submit_plain plain;
      pret (match r with Err e => Some e | Ok _ => rest end)
  end.

Definition fetch_and_clone_requested_accounts (leases : list AccountAccessor) : P (LinkResult Z) :=
  let pubkeys := map ac_key leases in
  accs ←? fetch_accounts pubkeys (Some pubkeys) None;
  let '(classified, plain, complex) := classify_requested classified_default leases accs in
  plain_error ← submit_plain plain;
  complex_result ←
    (if is_nil complex then pret (Ok tt)
     else r ← clone_accounts clone_account complex classified (Some complex) None;
          pret (match r with Ok _ => Ok tt | Err e => Err e end));
  match plain_error with
  | Some err => pret (Err (LinkClonerError err))
  | None => match complex_result with
            | Err e => pret (Err e)
            | Ok _ => claims ← remote_account_claims; pret (Ok claims)
            end
  end.

Definition refresh_transient_requested_accounts (pubkeys : list Pubkey) : P (LinkResult Z) :=
  if is_nil pubkeys then pret (Ok 0%Z)
  else
    _ ←? fetch_and_clone_accounts_with_dedup_forced_refresh clone_account pubkeys (Some pubkeys) None ∅ None;
    claims ← remote_account_claims; pret (Ok claims).

Fixpoint transient_accounts (pubkeys : list Pubkey) : P (LinkResult (list Pubkey)) :=
  match pubkeys with
  | [] => pret (Ok [])
  | k :: pubkeys =>
      r ← loader_read k;
      match r with
      | Err code => pret (Err (LinkKeeper code))
      | Ok local =>
          rest ←? transient_accounts pubkeys;
          pret (Ok (if decide (sa_mode <$> local = Some Undelegating) then k :: rest else rest))
      end
  end.

Definition ensure_accounts (pubkeys : list Pubkey) : P (LinkResult Z) :=
  r ← ltimeout (
    transients ←? transient_accounts pubkeys;
    pending ← missing_accounts pubkeys;
    match pending with
    | Err e => pret (Err (LinkClonerError (EngineFailure e)))
    | Ok pending =>
        claimed ←? (if is_nil pending then pret (Ok 0%Z)
                    else fetch_and_clone_requested_accounts pending);
        refreshed ←? refresh_transient_requested_accounts transients;
        pret (Ok (claimed + refreshed)%Z)
    end);
  pret (default (Err (EnsureAccountsTimeout ENSURE_ACCOUNTS_TIMEOUT)) r).

(** ** Program updates *)

Definition set_verify_cache (v : lru ProgramVerifyState) (c : Caches) : Caches :=
  mkCaches _ (known_empty_eatas c) v (programdata_index c) (programdata_sweep_cursor c)
    (fetch_count c) (dlp_collision_tracker c).
Definition verify_get_mut (k : Pubkey) (f : ProgramVerifyState -> ProgramVerifyState)
    : P (option ProgramVerifyState) :=
  update (fun c => let '(v, o) := lru_get_mut (program_verify_cache c) k f in (set_verify_cache v c, o)).

(** One verification is scheduled for the end of the window. *)
Definition schedule_deferred_verify (k : Pubkey) (account : SharedAccount) : P unit :=
  c ← pget;
  match lru_peek (program_verify_cache c) k with
  | Some st =>
      verify_get_mut k (fun s => mkProgramVerifyState (pv_programdata_header s) (pv_verified_at s) true) ;;
      if pv_deferred_verify st then pret tt else spawn (VerifyProgram k account)
  | None => pret tt
  end.

Definition header_matches (header loaded_header : list Z) : bool :=
  bool_decide (default header (get_slice 0 programdata_metadata_size header) = loaded_header).

(** [true] when the loaded program needs no reload. *)
Definition resolve_update_for_loaded_program (k : Pubkey) (account : SharedAccount)
    (program_data : Pubkey) : P bool :=
  cached ← verify_get_mut k id;
  match cached with
  | None => pret false
  | Some st =>
      present ← contains_account k;
      if negb present then
        update (fun c => let '(v, _) := lru_pop (program_verify_cache c) k in (set_verify_cache v c, tt)) ;;
        present ← contains_account k;
        released_watch ←
          (if negb present then popped ← index_pop program_data; pret (bool_decide (is_Some popped))
           else pret false);
        (if released_watch : bool then forget_program_data program_data else pret tt) ;;
        pret false
      else if decide (sa_owner account = LOADER_V2) then pret true
      else if decide (sa_owner account <> LOADER_V3) then pret false
      else
        t ← now;
        if decide (saturating_sub t (pv_verified_at st) < PROGRAM_VERIFY_THROTTLE)%Z
        then schedule_deferred_verify k account ;; pret true
        else
          match pv_programdata_header st with
          | None => pret false
          | Some loaded_header =>
              r ← get_account_data_slice program_data programdata_metadata_size (sa_slot account);
              match r with
              | Ok (Some header) =>
                  if header_matches header loaded_header then
                    t ← now;
                    verify_get_mut k (fun s => mkProgramVerifyState (pv_programdata_header s) t
                                                 (pv_deferred_verify s)) ;;
                    pret true
                  else pret false
              | Ok None | Err _ => pret false
              end
          end
  end.

Definition release_if (acquired : bool) (program_data : Pubkey) : P unit :=
  if acquired then release_program_data_subs program_data else pret tt.

Definition handle_executable_sub_update (k : Pubkey) (account : SharedAccount) : P unit :=
  if negb (is_program_allowed allowed_programs k) then pret tt
  else if decide (sa_owner account = LOADER_V1) then pret tt
  else
    let program_data := program_data_address k in
    let is_v3 := bool_decide (sa_owner account = LOADER_V3) in
    resolved ← resolve_update_for_loaded_program k account program_data;
    if resolved : bool then pret tt
    else
      acquired ← (if is_v3 then r ← acquire_subscription_reason program_data ProgramDataReason;
                                pret (is_ok r)
                  else pret false);
      fetched ← (if is_v3 then r ← task_to_fetch_with_program_data k (sa_slot account);
                               pret (match r with
                                     | Ok a => Some (ac_account a, ac_companion_account a)
                                     | Err _ => None
                                     end)
                 else pret (Some (account, None)));
      match fetched with
      | None => release_if acquired program_data
      | Some (program_account, program_data_account) =>
          let header := program_data_account ≫= fun a => get_slice 0 programdata_metadata_size (sa_data a) in
          match resolve_loaded_program k (sa_owner program_account) (Some program_account)
                  program_data_account with
          | Err _ => release_if acquired program_data
          | Ok program =>
              r ← clone_program program;
              match r with
              | Ok _ =>
                  t ← now;
                  pmodify (fun c => set_verify_cache
                    (lru_put (program_verify_cache c) k
                       (mkProgramVerifyState (if is_v3 then header else None) t false)) c)
              | Err _ => pret tt
              end ;;
              release_if acquired program_data
          end
      end.

(** The task [schedule_deferred_verify] spawns, once its delay has passed. *)
Definition deferred_verify (k : Pubkey) (account : SharedAccount) : P unit :=
  verify_get_mut k (fun s => mkProgramVerifyState (pv_programdata_header s) (pv_verified_at s) false) ;;
  handle_executable_sub_update k account.

(** The image the sweep and the programdata updates hand over. *)
Definition program_stub (slot : Z) : SharedAccount :=
  with_slot slot (with_owner LOADER_V3 (with_lamports 1 no_account)).

(** One pass over the watches; [failures] counts consecutive failed fetches. *)
Fixpoint sweep_each (watched : list (Pubkey * Pubkey)) (failures : nat) : P unit :=
  match watched with
  | [] => pret tt
  | (program_data, program_id) :: watched =>
      local ← read_account program_id;
      match local with
      | None => sweep_each watched failures
      | Some local =>
          let bank_slot := sa_slot local in
          r ← get_account_data_slice program_data PROGRAMDATA_DEPLOY_SLOT_PREFIX_LEN bank_slot;
          match r with
          | Err _ =>
              if decide (PROGRAMDATA_SWEEP_MAX_CONSECUTIVE_FAILURES <= S failures)
              then pret tt else sweep_each watched (S failures)
          | Ok None => sweep_each watched 0
          | Ok (Some prefix) =>
              if decide (PROGRAMDATA_DEPLOY_SLOT_PREFIX_LEN <= length prefix
                         /\ slice 0 4 prefix = to_le_bytes 4 PROGRAMDATA_STATE_TAG) then
                let deploy_slot := from_le_bytes (slice 4 12 prefix) in
                if decide (deploy_slot <= bank_slot)%Z then sweep_each watched 0
                else handle_executable_sub_update program_id (program_stub deploy_slot) ;;
                     sweep_each watched 0
              else sweep_each watched 0
          end
      end
  end.

Definition sweep_programdata_watches : P unit :=
  c ← pget;
  let watched := lru_iter (programdata_index c) in
  if is_nil watched then pret tt
  else
    let start := Z.to_nat (programdata_sweep_cursor c) mod length watched in
    pmodify (fun c => mkCaches _ (known_empty_eatas c) (program_verify_cache c) (programdata_index c)
                        (wadd 64 (programdata_sweep_cursor c) 1) (fetch_count c)
                        (dlp_collision_tracker c)) ;;
    sweep_each (drop start watched ++ take start watched) 0.
End update.
