(* ===== verification/LinkSubs.v ===== *)
(** * Chainlink: subscription updates

    [FetchCloner::process_subscription_update] and what it calls: the interest in an
    update of the delegation program, colliding accounts, greedy discovery, the
    resolution of an updated account against its delegation record, and the
    projection of eATA updates ([fetch_cloner/mod.rs],
    [fetch_cloner/ata_projection.rs]). *)

From stdpp Require Import base gmap sets list strings.
From Stdlib Require Import ZArith Lia.
From S2P Require Import Prelude Intent Runtime TokenPrograms Limits Process Link LinkResolve LinkClient.
From S2P Require Import FetchCloner LinkPipeline LinkClone LinkUpdate.

Open Scope proc_scope.

Section subs.
Context `{TokenEnv} `{LinkApi} `{LinkEnv}.
Abbreviation P A := (Proc LEvent Caches A).

(** ** Projections of eATA updates *)

(** What the local accounts give: a layout, or the Magic layout to use if the base
    layer has none. *)
Inductive LocalLayout :=
| LayoutFound (l : option (Pubkey * SharedAccount))
| LayoutAbsent (magic_layout : option (Pubkey * SharedAccount)).

(** A Magic ATA as a layout: without its approval. *)
Definition magic_layout (account : SharedAccount) : option SharedAccount :=
  (token ← unpack_token (sa_data account);
   packed ← spl_pack (with_allowance None 0 token) (take SPL_ACCOUNT_LEN (sa_data account));
   Some (with_data (packed ++ drop SPL_ACCOUNT_LEN (sa_data account)) account))%stdpp.

Fixpoint local_layout (candidates : list Pubkey) (magic : option (Pubkey * SharedAccount))
    : P LocalLayout :=
  match candidates with
  | [] => pret (LayoutAbsent magic)
  | k :: candidates =>
      local ← read_account k;
      match local with
      | Some account =>
          if decide (is_Some (is_ata k (sa_owner account) (sa_data account))) then
            if decide (is_Some (try_get_magic_ata_info k account)) then
              match magic_layout account with
              | Some layout => local_layout candidates (Some (k, layout))
              | None => pret (LayoutFound None)
              end
            else pret (LayoutFound (Some (k, account)))
          else local_layout candidates magic
      | None => local_layout candidates magic
      end
  end.

(** The first fetched ATA, or whether there is none of the accounts at all. *)
Fixpoint remote_layout (l : list (Pubkey * RemoteAccount)) (all_absent : bool)
    : option (Pubkey * SharedAccount) + bool :=
  match l with
  | [] => inr all_absent
  | (k, NotFound _) :: l => remote_layout l all_absent
  | (k, Found account _) :: l =>
      if decide (is_Some (is_ata k (sa_owner account) (sa_data account)))
      then inl (Some (k, account)) else remote_layout l false
  end.

Definition resolve_ata_layout (ata_pubkeys : list Pubkey) (min_context_slot : Z)
    : P (option (Pubkey * SharedAccount)) :=
  local ← local_layout ata_pubkeys None;
  match local with
  | LayoutFound l => pret l
  | LayoutAbsent magic =>
      r ← try_get_multi_until_slots_match ata_pubkeys (Some min_context_slot);
      pret (match r with
            | Err _ => None
            | Ok accounts =>
                match remote_layout (zip ata_pubkeys accounts) true with
                | inl l => l
                | inr all_absent => if all_absent then magic else None
                end
            end)
  end.

Definition projected_ata_request_from_eata (eata_pubkey : Pubkey) (eata_account : SharedAccount)
    (record : DelegationRecord) (actions : option DelegationActions)
    : P (option AccountCloneRequest) :=
  if decide (dr_authority record <> validator_pubkey) then pret None
  else
    match parse_raw_eata_pda eata_pubkey (sa_data eata_account) (dr_owner record) with
    | None => pret None
    | Some (wallet_owner, mint) =>
        layout ← resolve_ata_layout (derive_supported_ata_pubkeys wallet_owner mint)
                   (sa_slot eata_account);
        pret ('(ata_pubkey, base_ata) ← layout;
              if requires_persistence (sa_mode base_ata) && negb (is_mode Magic base_ata) then None
              else
                projected_ata ← project_delegated_ata validator_pubkey base_ata
                                  (sa_data eata_account) record;
                Some (mkAccountCloneRequest ata_pubkey projected_ata (mode_from actions) None
                        (Some (slots_projected (sa_slot base_ata) (sa_slot eata_account)))))%stdpp
    end.

Fixpoint any_present (ks : list Pubkey) : P bool :=
  match ks with
  | [] => pret false
  | k :: ks => present ← contains_account k; if present : bool then pret true else any_present ks
  end.

Definition raw_eata_has_local_projection_interest (k : Pubkey) (ata_pubkeys : list Pubkey) : P bool :=
  present ← any_present ata_pubkeys;
  if present : bool then pret true
  else has_any_subscription_reason (ata_pubkeys ++ [k]) AtaProjection.

Definition base_ata_has_projection_interest (k : Pubkey) (data : list Z) : P bool :=
  match derive_eata_pubkey_from_ata_layout k data with
  | None => pret false
  | Some eata_pubkey =>
      b ← has_any_subscription_reason [k] AtaProjection;
      if b : bool then pret true else has_any_subscription_reason [eata_pubkey] AtaProjection
  end.

Definition projected_ata_request_from_update (eata_pubkey : Pubkey) (eata_account : SharedAccount)
    (source : SubscriptionSource) (record : option DelegationRecord)
    (actions : option DelegationActions) : P (option AccountCloneRequest) :=
  match record with
  | Some record => projected_ata_request_from_eata eata_pubkey eata_account record actions
  | None =>
      match derive_supported_ata_pubkeys_from_raw_eata eata_pubkey (sa_data eata_account) with
      | None | Some [] => pret None
      | Some ata_pubkeys =>
          interested ← match source with
                       | SubProgram => raw_eata_has_local_projection_interest eata_pubkey ata_pubkeys
                       | _ => pret true
                       end;
          if negb interested then pret None
          else
            fetched ← fetch_and_parse_delegation_record eata_pubkey (sa_slot eata_account);
            match fetched with
            | None => pret None
            | Some (record, actions) =>
                projected_ata_request_from_eata eata_pubkey eata_account record actions
            end
      end
  end.

Definition set_known_empty (e : lru unit) (c : Caches) : Caches :=
  mkCaches _ e (program_verify_cache c) (programdata_index c) (programdata_sweep_cursor c)
    (fetch_count c) (dlp_collision_tracker c).
Definition is_known_empty_eata (k : Pubkey) : P bool :=
  update (fun c => let '(e, o) := lru_get (known_empty_eatas c) k in
                   (set_known_empty e c, bool_decide (is_Some o))).
Definition mark_eata_empty (k : Pubkey) : P unit :=
  pmodify (fun c => set_known_empty (lru_put (known_empty_eatas c) k tt) c).

Definition project_with_eata (ata_account eata_account : SharedAccount)
    (deleg : DelegationRecord * option DelegationActions) : ResolvedSubscriptionAccount :=
  match project_delegated_ata validator_pubkey ata_account (sa_data eata_account) (fst deleg) with
  | Some projected_ata =>
      mkResolved projected_ata (Some deleg)
        (Some (slots_projected (sa_slot ata_account) (sa_slot eata_account)))
  | None => mkResolved ata_account (Some deleg) None
  end.

Definition maybe_project_ata_from_subscription_update (ata_pubkey : Pubkey) (ata_account : SharedAccount)
    : P ResolvedSubscriptionAccount :=
  match derive_eata_pubkey_from_ata_account ata_pubkey ata_account with
  | None => pret (resolved_plain ata_account)
  | Some eata_pubkey =>
      was_watching ← is_watching eata_pubkey;
      ensured ← subscription (Ensure eata_pubkey AtaProjection);
      let subscribed := is_ok ensured in
      known_empty ← (if was_watching && subscribed then is_known_empty_eata eata_pubkey else pret false);
      if known_empty : bool then pret (resolved_plain ata_account)
      else
        r ← try_get_multi_until_slots_match [eata_pubkey] (Some (sa_slot ata_account));
        let popped := match r with Ok accounts => last accounts | Err _ => None end in
        match popped ≫= fresh_account with
        | None =>
            (match popped with
             | Some (NotFound _) => if subscribed then mark_eata_empty eata_pubkey else pret tt
             | _ => pret tt
             end) ;;
            pret (resolved_plain ata_account)
        | Some eata_account =>
            deleg ← fetch_and_parse_delegation_record eata_pubkey
                      (Z.max (sa_slot ata_account) (sa_slot eata_account));
            pret (match deleg with
                  | None => resolved_plain ata_account
                  | Some deleg => project_with_eata ata_account eata_account deleg
                  end)
        end
  end.

(** ** Resolution *)

Definition resolve_subscription_snapshot (snapshot : AccountWithCompanion)
    : P (option ResolvedSubscriptionAccount) :=
  let k := ac_pubkey snapshot in
  let account := ac_account snapshot in
  if decide (sa_owner account <> DELEGATION_PROGRAM_ID) then
    r ← maybe_project_ata_from_subscription_update k account; pret (Some r)
  else
    match ac_companion_account snapshot with
    | None =>
        match parse_undelegation_request (sa_data account) with
        | Some request =>
            spawn (UndelegationObserved (mkObserved k (ur_delegated_account request)
                                           (ur_expires_at_slot request) (sa_slot account))) ;;
            pret (Some (resolved_plain account))
        | None =>
            pret (if is_internal_dlp_account_data (sa_data account)
                  then Some (resolved_plain account) else None)
        end
    | Some record =>
        match parse_delegation_record (sa_data record) (ac_companion_pubkey snapshot) validator_pubkey with
        | Err _ => pret None
        | Ok (record, actions) =>
            let source_slots := slots_single (sa_slot account) in
            let account := apply_record validator_pubkey k account record in
            (if is_mode Delegated account && negb (program_subscription_is_too_broad (dr_owner record))
             then spawn (SubscribeProgram (dr_owner record)) else pret tt) ;;
            pret (Some (mkResolved account (Some (record, actions)) (Some source_slots)))
        end
    end.

Definition resolve_subscription_account (update : ForwardedSubscriptionUpdate)
    : P (option ResolvedSubscriptionAccount) :=
  let k := up_pubkey update in
  match fresh_account (up_account update) with
  | None => pret None
  | Some account =>
      if negb (is_owned_by_delegation_program (up_account update)) then
        r ← maybe_project_ata_from_subscription_update k account; pret (Some r)
      else
        let record_pubkey := record_pda k in
        acquired ← acquire_subscription_reason record_pubkey DelegationRecordReason;
        fetched ← task_to_fetch_with_companion k record_pubkey (sa_slot account);
        resolved ← match fetched with
                   | Ok snapshot => resolve_subscription_snapshot snapshot
                   | Err _ => pret None
                   end;
        release_subs ((if is_ok fetched then [(record_pubkey, DirectAccount)] else [])
                      ++ (if is_ok acquired then [(record_pubkey, DelegationRecordReason)] else [])) ;;
        pret resolved
  end.

Definition classify_dlp_program_update_interest (k : Pubkey) (account : SharedAccount)
    : P DlpProgramUpdateInterest :=
  mode ← account_mode k;
  match mode with
  | Some Undelegating => pret ProcessUndelegating
  | Some Delegated => pret DropLocalDelegatedAuthoritative
  | _ =>
      watched ← is_watching k;
      if watched : bool then pret ProcessDirectlyWatched
      else
        match derive_supported_ata_pubkeys_from_raw_eata k (sa_data account) with
        | Some ata_pubkeys =>
            b ← raw_eata_has_local_projection_interest k ata_pubkeys;
            pret (if b : bool then ProcessAtaProjection else DiscoverDelegatedAccount)
        | None =>
            b ← base_ata_has_projection_interest k (sa_data account);
            pret (if b : bool then ProcessAtaProjection else DiscoverDelegatedAccount)
        end
  end.

Definition clone_projected_ata_request (request : AccountCloneRequest) : P (LinkResult unit) :=
  mode ← account_mode (cr_pubkey request);
  match mode with
  | Some Undelegating => pret (Ok tt)
  | _ => clone_account request
  end.

(** ** Colliding accounts *)

Definition with_tracker {A} (f : DlpCollisionTracker -> DlpCollisionTracker * A) : P A :=
  update (fun c => let '(t, a) := f (dlp_collision_tracker c) in
                   (mkCaches _ (known_empty_eatas c) (program_verify_cache c) (programdata_index c)
                      (programdata_sweep_cursor c) (fetch_count c) t, a)).

Definition delegated_here_or_nowhere (record : DelegationRecord) : bool :=
  bool_decide (dr_authority record = validator_pubkey \/ dr_authority record = 0%N).
Definition settled_delegation (record : DelegationRecord) (a : SharedAccount) : bool :=
  is_mode Delegated a && bool_decide (dr_delegation_slot record <= sa_slot a)%Z.

(** [false] when the candidate has to be kept for a later sighting. *)
Fixpoint release_attempts (n : nat) (candidate : ParkedCollisionCandidate) (record : DelegationRecord)
    : P bool :=
  match n with
  | O => pret false
  | S n =>
      let k := pk_pubkey candidate in
      local ← read_account k;
      if match local with
         | Some in_bank => is_mode Undelegating in_bank
                           && account_still_undelegating_on_chain true (sa_slot in_bank) (Some record)
         | None => false
         end
      then pret true
      else
        r ← fetch_and_clone_accounts_with_dedup_forced_refresh clone_account [k] None
              (Some (pk_slot candidate)) {[k]} (Some (k, dr_delegation_slot record));
        match r with
        | Err _ => pret true
        | Ok result =>
            if bool_decide (k ∈ map fst (fr_not_found_on_chain result
                                         ++ fr_missing_delegation_record result))
            then pret true
            else
              in_bank ← read_account k;
              match in_bank with
              | None => release_attempts n candidate record
              | Some a =>
                  let settled :=
                    bool_decide (pk_slot candidate < sa_slot a)%Z
                    || (bool_decide (sa_slot a = pk_slot candidate) && is_mode Delegated a)
                    || settled_delegation record a in
                  let stale_transient :=
                    is_mode Undelegating a && bool_decide (dr_delegation_slot record <= sa_slot a)%Z in
                  if settled then pret true
                  else if stale_transient then pret false
                  else release_attempts n candidate record
              end
        end
  end.

Definition clone_released_collision_candidate (candidate : ParkedCollisionCandidate) : P unit :=
  let k := pk_pubkey candidate in
  local ← read_account k;
  if match local with
     | Some a => is_mode Delegated a && bool_decide (pk_slot candidate <= sa_slot a)%Z
     | None => false
     end
  then pret tt
  else
    slot ← chain_slot;
    fetched ← fetch_and_parse_delegation_record k (Z.max (pk_slot candidate) slot);
    match fetched with
    | None => pret tt
    | Some (record, _) =>
        if negb (delegated_here_or_nowhere record) then pret tt
        else
          local ← read_account k;
          if match local with Some a => settled_delegation record a | None => false end then pret tt
          else
            finished ← release_attempts MAX_RELEASE_CLONE_ATTEMPTS candidate record;
            if finished : bool then pret tt
            else with_tracker (fun t => preserve_released_candidate t candidate) ;; pret tt
    end.

(** ** Discovery *)

Fixpoint absent_accounts (ks : list Pubkey) : P (list Pubkey) :=
  match ks with
  | [] => pret []
  | k :: ks => present ← contains_account k; rest ← absent_accounts ks;
               pret (if present : bool then rest else k :: rest)
  end.

Definition discovered (k : Pubkey) (account : SharedAccount) (source : SubscriptionSource)
    (record : DelegationRecord) (actions : option DelegationActions) : P bool :=
  local ← read_account k;
  if match local with Some a => bool_decide (sa_slot a < sa_slot account)%Z | None => true end
  then pret false
  else
    projection ← projected_ata_request_from_update k account source (Some record) actions;
    match projection with
    | None => pret true
    | Some projection => r ← clone_projected_ata_request projection; pret (is_ok r)
    end.

Definition maybe_greedily_clone_discovered_delegated_account (k : Pubkey)
    (update : ForwardedSubscriptionUpdate) : P bool :=
  present ← contains_account k;
  match fresh_account (up_account update) with
  | Some account =>
      if (present : bool) || bool_decide (sa_owner account <> DELEGATION_PROGRAM_ID) then pret false
      else
        fetched ← fetch_and_parse_delegation_record k (sa_slot account);
        match fetched with
        | None => pret false
        | Some (record, actions) =>
            if negb (delegated_here_or_nowhere record) then pret true
            else
              let atas := match parse_raw_eata_pda k (sa_data account) (dr_owner record) with
                          | Some (wallet_owner, mint) => derive_supported_ata_pubkeys wallet_owner mint
                          | None => []
                          end in
              absent ← absent_accounts atas;
              r ← (if is_nil atas
                   then fetch_and_clone_accounts_with_dedup_forced_refresh clone_account (k :: absent)
                          None (Some (sa_slot account)) ∅ None
                   else fetch_and_clone_accounts clone_account (k :: absent) None
                          (Some (sa_slot account)));
              match r with
              | Err _ => pret false
              | Ok result =>
                  if bool_decide (k ∈ map fst (fr_not_found_on_chain result))
                     || bool_decide (k ∈ map fst (fr_missing_delegation_record result))
                  then pret false
                  else discovered k account (up_source update) record actions
              end
        end
  | None => pret false
  end.
End subs.
