(* ===== verification/LinkProcess.v ===== *)
(** * Chainlink: processing an update

    [FetchCloner::process_subscription_update] ([fetch_cloner/mod.rs]), and the two
    listeners of [chainlink/mod.rs] that remove accounts. *)

From stdpp Require Import base gmap sets list strings.
From Stdlib Require Import ZArith Lia.
From S2P Require Import Prelude Intent Runtime TokenPrograms Limits Process Link LinkResolve LinkClient.
From S2P Require Import FetchCloner LinkPipeline LinkClone LinkUpdate LinkSubs.

Open Scope proc_scope.

(** What the local image of an updated account means for the update. *)
Inductive Verdict :=
| KeepDelegated
| KeepUndelegating
| Accept (undelegation_completed_on_chain : bool).

Section process.
Context `{TokenEnv} `{LinkApi} `{LinkEnv}.
Abbreviation P A := (Proc LEvent Caches A).

Definition judge_local (k : Pubkey) (account : SharedAccount) (record : option DelegationRecord)
    (local_state : option (AccountMode * Z)) : Verdict :=
  let delegated := is_mode Delegated account in
  match local_state with
  | Some (Delegated, _) => KeepDelegated
  | Some (Undelegating, delegation_slot) =>
      let advances_delegation := bool_decide (delegation_slot < sa_slot account)%Z in
      if negb delegated && negb advances_delegation then KeepUndelegating
      else
        let projected_ata :=
          delegated && bool_decide (is_Some (derive_eata_pubkey_from_ata_account k account)) in
        let eata_still_delegated :=
          match record with Some r => still_delegated_eata r | None => false end in
        if projected_ata && eata_still_delegated then KeepUndelegating
        else if account_still_undelegating_on_chain delegated delegation_slot record
        then KeepUndelegating
        else Accept true
  | _ => Accept delegated
  end.

(** The local slot, if the update is not newer. A delegated image activates an
    account of the same slot. *)
Definition non_advancing (delegated : bool) (incoming_slot : Z) (in_bank : SharedAccount) : option Z :=
  let bank_slot := sa_slot in_bank in
  let activates_delegation := delegated && negb (is_mode Delegated in_bank) in
  let older := bool_decide (incoming_slot < bank_slot)%Z in
  let duplicate := bool_decide (bank_slot = incoming_slot) && negb activates_delegation in
  if older || duplicate then Some bank_slot else None.

Definition cleanup_completed_subscription_update (k : Pubkey) (delegated undelegation_completed : bool)
    : P unit :=
  (if undelegation_completed then
     (if delegated then pret tt else subscription (Ensure k DirectAccount) ;; pret tt) ;;
     cleanup_undelegation_tracking_for_completed_account k
   else pret tt) ;;
  if delegated then cleanup_direct_subscription_for_delegated_account k else pret tt.

Definition clone_projection (projection : option AccountCloneRequest) : P unit :=
  match projection with
  | Some request => clone_projected_ata_request request ;; pret tt
  | None => pret tt
  end.

(** The local image reflects the update. *)
Definition reflected (delegated : bool) (slot : Z) (local : SharedAccount) : bool :=
  bool_decide (slot <= sa_slot local)%Z && negb (is_mode Undelegating local)
  && eqb (is_mode Delegated local) delegated.

(** The part of an accepted update after the comparison of slots. *)
Definition clone_update (k : Pubkey) (account : SharedAccount) (record : option DelegationRecord)
    (actions : option DelegationActions) (source_slots : CloneSourceSlots)
    (undelegation_completed : bool) (projection : option AccountCloneRequest) : P unit :=
  let delegated := is_mode Delegated account in
  if sa_executable account then
    cleanup_completed_subscription_update k delegated undelegation_completed ;;
    handle_executable_sub_update k account
  else
    r ← clone_account (mkAccountCloneRequest k account (mode_from actions)
                         (record ≫= delegated_to_other validator_pubkey) (Some source_slots));
    match r with
    | Err _ => pret tt
    | Ok _ =>
        local ← read_account k;
        (if match local with Some a => reflected delegated (sa_slot account) a | None => false end
         then cleanup_completed_subscription_update k delegated undelegation_completed else pret tt) ;;
        clone_projection projection
    end.

Definition process_resolved (k : Pubkey) (source : SubscriptionSource) (update_slot : Z)
    (resolved : ResolvedSubscriptionAccount) : P unit :=
  let source_slots := default (slots_single update_slot) (rs_source_slots resolved) in
  let update_slot := Z.max update_slot (cs_data source_slots) in
  let record := fst <$> rs_delegation resolved in
  let actions := rs_delegation resolved ≫= snd in
  let account := rs_account resolved in
  projection ← projected_ata_request_from_update k account source record actions;
  local ← read_account k;
  match judge_local k account record ((fun a => (sa_mode a, sa_slot a)) <$> local) with
  | KeepDelegated => cleanup_direct_subscription_for_delegated_account k
  | KeepUndelegating => pret tt
  | Accept undelegation_completed =>
      let incoming_slot := Z.max (sa_slot account) update_slot in
      local ← read_account k;
      match local ≫= non_advancing (is_mode Delegated account) incoming_slot with
      | Some in_bank_slot =>
          clone_projection (if decide (in_bank_slot = incoming_slot) then projection else None)
      | None =>
          clone_update k account record actions source_slots undelegation_completed projection
      end
  end.

(** Whether an update of an internal-looking account goes on. *)
Definition pass_collision (update : ForwardedSubscriptionUpdate) (account : SharedAccount) : P bool :=
  let k := up_pubkey update in
  released ← (if is_delegation_record_data (sa_data account)
              then with_tracker (fun t => sight_record t k (remote_slot (up_account update)))
              else pret None);
  match released with
  | Some candidate => clone_released_collision_candidate candidate
  | None => pret tt
  end ;;
  match up_source update with
  | SubProgram => with_tracker (fun t => check_or_park t update)
  | SubAccount | SubReplay => pret true
  end.

(** After discovery: unwatched accounts, program data, and the update itself. *)
Definition process_watched (update : ForwardedSubscriptionUpdate) : P unit :=
  let k := up_pubkey update in
  let update_slot := remote_slot (up_account update) in
  unwatched ← match up_source update with
              | SubAccount => w ← is_watching k; pret (negb w)
              | SubProgram | SubReplay => pret false
              end;
  if unwatched : bool then
    present ← contains_account k;
    if present : bool then subscription (SendStale k) ;; pret tt else pret tt
  else
    routed ← index_get k;
    match routed with
    | Some program_id => handle_executable_sub_update program_id (program_stub update_slot)
    | None =>
        resolved ← resolve_subscription_account update;
        match resolved with
        | None => pret tt
        | Some resolved => process_resolved k (up_source update) update_slot resolved
        end
    end.

Definition process_subscription_update (update : ForwardedSubscriptionUpdate) : P unit :=
  let k := up_pubkey update in
  let fresh := fresh_account (up_account update) in
  let is_dlp_owned := is_owned_by_delegation_program (up_account update) in
  interest ← match up_source update, fresh with
             | SubProgram, Some account =>
                 if is_dlp_owned
                 then i ← classify_dlp_program_update_interest k account; pret (Some i)
                 else pret None
             | _, _ => pret None
             end;
  match interest with
  | Some DropLocalDelegatedAuthoritative => cleanup_direct_subscription_for_delegated_account k
  | _ =>
      let exempt := match interest with
                    | Some (ProcessUndelegating | ProcessAtaProjection) => true
                    | _ => false
                    end in
      passed ← match fresh with
               | Some account =>
                   if negb exempt && is_dlp_owned && is_internal_dlp_account_data (sa_data account)
                   then pass_collision update account else pret true
               | None => pret true
               end;
      if negb passed then pret tt
      else
        done ← maybe_greedily_clone_discovered_delegated_account k update;
        if done : bool then pret tt else process_watched update
  end.

(** ** Removal *)

(** One notification of [subscribe_stale_accounts]; the subscription of the account
    is locked meanwhile. *)
Definition remove_stale_account (k : Pubkey) : P unit :=
  watched ← is_watching k;
  if watched : bool then pret tt
  else
    claim ← claim_account_eviction k;
    match claim with
    | Ok (Some accessor) =>
        r ← subscription (Unsubscribe k);
        match r with
        | Err _ => pret tt
        | Ok _ => delete_claimed_account accessor k ;; pret tt
        end
    | Ok None | Err _ => pret tt
    end.

(** One notification of [subscribe_account_evictions]. *)
Definition remove_evicted_account (k : Pubkey) : P unit :=
  claim ← claim_cached_account_eviction k (fun a => is_ata k (sa_owner a) (sa_data a));
  match claim with
  | Ok (Some (accessor, ata_info)) =>
      r ← subscription (Unsubscribe k);
      match r with
      | Err _ => pret tt
      | Ok _ =>
          r ← delete_claimed_account accessor k;
          match r, ata_info ≫= derive_eata_pubkey with
          | Ok _, Some eata_pubkey => subscription (Release eata_pubkey AtaProjection) ;; pret tt
          | _, _ => pret tt
          end
      end
  | Ok None | Err _ => pret tt
  end.
End process.
