(* ===== verification/LinkLogic.v ===== *)
(** * Chainlink: program logic

    [triple ok m h Q]: run after the history [h], the process [m] only adds events
    that [ok] allows after the events before them, and where it returns [a] with the
    history [h'], [Q a h']. [total_below n m]: [m] does not run out of fuel with
    fewer than [n] calls left. *)

From stdpp Require Import base gmap sets list strings.
From Stdlib Require Import ZArith Lia.
From S2P Require Import Prelude Process Link LinkResolve LinkClient LinkPipeline.

Section valid.
Context {Ev : Type} (ok : list Ev -> Ev -> Prop).

Definition valid (h : list Ev) : Prop := forall h1 ev h2, h = h1 ++ ev :: h2 -> ok h1 ev.

Lemma valid_nil : valid [].
Proof. intros h1 ev h2 E. by destruct h1. Qed.

Lemma valid_snoc h ev : valid h -> ok h ev -> valid (h ++ [ev]).
Proof.
  intros Hv Ho h1 ev' h2 E. destruct h2 as [|e2 h2 _] using rev_ind.
  - apply app_inj_tail in E as [-> ->]. done.
  - rewrite app_comm_cons, app_assoc in E. apply app_inj_tail in E as [E _]. by eapply Hv.
Qed.
End valid.

Section triple.
Context {Ev St : Type} (ok : list Ev -> Ev -> Prop).

Definition triple {A} (m : Proc Ev St A) (h : list Ev) (Q : A -> list Ev -> Prop) : Prop :=
  forall w, history w = h -> valid ok h ->
  match m w with
  | Done a w' => valid ok (history w') /\ h `prefix_of` history w' /\ Q a (history w')
  | Interrupted _ w' => valid ok (history w') /\ h `prefix_of` history w'
  | OutOfFuel => True
  end.

Lemma triple_ret {A} (a : A) h (Q : A -> list Ev -> Prop) : Q a h -> triple (pret a) h Q.
Proof. intros HQ w Hw Hv. cbn. by rewrite Hw. Qed.

Lemma triple_bind {A B} (m : Proc Ev St A) (k : A -> Proc Ev St B) h Q Q' :
  triple m h Q ->
  (forall a h', h `prefix_of` h' -> Q a h' -> triple (k a) h' Q') ->
  triple (pbind m k) h Q'.
Proof.
  intros Hm Hk w Hw Hv. unfold pbind. specialize (Hm w Hw Hv).
  destruct (m w) as [a w1|i w1|]; [|done..]. destruct Hm as (V1 & P1 & Q1).
  specialize (Hk a _ P1 Q1 w1 eq_refl V1). destruct (k a w1) as [b w2|i w2|]; [|..|done].
  - destruct Hk as (V2 & P2 & Q2). split_and!; [done|by etrans|done].
  - destruct Hk as (V2 & P2). split; [done|by etrans].
Qed.

Lemma triple_mono {A} (m : Proc Ev St A) h (Q Q' : A -> list Ev -> Prop) :
  triple m h Q -> (forall a h', h `prefix_of` h' -> Q a h' -> Q' a h') -> triple m h Q'.
Proof.
  intros Hm HQ w Hw Hv. specialize (Hm w Hw Hv). destruct (m w); [|done..].
  destruct Hm as (?&?&?). eauto.
Qed.

Lemma triple_try {A B E} (m : Proc Ev St (result A E)) (k : A -> Proc Ev St (result B E)) h
    (Q : result A E -> list Ev -> Prop) (Q' : result B E -> list Ev -> Prop) :
  triple m h Q ->
  (forall a h', h `prefix_of` h' -> Q (Ok a) h' -> triple (k a) h' Q') ->
  (forall e h', h `prefix_of` h' -> Q (Err e) h' -> Q' (Err e) h') ->
  triple (ptry m k) h Q'.
Proof.
  intros Hm Hk He. eapply triple_bind; [exact Hm|]. intros [a|e] h' Hp HQ; [by apply Hk|].
  apply triple_ret. by apply He.
Qed.

Lemma triple_get {A} (k : St -> Proc Ev St A) h Q :
  (forall s, triple (k s) h Q) -> triple (pbind pget k) h Q.
Proof. intros Hk w Hw Hv. unfold pbind, pget. cbn. by apply Hk. Qed.

Lemma triple_modify f h (Q : unit -> list Ev -> Prop) : Q tt h -> triple (pmodify f) h Q.
Proof. intros HQ w Hw Hv. cbn. by rewrite Hw. Qed.

Lemma triple_call {A} (ask : list Ev -> A) (log : A -> Ev) h (Q : A -> list Ev -> Prop) :
  (forall a, ok h (log a)) -> (forall a, Q a (h ++ [log a])) -> triple (call ask log) h Q.
Proof.
  intros Ho HQ w Hw Hv. cbn. rewrite Hw. split_and!; [by apply valid_snoc|by apply prefix_app_r|done].
Qed.

Lemma triple_await {A} (ask : list Ev -> answer A) (log : option A -> Ev) h
    (Q : A -> list Ev -> Prop) :
  (forall o, ok h (log o)) ->
  (forall a, ask h = Answer a -> Q a (h ++ [log (Some a)])) ->
  triple (await ask log) h Q.
Proof.
  intros Ho HQ w Hw Hv. unfold await. rewrite Hw.
  destruct (awaits w); [by rewrite Hw|]. destruct (ask h) as [a|i] eqn:E; cbn.
  - split_and!; [by apply valid_snoc|by apply prefix_app_r|by apply HQ].
  - split; [by apply valid_snoc|by apply prefix_app_r].
Qed.

Lemma triple_timeout {A} (m : Proc Ev St A) h Q (Q' : option A -> list Ev -> Prop) :
  triple m h Q -> (forall a h', Q a h' -> Q' (Some a) h') -> (forall h', Q' None h') ->
  triple (ptimeout m) h Q'.
Proof.
  intros Hm Hs Hn w Hw Hv. unfold ptimeout. specialize (Hm w Hw Hv).
  destruct (m w) as [a w'|[] w'|]; [|..|done].
  - destruct Hm as (?&?&?). eauto.
  - destruct Hm as (?&?). eauto.
  - done.
Qed.
End triple.

(** ** Processes without a postcondition *)

Section quiet.
Context `{LinkEnv} (ok : list LEvent -> LEvent -> Prop).
Abbreviation P A := (Proc LEvent Caches A).

Definition quiet {A} (m : P A) : Prop := forall h, triple ok m h (fun _ _ => True).

Lemma quiet_triple {A} (m : P A) h : quiet m -> triple ok m h (fun _ _ => True).
Proof. intros Hm. apply Hm. Qed.
Lemma quiet_ret {A} (a : A) : quiet (pret a).
Proof. intros h. by apply triple_ret. Qed.
Lemma quiet_bind {A B} (m : P A) (k : A -> P B) : quiet m -> (forall a, quiet (k a)) -> quiet (pbind m k).
Proof. intros Hm Hk h. eapply triple_bind; [apply Hm|]. intros a h' _ _. apply Hk. Qed.
Lemma quiet_try {A B E} (m : P (result A E)) (k : A -> P (result B E)) :
  quiet m -> (forall a, quiet (k a)) -> quiet (ptry m k).
Proof. intros Hm Hk. apply quiet_bind; [done|]. intros [a|e]; [apply Hk|apply quiet_ret]. Qed.
Lemma quiet_get {A} (k : Caches -> P A) : (forall s, quiet (k s)) -> quiet (pbind pget k).
Proof. intros Hk h. apply triple_get. intros s. apply Hk. Qed.
Lemma quiet_modify f : quiet (pmodify f).
Proof. intros h. by apply triple_modify. Qed.
Lemma quiet_yield : quiet yield.
Proof. intros h w Hw Hv. cbn. by rewrite Hw. Qed.
Lemma quiet_update {A} (f : Caches -> Caches * A) : quiet (update f).
Proof. apply quiet_get. intros s. apply quiet_bind; [apply quiet_modify|]. intros []. apply quiet_ret. Qed.
Lemma quiet_call {A} (ask : list LEvent -> A) (log : A -> LEvent) :
  (forall h a, ok h (log a)) -> quiet (call ask log).
Proof. intros Ho h. by apply triple_call. Qed.
Lemma quiet_lawait {A} (ask : list LEvent -> answer A) (log : option A -> LEvent) :
  (forall h o, ok h (log o)) -> quiet (lawait ask log).
Proof.
  intros Ho. apply quiet_bind; [intros h; by apply triple_await|]. intros a.
  apply quiet_bind; [apply quiet_yield|]. intros []. apply quiet_ret.
Qed.
Lemma quiet_ltimeout {A} (m : P A) : quiet m -> quiet (ltimeout m).
Proof.
  intros Hm. apply quiet_bind; [intros h; by eapply triple_timeout|].
  intros r. apply quiet_bind; [apply quiet_yield|]. intros []. apply quiet_ret.
Qed.
Lemma quiet_join_all {A B} (f : A -> P B) l : (forall a, quiet (f a)) -> quiet (join_all f l).
Proof.
  intros Hf. induction l as [|a l IH]; cbn [join_all]; [apply quiet_ret|].
  apply quiet_bind; [apply Hf|]. intros b. apply quiet_bind; [done|]. intros bs. apply quiet_ret.
Qed.

(** A call whose answer matters. *)
Lemma triple_lawait {A} (ask : list LEvent -> answer A) (log : option A -> LEvent) h
    (Q : A -> list LEvent -> Prop) :
  (forall o, ok h (log o)) ->
  (forall a, ask h = Answer a -> Q a (h ++ [log (Some a)])) ->
  triple ok (lawait ask log) h Q.
Proof.
  intros Ho HQ. eapply triple_bind; [by apply triple_await|]. intros a h' _ HQ'.
  eapply (triple_bind _ _ _ _ (fun _ h'' => Q a h'')).
  - intros w Hw Hv. cbn. by rewrite Hw.
  - intros [] h'' _ HQ''. by apply triple_ret.
Qed.
End quiet.

(** ** Fuel *)

Section total.
Context {Ev St : Type}.

Definition total_below {A} (n : nat) (m : Proc Ev St A) : Prop :=
  spends m /\ forall w, awaits w < n -> m w <> OutOfFuel.

Lemma total_ret {A} n (a : A) : total_below n (pret a).
Proof. split; [apply spends_ret|done]. Qed.
Lemma total_bind {A B} n (m : Proc Ev St A) (k : A -> Proc Ev St B) :
  total_below n m -> (forall a, total_below n (k a)) -> total_below n (pbind m k).
Proof.
  intros [Hs Hm] Hk. split; [apply spends_bind; [done|]; intros a; apply Hk|].
  intros w Hw. unfold pbind. specialize (Hs w). specialize (Hm w Hw).
  destruct (m w) as [a w1| |]; [|done..]. apply Hk. lia.
Qed.
Lemma total_try {A B E} n (m : Proc Ev St (result A E)) (k : A -> Proc Ev St (result B E)) :
  total_below n m -> (forall a, total_below n (k a)) -> total_below n (ptry m k).
Proof. intros Hm Hk. apply total_bind; [done|]. intros [a|e]; [apply Hk|apply total_ret]. Qed.
Lemma total_get n : total_below n (pget : Proc Ev St St).
Proof. split; [apply spends_get|done]. Qed.
Lemma total_modify n f : total_below n (pmodify f : Proc Ev St unit).
Proof. split; [apply spends_modify|done]. Qed.
Lemma total_await {A} n (ask : list Ev -> answer A) (log : option A -> Ev) :
  total_below n (await ask log : Proc Ev St A).
Proof.
  split; [apply spends_await|]. intros w _. unfold await. destruct (awaits w); [done|]. by destruct (ask _).
Qed.
Lemma total_call {A} n (ask : list Ev -> A) (log : A -> Ev) : total_below n (call ask log : Proc Ev St A).
Proof. split; [apply spends_call|done]. Qed.
Lemma total_timeout {A} n (m : Proc Ev St A) : total_below n m -> total_below n (ptimeout m).
Proof.
  intros [Hs Hm]. split; [by apply spends_timeout|]. intros w Hw. unfold ptimeout.
  specialize (Hm w Hw). by destruct (m w) as [|[]|].
Qed.

(** What follows a call has one call less. *)
Lemma total_await_bind {A B} n (ask : list Ev -> answer A) (log : option A -> Ev)
    (k : A -> Proc Ev St B) :
  (forall a, total_below n (k a)) -> total_below (S n) (pbind (await ask log) k).
Proof.
  intros Hk. split; [apply spends_bind; [apply spends_await|]; intros a; apply Hk|].
  intros w Hw. unfold pbind, await. destruct (awaits w) as [|m] eqn:E; [done|].
  destruct (ask (history w)); [|done]. apply Hk. cbn. lia.
Qed.

Lemma total_weaken {A} n m (p : Proc Ev St A) : n <= m -> total_below m p -> total_below n p.
Proof. intros Hle [Hs Hp]. split; [done|]. intros w Hw. apply Hp. lia. Qed.
End total.

Section total_link.
Context `{LinkEnv}.
Abbreviation P A := (Proc LEvent Caches A).

Lemma total_yield n : total_below n yield.
Proof. split; [|done]. intros w. cbn. lia. Qed.
Lemma total_update {A} n (f : Caches -> Caches * A) : total_below n (update f).
Proof.
  apply total_bind; [apply total_get|]. intros c. apply total_bind; [apply total_modify|].
  intros []. apply total_ret.
Qed.
Lemma total_lawait {A} n (ask : list LEvent -> answer A) (log : option A -> LEvent) :
  total_below n (lawait ask log).
Proof.
  apply total_bind; [apply total_await|]. intros a. apply total_bind; [apply total_yield|].
  intros []. apply total_ret.
Qed.
Lemma total_ltimeout {A} n (m : P A) : total_below n m -> total_below n (ltimeout m).
Proof.
  intros Hm. apply total_bind; [by apply total_timeout|]. intros r.
  apply total_bind; [apply total_yield|]. intros []. apply total_ret.
Qed.
Lemma total_lawait_bind {A B} n (ask : list LEvent -> answer A) (log : option A -> LEvent)
    (k : A -> P B) :
  (forall a, total_below n (k a)) -> total_below (S n) (pbind (lawait ask log) k).
Proof.
  intros Hk. pose (k' := fun a => pbind yield (fun _ => k a)).
  assert (total_below (S n) (pbind (await ask log) k')) as [Hs Ht].
  { apply total_await_bind. intros a. apply total_bind; [apply total_yield|done]. }
  enough (forall w, pbind (lawait ask log) k w = pbind (await ask log) k' w) as Heq.
  { split; intros w; rewrite Heq; [apply Hs|apply Ht]. }
  intros w. unfold k', lawait, pbind. by destruct (await ask log w).
Qed.
Lemma total_join_all {A B} n (f : A -> P B) l : (forall a, total_below n (f a)) -> total_below n (join_all f l).
Proof.
  intros Hf. induction l as [|a l IH]; cbn [join_all]; [apply total_ret|].
  apply total_bind; [apply Hf|]. intros b. apply total_bind; [done|]. intros bs. apply total_ret.
Qed.
End total_link.

Create HintDb quiet.
Create HintDb total.
Ltac quiet_step :=
  first
    [ assumption | apply quiet_ret | apply quiet_modify | apply quiet_update | apply quiet_yield
    | solve [auto with quiet nocore] | apply quiet_ltimeout | apply quiet_join_all; intros ?
    | apply quiet_get; intros ? | apply quiet_try; [|intros ?] | apply quiet_bind; [|intros ?]
    | case_match | progress cbv zeta ].
Ltac quiet_proc := repeat quiet_step.
Ltac total_step :=
  first
    [ assumption | apply total_ret | apply total_get | apply total_modify | apply total_update
    | apply total_lawait | apply total_call | solve [auto with total nocore]
    | apply total_ltimeout | apply total_join_all; intros ?
    | apply total_try; [|intros ?] | apply total_bind; [|intros ?]
    | case_match | progress cbv zeta ].
Ltac total_proc := repeat total_step.
