(* ===== verification/LinkQuiet.v ===== *)
(** * Chainlink: calls that change no account

    Everything but the cloner only reads, fetches and subscribes: these processes
    are quiet for any condition on materialised and deleted accounts, and none of
    them runs out of fuel. *)

From stdpp Require Import base gmap sets list strings.
From Stdlib Require Import ZArith Lia.
From S2P Require Import Prelude Process TokenPrograms Link LinkResolve LinkClient FetchCloner LinkPipeline.
From S2P Require Import LinkClone LinkUpdate LinkSubs LinkProcess LinkLogic.

Definition changes_account (ev : LEvent) : bool :=
  match ev with LMaterialize _ _ _ _ _ | LDelete _ _ => true | _ => false end.

Class Watches (ok : list LEvent -> LEvent -> Prop) : Prop :=
  allows_rest h ev : changes_account ev = false -> ok h ev.

Section quiet.
Context `{TokenEnv} `{LinkApi} `{LinkEnv} (ok : list LEvent -> LEvent -> Prop) `{!Watches ok}.
Abbreviation P A := (Proc LEvent Caches A).
Abbreviation quiet := (quiet ok).

Lemma quiet_await {A} (ask : list LEvent -> answer A) (log : option A -> LEvent) :
  (forall o, changes_account (log o) = false) -> quiet (lawait ask log).
Proof. intros Hl. apply quiet_lawait. intros h o. by apply allows_rest. Qed.
Lemma quiet_log {A} (ask : list LEvent -> A) (log : A -> LEvent) :
  (forall a, changes_account (log a) = false) -> quiet (call ask log).
Proof. intros Hl. apply quiet_call. intros h a. by apply allows_rest. Qed.

Lemma quiet_loader_read k : quiet (loader_read k).
Proof. by apply quiet_log. Qed.
Lemma quiet_read_account k : quiet (read_account k).
Proof. apply quiet_bind; [apply quiet_loader_read|intros; apply quiet_ret]. Qed.
Lemma quiet_account_mode k : quiet (account_mode k).
Proof. apply quiet_bind; [by apply quiet_log|intros; apply quiet_ret]. Qed.
Lemma quiet_loader_contains k : quiet (loader_contains k).
Proof. by apply quiet_log. Qed.
Lemma quiet_contains_account k : quiet (contains_account k).
Proof. apply quiet_bind; [apply quiet_loader_contains|intros; apply quiet_ret]. Qed.
Lemma quiet_engine_account k : quiet (engine_account k).
Proof. apply quiet_bind; [by apply quiet_await|intros; apply quiet_ret]. Qed.
Lemma quiet_missing_accounts ks : quiet (missing_accounts ks).
Proof. by apply quiet_await. Qed.
Lemma quiet_try_get_multi ks m f : quiet (try_get_multi ks m f).
Proof. by apply quiet_await. Qed.
Lemma quiet_until_slots_match ks f : quiet (try_get_multi_until_slots_match ks f).
Proof. by apply quiet_await. Qed.
Lemma quiet_fetch_snapshot ks f : quiet (fetch_snapshot_until_slot ks f).
Proof. by apply quiet_await. Qed.
Lemma quiet_data_slice k n f : quiet (get_account_data_slice k n f).
Proof. by apply quiet_await. Qed.
Lemma quiet_assess_address a : quiet (assess_address a).
Proof. by apply quiet_await. Qed.
Lemma quiet_subscription c : quiet (subscription c).
Proof. by apply quiet_await. Qed.
Lemma quiet_has_reason ks r : quiet (has_any_subscription_reason ks r).
Proof. by apply quiet_await. Qed.
Lemma quiet_is_watching k : quiet (is_watching k).
Proof. by apply quiet_log. Qed.
Lemma quiet_chain_slot : quiet chain_slot.
Proof. by apply quiet_log. Qed.
Lemma quiet_now : quiet now.
Proof. by apply quiet_log. Qed.
Lemma quiet_claims : quiet remote_account_claims.
Proof. by apply quiet_log. Qed.
Lemma quiet_spawn s : quiet (spawn s).
Proof. by apply quiet_log. Qed.

#[local] Hint Resolve quiet_loader_read quiet_read_account quiet_account_mode quiet_loader_contains
  quiet_contains_account quiet_engine_account quiet_missing_accounts quiet_try_get_multi
  quiet_until_slots_match quiet_fetch_snapshot quiet_data_slice quiet_assess_address
  quiet_subscription quiet_has_reason quiet_is_watching quiet_chain_slot quiet_now quiet_claims
  quiet_spawn : quiet.

Lemma quiet_release_subs l : quiet (release_subs l).
Proof. induction l as [|[k r] l IH]; cbn [release_subs]; quiet_proc. Qed.
#[local] Hint Resolve quiet_release_subs : quiet.
Lemma quiet_acquire_each acc ks r : quiet (acquire_each acc ks r).
Proof. revert acc. induction ks as [|k ks IH]; intros acc; cbn [acquire_each]; quiet_proc. Qed.
Lemma quiet_acquire_subs ks r : quiet (acquire_subs ks r).
Proof. apply quiet_acquire_each. Qed.
Lemma quiet_release_program_data_subs k : quiet (release_program_data_subs k).
Proof. apply quiet_release_subs. Qed.
Lemma quiet_acquire_reason k r : quiet (acquire_subscription_reason k r).
Proof. unfold acquire_subscription_reason. quiet_proc. Qed.
Lemma quiet_assess_each l : quiet (assess_each l).
Proof. induction l as [|a l IH]; cbn [assess_each]; quiet_proc. Qed.
#[local] Hint Resolve quiet_acquire_subs quiet_release_program_data_subs quiet_acquire_reason
  quiet_assess_each : quiet.
Lemma quiet_check_addresses l : quiet (check_addresses l).
Proof. unfold check_addresses. quiet_proc. Qed.
Lemma quiet_claim_materialization k b : quiet (claim_materialization k b).
Proof. unfold claim_materialization. quiet_proc. Qed.
Lemma quiet_forget k : quiet (forget_program_data k).
Proof. unfold forget_program_data. quiet_proc. Qed.
Lemma quiet_index_get k : quiet (index_get k).
Proof. apply quiet_update. Qed.
Lemma quiet_index_pop k : quiet (index_pop k).
Proof. apply quiet_update. Qed.
#[local] Hint Resolve quiet_check_addresses quiet_claim_materialization quiet_forget quiet_index_get
  quiet_index_pop : quiet.
Lemma quiet_unwatch k : quiet (unwatch_programdata k).
Proof. unfold unwatch_programdata. quiet_proc. Qed.
Lemma quiet_fetch_record k s : quiet (fetch_and_parse_delegation_record k s).
Proof. unfold fetch_and_parse_delegation_record. quiet_proc. Qed.
Lemma quiet_add_fetch_count n : quiet (add_fetch_count n).
Proof. apply quiet_modify. Qed.
#[local] Hint Resolve quiet_unwatch quiet_fetch_record quiet_add_fetch_count : quiet.
Lemma quiet_fetch_companion k c s : quiet (task_to_fetch_with_companion k c s).
Proof. unfold task_to_fetch_with_companion. quiet_proc. Qed.
Lemma quiet_cleanup_direct k : quiet (cleanup_direct_subscription_for_delegated_account k).
Proof. unfold cleanup_direct_subscription_for_delegated_account. quiet_proc. Qed.
Lemma quiet_cleanup_tracking k : quiet (cleanup_undelegation_tracking_for_completed_account k).
Proof. unfold cleanup_undelegation_tracking_for_completed_account. quiet_proc. Qed.
#[local] Hint Resolve quiet_fetch_companion quiet_cleanup_direct quiet_cleanup_tracking : quiet.
Lemma quiet_resolve_each e l acc m o : quiet (resolve_each e l acc m o).
Proof.
  revert acc m o. induction l as [|a l IH]; intros acc m o; cbn [resolve_each]; quiet_proc.
Qed.
#[local] Hint Resolve quiet_resolve_each : quiet.
Lemma quiet_resolve_delegated o p s : quiet (resolve_delegated_accounts o p s).
Proof.
  unfold resolve_delegated_accounts, task_to_fetch_with_delegation_record. quiet_proc.
Qed.
Lemma quiet_resolve_programs p s : quiet (resolve_programs_with_program_data p s).
Proof. unfold resolve_programs_with_program_data. quiet_proc. Qed.
Lemma quiet_eata_record i : quiet (eata_record i).
Proof. unfold eata_record. quiet_proc. Qed.
#[local] Hint Resolve quiet_resolve_delegated quiet_resolve_programs quiet_eata_record : quiet.
Lemma quiet_resolve_atas a s : quiet (resolve_ata_with_eata_projection a s).
Proof. unfold resolve_ata_with_eata_projection. quiet_proc. Qed.
Lemma quiet_undelegation_refresh k s e : quiet (undelegation_refresh k s e).
Proof. unfold undelegation_refresh. quiet_proc. Qed.
#[local] Hint Resolve quiet_resolve_atas quiet_undelegation_refresh : quiet.
Lemma quiet_missing_dependencies r p d : quiet (missing_dependencies r p d).
Proof. induction d as [|[k b] d IH]; cbn [missing_dependencies]; quiet_proc. Qed.
Lemma quiet_prefetch b m s : quiet (prefetch_dependencies b m s).
Proof. unfold prefetch_dependencies. quiet_proc. Qed.
Lemma quiet_raise_floor s : quiet (raise_floor s).
Proof. unfold raise_floor. quiet_proc. Qed.
#[local] Hint Resolve quiet_missing_dependencies quiet_prefetch quiet_raise_floor : quiet.
Lemma quiet_fetch_accounts k m s : quiet (fetch_accounts k m s).
Proof. unfold fetch_accounts. quiet_proc. Qed.
Lemma quiet_bank_check f c l b k : quiet (bank_check f c l b k).
Proof. revert b k. induction l as [|a l IH]; intros b k; cbn [bank_check]; quiet_proc. Qed.
Lemma quiet_check_undelegating c : quiet (check_undelegating c).
Proof. destruct c as [[k s] e]. unfold check_undelegating. quiet_proc. Qed.
Lemma quiet_dependencies_to_fetch w s d : quiet (dependencies_to_fetch w s d).
Proof. induction d as [|k d IH]; cbn [dependencies_to_fetch]; quiet_proc. Qed.
End quiet.

#[export] Hint Resolve quiet_loader_read quiet_read_account quiet_account_mode quiet_loader_contains
  quiet_contains_account quiet_engine_account quiet_missing_accounts quiet_try_get_multi
  quiet_until_slots_match quiet_fetch_snapshot quiet_data_slice quiet_assess_address
  quiet_subscription quiet_has_reason quiet_is_watching quiet_chain_slot
  quiet_now quiet_claims quiet_spawn quiet_release_subs
  quiet_acquire_each quiet_acquire_subs quiet_release_program_data_subs quiet_acquire_reason
  quiet_assess_each quiet_check_addresses quiet_claim_materialization quiet_forget
  quiet_index_get quiet_index_pop quiet_unwatch quiet_fetch_record
  quiet_add_fetch_count quiet_fetch_companion quiet_cleanup_direct quiet_cleanup_tracking
  quiet_resolve_each quiet_resolve_delegated quiet_resolve_programs quiet_eata_record
  quiet_resolve_atas quiet_undelegation_refresh quiet_missing_dependencies quiet_prefetch
  quiet_raise_floor quiet_fetch_accounts quiet_bank_check quiet_check_undelegating
  quiet_dependencies_to_fetch : quiet.
#[export] Hint Extern 1 (Watches _) => typeclasses eauto : quiet.

Section total.
Context `{TokenEnv} `{LinkApi} `{LinkEnv}.

Lemma total_loader_read n0 k : total_below n0 (loader_read k).
Proof. apply total_call. Qed.
Lemma total_read_account n0 k : total_below n0 (read_account k).
Proof. apply total_bind; [apply total_loader_read|intros; apply total_ret]. Qed.
Lemma total_account_mode n0 k : total_below n0 (account_mode k).
Proof. apply total_bind; [apply total_call|intros; apply total_ret]. Qed.
Lemma total_loader_contains n0 k : total_below n0 (loader_contains k).
Proof. apply total_call. Qed.
Lemma total_contains_account n0 k : total_below n0 (contains_account k).
Proof. apply total_bind; [apply total_loader_contains|intros; apply total_ret]. Qed.
Lemma total_engine_account n0 k : total_below n0 (engine_account k).
Proof. apply total_bind; [apply total_lawait|intros; apply total_ret]. Qed.
Lemma total_missing_accounts n0 ks : total_below n0 (missing_accounts ks).
Proof. apply total_lawait. Qed.
Lemma total_try_get_multi n0 ks m f : total_below n0 (try_get_multi ks m f).
Proof. apply total_lawait. Qed.
Lemma total_until_slots_match n0 ks f : total_below n0 (try_get_multi_until_slots_match ks f).
Proof. apply total_lawait. Qed.
Lemma total_fetch_snapshot n0 ks f : total_below n0 (fetch_snapshot_until_slot ks f).
Proof. apply total_lawait. Qed.
Lemma total_data_slice n0 k n f : total_below n0 (get_account_data_slice k n f).
Proof. apply total_lawait. Qed.
Lemma total_assess_address n0 a : total_below n0 (assess_address a).
Proof. apply total_lawait. Qed.
Lemma total_subscription n0 c : total_below n0 (subscription c).
Proof. apply total_lawait. Qed.
Lemma total_has_reason n0 ks r : total_below n0 (has_any_subscription_reason ks r).
Proof. apply total_lawait. Qed.
Lemma total_is_watching n0 k : total_below n0 (is_watching k).
Proof. apply total_call. Qed.
Lemma total_chain_slot n0 : total_below n0 chain_slot.
Proof. apply total_call. Qed.
Lemma total_now n0 : total_below n0 now.
Proof. apply total_call. Qed.
Lemma total_claims n0 : total_below n0 remote_account_claims.
Proof. apply total_call. Qed.
Lemma total_spawn n0 s : total_below n0 (spawn s).
Proof. apply total_call. Qed.

#[local] Hint Resolve total_loader_read total_read_account total_account_mode total_loader_contains
  total_contains_account total_engine_account total_missing_accounts total_try_get_multi
  total_until_slots_match total_fetch_snapshot total_data_slice total_assess_address
  total_subscription total_has_reason total_is_watching total_chain_slot total_now total_claims
  total_spawn : total.

Lemma total_release_subs n0 l : total_below n0 (release_subs l).
Proof. induction l as [|[k r] l IH]; cbn [release_subs]; total_proc. Qed.
#[local] Hint Resolve total_release_subs : total.
Lemma total_acquire_each n0 acc ks r : total_below n0 (acquire_each acc ks r).
Proof. revert acc. induction ks as [|k ks IH]; intros acc; cbn [acquire_each]; total_proc. Qed.
Lemma total_acquire_subs n0 ks r : total_below n0 (acquire_subs ks r).
Proof. apply total_acquire_each. Qed.
Lemma total_release_program_data_subs n0 k : total_below n0 (release_program_data_subs k).
Proof. apply total_release_subs. Qed.
Lemma total_acquire_reason n0 k r : total_below n0 (acquire_subscription_reason k r).
Proof. unfold acquire_subscription_reason. total_proc. Qed.
Lemma total_assess_each n0 l : total_below n0 (assess_each l).
Proof. induction l as [|a l IH]; cbn [assess_each]; total_proc. Qed.
#[local] Hint Resolve total_acquire_subs total_release_program_data_subs total_acquire_reason
  total_assess_each : total.
Lemma total_check_addresses n0 l : total_below n0 (check_addresses l).
Proof. unfold check_addresses. total_proc. Qed.
Lemma total_claim_materialization n0 k b : total_below n0 (claim_materialization k b).
Proof. unfold claim_materialization. total_proc. Qed.
Lemma total_forget n0 k : total_below n0 (forget_program_data k).
Proof. unfold forget_program_data. total_proc. Qed.
Lemma total_index_get n0 k : total_below n0 (index_get k).
Proof. apply total_update. Qed.
Lemma total_index_pop n0 k : total_below n0 (index_pop k).
Proof. apply total_update. Qed.
#[local] Hint Resolve total_check_addresses total_claim_materialization total_forget total_index_get
  total_index_pop : total.
Lemma total_unwatch n0 k : total_below n0 (unwatch_programdata k).
Proof. unfold unwatch_programdata. total_proc. Qed.
Lemma total_fetch_record n0 k s : total_below n0 (fetch_and_parse_delegation_record k s).
Proof. unfold fetch_and_parse_delegation_record. total_proc. Qed.
Lemma total_add_fetch_count n0 n : total_below n0 (add_fetch_count n).
Proof. apply total_modify. Qed.
#[local] Hint Resolve total_unwatch total_fetch_record total_add_fetch_count : total.
Lemma total_fetch_companion n0 k c s : total_below n0 (task_to_fetch_with_companion k c s).
Proof. unfold task_to_fetch_with_companion. total_proc. Qed.
Lemma total_cleanup_direct n0 k : total_below n0 (cleanup_direct_subscription_for_delegated_account k).
Proof. unfold cleanup_direct_subscription_for_delegated_account. total_proc. Qed.
Lemma total_cleanup_tracking n0 k : total_below n0 (cleanup_undelegation_tracking_for_completed_account k).
Proof. unfold cleanup_undelegation_tracking_for_completed_account. total_proc. Qed.
#[local] Hint Resolve total_fetch_companion total_cleanup_direct total_cleanup_tracking : total.
Lemma total_resolve_each n0 e l acc m o : total_below n0 (resolve_each e l acc m o).
Proof.
  revert acc m o. induction l as [|a l IH]; intros acc m o; cbn [resolve_each]; total_proc.
Qed.
#[local] Hint Resolve total_resolve_each : total.
Lemma total_resolve_delegated n0 o p s : total_below n0 (resolve_delegated_accounts o p s).
Proof.
  unfold resolve_delegated_accounts, task_to_fetch_with_delegation_record. total_proc.
Qed.
Lemma total_resolve_programs n0 p s : total_below n0 (resolve_programs_with_program_data p s).
Proof. unfold resolve_programs_with_program_data. total_proc. Qed.
Lemma total_eata_record n0 i : total_below n0 (eata_record i).
Proof. unfold eata_record. total_proc. Qed.
#[local] Hint Resolve total_resolve_delegated total_resolve_programs total_eata_record : total.
Lemma total_resolve_atas n0 a s : total_below n0 (resolve_ata_with_eata_projection a s).
Proof. unfold resolve_ata_with_eata_projection. total_proc. Qed.
Lemma total_undelegation_refresh n0 k s e : total_below n0 (undelegation_refresh k s e).
Proof. unfold undelegation_refresh. total_proc. Qed.
#[local] Hint Resolve total_resolve_atas total_undelegation_refresh : total.
Lemma total_missing_dependencies n0 r p d : total_below n0 (missing_dependencies r p d).
Proof. induction d as [|[k b] d IH]; cbn [missing_dependencies]; total_proc. Qed.
Lemma total_prefetch n0 b m s : total_below n0 (prefetch_dependencies b m s).
Proof. unfold prefetch_dependencies. total_proc. Qed.
Lemma total_raise_floor n0 s : total_below n0 (raise_floor s).
Proof. unfold raise_floor. total_proc. Qed.
#[local] Hint Resolve total_missing_dependencies total_prefetch total_raise_floor : total.
Lemma total_fetch_accounts n0 k m s : total_below n0 (fetch_accounts k m s).
Proof. unfold fetch_accounts. total_proc. Qed.
Lemma total_bank_check n0 f c l b k : total_below n0 (bank_check f c l b k).
Proof. revert b k. induction l as [|a l IH]; intros b k; cbn [bank_check]; total_proc. Qed.
Lemma total_check_undelegating n0 c : total_below n0 (check_undelegating c).
Proof. destruct c as [[k s] e]. unfold check_undelegating. total_proc. Qed.
Lemma total_dependencies_to_fetch n0 w s d : total_below n0 (dependencies_to_fetch w s d).
Proof. induction d as [|k d IH]; cbn [dependencies_to_fetch]; total_proc. Qed.
End total.

#[export] Hint Resolve total_loader_read total_read_account total_account_mode total_loader_contains
  total_contains_account total_engine_account total_missing_accounts total_try_get_multi
  total_until_slots_match total_fetch_snapshot total_data_slice total_assess_address
  total_subscription total_has_reason total_is_watching total_chain_slot
  total_now total_claims total_spawn total_release_subs
  total_acquire_each total_acquire_subs total_release_program_data_subs total_acquire_reason
  total_assess_each total_check_addresses total_claim_materialization total_forget
  total_index_get total_index_pop total_unwatch total_fetch_record
  total_add_fetch_count total_fetch_companion total_cleanup_direct total_cleanup_tracking
  total_resolve_each total_resolve_delegated total_resolve_programs total_eata_record
  total_resolve_atas total_undelegation_refresh total_missing_dependencies total_prefetch
  total_raise_floor total_fetch_accounts total_bank_check total_check_undelegating
  total_dependencies_to_fetch : total.
