(* ===== verification/LinkSafety.v ===== *)
(** * Chainlink: what reaches the engine

    The conditions on every image that Chainlink hands to the engine, and that every
    entry point of Chainlink keeps them: local state is not overwritten, actions run
    only when their signers were checked, a session starts from the delegation
    record and the commit number of the base layer. *)

From stdpp Require Import base gmap sets list strings sorting.
From Stdlib Require Import ZArith Lia.
From S2P Require Import Prelude Intent Runtime TokenPrograms Limits Process Link LinkResolve LinkClient.
From S2P Require Import FetchCloner LinkPipeline LinkClone LinkUpdate LinkSubs LinkProcess LinkLogic.
From S2P Require Import LinkQuiet.

Section conditions.
Context `{TokenEnv} `{LinkApi} `{LinkEnv}.

(** A remote image may replace what the engine holds: ephemeral state only by the
    projection of a token account that takes its balance over; of a delegated or
    undelegating account, a plain image only when it is newer than the delegation, or
    is a program. *)
Definition respects_ownership (lease : AccountAccessor) (expected : option SharedAccount)
    (image : SharedAccount) : Prop :=
  (forall s, ac_observed lease = Some (Magic, s) ->
     sa_mode image = Delegated /\ is_supported_token_program (sa_owner image) = true
     /\ (lease_skips lease Delegated (sa_slot image) = true \/ is_Some expected))
  /\ (forall e, expected = Some e -> sa_mode e = Magic ->
        exists projection, merge (ac_key lease) e projection = Ok image)
  /\ (forall m s, ac_observed lease = Some (m, s) -> m = Delegated \/ m = Undelegating ->
        sa_mode image = Missing \/ sa_mode image = Mirrored ->
        (s < sa_slot image)%Z
        \/ (sa_executable image = true /\ sa_owner image ∈ [LOADER_V1; LOADER_V4])).

(** An account of the delegation program is not taken for a delegated one, except the
    fee vault of the validator. *)
Definition not_unresolved (k : Pubkey) (image : SharedAccount) : Prop :=
  sa_mode image = Delegated \/ sa_mode image = Magic -> sa_owner image = DELEGATION_PROGRAM_ID ->
  k = fee_vault_pda validator_pubkey.

Definition signers_checked (h : list LEvent) (actions : list Instruction) : Prop :=
  forall strategy, risk_service = Some strategy ->
  delegation_actions_require_risk_check strategy actions = true ->
  forall ix m, ix ∈ actions -> m ∈ ix_accounts ix -> im_signer m = true ->
  LRisk (show_key (im_pubkey m)) (Some (Ok false)) ∈ h.

Definition actions_allowed (h : list LEvent) (k : Pubkey) (image : SharedAccount)
    (actions : option PostFinalize) : Prop :=
  forall pf, actions = Some pf ->
  pf_actions pf = [undelegation_action engine_authority k]
  \/ (sa_mode image = Delegated /\ signers_checked h (pf_actions pf)).

(** The base layer's delegation record names this validator and the image's delegation
    slot, and its metadata holds the image's commit number. The record is the account's
    own, or, when the image the base layer gave ([source]) is an associated token
    account, that of the eATA derived from its wallet and mint. *)
Definition seeded (h : list LEvent) (k : Pubkey) (source image : SharedAccount) : Prop :=
  exists d floor record metadata s1 s2 r,
    LSnapshot [record_pda d; metadata_pda d] floor (Some (Ok [Found record s1; Found metadata s2])) ∈ h
    /\ sa_owner record = DELEGATION_PROGRAM_ID /\ sa_owner metadata = DELEGATION_PROGRAM_ID
    /\ parse_record (take record_size (sa_data record)) = Ok r
    /\ dr_authority r = validator_pubkey /\ dr_delegation_slot r = sa_slot image
    /\ parse_delegation_metadata (sa_data metadata) = Some (sa_commit_seq image)
    /\ (sa_commit_seq image <= u32_max)%Z
    /\ ((is_ata k (sa_owner source) (sa_data source) = None /\ d = k /\ dr_owner r = sa_owner image)
        \/ (derive_eata_pubkey_from_ata_account k source = Some d /\ dr_owner r = EATA_PROGRAM_ID
            /\ is_supported_token_program (sa_owner image) = true)).

Definition skipped (h : list LEvent) (k : Pubkey) (image : SharedAccount) : Prop :=
  exists lease, LLease k (Some (Ok lease)) ∈ h /\ lease_skips lease Delegated (sa_slot image) = true.

(** A delegated image of the base layer is on record, unless the engine already holds
    its session. *)
Definition on_chain (h : list LEvent) (k : Pubkey) (image : SharedAccount) : Prop :=
  sa_mode image = Delegated -> skipped h k image \/ seeded h k image image.

(** The same for an image handed to the engine, which is the image of the base layer
    or its takeover of the local token account. *)
Definition taken_over (k : Pubkey) (source image : SharedAccount) : Prop :=
  image = source \/ exists local, merge k local source = Ok image.

Definition on_record (h : list LEvent) (k : Pubkey) (image : SharedAccount) : Prop :=
  sa_mode image = Delegated ->
  skipped h k image \/ exists source, taken_over k source image /\ seeded h k source image.

Definition clone_ok (h : list LEvent) (ev : LEvent) : Prop :=
  match ev with
  | LMaterialize lease expected image actions _ =>
      respects_ownership lease expected image
      /\ not_unresolved (ac_key lease) image
      /\ actions_allowed h (ac_key lease) image actions
      /\ on_record h (ac_key lease) image
  | LDelete lease _ => lease_evictable lease = true \/ lease_cached_evictable lease = true
  | _ => True
  end.

#[export] Instance clone_ok_watches : Watches clone_ok.
Proof. intros h [] Hc; done. Qed.

(** ** The conditions persist *)

Lemma elem_of_prefix {A} (h h' : list A) x : h `prefix_of` h' -> x ∈ h -> x ∈ h'.
Proof. intros [t ->] Hx. apply elem_of_app. by left. Qed.

Lemma signers_checked_prefix h h' l : h `prefix_of` h' -> signers_checked h l -> signers_checked h' l.
Proof. intros Hp Hc st Hs Hr ix m Hix Hm Hg. eapply elem_of_prefix; [done|by eapply Hc]. Qed.

Lemma actions_allowed_prefix h h' k a o :
  h `prefix_of` h' -> actions_allowed h k a o -> actions_allowed h' k a o.
Proof. intros Hp Ha pf E. destruct (Ha pf E) as [?|[??]]; [by left|right]. eauto using signers_checked_prefix. Qed.

Lemma seeded_prefix h h' k p a : h `prefix_of` h' -> seeded h k p a -> seeded h' k p a.
Proof.
  intros Hp (d & f & r & m & s1 & s2 & q & He & Hrest). exists d, f, r, m, s1, s2, q.
  split; [by eapply elem_of_prefix|done].
Qed.

Lemma on_chain_prefix h h' k a : h `prefix_of` h' -> on_chain h k a -> on_chain h' k a.
Proof.
  intros Hp Hr Hm. destruct (Hr Hm) as [(l & Hl & Hs)|Hs]; [left|right; by eapply seeded_prefix].
  exists l. split; [by eapply elem_of_prefix|done].
Qed.

Lemma merge_shape k e p image : merge k e p = Ok image ->
  sa_mode image = sa_mode p /\ sa_owner image = sa_owner p /\ sa_slot image = sa_slot p
  /\ sa_commit_seq image = sa_commit_seq p.
Proof. unfold merge. intros Hm. case_res. done. Qed.

Lemma taken_over_shape k p image : taken_over k p image ->
  sa_mode image = sa_mode p /\ sa_owner image = sa_owner p /\ sa_slot image = sa_slot p
  /\ sa_commit_seq image = sa_commit_seq p.
Proof. intros [->|[e He]]; [done|by eapply merge_shape]. Qed.

(** The provenance of the base image is that of what is handed over. *)
Lemma on_chain_record h k p image : taken_over k p image -> on_chain h k p -> on_record h k image.
Proof.
  intros Ht Hc. destruct (taken_over_shape _ _ _ Ht) as (E1 & E2 & E3 & E4).
  unfold on_record, on_chain, skipped in *. rewrite E1, E3. intros Hm.
  destruct (Hc Hm) as [Hs|Hs]; [by left|right]. exists p. split; [done|].
  unfold seeded in *. by rewrite E2, E3, E4.
Qed.
End conditions.

Section cloner.
Context `{TokenEnv} `{LinkApi} `{LinkEnv}.
Abbreviation P A := (Proc LEvent Caches A).
Abbreviation triple := (triple clone_ok).
Abbreviation quiet := (quiet clone_ok).

Lemma quiet_spec {A} (m : P A) h (Q : A -> list LEvent -> Prop) :
  quiet m -> (forall a h', h `prefix_of` h' -> Q a h') -> triple m h Q.
Proof. intros Hm HQ. eapply triple_mono; [apply Hm|]. intros a h' Hp _. by apply HQ. Qed.

Lemma elem_of_snoc {A} (h : list A) x : x ∈ h ++ [x].
Proof. apply elem_of_app. right. by apply list_elem_of_singleton. Qed.

(** ** Leases *)

Lemma engine_account_spec k h :
  triple (engine_account k) h
    (fun r h' => forall a, r = Ok a -> ac_key a = k /\ LLease k (Some (Ok a)) ∈ h').
Proof.
  eapply triple_bind.
  - apply (triple_lawait _ _ _ _ (fun r h' => LLease k (Some (granted k r)) ∈ h')); [done|].
    intros r _. apply elem_of_snoc.
  - intros r h' _ Hr. cbn beta in Hr. apply triple_ret. intros a Ha. rewrite Ha in Hr.
    split; [|done]. destruct r as [[o n]|e]; by simplify_eq/=.
Qed.

Definition claimed (k : Pubkey) (ata_projection : bool) (a : AccountAccessor) (h : list LEvent) : Prop :=
  ac_key a = k /\ LLease k (Some (Ok a)) ∈ h
  /\ forall s, ac_observed a = Some (Magic, s) -> ata_projection = true.

Lemma claim_spec k b h :
  triple (claim_materialization k b) h (fun r h' => forall a, r = Ok (Some a) -> claimed k b a h').
Proof.
  eapply triple_bind; [apply engine_account_spec|]. intros [a|e] h1 _ Ha; [|by apply triple_ret].
  destruct (Ha a eq_refl) as [Hk Hl].
  assert ((forall s, ac_observed a <> Some (Magic, s)) -> claimed k b a h1) as Hother.
  { intros Hm. split_and!; [done..|]. intros s Hs. by destruct (Hm s). }
  destruct (ac_observed a) as [[[] s]|] eqn:Ho;
    try (apply triple_ret; intros a' [= <-]; apply Hother; by intros s').
  destruct b; cbn [negb]; [|by apply triple_ret].
  eapply triple_bind; [apply quiet_triple, quiet_loader_read, _|]. intros r h' Hp _. apply triple_ret.
  intros a' Ha'. destruct r as [[acc|]|]; try case_decide; simplify_eq.
  split_and!; [done|by eapply elem_of_prefix|done].
Qed.

(** ** The cloner *)

Lemma materialize_spec lease expected image actions h :
  clone_ok h (LMaterialize lease expected image actions None) ->
  triple (materialize lease expected image actions) h (fun _ _ => True).
Proof. intros Ho. by apply triple_lawait. Qed.

Lemma ata_materialize_spec n lease p actions h :
  sa_mode p = Delegated -> is_supported_token_program (sa_owner p) = true ->
  not_unresolved (ac_key lease) p -> actions_allowed h (ac_key lease) p actions ->
  on_chain h (ac_key lease) p ->
  triple (ata_materialize n lease p actions) h (fun _ _ => True).
Proof.
  intros Hm Ho Hu. revert lease h Hu.
  induction n as [|n IH]; intros lease h Hu Ha Hr; cbn [ata_materialize];
    (eapply triple_bind; [apply quiet_triple, quiet_loader_read, _|]); intros [o|code] h1 P1 _;
    try (by apply triple_ret); cbv zeta;
    (destruct (if is_mode Magic _ then _ else _) as [image|e] eqn:E; [|by apply triple_ret]);
    assert (taken_over (ac_key lease) p image) as Ht
      by (case_match; [by right; eexists|left; by simplify_eq]);
    destruct (taken_over_shape _ _ _ Ht) as (E1 & E2 & E3 & _);
    (eapply triple_bind; [apply materialize_spec; unfold clone_ok, respects_ownership; split_and!|]).
  all: try (intros s _; rewrite E1, E2, E3; split_and!; [done..|right; by eexists]).
  all: try (intros e [= <-] Hmagic; exists p; unfold is_mode in E; by rewrite bool_decide_true in E).
  all: try (intros m s _ _ [Hx|Hx]; congruence).
  all: try (unfold not_unresolved; by rewrite E1, E2).
  all: try (unfold actions_allowed; rewrite E1; by eapply actions_allowed_prefix).
  all: try (eapply on_chain_record, on_chain_prefix; [exact Ht|exact P1|exact Hr]).
  all: intros r h2 P2 _.
  - apply quiet_triple. quiet_proc.
  - destruct r as [u|e]; [by apply triple_ret|]. destruct e; try (by apply triple_ret).
    eapply triple_bind; [apply engine_account_spec|]. intros [lease'|e] h3 P3 Hl; [|by apply triple_ret].
    destruct (Hl lease' eq_refl) as [Hk _]. assert (h `prefix_of` h3) as P by (by etrans; [|etrans]).
    apply IH; rewrite ?Hk; [done|by eapply actions_allowed_prefix|by eapply on_chain_prefix].
Qed.

(** What the cloner expects of a request. *)
Definition request_ok (h : list LEvent) (r : AccountCloneRequest) : Prop :=
  not_unresolved (cr_pubkey r) (cr_account r)
  /\ (forall d, cr_mode r = ExecuteActions d ->
        sa_mode (cr_account r) = Delegated /\ signers_checked h (da_actions d))
  /\ on_chain h (cr_pubkey r) (cr_account r).

Lemma request_ok_prefix h h' r : h `prefix_of` h' -> request_ok h r -> request_ok h' r.
Proof.
  intros Hp (Hu & Ha & Hr). split_and!; [done| |by eapply on_chain_prefix].
  intros d Hd. destruct (Ha d Hd) as [? ?]. eauto using signers_checked_prefix.
Qed.

Lemma is_ata_supported k o d : is_Some (is_ata k o d) -> is_supported_token_program o = true.
Proof. unfold is_ata. intros [i Hi]. by destruct (is_supported_token_program o). Qed.

Lemma is_ata_projection_spec r : is_ata_projection r = true ->
  sa_mode (cr_account r) = Delegated /\ is_supported_token_program (sa_owner (cr_account r)) = true.
Proof.
  unfold is_ata_projection, is_mode. rewrite andb_true_iff, !bool_decide_eq_true.
  intros [? ?]. eauto using is_ata_supported.
Qed.

Lemma is_ata_projection_none r : sa_mode (cr_account r) = Delegated -> is_ata_projection r = false ->
  is_ata (cr_pubkey r) (sa_owner (cr_account r)) (sa_data (cr_account r)) = None.
Proof.
  unfold is_ata_projection, is_mode. intros -> Hp. cbn in Hp. apply bool_decide_eq_false in Hp.
  by apply eq_None_not_Some.
Qed.

Definition post_finalize (r : AccountCloneRequest) : option PostFinalize :=
  match cr_mode r with
  | NoPostDelegation => None
  | ExecuteActions d => Some (mkPostFinalize (da_source_program d) (da_actions d))
  | RescueUndelegate p => Some (mkPostFinalize p [undelegation_action engine_authority (cr_pubkey r)])
  end.

Lemma post_finalize_allowed h r : request_ok h r ->
  actions_allowed h (cr_pubkey r) (cr_account r) (post_finalize r).
Proof.
  intros (_ & Ha & _) pf. unfold post_finalize. destruct (cr_mode r) as [|d|p]; [done|..]; intros [= <-].
  - right. by apply Ha.
  - by left.
Qed.

Lemma clone_stale_spec lease r :
  match ac_observed lease with
  | Some ((Delegated | Undelegating), delegation_slot) =>
      is_any_mode [Missing; Mirrored] (cr_account r)
      && negb (bool_decide (delegation_slot < sa_slot (cr_account r))%Z)
  | _ => false
  end = false ->
  forall m s, ac_observed lease = Some (m, s) -> m = Delegated \/ m = Undelegating ->
  sa_mode (cr_account r) = Missing \/ sa_mode (cr_account r) = Mirrored ->
  (s < sa_slot (cr_account r))%Z.
Proof.
  intros Hs m s Ho Hm Hi. rewrite Ho in Hs.
  assert (is_any_mode [Missing; Mirrored] (cr_account r) = true) as Ha.
  { apply bool_decide_eq_true. rewrite !elem_of_cons. naive_solver. }
  destruct Hm; subst m; rewrite Ha in Hs; cbn in Hs;
    by apply negb_false_iff, bool_decide_eq_true in Hs.
Qed.

Lemma cloner_clone_account_spec lease r h :
  ac_key lease = cr_pubkey r ->
  (forall s, ac_observed lease = Some (Magic, s) -> is_ata_projection r = true) ->
  request_ok h r ->
  triple (cloner_clone_account lease r) h (fun _ _ => True).
Proof.
  intros Hk Hm Hok. unfold cloner_clone_account. cbv zeta. fold (post_finalize r).
  destruct (match ac_observed lease with Some _ => _ | None => false end) eqn:Hs; [by apply triple_ret|].
  pose proof (clone_stale_spec lease r Hs) as Hnew. clear Hs.
  pose proof (post_finalize_allowed h r Hok) as Hact. destruct Hok as (Hu & _ & Hr).
  eapply triple_bind.
  - destruct (is_ata_projection r && negb _) eqn:Ep.
    + apply andb_true_iff in Ep as [Ep _]. apply is_ata_projection_spec in Ep as [? ?].
      apply ata_materialize_spec; rewrite ?Hk; done.
    + eapply triple_bind; [apply materialize_spec|].
      * unfold clone_ok, respects_ownership. rewrite Hk. split_and!; try done.
        -- intros s Ho. specialize (Hm s Ho). rewrite Hm in Ep. cbn in Ep.
           apply is_ata_projection_spec in Hm as [E1 E2]. split_and!; [done..|left].
           rewrite <- E1. by destruct (lease_skips _ _ _).
        -- intros m s Ho Hc Hi. left. by eapply Hnew.
        -- eapply on_chain_record; [by left|done].
      * intros x h' _ _. by apply triple_ret.
  - intros [u|e] h' _ _; [by apply triple_ret|]. apply quiet_triple. quiet_proc.
Qed.

(** ** Programs and removals *)

Lemma resolve_program_image program r : resolve_program program = Some r ->
  sa_mode (cr_account r) = Mirrored /\ sa_executable (cr_account r) = true
  /\ sa_owner (cr_account r) ∈ [LOADER_V1; LOADER_V4].
Proof.
  unfold resolve_program. intros Hr. destruct (lp_loader_status program); simplify_eq/=;
    (split_and!; [done..|]); destruct (lp_loader program); set_solver.
Qed.

Lemma quiet_delete lease k : lease_evictable lease = true \/ lease_cached_evictable lease = true ->
  quiet (delete_claimed_account lease k).
Proof.
  intros Hl. apply quiet_bind; [by apply quiet_lawait|]. intros r. apply quiet_ret.
Qed.

Lemma claim_eviction_spec k h :
  triple (claim_account_eviction k) h (fun r _ => forall a, r = Ok (Some a) -> lease_evictable a = true).
Proof.
  eapply triple_bind; [apply quiet_triple, quiet_engine_account, _|]. intros r h' _ _. apply triple_ret.
  intros a Ha. destruct r as [lease|]; [|done]. destruct (lease_evictable lease) eqn:E; by simplify_eq.
Qed.

Lemma quiet_evict k : quiet (evict_account k).
Proof.
  intros h. eapply triple_try; [apply claim_eviction_spec|..]; [|done].
  intros [a|] h' _ Ha; [|by apply triple_ret]. apply quiet_delete. left. by apply Ha.
Qed.
#[local] Hint Resolve quiet_evict : quiet.

Lemma quiet_watch k : quiet (watch_programdata k).
Proof. unfold watch_programdata. quiet_proc. Qed.
#[local] Hint Resolve quiet_watch : quiet.

Lemma quiet_clone_program program : quiet (clone_program program).
Proof.
  unfold clone_program. cbv zeta. destruct (resolve_program program) as [r|] eqn:Er; [|apply quiet_ret].
  apply resolve_program_image in Er as (Em & Ee & Eo). apply quiet_bind; [quiet_proc|]. intros installed h.
  eapply triple_bind; [apply claim_spec|].
  intros [[a|]|e] h1 P1 Ha; [|by apply triple_ret..]. destruct (Ha a eq_refl) as (_ & _ & Hm).
  eapply triple_bind; [|intros r' h2 P2 _; apply quiet_triple; quiet_proc].
  assert (triple (cloner_clone_program a r) h1 (fun _ _ => True)) as Hc; [|exact Hc].
  eapply triple_bind; [apply materialize_spec|intros x h' _ _; by apply triple_ret].
  unfold clone_ok, respects_ownership, not_unresolved, actions_allowed, on_record. rewrite Em.
  split_and!; try done; [|naive_solver..].
  intros s Ho. by specialize (Hm s Ho).
Qed.
End cloner.

(** ** Signer checks *)

Lemma elem_of_dedup_strings x l : x ∈ dedup_strings l <-> x ∈ l.
Proof.
  induction l as [|a l IH]; [done|]. cbn [dedup_strings]. destruct l as [|b l]; [done|].
  case_decide as E; [subst b|]; set_solver.
Qed.

Lemma elem_of_signer_addresses `{LinkApi} actions ix m :
  ix ∈ actions -> m ∈ ix_accounts ix -> im_signer m = true ->
  show_key (im_pubkey m) ∈ signer_addresses actions.
Proof.
  intros Hix Hm Hs. unfold signer_addresses. apply elem_of_dedup_strings.
  unfold sort_strings. rewrite merge_sort_Permutation.
  apply list_elem_of_In, in_concat. eexists. split.
  - apply in_map_iff. exists ix. split; [reflexivity|by apply list_elem_of_In].
  - apply in_map_iff. exists m. split; [done|]. apply list_elem_of_In, list_elem_of_filter. done.
Qed.

Lemma slice_take n d : slice 0 n d = take n d.
Proof. unfold slice. by rewrite Nat.sub_0_r. Qed.

Section activation.
Context `{TokenEnv} `{LinkApi} `{LinkEnv}.
Abbreviation P A := (Proc LEvent Caches A).
Abbreviation triple := (triple clone_ok).
Abbreviation quiet := (quiet clone_ok).

Lemma assess_each_spec l h :
  triple (assess_each l) h (fun r h' => forall rs, r = Ok rs ->
    map fst rs = l /\ forall a b, (a, b) ∈ rs -> LRisk a (Some (Ok b)) ∈ h').
Proof.
  revert h. induction l as [|a l IH]; intros h; cbn [assess_each].
  { apply triple_ret. intros rs [= <-]. split; [done|]. by intros a b ?%elem_of_nil. }
  eapply triple_bind.
  { apply (triple_lawait _ _ _ _ (fun r h' => LRisk a (Some r) ∈ h')); [done|]. intros r _. apply elem_of_snoc. }
  intros [risky|code] h1 _ Hr; cbn beta in Hr; [|by apply triple_ret].
  eapply triple_try; [apply IH|..]; [|done]. intros rest h2 P2 Hrest. apply triple_ret.
  intros rs [= <-]. destruct (Hrest rest eq_refl) as [Hm Hin]. split; [cbn; by rewrite Hm|].
  intros x y [[= -> ->]|?]%elem_of_cons; [by eapply elem_of_prefix|by apply Hin].
Qed.

Lemma check_addresses_spec l h :
  triple (check_addresses l) h
    (fun r h' => r = Ok tt -> forall a, a ∈ l -> LRisk a (Some (Ok false)) ∈ h').
Proof.
  eapply triple_try; [apply assess_each_spec|..]; [|done]. intros rs h1 P1 Hrs. apply triple_ret.
  destruct (Hrs rs eq_refl) as [<- Hin]. intros Hnil a Ha.
  apply list_elem_of_fmap in Ha as ([a' b] & -> & Hab). cbn. destruct b; [|by apply Hin].
  destruct (map fst (filter _ rs)) eqn:E; [|done].
  assert (a' ∈ map fst (filter (fun p : string * bool => p.2 = true) rs)) as Hx.
  { apply list_elem_of_fmap. exists (a', true). split; [done|]. by apply list_elem_of_filter. }
  rewrite E in Hx. by apply elem_of_nil in Hx.
Qed.

Lemma validate_spec actions h :
  triple (validate_post_delegation_action_signers actions) h
    (fun r h' => r = Ok tt -> signers_checked h' actions).
Proof.
  unfold validate_post_delegation_action_signers, signers_checked.
  destruct risk_service as [st|] eqn:Es; [|by apply triple_ret].
  destruct (delegation_actions_require_risk_check st actions) eqn:Er; cbn [negb].
  2: { apply triple_ret. intros _ st' [= <-]. congruence. }
  destruct (is_nil (signer_addresses actions)) eqn:En.
  - apply triple_ret. intros _ st' [= <-] _ ix m Hix Hm Hs.
    pose proof (elem_of_signer_addresses actions ix m Hix Hm Hs) as Hin.
    destruct (signer_addresses actions); [by apply elem_of_nil in Hin|done].
  - eapply triple_bind; [apply check_addresses_spec|]. intros r h1 _ Hr. apply triple_ret.
    intros Hok st' [= <-] _ ix m Hix Hm Hs. apply Hr; [by destruct r as [[]|]|].
    by eapply elem_of_signer_addresses.
Qed.

(** ** The commit number *)

Lemma initial_commit_id_spec r h :
  triple (initial_commit_id r) h
    (fun o h' => sa_mode (cr_account r) = Delegated -> forall c, o = Ok c ->
      seeded h' (cr_pubkey r) (with_commit_seq c (cr_account r)) (with_commit_seq c (cr_account r))).
Proof.
  unfold initial_commit_id. destruct (if is_ata_projection r then _ else _) as [d|e] eqn:Ed;
    [|by apply triple_ret].
  eapply triple_bind.
  { apply (triple_lawait _ _ _ _ (fun a h' =>
      LSnapshot [record_pda d; metadata_pda d] (cs_view (source_slots r)) (Some a) ∈ h')); [done|].
    intros a _. apply elem_of_snoc. }
  intros a h1 _ Ha. cbn beta in Ha. apply triple_ret. intros Hmode c Hc. case_res.
  repeat match goal with Hx : decide _ = _ |- _ => clear Hx end.
  repeat match goal with Hx : ~ (_ \/ _) |- _ => apply not_or in Hx as [? ?] end.
  repeat match goal with Hx : ~ (_ <> _) |- _ => apply dec_stable in Hx end.
  repeat match goal with Hx : fresh_account ?a = Some _ |- _ => destruct a; simplify_eq/= end.
  match goal with Hx : get_slice _ _ _ = Some _ |- _ => unfold get_slice in Hx; case_decide; simplify_eq end.
  unfold seeded. eexists d, _, _, _, _, _, _. split_and!; try done; [by rewrite <- slice_take|].
  cbn. destruct (is_ata_projection r) eqn:Ep; [right|left].
  - apply is_ata_projection_spec in Ep as [_ ?]. by apply ok_or_Ok in Ed.
  - split; [by apply is_ata_projection_none|by simplify_eq].
Qed.

#[local] Hint Resolve quiet_clone_program : quiet.

(** ** One account *)

Section body.
Context (rec : AccountCloneRequest -> P (LinkResult unit)) (Hrec : forall r, quiet (rec r)).

Lemma quiet_materialize_accounts l : quiet (materialize_accounts rec l).
Proof. unfold materialize_accounts. quiet_proc. Qed.
#[local] Hint Resolve quiet_materialize_accounts : quiet.
Lemma quiet_clone_batch l p : quiet (clone_accounts_and_programs rec l p).
Proof. unfold clone_accounts_and_programs. quiet_proc. Qed.
#[local] Hint Resolve quiet_clone_batch : quiet.
Lemma quiet_clone_accounts ks c m s : quiet (clone_accounts rec ks c m s).
Proof. unfold clone_accounts. quiet_proc. Qed.
#[local] Hint Resolve quiet_clone_accounts : quiet.
Lemma quiet_fetch_and_clone ks m s : quiet (fetch_and_clone_accounts rec ks m s).
Proof. unfold fetch_and_clone_accounts. quiet_proc. Qed.
#[local] Hint Resolve quiet_fetch_and_clone : quiet.
Lemma quiet_forced_refresh ks m s f c :
  quiet (fetch_and_clone_accounts_with_dedup_forced_refresh rec ks m s f c).
Proof. unfold fetch_and_clone_accounts_with_dedup_forced_refresh. quiet_proc. Qed.
#[local] Hint Resolve quiet_forced_refresh : quiet.

Lemma ensure_dependencies_spec k s d h :
  triple (ensure_delegation_action_dependencies rec k s d) h
    (fun r h' => r = Ok tt -> signers_checked h' (da_actions d)).
Proof.
  eapply triple_try; [apply validate_spec|..]; [|done]. intros [] h1 P1 Hc. specialize (Hc eq_refl).
  apply quiet_spec; [quiet_proc|]. intros r h2 P2 _. by eapply signers_checked_prefix.
Qed.

Lemma prepare_spec r h :
  triple (prepare_activation rec r) h (fun o h' =>
    (o = Ok None -> forall d, cr_mode r <> ExecuteActions d)
    /\ forall p res, o = Ok (Some (p, res)) -> sa_mode (cr_account r) = Delegated
       /\ forall d, cr_mode r = ExecuteActions d -> res = Ok tt -> signers_checked h' (da_actions d)).
Proof.
  unfold prepare_activation. destruct (cr_mode r) as [|d|p] eqn:Em; cbn [delegation_of];
    try (apply triple_ret; split; [congruence|done]).
  destruct (is_mode Delegated (cr_account r)) eqn:Ed; cbn [negb]; [|by apply triple_ret].
  apply bool_decide_eq_true in Ed. eapply triple_bind; [apply ensure_dependencies_spec|].
  intros res h1 _ Hc. apply triple_ret. split; [done|]. intros p res' [= <- <-].
  split; [done|]. intros d' [= <-]. done.
Qed.

Lemma seed_spec lease r h : LLease (cr_pubkey r) (Some (Ok lease)) ∈ h ->
  triple (seed_commit_id lease r) h (fun o h' => forall r', o = Ok r' ->
    on_chain h' (cr_pubkey r) (cr_account r')
    /\ (r' = r \/ exists c, r' = with_image (with_commit_seq c (cr_account r)) r)).
Proof.
  intros Hl. unfold seed_commit_id, on_chain, skipped. cbv zeta. destruct (is_mode Delegated _) eqn:Ed; cbn [andb].
  2: { apply bool_decide_eq_false in Ed. apply triple_ret. intros r' [= <-]. split; [done|by left]. }
  destruct (lease_skips _ _ _) eqn:Es; cbn [negb].
  { apply triple_ret. intros r' [= <-]. split; [|by left]. intros _. left. by exists lease. }
  eapply triple_try; [apply initial_commit_id_spec|..]; [|done]. intros c h1 _ Hc. apply triple_ret.
  intros r' [= <-]. split; [|by right; eexists]. intros Hm. right. by apply Hc.
Qed.

Lemma normalize_unresolved_spec r r' :
  normalize_unresolved_dlp_clone_request validator_pubkey r = Ok r' ->
  not_unresolved (cr_pubkey r') (cr_account r').
Proof.
  unfold normalize_unresolved_dlp_clone_request, not_unresolved. cbv zeta. intros Hn Hm Ho.
  destruct (bool_decide (sa_owner (cr_account r) <> _)) eqn:E1; cbn [orb] in Hn.
  { simplify_eq. by apply bool_decide_eq_true in E1. }
  destruct (is_any_mode _ (cr_account r)) eqn:E2; cbn [negb] in Hn.
  2: { simplify_eq. apply bool_decide_eq_false in E2. set_solver. }
  case_decide; [by simplify_eq|]. destruct (has_actions _); simplify_eq/=. naive_solver.
Qed.

Lemma normalize_immutable_spec r : not_unresolved (cr_pubkey r) (cr_account r) ->
  not_unresolved (cr_pubkey (normalize_immutable_account r)) (cr_account (normalize_immutable_account r)).
Proof.
  unfold normalize_immutable_account. cbv zeta. intros Hr. destruct (negb _); [done|].
  case_decide; [done|]. unfold not_unresolved, immutable_account_mode. cbn. case_decide; naive_solver.
Qed.

Lemma normalize_request_spec r r' : normalize_request r = Ok r' ->
  not_unresolved (cr_pubkey r') (cr_account r').
Proof.
  unfold normalize_request. intros Hn.
  apply res_bind_Ok in Hn as (r1 & _ & Hn). apply res_bind_Ok in Hn as (r2 & H2' & [= <-]).
  by eapply normalize_immutable_spec, normalize_unresolved_spec.
Qed.

(** Changing the actions or the commit number keeps what the cloner relies on. *)
Lemma is_ata_projection_commit_seq c r :
  is_ata_projection (with_image (with_commit_seq c (cr_account r)) r) = is_ata_projection r.
Proof. done. Qed.

Lemma activate_spec lease r p ready h :
  ac_key lease = cr_pubkey r ->
  (forall s, ac_observed lease = Some (Magic, s) -> is_ata_projection r = true) ->
  not_unresolved (cr_pubkey r) (cr_account r) -> on_chain h (cr_pubkey r) (cr_account r) ->
  sa_mode (cr_account r) = Delegated ->
  (forall d, cr_mode r = ExecuteActions d -> ready = Ok tt -> signers_checked h (da_actions d)) ->
  triple (activate lease r p ready) h (fun _ _ => True).
Proof.
  intros Hk Hm Hu Hr Hd Hs. unfold activate, rescue_failed_activation, submit_account. cbv zeta.
  assert (forall h', h `prefix_of` h' ->
    request_ok h' (with_post_delegation (RescueUndelegate p) r)) as Hrescue.
  { intros h' Hp. split_and!; [done|done|by eapply on_chain_prefix]. }
  destruct ready as [[]|err].
  - eapply triple_bind; [apply cloner_clone_account_spec; [done..|]; split_and!; eauto|].
    intros [u|e] h1 P1 _; [by apply triple_ret|]. destruct (allows_rescue e); [|by apply triple_ret].
    eapply triple_bind; [apply claim_spec|].
    intros [[a|]|e'] h2 P2 Ha; [|by apply triple_ret..]. destruct (Ha a eq_refl) as (Hk' & _ & Hm').
    eapply triple_bind; [|intros; by apply triple_ret].
    apply cloner_clone_account_spec; [done..|]. apply Hrescue. by etrans.
  - eapply triple_bind; [|intros; by apply triple_ret].
    apply cloner_clone_account_spec; [done..|]. by apply Hrescue.
Qed.

Lemma quiet_clone_account_body r : quiet (clone_account_body rec r).
Proof.
  intros h. unfold clone_account_body. destruct (normalize_request r) as [r1|e] eqn:En;
    [|by apply triple_ret]. apply normalize_request_spec in En. clear r.
  eapply triple_try; [apply prepare_spec|..]; [|done]. intros act h1 P1 [Hnone Hact].
  eapply triple_bind; [apply claim_spec|].
  intros [[lease|]|e] h2 P2 Hl; [|by apply triple_ret..]. destruct (Hl lease eq_refl) as (Hk & Hle & Hm).
  eapply triple_try; [by apply seed_spec|..]; [|done].
  intros r2 h3 P3 Hseed. destruct (Hseed r2 eq_refl) as [Hrec2 Hr2].
  assert (cr_pubkey r2 = cr_pubkey r1 /\ cr_mode r2 = cr_mode r1 /\ is_ata_projection r2 = is_ata_projection r1
    /\ sa_mode (cr_account r2) = sa_mode (cr_account r1)
    /\ not_unresolved (cr_pubkey r2) (cr_account r2)) as (Ek & Em & Ea & Ed & Eu).
  { destruct Hr2 as [-> |[c ->]]; [done|]. split_and!; [done..|]. exact En. }
  rewrite <- Ek in Hrec2. destruct act as [[p ready]|].
  - destruct (Hact p ready eq_refl) as [Hd Hs]. apply activate_spec; [congruence| |done|done|congruence|].
    + intros s Ho. rewrite Ea. by eapply Hm.
    + intros d Hdd Hready. rewrite Em in Hdd. eapply signers_checked_prefix; [|by eapply Hs]. by etrans.
  - eapply triple_bind; [|intros; by apply triple_ret]. apply cloner_clone_account_spec; [congruence|..].
    + intros s Ho. rewrite Ea. by eapply Hm.
    + split_and!; [done| |done]. intros d Hd. rewrite Em in Hd. by destruct (Hnone eq_refl d).
Qed.
End body.

Lemma quiet_clone_account_fuel n r : quiet (clone_account_fuel n r).
Proof.
  revert r. induction n as [|n IH]; intros r; [by intros h w ? ?|]. by apply quiet_clone_account_body.
Qed.
Lemma quiet_clone_account r : quiet (clone_account r).
Proof. intros h w Hw Hv. by apply (quiet_clone_account_fuel (S (awaits w)) r h w). Qed.
End activation.
