(* ===== verification/LinkEntry.v ===== *)
(** * Chainlink: every entry point

    Chainlink is entered by requests for accounts, subscription updates, the
    periodic check of program watches, deferred program checks, and notifications of
    stale and evicted accounts. [run_entries] runs any sequence of these against an
    environment. The theorems hold for every image handed to the engine in every
    such run, however the engine and the base layer answer. *)

From stdpp Require Import base gmap sets list strings.
From Stdlib Require Import ZArith Lia.
From S2P Require Import Prelude Intent Runtime TokenPrograms Limits Process Link LinkResolve LinkClient.
From S2P Require Import FetchCloner LinkPipeline LinkClone LinkUpdate LinkSubs LinkProcess LinkLogic.
From S2P Require Import LinkQuiet LinkSafety.

Open Scope proc_scope.

Inductive Entry :=
| OnRequest (ks : list Pubkey)
| OnUpdate (u : ForwardedSubscriptionUpdate)
| OnSweep
| OnDeferredVerify (k : Pubkey) (account : SharedAccount)
| OnStale (k : Pubkey)
| OnEvicted (k : Pubkey).

(** An image as the base layer has it: not in a mode the validator gives out. *)
Definition unowned (a : SharedAccount) : Prop := sa_mode a = Missing \/ sa_mode a = Mirrored.
Definition remote_unowned (r : RemoteAccount) : Prop :=
  match r with Found a _ => unowned a | NotFound _ => True end.

(** What the code relies on: fetched images are not owned, and the leases on missing
    accounts found none. *)
Class LinkLaws `{LinkEnv} : Prop := {
  fetched_unowned h ks m f l : ask_fetch h ks m f = Answer (Ok l) -> Forall remote_unowned l;
  missing_absent h ks l :
    ask_missing h ks = Answer (Ok l) -> Forall (fun lease => ac_observed lease = None) l }.

Section entry.
Context `{TokenEnv} `{LinkApi} `{LinkEnv}.
Abbreviation P A := (Proc LEvent Caches A).

Definition run_entry (e : Entry) : P unit :=
  match e with
  | OnRequest ks => ensure_accounts ks ;; pret tt
  | OnUpdate u => process_subscription_update u
  | OnSweep => sweep_programdata_watches
  | OnDeferredVerify k a => deferred_verify k a
  | OnStale k => remove_stale_account k
  | OnEvicted k => remove_evicted_account k
  end.

Fixpoint run_entries (es : list Entry) : P unit :=
  match es with
  | [] => pret tt
  | e :: es => run_entry e ;; run_entries es
  end.

(** The histories of the runs with the caches [c] and at most [n] calls. *)
Definition reaches (es : list Entry) (c : Caches) (n : nat) (h : list LEvent) : Prop :=
  match run_entries es (mkWorld c [] n) with
  | Done _ w | Interrupted _ w => history w = h
  | OutOfFuel => False
  end.
End entry.

Section quiet_entry.
Context `{TokenEnv} `{LinkApi} `{LinkEnv}.
Abbreviation P A := (Proc LEvent Caches A).
Abbreviation quiet := (quiet clone_ok).
Abbreviation triple := (triple clone_ok).

#[local] Hint Resolve quiet_clone_account quiet_clone_program quiet_watch quiet_evict : quiet.
Lemma quiet_clone_accounts' ks c m s : quiet (clone_accounts clone_account ks c m s).
Proof. apply quiet_clone_accounts. intros r. apply quiet_clone_account. Qed.
Lemma quiet_fetch_and_clone' ks m s : quiet (fetch_and_clone_accounts clone_account ks m s).
Proof. apply quiet_fetch_and_clone. intros r. apply quiet_clone_account. Qed.
Lemma quiet_forced_refresh' ks m s f c :
  quiet (fetch_and_clone_accounts_with_dedup_forced_refresh clone_account ks m s f c).
Proof. apply quiet_forced_refresh. intros r. apply quiet_clone_account. Qed.
#[local] Hint Resolve quiet_clone_accounts' quiet_fetch_and_clone' quiet_forced_refresh' : quiet.

(** ** Programs *)

Lemma quiet_verify_get_mut k f : quiet (verify_get_mut k f).
Proof. apply quiet_update. Qed.
#[local] Hint Resolve quiet_verify_get_mut : quiet.
Lemma quiet_schedule_verify k a : quiet (schedule_deferred_verify k a).
Proof. unfold schedule_deferred_verify. quiet_proc. Qed.
#[local] Hint Resolve quiet_schedule_verify : quiet.
Lemma quiet_resolve_update k a d : quiet (resolve_update_for_loaded_program k a d).
Proof. unfold resolve_update_for_loaded_program. quiet_proc. Qed.
Lemma quiet_release_if b d : quiet (release_if b d).
Proof. unfold release_if. quiet_proc. Qed.
#[local] Hint Resolve quiet_resolve_update quiet_release_if : quiet.
Lemma quiet_handle_executable k a : quiet (handle_executable_sub_update k a).
Proof. unfold handle_executable_sub_update, task_to_fetch_with_program_data. quiet_proc. Qed.
#[local] Hint Resolve quiet_handle_executable : quiet.
Lemma quiet_deferred_verify k a : quiet (deferred_verify k a).
Proof. unfold deferred_verify. quiet_proc. Qed.
Lemma quiet_sweep_each l n : quiet (sweep_each l n).
Proof. revert n. induction l as [|[d k] l IH]; intros n; cbn [sweep_each]; quiet_proc. Qed.
#[local] Hint Resolve quiet_deferred_verify quiet_sweep_each : quiet.
Lemma quiet_sweep : quiet sweep_programdata_watches.
Proof. unfold sweep_programdata_watches. quiet_proc. Qed.

(** ** Subscription updates *)

Lemma quiet_local_layout l m : quiet (local_layout l m).
Proof. revert m. induction l as [|k l IH]; intros m; cbn [local_layout]; quiet_proc. Qed.
#[local] Hint Resolve quiet_local_layout : quiet.
Lemma quiet_resolve_layout l s : quiet (resolve_ata_layout l s).
Proof. unfold resolve_ata_layout. quiet_proc. Qed.
Lemma quiet_any_present l : quiet (any_present l).
Proof. induction l as [|k l IH]; cbn [any_present]; quiet_proc. Qed.
#[local] Hint Resolve quiet_resolve_layout quiet_any_present : quiet.
Lemma quiet_projected_from_eata k a r d : quiet (projected_ata_request_from_eata k a r d).
Proof. unfold projected_ata_request_from_eata. quiet_proc. Qed.
Lemma quiet_raw_eata_interest k l : quiet (raw_eata_has_local_projection_interest k l).
Proof. unfold raw_eata_has_local_projection_interest. quiet_proc. Qed.
Lemma quiet_base_ata_interest k d : quiet (base_ata_has_projection_interest k d).
Proof. unfold base_ata_has_projection_interest. quiet_proc. Qed.
#[local] Hint Resolve quiet_projected_from_eata quiet_raw_eata_interest quiet_base_ata_interest : quiet.
Lemma quiet_projected_from_update k a s r d : quiet (projected_ata_request_from_update k a s r d).
Proof. unfold projected_ata_request_from_update. quiet_proc. Qed.
Lemma quiet_known_empty k : quiet (is_known_empty_eata k).
Proof. apply quiet_update. Qed.
Lemma quiet_mark_empty k : quiet (mark_eata_empty k).
Proof. apply quiet_modify. Qed.
#[local] Hint Resolve quiet_projected_from_update quiet_known_empty quiet_mark_empty : quiet.
Lemma quiet_maybe_project k a : quiet (maybe_project_ata_from_subscription_update k a).
Proof. unfold maybe_project_ata_from_subscription_update. quiet_proc. Qed.
#[local] Hint Resolve quiet_maybe_project : quiet.
Lemma quiet_resolve_snapshot s : quiet (resolve_subscription_snapshot s).
Proof. unfold resolve_subscription_snapshot. quiet_proc. Qed.
#[local] Hint Resolve quiet_resolve_snapshot : quiet.
Lemma quiet_resolve_subscription u : quiet (resolve_subscription_account u).
Proof. unfold resolve_subscription_account. quiet_proc. Qed.
Lemma quiet_classify_interest k a : quiet (classify_dlp_program_update_interest k a).
Proof. unfold classify_dlp_program_update_interest. quiet_proc. Qed.
Lemma quiet_clone_projected r : quiet (clone_projected_ata_request r).
Proof. unfold clone_projected_ata_request. quiet_proc. Qed.
#[local] Hint Resolve quiet_resolve_subscription quiet_classify_interest quiet_clone_projected : quiet.
Lemma quiet_release_attempts n c r : quiet (release_attempts n c r).
Proof. induction n as [|n IH]; cbn [release_attempts]; quiet_proc. Qed.
Lemma quiet_with_tracker {A} (f : DlpCollisionTracker -> DlpCollisionTracker * A) : quiet (with_tracker f).
Proof. apply quiet_update. Qed.
#[local] Hint Resolve quiet_release_attempts quiet_with_tracker : quiet.
Lemma quiet_clone_released c : quiet (clone_released_collision_candidate c).
Proof. unfold clone_released_collision_candidate. quiet_proc. Qed.
Lemma quiet_absent_accounts l : quiet (absent_accounts l).
Proof. induction l as [|k l IH]; cbn [absent_accounts]; quiet_proc. Qed.
Lemma quiet_discovered k a s r d : quiet (discovered k a s r d).
Proof. unfold discovered. quiet_proc. Qed.
#[local] Hint Resolve quiet_clone_released quiet_absent_accounts quiet_discovered : quiet.
Lemma quiet_greedy k u : quiet (maybe_greedily_clone_discovered_delegated_account k u).
Proof. unfold maybe_greedily_clone_discovered_delegated_account. quiet_proc. Qed.
#[local] Hint Resolve quiet_greedy : quiet.
Lemma quiet_cleanup_completed k d b : quiet (cleanup_completed_subscription_update k d b).
Proof. unfold cleanup_completed_subscription_update. quiet_proc. Qed.
Lemma quiet_clone_projection o : quiet (clone_projection o).
Proof. unfold clone_projection. quiet_proc. Qed.
#[local] Hint Resolve quiet_cleanup_completed quiet_clone_projection : quiet.
Lemma quiet_clone_update k a r d s b p : quiet (clone_update k a r d s b p).
Proof. unfold clone_update. quiet_proc. Qed.
#[local] Hint Resolve quiet_clone_update : quiet.
Lemma quiet_process_resolved k s u r : quiet (process_resolved k s u r).
Proof. unfold process_resolved. quiet_proc. Qed.
Lemma quiet_pass_collision u a : quiet (pass_collision u a).
Proof. unfold pass_collision. quiet_proc. Qed.
#[local] Hint Resolve quiet_process_resolved quiet_pass_collision : quiet.
Lemma quiet_process_watched u : quiet (process_watched u).
Proof. unfold process_watched. quiet_proc. Qed.
#[local] Hint Resolve quiet_process_watched : quiet.
Lemma quiet_process_update u : quiet (process_subscription_update u).
Proof. unfold process_subscription_update. quiet_proc. Qed.
End quiet_entry.
