(* ===== verification/LinkTotal.v ===== *)
(** * Chainlink: runs end

    Every level of recursion of [clone_account] makes a call, so the calls left are
    enough fuel: no run of an entry point runs out of it. *)

From stdpp Require Import base gmap sets list strings.
From Stdlib Require Import ZArith Lia.
From S2P Require Import Prelude Process TokenPrograms Link LinkResolve LinkClient FetchCloner LinkPipeline.
From S2P Require Import LinkClone LinkUpdate LinkSubs LinkProcess LinkLogic LinkQuiet LinkEntry.

(** ** Processes that make a call *)

Section strict.
Context {Ev St : Type}.

Definition strict {A} (m : Proc Ev St A) : Prop := forall w,
  match m w with Done _ w' => awaits w' < awaits w | _ => True end.

Lemma strict_bind_l {A B} (m : Proc Ev St A) (k : A -> Proc Ev St B) :
  strict m -> (forall a, spends (k a)) -> strict (pbind m k).
Proof.
  intros Hm Hk w. unfold pbind. specialize (Hm w). destruct (m w) as [a w1| |]; [|done..].
  specialize (Hk a w1). destruct (k a w1); [lia|done..].
Qed.
Lemma strict_bind_r {A B} (m : Proc Ev St A) (k : A -> Proc Ev St B) :
  spends m -> (forall a, strict (k a)) -> strict (pbind m k).
Proof.
  intros Hm Hk w. unfold pbind. specialize (Hm w). destruct (m w) as [a w1| |]; [|done..].
  specialize (Hk a w1). destruct (k a w1); [lia|done..].
Qed.
Lemma strict_await {A} (ask : list Ev -> answer A) (log : option A -> Ev) :
  strict (await ask log : Proc Ev St A).
Proof. intros w. unfold await. destruct (awaits w) eqn:E; [done|]. destruct (ask _); cbn; [lia|done]. Qed.
Lemma total_strict_try {A B E} n (m : Proc Ev St (result A E)) (k : A -> Proc Ev St (result B E)) :
  total_below (S n) m -> strict m -> (forall a, total_below n (k a)) -> total_below (S n) (ptry m k).
Proof.
  intros [Hs Ht] Hst Hk. split.
  - apply spends_bind; [done|]. intros [a|e]; [apply Hk|apply spends_ret].
  - intros w Hw. unfold ptry, pbind. specialize (Ht w Hw). specialize (Hst w).
    destruct (m w) as [[a|e] w1| |]; [|done..]. apply Hk. lia.
Qed.
End strict.

Section total.
Context `{TokenEnv} `{LinkApi} `{LinkEnv}.
Abbreviation P A := (Proc LEvent Caches A).

Lemma strict_lawait {A} (ask : list LEvent -> answer A) (log : option A -> LEvent) :
  strict (lawait ask log).
Proof. apply strict_bind_l; [apply strict_await|]. intros a. apply (total_bind 0); [apply total_yield|]. intros. apply total_ret. Qed.

Lemma total_release_evict n k : total_below n (evict_account k).
Proof. unfold evict_account, claim_account_eviction, delete_claimed_account, delete_lease. total_proc. Qed.
#[local] Hint Resolve total_release_evict : total.
Lemma total_watch n k : total_below n (watch_programdata k).
Proof. unfold watch_programdata. total_proc. Qed.
#[local] Hint Resolve total_watch : total.
Lemma total_materialize n l e i a : total_below n (materialize l e i a).
Proof. apply total_lawait. Qed.
#[local] Hint Resolve total_materialize : total.
Lemma total_ata_materialize n r l p a : total_below n (ata_materialize r l p a).
Proof. revert l. induction r as [|r IH]; intros l; cbn [ata_materialize]; total_proc. Qed.
#[local] Hint Resolve total_ata_materialize : total.
Lemma total_cloner_clone_account n l r : total_below n (cloner_clone_account l r).
Proof. unfold cloner_clone_account. total_proc. Qed.
#[local] Hint Resolve total_cloner_clone_account : total.
Lemma total_clone_program n p : total_below n (clone_program p).
Proof. unfold clone_program, cloner_clone_program. total_proc. Qed.
Lemma total_initial_commit_id n r : total_below n (initial_commit_id r).
Proof. unfold initial_commit_id. total_proc. Qed.
Lemma total_validate n a : total_below n (validate_post_delegation_action_signers a).
Proof. unfold validate_post_delegation_action_signers. total_proc. Qed.
#[local] Hint Resolve total_clone_program total_initial_commit_id total_validate : total.

Section body.
Context (rec : AccountCloneRequest -> P (LinkResult unit)) (n : nat).
Context (Hrec : forall r, total_below n (rec r)).

Lemma total_materialize_accounts l : total_below n (materialize_accounts rec l).
Proof. unfold materialize_accounts. total_proc. Qed.
#[local] Hint Resolve total_materialize_accounts : total.
Lemma total_clone_batch l p : total_below n (clone_accounts_and_programs rec l p).
Proof. unfold clone_accounts_and_programs. total_proc. Qed.
#[local] Hint Resolve total_clone_batch : total.
Lemma total_clone_accounts ks c m s : total_below n (clone_accounts rec ks c m s).
Proof. unfold clone_accounts. total_proc. Qed.

Lemma strict_fetch_accounts ks m s : strict (fetch_accounts ks m s).
Proof.
  apply strict_bind_r; [apply (total_add_fetch_count 0)|]. intros _.
  apply strict_bind_r; [apply (total_raise_floor 0)|]. intros f.
  apply strict_bind_l; [apply strict_lawait|]. intros r. apply spends_ret.
Qed.
Lemma total_fetch_and_clone ks m s : total_below (S n) (fetch_and_clone_accounts rec ks m s).
Proof.
  apply total_strict_try; [apply total_fetch_accounts|apply strict_fetch_accounts|].
  intros accs. apply total_clone_accounts.
Qed.
#[local] Hint Resolve total_fetch_and_clone : total.
Lemma total_forced_refresh ks m s f c :
  total_below (S n) (fetch_and_clone_accounts_with_dedup_forced_refresh rec ks m s f c).
Proof. unfold fetch_and_clone_accounts_with_dedup_forced_refresh. total_proc. Qed.
#[local] Hint Resolve total_forced_refresh : total.
Lemma total_ensure_dependencies k s d :
  total_below (S n) (ensure_delegation_action_dependencies rec k s d).
Proof. unfold ensure_delegation_action_dependencies. total_proc. Qed.
#[local] Hint Resolve total_ensure_dependencies : total.
Lemma total_clone_account_body r : total_below (S n) (clone_account_body rec r).
Proof.
  unfold clone_account_body, prepare_activation, seed_commit_id, activate, rescue_failed_activation,
    submit_account. total_proc.
Qed.
End body.

Lemma total_clone_account_fuel n r : total_below n (clone_account_fuel n r).
Proof.
  revert r. induction n as [|n IH]; intros r; [split; intros w; [done|lia]|].
  by apply total_clone_account_body.
Qed.
Lemma total_clone_account n r : total_below n (clone_account r).
Proof.
  split; intros w; destruct (total_clone_account_fuel (S (awaits w)) r) as [Hs Ht].
  - apply Hs.
  - intros _. apply Ht. lia.
Qed.
#[local] Hint Resolve total_clone_account : total.
Lemma total_clone_accounts' n ks c m s : total_below n (clone_accounts clone_account ks c m s).
Proof. apply total_clone_accounts. intros. apply total_clone_account. Qed.
Lemma total_fetch_and_clone' n ks m s : total_below n (fetch_and_clone_accounts clone_account ks m s).
Proof. apply (total_weaken n (S n)); [lia|]. apply total_fetch_and_clone. intros. apply total_clone_account. Qed.
Lemma total_forced_refresh' n ks m s f c :
  total_below n (fetch_and_clone_accounts_with_dedup_forced_refresh clone_account ks m s f c).
Proof. apply (total_weaken n (S n)); [lia|]. apply total_forced_refresh. intros. apply total_clone_account. Qed.
#[local] Hint Resolve total_clone_accounts' total_fetch_and_clone' total_forced_refresh' : total.

(** ** Programs *)

Lemma total_verify_get_mut n0 k f : total_below n0 (verify_get_mut k f).
Proof. apply total_update. Qed.
#[local] Hint Resolve total_verify_get_mut : total.
Lemma total_schedule_verify n0 k a : total_below n0 (schedule_deferred_verify k a).
Proof. unfold schedule_deferred_verify. total_proc. Qed.
#[local] Hint Resolve total_schedule_verify : total.
Lemma total_resolve_update n0 k a d : total_below n0 (resolve_update_for_loaded_program k a d).
Proof. unfold resolve_update_for_loaded_program. total_proc. Qed.
Lemma total_release_if n0 b d : total_below n0 (release_if b d).
Proof. unfold release_if. total_proc. Qed.
#[local] Hint Resolve total_resolve_update total_release_if : total.
Lemma total_handle_executable n0 k a : total_below n0 (handle_executable_sub_update k a).
Proof. unfold handle_executable_sub_update, task_to_fetch_with_program_data. total_proc. Qed.
#[local] Hint Resolve total_handle_executable : total.
Lemma total_deferred_verify n0 k a : total_below n0 (deferred_verify k a).
Proof. unfold deferred_verify. total_proc. Qed.
Lemma total_sweep_each n0 l n : total_below n0 (sweep_each l n).
Proof. revert n. induction l as [|[d k] l IH]; intros n; cbn [sweep_each]; total_proc. Qed.
#[local] Hint Resolve total_deferred_verify total_sweep_each : total.
Lemma total_sweep n0 : total_below n0 sweep_programdata_watches.
Proof. unfold sweep_programdata_watches. total_proc. Qed.

(** ** Subscription updates *)

Lemma total_local_layout n0 l m : total_below n0 (local_layout l m).
Proof. revert m. induction l as [|k l IH]; intros m; cbn [local_layout]; total_proc. Qed.
#[local] Hint Resolve total_local_layout : total.
Lemma total_resolve_layout n0 l s : total_below n0 (resolve_ata_layout l s).
Proof. unfold resolve_ata_layout. total_proc. Qed.
Lemma total_any_present n0 l : total_below n0 (any_present l).
Proof. induction l as [|k l IH]; cbn [any_present]; total_proc. Qed.
#[local] Hint Resolve total_resolve_layout total_any_present : total.
Lemma total_projected_from_eata n0 k a r d : total_below n0 (projected_ata_request_from_eata k a r d).
Proof. unfold projected_ata_request_from_eata. total_proc. Qed.
Lemma total_raw_eata_interest n0 k l : total_below n0 (raw_eata_has_local_projection_interest k l).
Proof. unfold raw_eata_has_local_projection_interest. total_proc. Qed.
Lemma total_base_ata_interest n0 k d : total_below n0 (base_ata_has_projection_interest k d).
Proof. unfold base_ata_has_projection_interest. total_proc. Qed.
#[local] Hint Resolve total_projected_from_eata total_raw_eata_interest total_base_ata_interest : total.
Lemma total_projected_from_update n0 k a s r d : total_below n0 (projected_ata_request_from_update k a s r d).
Proof. unfold projected_ata_request_from_update. total_proc. Qed.
Lemma total_known_empty n0 k : total_below n0 (is_known_empty_eata k).
Proof. apply total_update. Qed.
Lemma total_mark_empty n0 k : total_below n0 (mark_eata_empty k).
Proof. apply total_modify. Qed.
#[local] Hint Resolve total_projected_from_update total_known_empty total_mark_empty : total.
Lemma total_maybe_project n0 k a : total_below n0 (maybe_project_ata_from_subscription_update k a).
Proof. unfold maybe_project_ata_from_subscription_update. total_proc. Qed.
#[local] Hint Resolve total_maybe_project : total.
Lemma total_resolve_snapshot n0 s : total_below n0 (resolve_subscription_snapshot s).
Proof. unfold resolve_subscription_snapshot. total_proc. Qed.
#[local] Hint Resolve total_resolve_snapshot : total.
Lemma total_resolve_subscription n0 u : total_below n0 (resolve_subscription_account u).
Proof. unfold resolve_subscription_account. total_proc. Qed.
Lemma total_classify_interest n0 k a : total_below n0 (classify_dlp_program_update_interest k a).
Proof. unfold classify_dlp_program_update_interest. total_proc. Qed.
Lemma total_clone_projected n0 r : total_below n0 (clone_projected_ata_request r).
Proof. unfold clone_projected_ata_request. total_proc. Qed.
#[local] Hint Resolve total_resolve_subscription total_classify_interest total_clone_projected : total.
Lemma total_release_attempts n0 n c r : total_below n0 (release_attempts n c r).
Proof. induction n as [|n IH]; cbn [release_attempts]; total_proc. Qed.
Lemma total_with_tracker n0 {A} (f : DlpCollisionTracker -> DlpCollisionTracker * A) : total_below n0 (with_tracker f).
Proof. apply total_update. Qed.
#[local] Hint Resolve total_release_attempts total_with_tracker : total.
Lemma total_clone_released n0 c : total_below n0 (clone_released_collision_candidate c).
Proof. unfold clone_released_collision_candidate. total_proc. Qed.
Lemma total_absent_accounts n0 l : total_below n0 (absent_accounts l).
Proof. induction l as [|k l IH]; cbn [absent_accounts]; total_proc. Qed.
Lemma total_discovered n0 k a s r d : total_below n0 (discovered k a s r d).
Proof. unfold discovered. total_proc. Qed.
#[local] Hint Resolve total_clone_released total_absent_accounts total_discovered : total.
Lemma total_greedy n0 k u : total_below n0 (maybe_greedily_clone_discovered_delegated_account k u).
Proof. unfold maybe_greedily_clone_discovered_delegated_account. total_proc. Qed.
#[local] Hint Resolve total_greedy : total.
Lemma total_cleanup_completed n0 k d b : total_below n0 (cleanup_completed_subscription_update k d b).
Proof. unfold cleanup_completed_subscription_update. total_proc. Qed.
Lemma total_clone_projection n0 o : total_below n0 (clone_projection o).
Proof. unfold clone_projection. total_proc. Qed.
#[local] Hint Resolve total_cleanup_completed total_clone_projection : total.
Lemma total_clone_update n0 k a r d s b p : total_below n0 (clone_update k a r d s b p).
Proof. unfold clone_update. total_proc. Qed.
#[local] Hint Resolve total_clone_update : total.
Lemma total_process_resolved n0 k s u r : total_below n0 (process_resolved k s u r).
Proof. unfold process_resolved. total_proc. Qed.
Lemma total_pass_collision n0 u a : total_below n0 (pass_collision u a).
Proof. unfold pass_collision. total_proc. Qed.
#[local] Hint Resolve total_process_resolved total_pass_collision : total.
Lemma total_process_watched n0 u : total_below n0 (process_watched u).
Proof. unfold process_watched. total_proc. Qed.
#[local] Hint Resolve total_process_watched : total.
Lemma total_process_update n0 u : total_below n0 (process_subscription_update u).
Proof. unfold process_subscription_update. total_proc. Qed.

(** ** Requests and removals *)

Lemma total_submit_plain n l : total_below n (submit_plain l).
Proof. induction l as [|[a r] l IH]; cbn [submit_plain]; unfold submit_account; total_proc. Qed.
Lemma total_transient n ks : total_below n (transient_accounts ks).
Proof. induction ks as [|k ks IH]; cbn [transient_accounts]; total_proc. Qed.
#[local] Hint Resolve total_submit_plain total_transient : total.
Lemma total_requested n l : total_below n (fetch_and_clone_requested_accounts l).
Proof. unfold fetch_and_clone_requested_accounts. total_proc. Qed.
Lemma total_refresh_transient n ks : total_below n (refresh_transient_requested_accounts ks).
Proof. unfold refresh_transient_requested_accounts. total_proc. Qed.
#[local] Hint Resolve total_requested total_refresh_transient : total.
Lemma total_ensure_accounts n ks : total_below n (ensure_accounts ks).
Proof. unfold ensure_accounts. total_proc. Qed.
Lemma total_remove_stale n k : total_below n (remove_stale_account k).
Proof. unfold remove_stale_account, claim_account_eviction, delete_claimed_account, delete_lease. total_proc. Qed.
Lemma total_remove_evicted n k : total_below n (remove_evicted_account k).
Proof. unfold remove_evicted_account, claim_cached_account_eviction, delete_claimed_account, delete_lease. total_proc. Qed.
#[local] Hint Resolve total_ensure_accounts total_remove_stale total_remove_evicted total_sweep
  total_process_update total_deferred_verify : total.

Lemma total_run_entries n es : total_below n (run_entries es).
Proof.
  induction es as [|e es IH]; cbn [run_entries]; [apply total_ret|].
  apply total_bind; [|done]. destruct e; cbn [run_entry]; total_proc.
Qed.

(** Every sequence of entry points has a history, for any number of calls. *)
Lemma entries_run es c n : exists h, reaches es c n h.
Proof.
  unfold reaches. destruct (total_run_entries (S n) es) as [_ Ht].
  specialize (Ht (mkWorld c [] n)). destruct (run_entries es _); [by eexists..|].
  destruct Ht; [cbn; lia|done].
Qed.
End total.
