(* ===== verification/LinkClaims.v ===== *)
(** * Chainlink: claims

    What holds of every image handed to the engine, in every run of every sequence of
    entry points. *)

From stdpp Require Import base gmap sets list strings.
From Stdlib Require Import ZArith Lia.
From S2P Require Import Prelude Intent Runtime TokenPrograms Limits Process Link LinkResolve LinkClient.
From S2P Require Import FetchCloner LinkPipeline LinkClone LinkUpdate LinkSubs LinkProcess LinkLogic.
From S2P Require Import LinkQuiet LinkSafety LinkEntry.

Section claims.
Context `{TokenEnv} `{LinkApi} `{LinkLaws}.
Abbreviation P A := (Proc LEvent Caches A).
Abbreviation quiet := (quiet clone_ok).
Abbreviation triple := (triple clone_ok).

(** ** Requests *)

(** A plain request of an absent account. *)
Definition plain_ok (p : AccountAccessor * AccountCloneRequest) : Prop :=
  ac_observed p.1 = None /\ ac_key p.1 = cr_pubkey p.2 /\ cr_mode p.2 = NoPostDelegation
  /\ unowned (cr_account p.2).

Lemma classify_plain c acc k c' r : classify c acc k = (c', Some r) ->
  exists a s, acc = Found a s /\ r = mkAccountCloneRequest k a NoPostDelegation None None.
Proof. unfold classify. intros Hc. repeat (case_match; simplify_eq). eauto. Qed.

Lemma classify_requested_plain c leases images c' plain complex :
  Forall (fun l => ac_observed l = None) leases -> Forall remote_unowned images ->
  classify_requested c leases images = (c', plain, complex) -> Forall plain_ok plain.
Proof.
  revert c images c' plain complex. induction leases as [|l leases IH];
    intros c images c' plain complex Hl Hi Hc; cbn in Hc; [by simplify_eq|].
  apply Forall_cons in Hl as [Hl1 Hl].
  assert (Forall remote_unowned (tail images)) as Ht by (destruct Hi; [constructor|done]).
  destruct (match head images with Some _ => _ | None => _ end) as [c1 o] eqn:E1.
  destruct (classify_requested c1 leases (tail images)) as [[c2 p2] x2] eqn:E2.
  specialize (IH _ _ _ _ _ Hl Ht E2). destruct o as [r|]; simplify_eq; [|done].
  constructor; [|done]. destruct images as [|i images]; [done|]. cbn in E1.
  apply classify_plain in E1 as (a & s & -> & ->). apply Forall_cons in Hi as [Hi _]. done.
Qed.

Lemma normalize_immutable_plain r : unowned (cr_account r) ->
  unowned (cr_account (normalize_immutable_account r))
  /\ cr_mode (normalize_immutable_account r) = cr_mode r
  /\ cr_pubkey (normalize_immutable_account r) = cr_pubkey r.
Proof.
  unfold normalize_immutable_account, unowned, immutable_account_mode. cbv zeta. intros Hu.
  destruct (negb _); [done|]. destruct (decide (_ = sa_mode _)); [done|]. cbn.
  split_and!; [|done..]. case_decide; [by left|by right].
Qed.

Lemma quiet_submit_plain plain : Forall plain_ok plain -> quiet (submit_plain plain).
Proof.
  induction plain as [|[l r] plain IH]; intros Hp; cbn [submit_plain]; [apply quiet_ret|].
  apply Forall_cons in Hp as [(Ho & Hk & Hm & Hu) Hp]. cbn in *. specialize (IH Hp).
  apply quiet_bind; [|intros; quiet_proc].
  apply normalize_immutable_plain in Hu as (Hu & Em & Ek). intros h.
  apply cloner_clone_account_spec; [congruence|congruence|].
  unfold request_ok, not_unresolved, on_chain. rewrite Em, Hm. unfold unowned in Hu.
  split_and!; [|done|].
  - intros [Hx|Hx] _; exfalso; destruct Hu; congruence.
  - intros Hx. exfalso. destruct Hu; congruence.
Qed.

Lemma fetch_accounts_spec ks m s h :
  triple (fetch_accounts ks m s) h (fun r _ => forall l, r = Ok l -> Forall remote_unowned l).
Proof.
  eapply triple_bind; [apply quiet_triple, quiet_add_fetch_count|]. intros _ h1 _ _.
  eapply triple_bind; [apply quiet_triple, quiet_raise_floor, _|]. intros f h2 _ _.
  eapply triple_bind.
  - apply (triple_lawait _ _ _ _ (fun r _ => forall l, r = Ok l -> Forall remote_unowned l)); [done|].
    intros r Ha l ->. by eapply fetched_unowned.
  - intros r h3 _ Hr. apply triple_ret. intros l Hl. apply Hr. by destruct r; simplify_eq/=.
Qed.

Lemma quiet_requested leases : Forall (fun l => ac_observed l = None) leases ->
  quiet (fetch_and_clone_requested_accounts leases).
Proof.
  intros Hl h. eapply triple_try; [apply fetch_accounts_spec|..]; [|done]. intros accs h1 _ Ha.
  specialize (Ha accs eq_refl).
  destruct (classify_requested classified_default leases accs) as [[c plain] complex] eqn:E.
  apply quiet_triple. apply quiet_bind.
  { apply quiet_submit_plain. by eapply classify_requested_plain. }
  intros e. apply quiet_bind; [|intros; quiet_proc].
  pose proof quiet_clone_accounts'. quiet_proc.
Qed.

Lemma quiet_ensure_accounts ks : quiet (ensure_accounts ks).
Proof.
  assert (forall ks, quiet (transient_accounts ks)) as Ht.
  { intros l. induction l as [|k l IH]; cbn [transient_accounts]; quiet_proc. }
  assert (forall ks, quiet (refresh_transient_requested_accounts ks)) as Hr.
  { intros l. pose proof quiet_forced_refresh'. unfold refresh_transient_requested_accounts. quiet_proc. }
  unfold ensure_accounts. apply quiet_bind; [apply quiet_ltimeout|intros; quiet_proc].
  apply quiet_try; [done|]. intros transients h. eapply triple_bind.
  - apply (triple_lawait _ _ _ _ (fun r _ => forall l, r = Ok l -> Forall (fun a => ac_observed a = None) l));
      [done|]. intros r Ha l ->. by eapply missing_absent.
  - intros [l|e] h1 _ Hl; [|by apply triple_ret]. specialize (Hl l eq_refl). apply quiet_triple.
    apply quiet_try; [|intros; quiet_proc].
    case_match; [apply quiet_ret|by apply quiet_requested].
Qed.

(** ** Removals *)

Lemma quiet_remove_stale k : quiet (remove_stale_account k).
Proof.
  unfold remove_stale_account. apply quiet_bind; [quiet_proc|]. intros []; [apply quiet_ret|]. intros h.
  eapply triple_bind; [apply claim_eviction_spec|]. intros [[a|]|e] h1 _ Ha; [|by apply triple_ret..].
  specialize (Ha a eq_refl). assert (quiet (delete_claimed_account a k)) by (apply quiet_delete; by left).
  apply quiet_triple. quiet_proc.
Qed.

Lemma quiet_remove_evicted k : quiet (remove_evicted_account k).
Proof.
  unfold remove_evicted_account, claim_cached_account_eviction. intros h.
  eapply (triple_bind _ _ _ _ (fun r _ => forall a i, r = Ok (Some (a, i)) -> lease_cached_evictable a = true)).
  - eapply triple_bind; [apply quiet_triple, quiet_engine_account, _|]. intros [a|e] h1 _ _; [|by apply triple_ret].
    destruct (lease_cached_evictable a) eqn:E; cbn [negb]; [|by apply triple_ret].
    eapply triple_bind; [apply quiet_triple, quiet_loader_read, _|]. intros v h2 _ _. apply triple_ret.
    intros a' i Hv. destruct v as [[acc|]|]; by simplify_eq/=.
  - intros [[[a i]|]|e] h1 _ Ha; [|by apply triple_ret..]. specialize (Ha a i eq_refl).
    assert (quiet (delete_claimed_account a k)) by (apply quiet_delete; by right).
    apply quiet_triple. quiet_proc.
Qed.

Lemma quiet_run_entries es : quiet (run_entries es).
Proof.
  induction es as [|e es IH]; cbn [run_entries]; [apply quiet_ret|]. apply quiet_bind; [|done].
  destruct e; cbn [run_entry].
  - apply quiet_bind; [apply quiet_ensure_accounts|]. intros. apply quiet_ret.
  - apply quiet_process_update.
  - apply quiet_sweep.
  - apply quiet_deferred_verify.
  - apply quiet_remove_stale.
  - apply quiet_remove_evicted.
Qed.

Lemma reached_valid es c n h : reaches es c n h -> valid clone_ok h.
Proof.
  unfold reaches. intros Hr.
  pose proof (quiet_run_entries es [] (mkWorld c [] n) eq_refl (valid_nil _)) as Hq.
  destruct (run_entries es _); [|..|done]; subst h; apply Hq.
Qed.

(** ** Claims *)

(** C5: Whatever sequence of requests, subscription updates, sweeps and removals runs,
    and however the engine and the base layer answer, a remote image handed to the
    engine respects what the validator owns. Where the lease found ephemeral state,
    the image is a delegated token account, and where the state that was read is
    ephemeral too, it carries the local balance over. Where the lease found a delegated
    or undelegating account, an image that would end the session, missing or mirrored,
    is newer than that delegation, or is an executable of a loader; a delegated image
    is the engine's to accept (and is on record). An account still owned by the
    delegation program is not installed as delegated or ephemeral, the validator's own
    fee vault excepted. *)
Theorem remote_images_respect_ownership es c n h h1 h2 lease expected image actions r :
  reaches es c n h -> h = h1 ++ LMaterialize lease expected image actions r :: h2 ->
  respects_ownership lease expected image /\ not_unresolved (ac_key lease) image.
Proof. intros Hr E. destruct (reached_valid _ _ _ _ Hr _ _ _ E) as (? & ? & _). done. Qed.

(** C6: The actions that come with a delegation reach the engine only together with a
    delegated image, and, when the risk service is on and its strategy covers the
    actions, only after the risk server has answered for every one of their signers
    that it is not risky. The only other actions Chainlink hands over are its own
    rescue undelegation of the same account. *)
Theorem actions_only_after_risk_check es c n h h1 h2 lease expected image actions r :
  reaches es c n h -> h = h1 ++ LMaterialize lease expected image actions r :: h2 ->
  actions_allowed h1 (ac_key lease) image actions.
Proof. intros Hr E. destruct (reached_valid _ _ _ _ Hr _ _ _ E) as (_ & _ & ? & _). done. Qed.

(** C7: A delegated image starts a session only from the base layer: before it is
    handed over, one snapshot has shown a delegation record and its metadata, both
    owned by the delegation program. The record names this validator and the image's
    delegation slot, and the metadata's last commit number is the one the image
    carries. The record is the account's own and names the image's owner; for an
    associated token account it is the record of the eATA derived from the wallet and
    mint of the base image, delegated by the eATA program, where the image handed over
    is the base image or its takeover of the local token account. Otherwise the engine
    holds a session it skips the image for. *)
Theorem sessions_start_on_record es c n h h1 h2 lease expected image actions r :
  reaches es c n h -> h = h1 ++ LMaterialize lease expected image actions r :: h2 ->
  on_record h1 (ac_key lease) image.
Proof. intros Hr E. destruct (reached_valid _ _ _ _ Hr _ _ _ E) as (_ & _ & _ & ?). done. Qed.
End claims.
