(* ===== verification/LinkConcrete.v ===== *)
(** * Chainlink: a concrete base layer

    Instances of the interfaces of Chainlink, used to evaluate it. A bounded cache is
    a list with the newest entry first. Delegation records are lists of numbers: the
    authority, the owner, the delegation slot, and for actions the account they name
    and whether it signs. *)

From stdpp Require Import base gmap sets list strings pretty.
From Stdlib Require Import ZArith Lia.
From S2P Require Import Prelude Intent Runtime TokenPrograms Limits Process Link LinkResolve LinkClient.
From S2P Require Import FetchCloner LinkPipeline LinkClone LinkUpdate LinkProcess LinkEntry LinkClaims.
From S2P Require Import LinkSafety.

Module ConcreteLru.
Definition cache (V : Type) : Type := nat * list (Pubkey * V).

Definition find {V} (l : list (Pubkey * V)) (k : Pubkey) : option V :=
  snd <$> List.find (fun p => N.eqb p.1 k) l.
Definition without {V} (l : list (Pubkey * V)) (k : Pubkey) : list (Pubkey * V) :=
  List.filter (fun p => negb (N.eqb p.1 k)) l.
Definition add {V} (c : cache V) (k : Pubkey) (v : V) : cache V := (c.1, take c.1 ((k, v) :: without c.2 k)).

#[export] Instance lru_env : Lru := {|
  lru := cache;
  lru_new V n := (n, []);
  lru_peek V c k := find c.2 k;
  lru_len V c := length c.2;
  lru_cap V c := c.1;
  lru_get_mut V c k f :=
    match find c.2 k with
    | Some v => ((c.1, (k, f v) :: without c.2 k), Some (f v))
    | None => (c, None)
    end;
  lru_get_or_insert_mut V c k v f :=
    let x := f (default v (find c.2 k)) in (add c k x, x);
  lru_put V c k v := add c k v;
  lru_push V c k v :=
    (add c k v, match find c.2 k with
                | Some old => Some (k, old)
                | None => if Nat.ltb (length c.2) c.1 then None else last c.2
                end);
  lru_pop V c k := ((c.1, without c.2 k), find c.2 k);
  lru_iter V c := c.2 |}.

(** The cache is lawful as long as no key occurs twice and it is not over its capacity. *)
Definition wf {V} (c : cache V) : Prop := NoDup c.2.*1 /\ length c.2 <= c.1 /\ 0 < c.1.

Lemma find_without {V} (l : list (Pubkey * V)) k k' :
  find (without l k) k' = if decide (k' = k) then None else find l k'.
Proof.
  unfold find, without. induction l as [|[x v] l IH]; cbn; [by case_decide|].
  destruct (N.eqb_spec x k) as [->|]; cbn.
  - rewrite IH. case_decide as Hk; [done|]. destruct (N.eqb_spec k k'); [congruence|done].
  - destruct (N.eqb_spec x k') as [->|]; cbn; [by rewrite decide_False by congruence|done].
Qed.

Lemma find_None {V} (l : list (Pubkey * V)) k : find l k = None <-> k ∉ l.*1.
Proof.
  unfold find. induction l as [|[x v] l IH]; cbn; [set_solver|].
  destruct (N.eqb_spec x k) as [->|]; cbn; set_solver.
Qed.

Lemma without_id {V} (l : list (Pubkey * V)) k : k ∉ l.*1 -> without l k = l.
Proof.
  unfold without. induction l as [|[x v] l IH]; cbn; [done|]. intros Hk.
  destruct (N.eqb_spec x k) as [->|]; [set_solver|]. cbn. f_equal. set_solver.
Qed.

Lemma without_keys {V} (l : list (Pubkey * V)) k x : x ∈ (without l k).*1 -> x ∈ l.*1 /\ x <> k.
Proof.
  unfold without. induction l as [|[y v] l IH]; cbn; [set_solver|].
  destruct (N.eqb_spec y k) as [->|]; cbn; set_solver.
Qed.

Lemma without_cons {V} (l : list (Pubkey * V)) k x v :
  without ((x, v) :: l) k = if N.eqb x k then without l k else (x, v) :: without l k.
Proof. unfold without. cbn. by destruct (N.eqb x k). Qed.
Lemma find_cons {V} (l : list (Pubkey * V)) k x v :
  find ((x, v) :: l) k = if N.eqb x k then Some v else find l k.
Proof. unfold find. cbn. by destruct (N.eqb x k). Qed.

Lemma without_nodup {V} (l : list (Pubkey * V)) k : NoDup l.*1 -> NoDup (without l k).*1.
Proof.
  induction l as [|[y v] l IH]; [done|]. rewrite without_cons. cbn. intros [Hy Hl]%NoDup_cons.
  destruct (N.eqb y k); [auto|]. cbn. constructor; [|auto]. intros [? _]%without_keys. done.
Qed.

Lemma without_length {V} (l : list (Pubkey * V)) k : NoDup l.*1 ->
  length (without l k) = if decide (is_Some (find l k)) then pred (length l) else length l.
Proof.
  induction l as [|[y v] l IH]; cbn [fmap list_fmap fst]; intros Hl.
  - rewrite decide_False; [done|]. by intros [? [=]].
  - apply NoDup_cons in Hl as [Hy Hl]. rewrite without_cons, find_cons.
    destruct (N.eqb_spec y k) as [->|].
    + rewrite decide_True by eauto. cbn [length pred]. by rewrite without_id.
    + cbn [length]. rewrite IH by done. case_decide as Hs; [|done].
      destruct l; [by destruct Hs|done].
Qed.

Lemma without_wf {V} (l : list (Pubkey * V)) k : NoDup l.*1 ->
  NoDup (without l k).*1 /\ (k ∉ (without l k).*1)
  /\ length (without l k) = (if decide (is_Some (find l k)) then pred (length l) else length l).
Proof.
  intros. split_and!; auto using without_nodup, without_length. by intros [_ ?]%without_keys.
Qed.

Lemma find_front {V} (l : list (Pubkey * V)) k v k' :
  find ((k, v) :: without l k) k' = if decide (k' = k) then Some v else find l k'.
Proof.
  rewrite find_cons, find_without. destruct (N.eqb_spec k k') as [->|]; [by rewrite decide_True|].
  by rewrite !decide_False by congruence.
Qed.

Lemma find_some_length {V} (l : list (Pubkey * V)) k : is_Some (find l k) -> 0 < length l.
Proof. destruct l; [by intros [? ?]|cbn; lia]. Qed.

Lemma get_mut_wf {V} n (l : list (Pubkey * V)) k v : wf (n, l) -> is_Some (find l k) ->
  wf (n, (k, v) :: without l k) /\ length ((k, v) :: without l k) = length l.
Proof.
  intros (Hd & Hl & Hn) Hk. cbn in Hd, Hl, Hn. destruct (without_wf l k Hd) as (Hd' & Hk' & Hlen).
  rewrite decide_True in Hlen by done. apply find_some_length in Hk.
  split; [|cbn [length]; lia]. split; [|split]; cbn [fst snd length fmap list_fmap]; [by constructor|lia|done].
Qed.

Lemma add_wf {V} (c : cache V) k v : wf c -> wf (add c k v).
Proof.
  destruct c as [[|n] l]; intros (Hd & Hl & Hn); cbn in Hd, Hl, Hn; [lia|].
  destruct (without_wf l k Hd) as (Hd' & Hk & _).
  unfold add. cbn [fst snd take]. split; [|split; [cbn; rewrite length_take; lia|cbn; lia]].
  cbn [snd fmap list_fmap fst]. rewrite fmap_take. constructor; [|by eapply sublist_NoDup, sublist_take].
  intros (i & Hi & _)%elem_of_take. by apply list_elem_of_lookup_2 in Hi.
Qed.

Lemma add_find {V} (c : cache V) k v : wf c -> find (add c k v).2 k = Some v.
Proof.
  destruct c as [[|n] l]; intros (_ & _ & Hn); cbn in Hn; [lia|].
  unfold add. cbn [fst snd take]. rewrite find_cons. by rewrite N.eqb_refl.
Qed.

Lemma add_room {V} (c : cache V) k v : wf c -> length c.2 < c.1 \/ is_Some (find c.2 k) ->
  (add c k v).2 = (k, v) :: without c.2 k
  /\ length (add c k v).2 = if decide (is_Some (find c.2 k)) then length c.2 else S (length c.2).
Proof.
  intros (Hd & Hl & Hn) Hroom. pose proof (without_length c.2 k Hd) as Hlen.
  unfold add. cbn [snd]. assert (length ((k, v) :: without c.2 k)
    = if decide (is_Some (find c.2 k)) then length c.2 else S (length c.2)) as E.
  { cbn [length]. rewrite Hlen. case_decide as Hs; [apply find_some_length in Hs; lia|done]. }
  rewrite take_ge; [done|]. rewrite E. case_decide; [done|]. destruct Hroom; [lia|done].
Qed.

Lemma find_take {V} (l : list (Pubkey * V)) k n : find (take n l) k = find l k \/ find (take n l) k = None.
Proof.
  revert n. induction l as [|[y v] l IH]; intros [|n]; cbn [take]; [by left|by left|by right|].
  rewrite !find_cons. destruct (N.eqb y k); [by left|apply IH].
Qed.

Lemma add_kept {V} (c : cache V) k v k' : k' <> k ->
  find (add c k v).2 k' = find c.2 k' \/ find (add c k v).2 k' = None.
Proof.
  intros Hk. unfold add. cbn [snd]. destruct (find_take ((k, v) :: without c.2 k) k' c.1) as [->|]; [|by right].
  left. rewrite find_front. by rewrite decide_False.
Qed.

#[export] Instance lru_laws : LruLaws.
Proof.
  refine {| lru_wf V := wf |}.
  - intros V n ?. split; [constructor|split; [cbn; lia|done]].
  - done.
  - done.
  - done.
  - intros V [n l] k f c' o Hwf. cbn -[find without]. destruct (find l k) as [v|] eqn:E;
      intros [= <- <-].
    + destruct (get_mut_wf n l k (f v) Hwf) as [? ?]; [eauto|].
      do 4 (split; [done|]). intros k'. apply find_front.
    + do 4 (split; [done|]). intros k'. cbn. case_decide; [by subst|done].
  - intros V c k v f c' x Hwf [= <- <-].
    split; [by apply add_wf|]. do 2 (split; [done|]). split; [by apply add_find|].
    split; [intros k' Hk; by apply add_kept|].
    intros Hroom. destruct (add_room c k (f (default v (find c.2 k))) Hwf Hroom) as [E El].
    split; [done|]. intros k' ?. change (find (add c k (f (default v (find c.2 k)))).2 k' = find c.2 k').
    rewrite E, find_front. by rewrite decide_False.
  - intros V [n l] k c' o (Hd & Hl & Hn) [= <- <-]. cbn in Hd, Hl, Hn.
    destruct (without_wf l k Hd) as (Hd' & Hk & Hlen).
    split; [split; [done|split; [cbn; rewrite Hlen; case_decide; lia|done]]|].
    do 2 (split; [done|]). split; [done|]. intros k'. apply find_without.
Qed.
End ConcreteLru.

Module ConcreteLink.
Export ConcreteLru ConcreteTokens.
Local Open Scope Z_scope.

Definition validator : Pubkey := 5.
Definition dlp_account (data : list Z) : SharedAccount :=
  mkSharedAccount 10 data DELEGATION_PROGRAM_ID Mirrored false 50 0 false 0.
Definition found (a : SharedAccount) : RemoteAccount := Found a SourceFetch.

#[export] Instance api : LinkApi := {|
  record_pda k := (1000 + k)%N;
  metadata_pda k := (2000 + k)%N;
  fee_vault_pda k := (3000 + k)%N;
  record_size := 3;
  parse_record d := match d with
                    | [a; o; s] => Ok (mkDelegationRecord (Z.to_N a) (Z.to_N o) s 1 1)
                    | _ => Err None
                    end;
  parse_delegation_metadata d := match d with [9; n] => Some n | _ => None end;
  parse_undelegation_request _ := None;
  is_commit_record _ := false;
  is_program_config _ := false;
  RawActions := N * bool;
  decode_actions d := match d with
                      | [k; s] => Ok (Z.to_N k, Z.eqb s 1)
                      | _ => Err "actions"%string
                      end;
  decrypt_actions _ a := Ok [mkInstruction 7 [mkIxMeta a.1 a.2 false] []];
  program_data_address k := (4000 + k)%N;
  programdata_metadata_size := 1;
  parse_loader_v3 d := match d with [3] => Ok (Some None) | _ => Err "state"%string end;
  loader_v4_offset := 1;
  read_loader_v4 _ := (0%N, Deployed);
  requires_persistence m := match m with Missing | Mirrored => false | _ => true end;
  encode_schedule_bundle _ := [];
  show_key k := pretty k;
  show_chainlink_error _ := "error"%string |}.

(** A base layer that never changes, with nothing local but the program 7. *)
Definition link_env (base : Pubkey -> RemoteAccount) (risk : option AmlCheckStrategy) : LinkEnv := {|
  validator_pubkey := validator;
  engine_authority := validator;
  allowed_programs := None;
  risk_service := risk;
  lease_skips _ _ _ := false;
  lease_evictable _ := true;
  lease_cached_evictable _ := true;
  ask_read _ k := Ok (if N.eqb k 7 then Some (dlp_account []) else None);
  ask_lifecycle _ k := if N.eqb k 7 then Some (Mirrored, 50) else None;
  ask_contains _ k := Ok (N.eqb k 7);
  ask_lease _ _ := Answer (Ok (None, 1%N));
  ask_missing _ ks := Answer (Ok (map (fun k => mkAccessor k None 1) ks));
  ask_materialize _ _ _ _ _ := Answer (Ok tt);
  ask_delete _ _ := Answer (Ok tt);
  ask_fetch _ ks _ _ := Answer (Ok (map base ks));
  ask_match _ ks _ := Answer (Ok (map base ks));
  ask_snapshot _ ks _ := Answer (Ok (map base ks));
  ask_slice _ _ _ _ := Answer (Ok None);
  ask_risk _ _ := Answer (Ok false);
  ask_sub _ _ := Answer (Ok tt);
  ask_has_reason _ _ _ := Answer false;
  ask_watching _ _ := true;
  ask_chain_slot _ := 60;
  ask_now _ := 0;
  ask_claims _ := 1;
  interfere _ c := c |}.

Lemma link_laws base risk : (forall k, remote_unowned (base k)) -> @LinkLaws _ (link_env base risk).
Proof.
  intros Hb. split.
  - intros h ks m f l [= <-]. apply Forall_forall. intros x Hx.
    apply list_elem_of_fmap in Hx as (k & -> & _). apply Hb.
  - intros h ks l [= <-]. apply Forall_forall. intros x Hx.
    by apply list_elem_of_fmap in Hx as (k & -> & _).
Qed.

Definition caches : Caches :=
  mkCaches _ (lru_new 8) (lru_new 8) (lru_new 8) 0 0 (mkTracker (lru_new 8) (lru_new 8)).

(** ** One delegated account

    Account 21 is delegated to the validator since slot 40, with three commits so far
    and an action that account 6 signs. *)

Definition one_account (k : Pubkey) : RemoteAccount :=
  if N.eqb k 21 then found (dlp_account [1])
  else if N.eqb k 1021 then found (dlp_account [5; 8; 40; 6; 1])
  else if N.eqb k 2021 then found (dlp_account [9; 3])
  else NotFound 60.

Lemma one_account_unowned k : remote_unowned (one_account k).
Proof. unfold one_account. repeat case_match; try done; by right. Qed.

#[export] Instance link : LinkEnv := link_env one_account (Some AllSigners).
#[export] Instance link_lawful : LinkLaws := link_laws _ _ one_account_unowned.

Definition requested : list LEvent :=
  match run_entries [OnRequest [21%N]] (mkWorld caches [] 100) with
  | Done _ w | Interrupted _ w => history w
  | OutOfFuel => []
  end.
Definition lease : AccountAccessor := mkAccessor 21 None 1.
Definition image : SharedAccount := mkSharedAccount 10 [1] 8 Delegated false 40 3 false 0.
Definition actions : PostFinalize := mkPostFinalize 8 [mkInstruction 7 [mkIxMeta 6 true false] []].

Lemma requested_reached : reaches [OnRequest [21%N]] caches 100 requested.
Proof. vm_compute. reflexivity. Qed.
Lemma requested_split :
  requested = take 22 requested
              ++ LMaterialize lease None image (Some actions) (Some (Ok tt)) :: drop 23 requested.
Proof. vm_compute. reflexivity. Qed.

Lemma remote_images_respect_ownership_witness :
  respects_ownership lease None image /\ not_unresolved 21 image.
Proof.
  exact (remote_images_respect_ownership _ _ _ _ _ _ lease None image _ _ requested_reached requested_split).
Defined.

Lemma actions_only_after_risk_check_witness :
  LRisk (show_key 6%N) (Some (Ok false)) ∈ take 22 requested.
Proof.
  destruct (actions_only_after_risk_check _ _ _ _ _ _ lease None image _ _ requested_reached
    requested_split actions eq_refl) as [E|[_ Hc]]; [discriminate E|].
  refine (Hc AllSigners eq_refl eq_refl (mkInstruction 7 [mkIxMeta 6 true false] [])
    (mkIxMeta 6 true false) _ _ eq_refl); by apply list_elem_of_singleton.
Defined.

Lemma sessions_start_on_record_witness :
  exists source, taken_over 21 source image /\ seeded (take 22 requested) 21 source image.
Proof.
  destruct (sessions_start_on_record _ _ _ _ _ _ lease None image _ _ requested_reached requested_split
    eq_refl) as [(l & _ & Hl)|Hs]; [discriminate Hl|exact Hs].
Defined.
End ConcreteLink.
