(* ===== verification/LinkTracker.v ===== *)
(** * Chainlink: colliding accounts are not lost

    An update of an account that looks internal to the delegation program is held
    back until its delegation record is seen ([DlpCollisionTracker] in
    [fetch_cloner/mod.rs]). The record and the account arrive in either order. *)

From stdpp Require Import base gmap sets list strings.
From Stdlib Require Import ZArith Lia.
From S2P Require Import Prelude Intent Runtime Link LinkResolve LinkConcrete.

Inductive TrackerEvent :=
| Sight (record : Pubkey) (slot : Z)
| Seen (u : ForwardedSubscriptionUpdate)
| Preserve (c : ParkedCollisionCandidate).

(** What an event lets through: nothing, a parked candidate, or the update itself. *)
Inductive Passed := Nothing | Released (c : ParkedCollisionCandidate) | PassedUpdate.

Section tracker.
Context `{LinkApi} `{LruLaws}.
Local Open Scope Z_scope.

Definition track (t : DlpCollisionTracker) (ev : TrackerEvent) : DlpCollisionTracker * Passed :=
  match ev with
  | Sight r s => let '(t, o) := sight_record t r s in
                 (t, match o with Some c => Released c | None => Nothing end)
  | Seen u => let '(t, b) := check_or_park t u in (t, if b : bool then PassedUpdate else Nothing)
  | Preserve c => (fst (preserve_released_candidate t c), Nothing)
  end.

Fixpoint track_all (t : DlpCollisionTracker) (evs : list TrackerEvent)
    : DlpCollisionTracker * list Passed :=
  match evs with
  | [] => (t, [])
  | ev :: evs => let '(t, p) := track t ev in let '(t, ps) := track_all t evs in (t, p :: ps)
  end.

Definition record_of (u : ForwardedSubscriptionUpdate) : Pubkey := record_pda (up_pubkey u).
Definition slot_of (u : ForwardedSubscriptionUpdate) : Z := remote_slot (up_account u).

(** The slot up to which a record is remembered to have been seen. *)
Definition sighted (t : DlpCollisionTracker) (r : Pubkey) : option Z := lru_peek (tr_record_slots t) r.
Definition parked (t : DlpCollisionTracker) (r : Pubkey) : option ParkedCollisionCandidate :=
  lru_peek (tr_parked t) r.

(** A candidate of the record [r] at or above the slot [s]. *)
Definition covers (r : Pubkey) (s : Z) (c : ParkedCollisionCandidate) : Prop :=
  record_pda (pk_pubkey c) = r /\ s <= pk_slot c.

(** What the caches always satisfy. *)
Definition lawful (t : DlpCollisionTracker) : Prop :=
  lru_wf (tr_parked t) /\ lru_wf (tr_record_slots t)
  /\ lru_cap (tr_parked t) = PARKED_COLLISION_UPDATES_CAPACITY
  /\ lru_cap (tr_record_slots t) = SEEN_DELEGATION_RECORD_SLOTS_CAPACITY.

Lemma capacities_pos :
  (0 < PARKED_COLLISION_UPDATES_CAPACITY)%nat /\ (0 < SEEN_DELEGATION_RECORD_SLOTS_CAPACITY)%nat.
Proof. split; apply Nat.ltb_lt; vm_compute; reflexivity. Qed.

#[local] Opaque PARKED_COLLISION_UPDATES_CAPACITY SEEN_DELEGATION_RECORD_SLOTS_CAPACITY.

Lemma lawful_new : lawful tracker_new.
Proof.
  destruct capacities_pos. unfold tracker_new.
  split_and!; cbn [tr_parked tr_record_slots]; auto using lru_new_wf, lru_new_cap.
Qed.

(** ** Single operations *)

Lemma not_full t r : lawful t -> park_is_full t r = false ->
  (lru_len (tr_parked t) < lru_cap (tr_parked t))%nat \/ is_Some (lru_peek (tr_parked t) r).
Proof.
  intros (_ & _ & -> & _). unfold park_is_full, lru_contains.
  intros [Hc|Hc]%andb_false_iff; [right|left].
  - apply negb_false_iff, bool_decide_eq_true in Hc. done.
  - apply bool_decide_eq_false in Hc. lia.
Qed.

Lemma parked_not_full t r c : parked t r = Some c -> park_is_full t r = false.
Proof. unfold parked, park_is_full, lru_contains. intros ->. by rewrite bool_decide_true. Qed.

(** What a park leaves for its record. *)
Definition joined (o : option ParkedCollisionCandidate) (c : ParkedCollisionCandidate)
    : ParkedCollisionCandidate :=
  match o with
  | Some p => mkParked (pk_pubkey p) (Z.max (pk_slot p) (pk_slot c))
  | None => c
  end.

Lemma park_spec t r c : lawful t -> park_is_full t r = false ->
  lawful (park t r c) /\ tr_record_slots (park t r c) = tr_record_slots t
  /\ forall r', parked (park t r c) r' = if decide (r' = r) then Some (joined (parked t r) c) else parked t r'.
Proof.
  intros Hl Hf. pose proof (not_full t r Hl Hf) as Hroom. destruct Hl as (W & W' & C & C').
  unfold park, parked, lawful. destruct (lru_get_or_insert_mut (tr_parked t) r c _) as [l x] eqn:E.
  apply lru_insert_spec in E as (Wl & -> & Ec & Ep & _ & Hrest); [|done].
  destruct (Hrest Hroom) as [_ Eo]. cbn [fst tr_record_slots tr_parked].
  split_and!; [done|done|congruence|done|done|].
  intros r'. destruct (decide (r' = r)) as [->|]; [|by apply Eo]. rewrite Ep. f_equal. unfold joined.
  destruct (lru_peek (tr_parked t) r) as [p|]; cbn; [done|]. by destruct c; cbn; rewrite Z.max_id.
Qed.

Lemma sight_record_spec t r s t' o : lawful t -> sight_record t r s = (t', o) ->
  let m := Z.max (default s (sighted t r)) s in
  lawful t'
  /\ sighted t' r = Some m
  /\ (forall r', r' <> r -> sighted t' r' = sighted t r' \/ sighted t' r' = None)
  /\ (forall r', r' <> r -> parked t' r' = parked t r')
  /\ match parked t r with
     | Some c => if decide (pk_slot c <= m) then o = Some c /\ parked t' r = None
                 else o = None /\ parked t' r = Some c
     | None => o = None /\ parked t' r = None
     end.
Proof.
  intros (W & W' & C & C'). unfold sight_record, sighted, parked, lawful.
  destruct (lru_get_or_insert_mut _ r s _) as [l x] eqn:E.
  apply lru_insert_spec in E as (Wl & -> & Ec & Ep & Ek & _); [|done].
  destruct (lru_peek (tr_parked t) r) as [c|] eqn:P; [case_decide|].
  - destruct (lru_pop (tr_parked t) r) as [q o'] eqn:Q.
    apply lru_pop_spec in Q as (Wq & Qo & Qc & _ & Qp); [|done]. rewrite P in Qo. subst o'. intros [= <- <-].
    split_and!; try done; cbn [tr_record_slots tr_parked]; try congruence.
    + intros r' ?. rewrite Qp. by rewrite decide_False.
    + rewrite Qp. by rewrite decide_True.
  - intros [= <- <-]. split_and!; try done; cbn [tr_record_slots tr_parked]; congruence.
  - intros [= <- <-]. split_and!; try done; cbn [tr_record_slots tr_parked]; congruence.
Qed.

(** The update passes when its record is remembered at its slot or later. Otherwise it
    is parked, or dropped when the park is full. *)
Lemma check_or_park_spec t u t' b : lawful t -> check_or_park t u = (t', b) ->
  lawful t' /\ (forall r, sighted t' r = sighted t r)
  /\ lru_len (tr_record_slots t') = lru_len (tr_record_slots t)
  /\ (b = true <-> exists m, sighted t (record_of u) = Some m /\ slot_of u <= m)
  /\ forall r, parked t' r =
       if decide (b = false /\ park_is_full t (record_of u) = false /\ r = record_of u)
       then Some (joined (parked t r) (mkParked (up_pubkey u) (slot_of u))) else parked t r.
Proof.
  intros (W & W' & C & C'). unfold check_or_park, lru_get. fold (record_of u) (slot_of u).
  destruct (lru_get_mut (tr_record_slots t) (record_of u) id) as [l o] eqn:E.
  apply lru_get_mut_spec in E as (Wl & -> & El & Ec & Ep); [|done]. rewrite option_fmap_id in Ep |- *.
  set (t1 := mkTracker l (tr_parked t)).
  assert (lawful t1) as Hl1 by (unfold lawful; cbn; split_and!; (done || congruence)).
  assert (forall r, sighted t1 r = sighted t r) as Hs1.
  { intros r. unfold sighted. cbn. rewrite Ep. case_decide; congruence. }
  change (lru_peek (tr_record_slots t) (record_of u)) with (sighted t (record_of u)).
  change (park_is_full t1 (record_of u)) with (park_is_full t (record_of u)).
  destruct (match sighted t (record_of u) with Some _ => _ | None => _ end) eqn:Eb.
  { intros [= <- <-]. split_and!; [done..| |].
    - split; [intros _|done]. destruct (sighted t (record_of u)) as [m|]; [|done].
      apply bool_decide_eq_true in Eb. eauto.
    - intros r. rewrite decide_False; [done|]. by intros [? _]. }
  assert (~ exists m, sighted t (record_of u) = Some m /\ slot_of u <= m) as Hno.
  { intros (m & Em & ?). rewrite Em in Eb. by apply bool_decide_eq_false in Eb. }
  destruct (park_is_full t (record_of u)) eqn:Ef; intros [= <- <-].
  - split_and!; [done..|by split|]. intros r. rewrite decide_False; [done|]. by intros (_ & ? & _).
  - destruct (park_spec t1 (record_of u) (mkParked (up_pubkey u) (slot_of u)) Hl1 Ef) as (Q1 & Q2 & Q3).
    unfold sighted at 1. rewrite Q2. split_and!; [done|apply Hs1|done|by split|].
    intros r. rewrite Q3. destruct (decide (r = record_of u)) as [->|]; [by rewrite decide_True|].
    rewrite decide_False; [done|]. by intros (_ & _ & ?).
Qed.

Lemma preserve_spec t c : lawful t ->
  let t' := fst (preserve_released_candidate t c) in
  lawful t' /\ tr_record_slots t' = tr_record_slots t
  /\ forall r, parked t' r =
       if decide (park_is_full t r = false /\ r = record_pda (pk_pubkey c))
       then Some (joined (parked t r) c) else parked t r.
Proof.
  intros Hl. cbn zeta. unfold preserve_released_candidate.
  destruct (park_is_full t (record_pda (pk_pubkey c))) eqn:Ef; cbn [fst].
  - split_and!; [done..|]. intros r. rewrite decide_False; [done|]. intros [? ->]. congruence.
  - destruct (park_spec t _ c Hl Ef) as (Q1 & Q2 & Q3). split_and!; [done..|]. intros r. rewrite Q3.
    destruct (decide (r = _)) as [->|]; [by rewrite decide_True|]. rewrite decide_False; [done|]. by intros [_ ?].
Qed.

(** ** The tracker after a sequence of events *)

Record Tracked (evs : list TrackerEvent) (t : DlpCollisionTracker) : Prop := mkTracked {
  tk_lawful : lawful t;
  tk_record r m : sighted t r = Some m -> Sight r m ∈ evs;
  tk_owner r c : parked t r = Some c -> record_pda (pk_pubkey c) = r }.

Lemma tracked_new : Tracked [] tracker_new.
Proof.
  split; [apply lawful_new|..]; intros *; unfold sighted, parked, tracker_new; cbn; by rewrite lru_new_peek.
Qed.

Lemma joined_owner r (o : option ParkedCollisionCandidate) c :
  (forall p, o = Some p -> record_pda (pk_pubkey p) = r) -> record_pda (pk_pubkey c) = r ->
  record_pda (pk_pubkey (joined o c)) = r.
Proof. intros Ho Hc. destruct o; cbn; auto. Qed.

Lemma joined_slot o c : pk_slot c <= pk_slot (joined o c) /\ forall p, o = Some p -> pk_slot p <= pk_slot (joined o c).
Proof. destruct o as [p|]; cbn; [|done]. split; [lia|]. intros ? [= <-]. lia. Qed.

Lemma tracked_step evs t ev t' p : Tracked evs t -> track t ev = (t', p) -> Tracked (evs ++ [ev]) t'.
Proof.
  intros [Hl Hrec Ho]. destruct ev as [r s|u|c]; cbn [track].
  - destruct (sight_record t r s) as [x o] eqn:E. intros [= <- _].
    destruct (sight_record_spec _ _ _ _ _ Hl E) as (L & S1 & S2 & P1 & P2). split; [done|..].
    + intros r' m Hm. destruct (decide (r' = r)) as [->|Hne].
      * rewrite S1 in Hm. injection Hm as <-. destruct (sighted t r) as [y|] eqn:Y; cbn; [|rewrite Z.max_id; set_solver].
        destruct (Z.max_spec y s) as [[_ ->]|[_ ->]]; set_solver.
      * destruct (S2 r' Hne) as [E'|E']; rewrite E' in Hm; [|done]. set_solver.
    + intros r' c. destruct (decide (r' = r)) as [->|]; [|rewrite P1 by done; apply Ho].
      destruct (parked t r) as [c'|] eqn:P; [case_decide|]; destruct P2 as [_ ->]; [done| |done].
      intros [= <-]. by apply Ho.
  - destruct (check_or_park t u) as [x b] eqn:E. intros [= <- _].
    destruct (check_or_park_spec _ _ _ _ Hl E) as (L & Es & _ & _ & Ep). split; [done|..].
    + intros r m. rewrite Es. set_solver.
    + intros r c. rewrite Ep. destruct (decide (_ /\ _)) as [(_ & _ & ->)|]; [|apply Ho].
      intros [= <-]. by apply joined_owner; [apply Ho|].
  - intros [= <- _]. destruct (preserve_spec t c Hl) as (L & Es & Ep). split; [done|..].
    + intros r m. unfold sighted. rewrite Es. set_solver.
    + intros r c'. rewrite Ep. destruct (decide (_ /\ _)) as [[_ ->]|]; [|apply Ho].
      intros [= <-]. by apply joined_owner; [apply Ho|].
Qed.

(** An update is only let through once its record was seen at its slot or later. *)
Definition justified (evs : list TrackerEvent) (ev : TrackerEvent) (p : Passed) : Prop :=
  match p with
  | Nothing => True
  | Released c => exists s, Sight (record_pda (pk_pubkey c)) s ∈ evs ++ [ev] /\ pk_slot c <= s
  | PassedUpdate => exists u s, ev = Seen u /\ Sight (record_of u) s ∈ evs /\ slot_of u <= s
  end.

Lemma track_justified evs t ev t' p : Tracked evs t -> track t ev = (t', p) -> justified evs ev p.
Proof.
  intros T E. pose proof (tracked_step _ _ _ _ _ T E) as T'. destruct ev as [r s|u|c]; cbn [track] in E.
  - destruct (sight_record t r s) as [x o] eqn:Es. injection E as <- <-. destruct o as [c|]; [|done].
    apply (sight_record_spec _ _ _ _ _ (tk_lawful _ _ T)) in Es as (_ & S1 & _ & _ & P). cbn.
    destruct (parked t r) as [c'|] eqn:Ec; [|by destruct P]. case_decide; [|by destruct P].
    destruct P as [[= <-] _]. rewrite (tk_owner _ _ T _ _ Ec). eexists. split; [|done].
    by apply (tk_record _ _ T').
  - destruct (check_or_park t u) as [x b] eqn:Eu. injection E as <- <-. destruct b; [|done].
    apply (check_or_park_spec _ _ _ _ (tk_lawful _ _ T)) in Eu as (_ & _ & _ & [Hb _] & _).
    destruct (Hb eq_refl) as (m & Em & ?). exists u, m. eauto using tk_record.
  - by injection E as <- <-.
Qed.

(** A parked candidate is released or stays. It stays only above the sighted slots of
    its record, and its slot only grows. *)
Lemma track_covers evs t ev t' p r s c : Tracked evs t -> track t ev = (t', p) ->
  parked t r = Some c -> covers r s c ->
  (exists c', p = Released c' /\ covers r s c')
  \/ exists c', parked t' r = Some c' /\ covers r s c' /\ pk_slot c <= pk_slot c'
       /\ forall s', ev = Sight r s' -> s' < pk_slot c'.
Proof.
  intros T E Hc Hcov. pose proof (tk_lawful _ _ T) as Hl. pose proof (tracked_step _ _ _ _ _ T E) as T'.
  assert (parked t' r = Some c -> (forall s', ev <> Sight r s') ->
    exists c', parked t' r = Some c' /\ covers r s c' /\ pk_slot c <= pk_slot c'
       /\ forall s', ev = Sight r s' -> s' < pk_slot c') as Hsame.
  { intros Hp Hev. exists c. split_and!; [done..|]. intros s' He. by destruct (Hev s'). }
  assert (forall x, parked t' r = Some (joined (Some c) x) -> (forall s', ev <> Sight r s') ->
    exists c', parked t' r = Some c' /\ covers r s c' /\ pk_slot c <= pk_slot c'
       /\ forall s', ev = Sight r s' -> s' < pk_slot c') as Hgrow.
  { intros x Hp Hev. destruct (joined_slot (Some c) x) as [_ Hle]. specialize (Hle c eq_refl).
    exists (joined (Some c) x). destruct Hcov as [_ ?]. split_and!; [done| |done|intros s' He; by destruct (Hev s')].
    split; [by apply (tk_owner _ _ T')|lia]. }
  destruct ev as [r' s'|u|k]; cbn [track] in E.
  - destruct (sight_record t r' s') as [x o] eqn:Es. injection E as <- <-.
    apply (sight_record_spec _ _ _ _ _ Hl) in Es as (_ & _ & _ & P1 & P2).
    destruct (decide (r = r')) as [<-|Hne]; [|right; apply Hsame; [by rewrite P1|congruence]].
    rewrite Hc in P2. case_decide; destruct P2 as [-> P2]; [left; by exists c|right].
    exists c. split_and!; [done..|]. intros ? [= <-]. lia.
  - destruct (check_or_park t u) as [x b] eqn:Eu. injection E as <- <-. right.
    apply (check_or_park_spec _ _ _ _ Hl) in Eu as (_ & _ & _ & _ & Ep). specialize (Ep r). rewrite Hc in Ep.
    destruct (decide (_ /\ _)); [by eapply Hgrow|by apply Hsame].
  - injection E as <- <-. right. destruct (preserve_spec t k Hl) as (_ & _ & Ep). specialize (Ep r).
    rewrite Hc in Ep. destruct (decide (_ /\ _)); [by eapply Hgrow|by apply Hsame].
Qed.

(** ** Sequences *)

Lemma track_all_justified evs : forall past t t' ps i ev p, Tracked past t ->
  track_all t evs = (t', ps) -> evs !! i = Some ev -> ps !! i = Some p ->
  justified (past ++ take i evs) ev p.
Proof.
  induction evs as [|e evs IH]; intros past t t' ps i ev p T; cbn; [done|].
  destruct (track t e) as [t1 p1] eqn:E1. destruct (track_all t1 evs) as [t2 ps2] eqn:E2.
  intros [= <- <-]. destruct i as [|i]; cbn.
  - intros [= <-] [= <-]. rewrite app_nil_r. by eapply track_justified.
  - intros. replace (past ++ e :: take i evs) with ((past ++ [e]) ++ take i evs) by by rewrite <- app_assoc.
    eapply IH; try done. by eapply tracked_step.
Qed.

Lemma track_all_tracked evs : forall past t t' ps, Tracked past t ->
  track_all t evs = (t', ps) -> Tracked (past ++ evs) t'.
Proof.
  induction evs as [|e evs IH]; intros past t t' ps T; cbn.
  - intros [= <- _]. by rewrite app_nil_r.
  - destruct (track t e) as [t1 p1] eqn:E1. destruct (track_all t1 evs) as [t2 ps2] eqn:E2.
    intros [= <- _]. replace (past ++ e :: evs) with ((past ++ [e]) ++ evs) by by rewrite <- app_assoc.
    eapply IH; try done. by eapply tracked_step.
Qed.

Lemma track_all_covers evs : forall past t t' ps r s c, Tracked past t ->
  track_all t evs = (t', ps) -> parked t r = Some c -> covers r s c ->
  (exists c', Released c' ∈ ps /\ covers r s c')
  \/ exists c', parked t' r = Some c' /\ covers r s c' /\ pk_slot c <= pk_slot c'
       /\ forall s', Sight r s' ∈ evs -> s' < pk_slot c'.
Proof.
  induction evs as [|e evs IH]; intros past t t' ps r s c T; cbn.
  - intros [= <- <-] Hc Hs. right. exists c. split_and!; [done..|set_solver].
  - destruct (track t e) as [t1 p1] eqn:E1. destruct (track_all t1 evs) as [t2 ps2] eqn:E2.
    intros [= <- <-] Hc Hs.
    destruct (track_covers _ _ _ _ _ _ _ _ T E1 Hc Hs) as [(c' & -> & ?)|(c' & Hc' & Hs' & Hle & He)].
    + left. exists c'. set_solver.
    + destruct (IH (past ++ [e]) t1 t2 ps2 r s c') as [(x & ? & ?)|(x & ? & ? & ? & Hx)]; try done;
        [by eapply tracked_step|left; exists x; set_solver|right].
      exists x. split_and!; [done..|lia|]. intros s' [He'|Hin]%elem_of_cons; [|by apply Hx].
      specialize (He s' (eq_sym He')). lia.
Qed.

Lemma track_all_app evs1 evs2 t : track_all t (evs1 ++ evs2) =
  let '(t1, ps1) := track_all t evs1 in let '(t2, ps2) := track_all t1 evs2 in (t2, ps1 ++ ps2).
Proof.
  revert t. induction evs1 as [|e evs1 IH]; intros t; cbn.
  - by destruct (track_all t evs2).
  - destruct (track t e) as [t1 p1]. rewrite IH. destruct (track_all t1 evs1) as [t2 ps1].
    by destruct (track_all t2 evs2).
Qed.

Lemma track_all_length evs : forall t t' ps, track_all t evs = (t', ps) -> length ps = length evs.
Proof.
  induction evs as [|e evs IH]; intros t t' ps; cbn; [by intros [= _ <-]|].
  destruct (track t e) as [t1 p1]. destruct (track_all t1 evs) as [t2 ps2] eqn:E.
  intros [= _ <-]. cbn. f_equal. eauto.
Qed.

(** ** What the tracker remembers *)

Definition sighted_record (ev : TrackerEvent) : option Pubkey :=
  match ev with Sight r _ => Some r | _ => None end.
Definition sighted_records (evs : list TrackerEvent) : gset Pubkey :=
  list_to_set (omap sighted_record evs).

Lemma sighted_records_snoc evs ev :
  sighted_records (evs ++ [ev]) = sighted_records evs ∪ list_to_set (option_list (sighted_record ev)).
Proof.
  unfold sighted_records. rewrite omap_app, list_to_set_app_L. cbn. by destruct (sighted_record ev).
Qed.

(** Every sighting is remembered, [known] being the records of the cache. *)
Definition Remembers (evs : list TrackerEvent) (t : DlpCollisionTracker) : Prop :=
  lawful t /\ (forall r s, Sight r s ∈ evs -> exists m, sighted t r = Some m /\ s <= m)
  /\ exists known : gset Pubkey,
       (forall r, r ∈ known <-> is_Some (sighted t r))
       /\ known ⊆ sighted_records evs /\ size known = lru_len (tr_record_slots t).

Lemma remembers_same evs ev t t' : Remembers evs t -> lawful t' -> sighted_record ev = None ->
  (forall r, sighted t' r = sighted t r) ->
  lru_len (tr_record_slots t') = lru_len (tr_record_slots t) -> Remembers (evs ++ [ev]) t'.
Proof.
  intros (_ & Hs & known & Hk & Hsub & Hn) Hl He Es El. split; [done|]. split.
  - intros r s [Hin|Hin%list_elem_of_singleton]%elem_of_app; [rewrite Es; eauto|by subst ev].
  - exists known. rewrite sighted_records_snoc, He, El. split_and!; [|set_solver|done].
    intros r. by rewrite Es.
Qed.

Lemma remembers_sight evs t r s t' o : Remembers evs t ->
  (size (sighted_records (evs ++ [Sight r s])) <= SEEN_DELEGATION_RECORD_SLOTS_CAPACITY)%nat ->
  sight_record t r s = (t', o) -> Remembers (evs ++ [Sight r s]) t'.
Proof.
  intros (Hl & Hs & known & Hk & Hsub & Hn) Hsize E.
  destruct (sight_record_spec _ _ _ _ _ Hl E) as (L & S1 & _ & _ & _).
  assert (sighted_records (evs ++ [Sight r s]) = sighted_records evs ∪ {[r]}) as Er
    by (rewrite sighted_records_snoc; cbn; set_solver).
  unfold Remembers. rewrite Er in *. clear Er.
  destruct Hl as (W & W' & C & C').
  assert (lru_len (tr_record_slots t) < lru_cap (tr_record_slots t)
          \/ is_Some (lru_peek (tr_record_slots t) r))%nat as Hroom.
  { rewrite C'. destruct (decide (r ∈ known)) as [?|Hr]; [right; by apply Hk|left].
    assert (size ({[r]} ∪ known) <= size (sighted_records evs ∪ {[r]}))%nat as Hle
      by (apply subseteq_size; set_solver).
    rewrite (size_union {[r]} known), size_singleton in Hle by set_solver. lia. }
  unfold sight_record in E. destruct (lru_get_or_insert_mut _ r s _) as [l x] eqn:Ei.
  apply lru_insert_spec in Ei as (_ & _ & _ & Ep & _ & Hrest); [|done].
  destruct (Hrest Hroom) as [El Eo].
  assert (tr_record_slots t' = l) as Et.
  { destruct (lru_peek (tr_parked t) r); [destruct (decide (_ <= x)); [destruct (lru_pop _ _)|]|];
      by inversion E. }
  assert (forall r', r' <> r -> sighted t' r' = sighted t r') as S2.
  { intros r' ?. unfold sighted. rewrite Et. by apply Eo. }
  split; [done|]. split.
  - intros r' s' Hin. destruct (decide (r' = r)) as [->|Hne].
    + eexists. split; [exact S1|]. apply elem_of_app in Hin as [Hin|[= ->]%list_elem_of_singleton]; [|lia].
      destruct (Hs _ _ Hin) as (m & -> & ?). cbn. lia.
    + rewrite S2 by done. apply Hs. set_solver.
  - exists ({[r]} ∪ known). split_and!; [|set_solver|].
    + intros r'. rewrite elem_of_union, elem_of_singleton. destruct (decide (r' = r)) as [->|].
      * rewrite S1. naive_solver.
      * rewrite S2, <- Hk by done. naive_solver.
    + rewrite Et, El. destruct (decide (is_Some _)) as [Hr|Hr].
      * rewrite <- Hn. f_equal. apply Hk in Hr. set_solver.
      * rewrite size_union, size_singleton, Hn; [lia|]. assert (r ∉ known) by (by rewrite Hk). set_solver.
Qed.

Lemma remembers_all evs : forall past t t' ps, Remembers past t ->
  (size (sighted_records (past ++ evs)) <= SEEN_DELEGATION_RECORD_SLOTS_CAPACITY)%nat ->
  track_all t evs = (t', ps) -> Remembers (past ++ evs) t'.
Proof.
  induction evs as [|e evs IH]; intros past t t' ps R Hn; cbn.
  { intros [= <- _]. by rewrite app_nil_r. }
  destruct (track t e) as [t1 p1] eqn:E1. destruct (track_all t1 evs) as [t2 ps2] eqn:E2. intros [= <- _].
  change (e :: evs) with ([e] ++ evs) in Hn |- *. rewrite app_assoc in Hn |- *. refine (IH _ _ _ _ _ Hn E2).
  assert (size (sighted_records (past ++ [e])) <= SEEN_DELEGATION_RECORD_SLOTS_CAPACITY)%nat as Hn1.
  { etrans; [|exact Hn]. apply subseteq_size. unfold sighted_records at 2.
    rewrite omap_app, list_to_set_app_L. set_solver. }
  destruct e as [r s|u|c]; cbn [track] in E1.
  - destruct (sight_record t r s) as [x o] eqn:E. injection E1 as <- _. by eapply remembers_sight.
  - destruct (check_or_park t u) as [x b] eqn:E. injection E1 as <- _.
    apply (check_or_park_spec _ _ _ _ (proj1 R)) in E as (L & Es & El & _). by eapply remembers_same.
  - injection E1 as <- _. destruct (preserve_spec t c (proj1 R)) as (L & Es & _).
    eapply remembers_same; [done..| |by rewrite Es]. intros r. unfold sighted. by rewrite Es.
Qed.

Lemma remembers_new : Remembers [] tracker_new.
Proof.
  split; [apply lawful_new|]. split; [set_solver|]. exists ∅. unfold sighted, tracker_new. cbn.
  rewrite lru_new_len. split_and!; [|set_solver|done]. intros r. rewrite lru_new_peek. split; [set_solver|].
  by intros [? ?].
Qed.

(** C22: an update of an account that may collide with the delegation program's own
    accounts is let through, whatever the events, only once its delegation record was
    seen at the update's slot or later. And it is not lost, whichever of the two comes
    first. Where the record was seen before at that slot or later, it passes at once, as
    long as not more than 65536 records were seen. Otherwise it passes, or is dropped
    because the park already holds the candidates of 16384 other records, or a candidate
    of its record at its slot or later is released afterwards, or such a candidate is
    still parked and every sighting of the record since is below the candidate's slot. *)
Theorem collision_update_not_lost evs1 u evs2 t ps :
  let evs := evs1 ++ Seen u :: evs2 in
  let before := fst (track_all tracker_new evs1) in
  track_all tracker_new evs = (t, ps) ->
  (forall i ev p, evs !! i = Some ev -> ps !! i = Some p -> justified (take i evs) ev p)
  /\ ((size (sighted_records evs1) <= SEEN_DELEGATION_RECORD_SLOTS_CAPACITY)%nat ->
      forall s, Sight (record_of u) s ∈ evs1 -> slot_of u <= s -> ps !! length evs1 = Some PassedUpdate)
  /\ (ps !! length evs1 = Some PassedUpdate
      \/ park_is_full before (record_of u) = true
      \/ (exists c, Released c ∈ drop (length evs1) ps /\ covers (record_of u) (slot_of u) c)
      \/ exists c, parked t (record_of u) = Some c /\ covers (record_of u) (slot_of u) c
           /\ forall s, Sight (record_of u) s ∈ evs2 -> s < pk_slot c).
Proof.
  intros evs before E. split; [intros i ev p Hi Hp;
    exact (track_all_justified evs [] _ _ _ i ev p tracked_new E Hi Hp)|].
  unfold evs in E. rewrite track_all_app in E. unfold before.
  destruct (track_all tracker_new evs1) as [t1 ps1] eqn:E1. cbn in E |- *.
  destruct (check_or_park t1 u) as [t2 b] eqn:Eu. destruct (track_all t2 evs2) as [t3 ps2] eqn:E3.
  injection E as -> <-. rewrite <- (track_all_length _ _ _ _ E1), lookup_app_r, Nat.sub_diag by lia.
  pose proof (track_all_tracked evs1 [] _ _ _ tracked_new E1) as T1. cbn in T1.
  assert (track t1 (Seen u) = (t2, if b then PassedUpdate else Nothing)) as Et by (cbn; by rewrite Eu).
  pose proof (tracked_step _ _ _ _ _ T1 Et) as T2.
  apply (check_or_park_spec _ _ _ _ (tk_lawful _ _ T1)) in Eu as (_ & _ & _ & Hb & Ep). split.
  - intros Hn s Hin Hs. destruct (remembers_all evs1 [] _ _ _ remembers_new Hn E1) as (_ & Hm & _).
    destruct (Hm _ _ Hin) as (m & ? & ?). destruct b; [done|]. destruct Hb as [_ Hb].
    discriminate Hb. exists m. split; [done|lia].
  - destruct b; [by left|right]. destruct (park_is_full t1 (record_of u)) eqn:Ef; [by left|right].
    specialize (Ep (record_of u)). rewrite decide_True in Ep by done.
    destruct (track_all_covers evs2 _ _ _ _ _ (slot_of u) _ T2 E3 Ep) as [(c & ? & ?)|(c & ? & ? & _ & ?)].
    + split; [by apply (tk_owner _ _ T2)|]. exact (proj1 (joined_slot _ (mkParked (up_pubkey u) (slot_of u)))).
    + left. exists c. rewrite drop_app_length. split; [set_solver|done].
    + right. by exists c.
Qed.
End tracker.

Module ConcreteTracker.
Import ConcreteLink.
Local Open Scope Z_scope.

Definition update : ForwardedSubscriptionUpdate := mkUpdate 21 (found (dlp_account [1; 2])) SubAccount.
Definition events : list TrackerEvent := [Seen update; Sight 1021 40; Sight 1021 60].

(** The account comes first, and the record at an earlier slot does not release it. *)
Lemma collision_update_not_lost_witness : exists t ps,
  track_all tracker_new events = (t, ps) /\ ps = [Nothing; Nothing; Released (mkParked 21 50)]
  /\ (forall i ev p, events !! i = Some ev -> ps !! i = Some p -> justified (take i events) ev p).
Proof.
  destruct (track_all tracker_new events) as [t ps] eqn:E. exists t, ps.
  split; [done|]. split; [change ps with (snd (t, ps)); rewrite <- E; vm_compute; reflexivity|].
  exact (proj1 (collision_update_not_lost [] update [Sight 1021 40; Sight 1021 60] t ps E)).
Defined.
End ConcreteTracker.
