(* ===== verification/LinkRescue.v ===== *)
(** * Chainlink: activations that fail

    A delegated account whose post-delegation actions cannot run is handed back: it
    is cloned with the one action that undelegates it. Which of the two the engine
    is given, in which order, and what the Magic program does with the action that
    undelegates. *)

From stdpp Require Import base gmap sets list strings.
From Stdlib Require Import ZArith Lia.
From S2P Require Import Prelude Intent Codec Runtime TokenPrograms MagicContext ScheduleCommon Limits.
From S2P Require Import Accept Construction Schedule Process Link LinkResolve LinkClient LinkClone LinkLogic LinkConcrete.

(** ** What the engine is given *)

Section activation.
Context `{TokenEnv} `{LinkApi} `{LinkEnv}.
Abbreviation P A := (Proc LEvent Caches A).
Abbreviation Attempt := (option PostFinalize * option (result unit EngineError))%type.




Abbreviation any := (fun (_ : list LEvent) (_ : LEvent) => True).
Abbreviation triple := (triple any).


(** ** Calls *)






(** ** The cloner *)









(** ** Activations *)



Section activate.
Context (request : AccountCloneRequest) (source_program : Pubkey).
Abbreviation rescue := (with_post_delegation (RescueUndelegate source_program) request).
Hypothesis delegated : sa_mode (cr_account request) = Delegated.




End activate.

End activation.

(** ** What the Magic program does with the rescue *)

Section rescue.
Context `{TokenEnv} `{LinkApi} `{Engine} `{Settlement} `{ContextCodec} `{!ContextCodecLaws}.

Definition rescue_args : MagicIntentBundleArgs :=
  mkMagicIntentBundleArgs None
    (Some (mkCommitAndUndelegateArgs (CommitStandaloneArgs [2]) UndelegateStandaloneArgs)) None None [].

(** The bundle that commits and undelegates one account. *)
Definition rescue_bundle (t : accounts) (k : Pubkey) : MagicIntentBundle :=
  mkMagicIntentBundle None
    (Some (mkCommitAndUndelegate (CommitStandalone [from_account_shared k (bump (account t k))])
             UndelegateStandalone)) None None [].

Definition rescue_queued (ic : InvokeContext) (t : accounts) (k : Pubkey) (c : MagicContext) : MagicContext :=
  mkMagicContext ((mc_intent_id c + 1) mod 2 ^ 64)
    (mc_scheduled_base_intents c
     ++ [mkScheduledIntentBundle (mc_intent_id c) (ic_slot ic) (ic_blockhash ic) (ic_authority ic)
           (rescue_bundle t k)]).

(** The engine runs the action as the validator, on an account it just took in. *)
Record rescuable (ic : InvokeContext) (t : accounts) (k : Pubkey) (c : MagicContext) : Prop := {
  rs_program : ic_program_id ic = MAGIC_PROGRAM_ID;
  rs_metas : ic_metas ic = ix_accounts (undelegation_action (ic_authority ic) k);
  rs_signed : ic_authority ic ∈ ic_signers ic;
  rs_payer : sa_mode (account t (ic_authority ic)) <> Delegated;
  rs_delegated : sa_mode (account t k) = Delegated;
  rs_distinct : k <> MAGIC_CONTEXT_PUBKEY /\ k <> magic_fee_vault_pubkey ic;
  rs_size : (Z.of_nat (length (sa_data (account t k))) <= MAX_PERMITTED_DATA_INCREASE)%Z;
  rs_seq : (0 <= sa_commit_seq (account t k) /\ sa_commit_seq (account t k) + 1 <= u32_max)%Z;
  rs_patchable : patchable (account t k) (sa_commit_seq (account t k) + 1) = true;
  rs_lifecycle : lifecycle Delegated Undelegating = true;
  rs_queue : queue t = Some c }.

Section runs.
Context (ic : InvokeContext) (t : accounts) (k : Pubkey) (c : MagicContext) (Hs : rescuable ic t k c).

Lemma rescue_keys :
  get_instruction_pubkey_with_idx ic PAYER_IDX = Ok (ic_authority ic)
  /\ get_instruction_pubkey_with_idx ic MAGIC_CONTEXT_IDX = Ok MAGIC_CONTEXT_PUBKEY
  /\ get_instruction_pubkey_with_idx ic 2 = Ok k /\ get_writable_with_idx ic 2 = Ok true.
Proof.
  unfold get_instruction_pubkey_with_idx, get_writable_with_idx, get_meta.
  by rewrite (rs_metas _ _ _ _ Hs).
Qed.

Lemma rescue_permitted owner : validate_commit_schedule_permissions ic owner k (ic_caller ic) = Ok tt.
Proof.
  unfold validate_commit_schedule_permissions.
  rewrite (bool_decide_false (ic_authority ic ∉ _)) by (intros Hn; apply Hn, (rs_signed _ _ _ _ Hs)).
  by rewrite andb_false_r.
Qed.

Lemma rescue_reserved :
  reserve_commit_id ic t 2 = Ok (put t k (bump (account t k)), (sa_commit_seq (account t k) + 1)%Z).
Proof.
  destruct rescue_keys as (_ & _ & Hk & Hw). destruct (rs_seq _ _ _ _ Hs) as [_ Hseq].
  unfold reserve_commit_id. rewrite Hk, Hw. cbn [res_bind negb]. unfold checked_add.
  rewrite (proj2 (Z.leb_le _ _)) by done. cbn [ok_or res_bind]. by rewrite (rs_patchable _ _ _ _ Hs).
Qed.

Lemma rescue_committed :
  committed_from_indices ic [2] (mkCState t 0)
  = Ok ([from_account_shared k (bump (account t k))], mkCState (put t k (bump (account t k))) 0).
Proof.
  destruct rescue_keys as (_ & _ & Hk & _). unfold committed_from_indices, cbind, clift.
  unfold extract_commit_accounts. cbn [try_collect]. rewrite Hk. cbn [res_bind get_accounts].
  unfold get_accounts. cbn [cs_accounts validate_commit_type_accounts].
  unfold validate_commit_type_accounts. cbn [try_for_each].
  unfold validate_commit_type_account. rewrite (rs_delegated _ _ _ _ Hs).
  rewrite decide_False by done. rewrite decide_False by naive_solver.
  rewrite (proj2 (Z.ltb_ge _ _)) by apply (rs_size _ _ _ _ Hs).
  rewrite rescue_permitted. cbn [res_bind cmap]. unfold cbind, commit_account. cbn [snd fst cs_accounts].
  rewrite rescue_reserved. cbn. by rewrite account_put_eq.
Qed.

Lemma rescue_built secure :
  bundle_from_args ic secure rescue_args (mkCState t 0)
  = (validate_intent_size ic (rescue_bundle t k) ?;
     Ok (rescue_bundle t k, mkCState (put t k (bump (account t k))) 0)).
Proof.
  destruct rescue_keys as (_ & _ & Hk & Hw).
  assert (cau_from_args ic secure (mkCommitAndUndelegateArgs (CommitStandaloneArgs [2])
      UndelegateStandaloneArgs) (mkCState t 0)
    = Ok (mkCommitAndUndelegate (CommitStandalone [from_account_shared k (bump (account t k))])
            UndelegateStandalone, mkCState (put t k (bump (account t k))) 0)) as Hc.
  { unfold cau_from_args, cbind, clift, get_accounts. cbn [cs_accounts cau_indices commit_indices commit_type_args].
    unfold validate_commit_and_undelegate_accounts. cbn [try_for_each]. rewrite Hw, Hk. cbn [res_bind andb].
    rewrite (bool_decide_true (_ = Delegated)) by apply (rs_delegated _ _ _ _ Hs). cbn [res_bind].
    unfold commit_type_from_args, cbind. by rewrite rescue_committed. }
  unfold bundle_from_args, rescue_args. cbn [commit_args commit_and_undelegate_args commit_finalize_args
    commit_finalize_and_undelegate_args standalone_actions_args copt cmap].
  unfold cbind, clift, cret. cbn [validate_magic_intent_bundle_args commit_args]. rewrite Hc.
  change (mkMagicIntentBundle None (Some _) None None []) with (rescue_bundle t k).
  replace (post_validate_magic_intent_bundle (rescue_bundle t k)) with (Ok tt : IResult unit).
  2: { unfold post_validate_magic_intent_bundle. cbn. by rewrite decide_False by set_solver. }
  by destruct (validate_intent_size ic (rescue_bundle t k)).
Qed.

(** The accounts once the rescue is committed and locked. *)
Definition rescue_locked : accounts :=
  put (put t k (bump (account t k))) k (undelegated (bump (account t k))).

Lemma rescue_marked :
  try_fold (mark_account_as_undelegated lifecycle) (put t k (bump (account t k))) [k] = Ok rescue_locked.
Proof.
  cbn. unfold mark_account_as_undelegated, set_account_mode. rewrite account_put_eq. cbn.
  by rewrite (rs_delegated _ _ _ _ Hs), (rs_lifecycle _ _ _ _ Hs).
Qed.

Lemma rescue_frame k' : k' <> k -> account rescue_locked k' = account t k'.
Proof. intros ?. unfold rescue_locked. by rewrite !account_put_ne. Qed.

Lemma rescue_unpaid : try_get_fee_vault ic rescue_locked PAYER_IDX (MAGIC_CONTEXT_IDX + 1) = Ok (None, 2).
Proof.
  destruct rescue_keys as (Hp & _ & Hk & _). destruct (rs_distinct _ _ _ _ Hs) as [_ Hv].
  unfold try_get_fee_vault. rewrite Hp. change (MAGIC_CONTEXT_IDX + 1) with 2. rewrite Hk. cbn [res_bind].
  rewrite decide_False by done. cbn [res_bind]. rewrite rescue_frame.
  - by rewrite (bool_decide_false (_ = Delegated)) by apply (rs_payer _ _ _ _ Hs).
  - intros E. apply (rs_payer _ _ _ _ Hs). rewrite E. apply (rs_delegated _ _ _ _ Hs).
Qed.

Lemma rescue_runs secure :
  process_schedule_intent_bundle ic t rescue_args secure
  = (validate_intent_size ic (rescue_bundle t k) ?;
     let? d := write_to (rescue_queued ic t k c) (sa_data (account t MAGIC_CONTEXT_PUBKEY)) in
     Ok (put rescue_locked MAGIC_CONTEXT_PUBKEY (with_data d (account t MAGIC_CONTEXT_PUBKEY)))).
Proof.
  destruct rescue_keys as (Hp & Hc & Hk & Hw). destruct (rs_distinct _ _ _ _ Hs) as [Hx _].
  pose proof (rescue_frame MAGIC_CONTEXT_PUBKEY ltac:(congruence)) as Hf.
  unfold process_schedule_intent_bundle, check_magic_context_id. rewrite Hc, Hp. cbn [res_bind].
  rewrite decide_False by naive_solver. cbn [res_bind].
  rewrite decide_False by (rewrite (rs_program _ _ _ _ Hs); naive_solver).
  rewrite decide_False by (intros Hn; apply Hn, (rs_signed _ _ _ _ Hs)).
  fold (queue t). rewrite (rs_queue _ _ _ _ Hs). cbn [ok_or res_bind next_intent_id].
  unfold try_new, cbind, cret. rewrite rescue_built.
  destruct (validate_intent_size ic (rescue_bundle t k)) as [[]|e]; [|done].
  cbn [res_bind cs_accounts undelegated_account_indices].
  change (undelegated_account_indices rescue_args) with [2].
  unfold extract_commit_accounts. cbn [try_collect]. rewrite Hk. cbn [res_bind map fst].
  rewrite rescue_marked. cbn [res_bind]. rewrite rescue_unpaid. cbn [res_bind].
  change (add_scheduled_action _ _) with (rescue_queued ic t k c). cbn -[write_to rescue_locked rescue_queued].
  by rewrite Hf.
Qed.
End runs.

(** C20: the rescue undelegates. The action Chainlink attaches to an account whose own
    actions failed is an instruction of the Magic program. Run with the validator's
    signature on an account that is delegated, small enough to commit, has a commit id
    left and can be patched and locked, over a context that decodes, it fails only
    because the intent exceeds the settlement limits or the context has no room for
    it. Otherwise it locks the account, reserves its next commit id and queues an intent
    that commits and undelegates exactly this account, paid by the validator. *)
Theorem rescue_undelegates ic t k c secure :
  rescuable ic t k c ->
  ix_program_id (undelegation_action (ic_authority ic) k) = MAGIC_PROGRAM_ID
  /\ ix_data (undelegation_action (ic_authority ic) k) = encode_schedule_bundle rescue_args
  /\ match process_schedule_intent_bundle ic t rescue_args secure with
     | Ok t' => account t' k = undelegated (bump (account t k)) /\ queue t' = Some (rescue_queued ic t k c)
     | Err e =>
         (is_intent_within_limits (rescue_bundle t k) (ic_authority ic) <> Some true
          /\ e = Custom INTENT_TOO_LARGE_ERR)
         \/ write_to (rescue_queued ic t k c) (sa_data (account t MAGIC_CONTEXT_PUBKEY)) = Err e
     end.
Proof.
  intros Hs. split_and!; [done..|]. rewrite (rescue_runs _ _ _ _ Hs). unfold validate_intent_size.
  destruct (rs_distinct _ _ _ _ Hs) as [Hx _].
  destruct (is_intent_within_limits _ _) as [[]|]; cbn [default id res_bind]; [|by left..].
  destruct (write_to _ _) as [d|e] eqn:Hd; cbn [res_bind]; [|by right].
  rewrite account_put_ne by congruence. split; [apply account_put_eq|].
  pose proof (rescue_frame t k MAGIC_CONTEXT_PUBKEY ltac:(congruence)) as Hf. rewrite <- Hf.
  apply enqueue_spec. by rewrite Hf.
Qed.
End rescue.

Module ConcreteRescue.
Import ConcreteLink ConcreteContext ConcreteAccept ConcreteLimits ConcreteSchedule.
Local Open Scope Z_scope.



Definition rescue_ic : InvokeContext :=
  mkInvokeContext MAGIC_PROGRAM_ID (Some 8%N) (ix_accounts (undelegation_action 77 21)) {[77%N]} 77 10 11.
Definition rescue_t : accounts :=
  <[MAGIC_CONTEXT_PUBKEY := with_data (replicate 1500 0) no_account]> {[21%N := acct 7 30 [1; 2]]}.

Lemma rescue_undelegates_witness : exists t',
  process_schedule_intent_bundle rescue_ic rescue_t rescue_args false = Ok t'
  /\ account t' 21 = undelegated (bump (account rescue_t 21))
  /\ queue t' = Some (rescue_queued rescue_ic rescue_t 21 MagicContext_default).
Proof.
  assert (rescuable rescue_ic rescue_t 21 MagicContext_default) as Hs.
  { split; try reflexivity; try (by vm_compute). }
  pose proof (proj2 (proj2 (rescue_undelegates rescue_ic rescue_t 21 MagicContext_default false Hs))) as Hr.
  destruct (process_schedule_intent_bundle rescue_ic rescue_t rescue_args false) as [t'|e] eqn:E.
  - exists t'. exact (conj eq_refl Hr).
  - exfalso. vm_compute in E. discriminate E.
Defined.
End ConcreteRescue.
