(* ===== verification/LinkTakeover.v ===== *)
(** * Chainlink: taking a token account over

    A token account that exists in the validator as a Magic ATA is taken over when
    the delegated eATA of its owner and mint is projected onto it: [merge] of
    [cloner/ata.rs] adds the two. *)

From stdpp Require Import base gmap sets list strings.
From Stdlib Require Import ZArith Lia.
From S2P Require Import Prelude Intent Runtime TokenPrograms Link LinkConcrete.

Local Open Scope Z_scope.

(** A token account with another balance, and an approval that is its own or that of
    another account. *)
Definition rebalanced (a0 b0 a : TokenAccount) : Prop := exists n o m,
  a = with_amount n (with_allowance o m a0)
  /\ 0 <= n <= u64_max /\ 0 <= m <= u64_max /\ (o = ta_delegate a0 \/ o = ta_delegate b0).

(** What the code relies on of the token library: the layout of the first 72 bytes, the
    exact length and the widths of a legacy account, and that what is packed over an
    account is what it then holds. *)
Class TokenMergeLaws `{TokenEnv} := {
  merge_spl_layout : token_layout spl_unpack;
  merge_t22_layout : token_layout t22_unpack;
  spl_unpack_bounds d a : spl_unpack d = Some a ->
    length d = SPL_ACCOUNT_LEN /\ 0 <= ta_amount a <= u64_max /\ 0 <= ta_delegated_amount a <= u64_max;
  spl_pack_rebalanced d e a0 b0 a d' :
    spl_unpack d = Some a0 -> spl_unpack e = Some b0 -> rebalanced a0 b0 a ->
    spl_pack a d = Some d' -> spl_unpack d' = Some a }.

(** What a delegate can spend. *)
Definition spendable (a : TokenAccount) : Z := Z.min (ta_amount a) (ta_delegated_amount a).

(** The approval of the merged account: the only one, or the sum of what can be spent. *)
Definition merged_approval (l p m : TokenAccount) : Prop :=
  match ta_delegate l, ta_delegate p with
  | None, _ => ta_delegate m = ta_delegate p /\ ta_delegated_amount m = ta_delegated_amount p
  | Some d, None => ta_delegate m = Some d /\ ta_delegated_amount m = ta_delegated_amount l
  | Some d, Some d' => d = d' /\ ta_delegate m = Some d /\ spendable m = spendable l + spendable p
  end.

Section takeover.
Context `{TokenEnv} `{LinkApi} `{!TokenMergeLaws}.

Lemma unpack_token_spec d a : unpack_token d = Some a ->
  spl_unpack (take SPL_ACCOUNT_LEN d) = Some a /\ (SPL_ACCOUNT_LEN <= length d)%nat
  /\ ta_mint a = key_of_bytes (slice 0 32 d) /\ ta_owner a = key_of_bytes (slice 32 64 d)
  /\ ta_amount a = from_le_bytes (slice 64 72 d).
Proof.
  unfold unpack_token, get_slice. case_decide as Hl; [|done]. unfold slice at 1. rewrite drop_0, Nat.sub_0_r.
  cbn [mbind option_bind]. intros Hu. pose proof (merge_spl_layout _ _ Hu) as (_ & Hm & Ho & Ha).
  split_and!; [done|done|..]; (rewrite Hm || rewrite Ho || rewrite Ha); unfold slice, SPL_ACCOUNT_LEN;
    f_equal; rewrite skipn_firstn_comm, take_take; f_equal; lia.
Qed.

Lemma parse_layout o d a : parse_token_account_for_magic_ata o d = Some a ->
  tc_mint a = key_of_bytes (slice 0 32 d) /\ tc_owner a = key_of_bytes (slice 32 64 d)
  /\ tc_amount a = from_le_bytes (slice 64 72 d).
Proof.
  unfold parse_token_account_for_magic_ata. repeat case_decide; [| |done].
  - destruct (spl_unpack d) as [x|] eqn:E; [|done]. intros [= <-]. by apply merge_spl_layout in E as (_ & ?).
  - destruct (t22_unpack d) as [x|] eqn:E; [|done]. intros [= <-]. by apply merge_t22_layout in E as (_ & ?).
Qed.

Lemma magic_ata_spec k a i : try_get_magic_ata_info k a = Some i ->
  sa_mode a = Magic /\ mai_token_program i = sa_owner a
  /\ mai_mint i = key_of_bytes (slice 0 32 (sa_data a))
  /\ mai_wallet_owner i = key_of_bytes (slice 32 64 (sa_data a))
  /\ mai_amount i = from_le_bytes (slice 64 72 (sa_data a))
  /\ k = derive_ata_with_token_program (mai_wallet_owner i) (mai_mint i) (sa_owner a).
Proof.
  unfold try_get_magic_ata_info. case_decide as Hm; [done|].
  destruct (parse_token_account_for_magic_ata _ _) as [c|] eqn:E; [|done]. cbn [mbind option_bind].
  apply parse_layout in E as (E1 & E2 & E3). repeat case_decide; try done. intros [= <-]. cbn.
  split_and!; try done; by apply dec_stable.
Qed.

Lemma merged_allowance_spec l p o n amount :
  0 <= ta_amount l -> 0 <= ta_amount p -> amount = ta_amount p + ta_amount l ->
  0 <= ta_delegated_amount l <= u64_max -> 0 <= ta_delegated_amount p <= u64_max ->
  merged_allowance l p = Ok (o, n) ->
  0 <= n <= u64_max /\ (o = ta_delegate p \/ o = ta_delegate l)
  /\ merged_approval l p (with_amount amount (with_allowance o n p)).
Proof.
  unfold merged_allowance, merged_approval, spendable. intros ? ? -> ? ?.
  destruct (ta_delegate l) as [a|] eqn:El; [destruct (ta_delegate p) as [b|] eqn:Ep|].
  - case_decide as Hab; [|done]. intros (x & [Hx ->]%ok_or_Ok%checked_add_Some & [= <- <-])%res_bind_Ok.
    cbn. split_and!; [lia|lia|auto|done|done|lia].
  - intros [= <- <-]. cbn. auto.
  - intros [= <- <-]. cbn. auto.
Qed.

(** C21: a takeover keeps funds and approvals. When a Magic ATA is merged with the
    projection of the delegated eATA, both are token accounts of the same mint and wallet,
    the merged account holds the sum of the two balances, without overflow, and is
    otherwise the projection. A delegate approved on one side keeps its approved amount; a
    delegate approved on both can spend the sum of what it could spend on each. Two
    different delegates, and funds taken over from or into a frozen account, are
    refused. *)
Theorem takeover_keeps_funds k local projection merged :
  merge k local projection = Ok merged ->
  exists l p m,
    unpack_token (sa_data local) = Some l /\ unpack_token (sa_data projection) = Some p
    /\ unpack_token (sa_data merged) = Some m
    /\ sa_mode local = Magic /\ sa_owner local = sa_owner projection
    /\ k = derive_ata_with_token_program (ta_owner l) (ta_mint l) (sa_owner projection)
    /\ ta_mint l = ta_mint p /\ ta_owner l = ta_owner p
    /\ m = with_amount (ta_amount l + ta_amount p)
             (with_allowance (ta_delegate m) (ta_delegated_amount m) p)
    /\ ta_amount l + ta_amount p <= u64_max
    /\ merged_approval l p m
    /\ (0 < ta_amount l -> is_frozen l = false /\ is_frozen p = false)
    /\ merged = with_data (sa_data merged) projection
    /\ drop SPL_ACCOUNT_LEN (sa_data merged) = drop SPL_ACCOUNT_LEN (sa_data projection).
Proof.
  unfold merge. intros (i & Hi%ok_or_Ok & Hm)%res_bind_Ok.
  destruct (try_get_magic_ata_info k local) as [i'|] eqn:Ei; [|done]. cbn [mbind option_bind] in Hi.
  case_decide as Hp; [|done]. injection Hi as ->.
  apply magic_ata_spec in Ei as (Hmode & Etp & Emint & Eown & Eam & Hk).
  apply res_bind_Ok in Hm as (l & Hl%ok_or_Ok & Hm). apply res_bind_Ok in Hm as (p & Hpr%ok_or_Ok & Hm).
  destruct (unpack_token_spec _ _ Hl) as (Ul & _ & Lm & Lo & La).
  destruct (unpack_token_spec _ _ Hpr) as (Up & Pl & _).
  destruct (spl_unpack_bounds _ _ Ul) as (_ & Bl & Dl). destruct (spl_unpack_bounds _ _ Up) as (_ & Bp & Dp).
  rewrite <- Lm in Emint. rewrite <- Lo in Eown. rewrite <- La in Eam.
  case_decide as Hsame; [done|]. destruct (_ && _) eqn:Hfr; [done|].
  apply res_bind_Ok in Hm as ([o n] & Ha & Hm).
  apply res_bind_Ok in Hm as (amount & [Hov ->]%ok_or_Ok%checked_add_Some & Hm). rewrite Eam in Hov, Hm.
  apply res_bind_Ok in Hm as (packed & Hpk%ok_or_Ok & [= <-]).
  destruct (merged_allowance_spec l p o n (ta_amount p + ta_amount l)) as (Bn & Hor & Happ); try (lia || done).
  set (m := with_amount _ _) in *.
  assert (spl_unpack packed = Some m) as Hum.
  { eapply spl_pack_rebalanced; [exact Up|exact Ul| |exact Hpk]. exists (ta_amount p + ta_amount l), o, n.
    split_and!; (done || lia). }
  pose proof (proj1 (spl_unpack_bounds _ _ Hum)) as Hlen.
  assert (ta_mint p = ta_mint l /\ ta_owner p = ta_owner l) as [Hmint Hown].
  { rewrite <- Emint, <- Eown. split; apply dec_stable; intros Hne; apply Hsame; auto. }
  exists l, p, m. split_and!; try done; try congruence.
  - unfold unpack_token, get_slice. cbn [sa_data with_data]. rewrite decide_True by (rewrite length_app; lia).
    unfold slice. rewrite drop_0, Nat.sub_0_r. cbn [mbind option_bind].
    rewrite take_app_length' by done. done.
  - unfold m. by rewrite (Z.add_comm (ta_amount l)).
  - lia.
  - rewrite Eam in Hfr. intros Hpos. rewrite (bool_decide_true (0 < ta_amount l)) in Hfr by done.
    cbn [andb] in Hfr. by apply orb_false_iff in Hfr.
  - cbn [sa_data with_data]. by rewrite drop_app_length' by done.
Qed.
End takeover.

(** ** The legacy layout

    A token account of 165 bytes, as the token program lays it out. *)

Module ConcreteSpl.

Definition option_bytes (n : nat) (o : option Z) : list Z :=
  match o with
  | Some x => to_le_bytes 4 1 ++ to_le_bytes n x
  | None => replicate (4 + n) 0
  end.
Definition option_of_bytes (n : nat) (d : list Z) : option Z :=
  if decide (from_le_bytes (take 4 d) = 0) then None else Some (from_le_bytes (drop 4 d)).

Definition encoded (a : TokenAccount) : list (list Z) :=
  [key_bytes (ta_mint a); key_bytes (ta_owner a); to_le_bytes 8 (ta_amount a);
   option_bytes 32 (Z.of_N <$> ta_delegate a); to_le_bytes 1 (Z.of_N (ta_state a));
   option_bytes 8 (ta_is_native a); to_le_bytes 8 (ta_delegated_amount a);
   option_bytes 32 (Z.of_N <$> ta_close_authority a)].

Definition decoded (d : list Z) : TokenAccount :=
  mkTokenAccount (key_of_bytes (slice 0 32 d)) (key_of_bytes (slice 32 64 d))
    (from_le_bytes (slice 64 72 d)) (Z.to_N <$> option_of_bytes 32 (slice 72 108 d))
    (Z.to_N (from_le_bytes (slice 108 109 d))) (option_of_bytes 8 (slice 109 121 d))
    (from_le_bytes (slice 121 129 d)) (Z.to_N <$> option_of_bytes 32 (slice 129 165 d)).

Definition unpack (d : list Z) : option TokenAccount :=
  if decide (length d = SPL_ACCOUNT_LEN /\ concat (encoded (decoded d)) = d) then Some (decoded d) else None.
Definition pack (a : TokenAccount) (d : list Z) : option (list Z) :=
  if decide (length d = SPL_ACCOUNT_LEN) then Some (concat (encoded a)) else None.

#[export] Instance spl_env : TokenEnv := {|
  spl_unpack := unpack;
  spl_pack := pack;
  t22_unpack := unpack;
  t22_pack_base a d := default d (pack a d);
  native_mint := 3;
  native_mint_2022 := 4;
  find_program_address seeds p := (key_of_bytes (concat seeds), 254);
  try_find_program_address seeds p := Some (key_of_bytes (concat seeds), 254);
  minimum_balance n := 19 + Z.of_nat n |}.

Lemma option_bytes_length n o : length (option_bytes n o) = (4 + n)%nat.
Proof. destruct o; cbn -[to_le_bytes]; [by rewrite length_app, !to_le_bytes_length|by rewrite length_replicate]. Qed.

Lemma encoded_lengths a : map length (encoded a) = [32; 32; 8; 36; 1; 12; 8; 36]%nat.
Proof. cbn -[to_le_bytes option_bytes key_bytes]. by rewrite !key_bytes_length, !to_le_bytes_length, !option_bytes_length. Qed.

(** The pieces of a concatenation. *)
Lemma slice_concat (ls : list (list Z)) : forall i l, ls !! i = Some l ->
  let o := sum_list (map length (take i ls)) in slice o (o + length l) (concat ls) = l.
Proof.
  induction ls as [|x ls IH]; intros [|i] l; cbn; try done.
  - intros [= ->]. unfold slice. rewrite drop_0, Nat.sub_0_r. apply take_app_length.
  - intros Hl. specialize (IH i l Hl). cbn in IH. unfold slice in *.
    rewrite drop_app_ge by lia.
    replace (length x + sum_list (map length (take i ls)) - length x)%nat
      with (sum_list (map length (take i ls))) by lia.
    replace (length x + sum_list (map length (take i ls)) + length l
             - (length x + sum_list (map length (take i ls))))%nat with (length l) by lia.
    by replace (sum_list (map length (take i ls)) + length l - sum_list (map length (take i ls)))%nat
      with (length l) in IH by lia.
Qed.

Lemma slice_encoded a i l o n : encoded a !! i = Some l ->
  o = sum_list (take i [32; 32; 8; 36; 1; 12; 8; 36]%nat) -> n = (o + length l)%nat ->
  slice o n (concat (encoded a)) = l.
Proof.
  intros Hl -> ->. rewrite <- (encoded_lengths a), firstn_map. by apply slice_concat.
Qed.

(** Writing a field and reading it back. *)
Definition reread_option (n : nat) (o : option Z) : option Z := option_of_bytes n (option_bytes n o).
Definition reread (a : TokenAccount) : TokenAccount :=
  mkTokenAccount (key_of_bytes (key_bytes (ta_mint a))) (key_of_bytes (key_bytes (ta_owner a)))
    (from_le_bytes (to_le_bytes 8 (ta_amount a)))
    (Z.to_N <$> reread_option 32 (Z.of_N <$> ta_delegate a))
    (Z.to_N (from_le_bytes (to_le_bytes 1 (Z.of_N (ta_state a)))))
    (reread_option 8 (ta_is_native a)) (from_le_bytes (to_le_bytes 8 (ta_delegated_amount a)))
    (Z.to_N <$> reread_option 32 (Z.of_N <$> ta_close_authority a)).

Lemma decoded_encoded a : decoded (concat (encoded a)) = reread a.
Proof.
  unfold decoded, reread, reread_option.
  rewrite (slice_encoded a 0 (key_bytes (ta_mint a)) 0 32) by (rewrite ?key_bytes_length; reflexivity).
  rewrite (slice_encoded a 1 (key_bytes (ta_owner a)) 32 64) by (rewrite ?key_bytes_length; reflexivity).
  rewrite (slice_encoded a 2 (to_le_bytes 8 (ta_amount a)) 64 72) by (rewrite ?to_le_bytes_length; reflexivity).
  rewrite (slice_encoded a 3 (option_bytes 32 (Z.of_N <$> ta_delegate a)) 72 108)
    by (rewrite ?option_bytes_length; reflexivity).
  rewrite (slice_encoded a 4 (to_le_bytes 1 (Z.of_N (ta_state a))) 108 109)
    by (rewrite ?to_le_bytes_length; reflexivity).
  rewrite (slice_encoded a 5 (option_bytes 8 (ta_is_native a)) 109 121)
    by (rewrite ?option_bytes_length; reflexivity).
  rewrite (slice_encoded a 6 (to_le_bytes 8 (ta_delegated_amount a)) 121 129)
    by (rewrite ?to_le_bytes_length; reflexivity).
  by rewrite (slice_encoded a 7 (option_bytes 32 (Z.of_N <$> ta_close_authority a)) 129 165)
    by (rewrite ?option_bytes_length; reflexivity).
Qed.

Lemma encoded_length a : length (concat (encoded a)) = SPL_ACCOUNT_LEN.
Proof. rewrite length_concat. by rewrite encoded_lengths. Qed.

Lemma unpack_spec d a : unpack d = Some a -> length d = SPL_ACCOUNT_LEN /\ a = decoded d /\ reread a = a.
Proof.
  unfold unpack. case_decide as Hd; [|done]. intros [= <-]. destruct Hd as [Hl E].
  split_and!; [done..|]. by rewrite <- decoded_encoded, E.
Qed.

Lemma unpack_pack a : reread a = a -> unpack (concat (encoded a)) = Some a.
Proof.
  intros Ha. unfold unpack. rewrite decoded_encoded, Ha, decide_True; [done|].
  split; [apply encoded_length|done].
Qed.

Lemma le_bytes_range n x : 0 <= from_le_bytes (to_le_bytes n x) < 256 ^ Z.of_nat n.
Proof.
  revert x. induction n as [|n IH]; intros x; cbn [to_le_bytes from_le_bytes]; [done|].
  rewrite Nat2Z.inj_succ, Z.pow_succ_r by lia. specialize (IH (x / 256)).
  pose proof (Z.mod_pos_bound x 256). lia.
Qed.

Lemma reread_rebalanced a0 b0 a : reread a0 = a0 -> reread b0 = b0 -> rebalanced a0 b0 a -> reread a = a.
Proof.
  intros H0 H1 (n & o & m & -> & Hn & Hm & Ho).
  unfold reread, with_amount, with_allowance in *.
  cbn [ta_mint ta_owner ta_amount ta_delegate ta_state ta_is_native ta_delegated_amount ta_close_authority].
  rewrite (from_to_le_bytes 8 n), (from_to_le_bytes 8 m)
    by (change (256 ^ Z.of_nat 8) with (u64_max + 1); lia).
  apply (f_equal ta_delegate) in H1. pose proof (f_equal ta_delegate H0) as Hd0.
  pose proof (f_equal ta_mint H0). pose proof (f_equal ta_owner H0). pose proof (f_equal ta_state H0).
  pose proof (f_equal ta_is_native H0). pose proof (f_equal ta_close_authority H0).
  cbn [ta_mint ta_owner ta_delegate ta_state ta_is_native ta_close_authority] in *.
  f_equal; try done. by destruct Ho as [-> | ->].
Qed.

Lemma unpack_layout : token_layout unpack.
Proof.
  intros d a (Hl & -> & _)%unpack_spec. unfold SPL_ACCOUNT_LEN in Hl. split_and!; [lia|done..].
Qed.

#[export] Instance spl_merge_laws : TokenMergeLaws.
Proof.
  split; [exact unpack_layout|exact unpack_layout|..].
  - intros d a (Hl & _ & Ha)%unpack_spec. split; [done|].
    pose proof (le_bytes_range 8 (ta_amount a)). pose proof (le_bytes_range 8 (ta_delegated_amount a)).
    pose proof (f_equal ta_amount Ha) as E1. pose proof (f_equal ta_delegated_amount Ha) as E2.
    cbn [ta_amount ta_delegated_amount reread] in E1, E2.
    change (256 ^ Z.of_nat 8) with (u64_max + 1) in *. lia.
  - intros d e a0 b0 a d' (Hl & _ & H0)%unpack_spec (_ & _ & H1)%unpack_spec Hr. cbn [spl_pack spl_env].
    unfold pack. case_decide; [|done]. intros [= <-].
    apply unpack_pack. exact (reread_rebalanced a0 b0 a H0 H1 Hr).
Qed.

(** The wallet 8 holds 30 of mint 9 in the validator and 12 on the base layer, and
    approved the delegate 6 for 10 and for 50. *)
Definition wallet (amount approved : Z) (close : option Pubkey) : TokenAccount :=
  mkTokenAccount 9 8 amount (Some 6%N) 1 None approved close.
Definition ata_key : Pubkey := derive_ata_with_token_program 8 9 TOKEN_PROGRAM_ID.
Definition token_image (mode : AccountMode) (a : TokenAccount) : SharedAccount :=
  mkSharedAccount 5 (concat (encoded a)) TOKEN_PROGRAM_ID mode false 40 0 false 0.
Definition held : SharedAccount := token_image Magic (wallet 30 10 (Some MAGIC_ATA_CLOSE_AUTHORITY)).
Definition incoming : SharedAccount := token_image Delegated (wallet 12 50 (Some 0%N)).
Definition taken_over : SharedAccount :=
  match merge ata_key held incoming with Ok a => a | Err _ => no_account end.

Lemma takeover_keeps_funds_witness : exists m,
  unpack_token (sa_data taken_over) = Some m /\ ta_amount m = 42 /\ spendable m = 22.
Proof.
  assert (merge ata_key held incoming = Ok taken_over) as E by (vm_compute; reflexivity).
  destruct (takeover_keeps_funds ata_key held incoming taken_over E)
    as (l & p & m & Hl & Hp & Hm & _ & _ & _ & _ & _ & Em & _ & Ha & _).
  exists m. vm_compute in Hl, Hp. injection Hl as <-. injection Hp as <-.
  split; [exact Hm|]. split; [rewrite Em; reflexivity|exact (proj2 (proj2 Ha))].
Defined.
End ConcreteSpl.
