(* ===== verification/LinkErrors.v ===== *)
(** * Chainlink: subscriptions on error paths

    Chainlink acquires a subscription with a reason and releases it with the same
    reason. What is still held after a failure. *)

From stdpp Require Import base gmap sets list strings.
From Stdlib Require Import ZArith Lia.
From S2P Require Import Prelude Intent Runtime TokenPrograms Process Link LinkResolve LinkClient.
From S2P Require Import LinkPipeline LinkLogic LinkUpdate LinkConcrete.

Section subscriptions.
Context `{TokenEnv} `{LinkApi} `{LinkEnv}.
Abbreviation P A := (Proc LEvent Caches A).

(** What an event does to the count of a subscription: an acquisition counts if the
    provider confirmed it, a release once it is asked for. *)
Definition delta (k : Pubkey) (reason : SubscriptionReason) (ev : LEvent) : Z :=
  match ev with
  | LSub (Acquire k' reason') (Some (Ok _)) => if decide (k' = k /\ reason' = reason) then 1 else 0
  | LSub (Release k' reason') (Some _) => if decide (k' = k /\ reason' = reason) then -1 else 0
  | _ => 0
  end.
Definition holds (h : list LEvent) (k : Pubkey) (reason : SubscriptionReason) : Z :=
  foldr (fun ev n => delta k reason ev + n)%Z 0%Z h.

Definition count (k : Pubkey) (ks : list Pubkey) : Z := Z.of_nat (length (filter (fun x => x = k) ks)).

Lemma holds_app h h' k reason : holds (h ++ h') k reason = (holds h k reason + holds h' k reason)%Z.
Proof. unfold holds. induction h as [|ev h IH]; cbn; [done|]. rewrite IH. lia. Qed.

Lemma count_app k l l' : count k (l ++ l') = (count k l + count k l')%Z.
Proof. unfold count. rewrite filter_app, length_app. lia. Qed.
Lemma count_nil k : count k [] = 0%Z.
Proof. done. Qed.
Lemma count_one k x : count k [x] = (if decide (x = k) then 1 else 0)%Z.
Proof. unfold count. cbn. by case_decide. Qed.

Abbreviation any := (fun (_ : list LEvent) (_ : LEvent) => True).
Abbreviation triple := (triple any).

Lemma subscription_spec c h :
  triple (subscription c) h (fun r h' => h' = h ++ [LSub c (Some r)]).
Proof. apply triple_lawait; [done|]. by intros a _. Qed.

Lemma release_subs_spec reason ks h k reason' :
  triple (release_subs (releases_for reason ks)) h (fun _ h' =>
    holds h' k reason' = holds h k reason' - if decide (reason = reason') then count k ks else 0)%Z.
Proof.
  revert h. induction ks as [|x ks IH]; intros h; cbn.
  { apply triple_ret. rewrite count_nil. case_decide; lia. }
  eapply triple_bind; [apply subscription_spec|]. intros r h1 _ E. cbn beta in E. subst h1.
  eapply triple_mono; [apply IH|]. intros [] h2 _ E. cbn beta in E. rewrite E, holds_app.
  change (x :: ks) with ([x] ++ ks). rewrite count_app, count_one. cbn.
  repeat case_decide; naive_solver lia.
Qed.

Lemma acquire_each_spec reason ks h0 k reason' : forall acquired h,
  holds h k reason' = (holds h0 k reason' + if decide (reason = reason') then count k acquired else 0)%Z ->
  triple (acquire_each acquired ks reason) h (fun r h' =>
    holds h' k reason' = holds h0 k reason' +
      match r with
      | Ok _ => if decide (reason = reason') then count k (acquired ++ ks) else 0
      | Err _ => 0
      end)%Z.
Proof.
  induction ks as [|x ks IH]; intros acquired h Hh; cbn [acquire_each].
  { apply triple_ret. by rewrite app_nil_r. }
  eapply triple_bind; [apply subscription_spec|]. intros r h1 _ E. cbn beta in E. subst h1.
  destruct r as [u|e].
  - eapply triple_mono; [apply IH|].
    + rewrite holds_app, Hh, count_app, count_one. cbn. repeat case_decide; naive_solver lia.
    + intros r h' _ E. cbn beta in E. by rewrite <- app_assoc in E.
  - eapply triple_bind; [apply release_subs_spec|]. intros [] h2 _ E. cbn beta in E.
    apply triple_ret. rewrite E, holds_app, Hh. cbn. case_decide; lia.
Qed.

Lemma release_subs_grows ks h : triple (release_subs ks) h (fun _ _ => True).
Proof.
  revert h. induction ks as [|[x reason] ks IH]; intros h; cbn; [by apply triple_ret|].
  eapply triple_bind; [apply subscription_spec|]. intros. apply IH.
Qed.

Lemma acquire_each_error reason ks : forall acquired h,
  triple (acquire_each acquired ks reason) h (fun r h' => forall e, r = Err e -> exists k err,
    e = FailedToSubscribeToAccount k err /\ k ∈ ks
    /\ LSub (Acquire k reason) (Some (Err err)) ∈ h').
Proof.
  induction ks as [|x ks IH]; intros acquired h; cbn [acquire_each]; [by apply triple_ret|].
  eapply triple_bind; [apply subscription_spec|]. intros r h1 _ E. cbn beta in E. subst h1.
  destruct r as [u|e].
  - eapply triple_mono; [apply IH|]. intros r h2 _ Hr e He. destruct (Hr e He) as (k & err & ? & ? & ?).
    exists k, err. set_solver.
  - eapply triple_bind; [apply release_subs_grows|]. intros [] h2 Hp _. apply triple_ret.
    intros ? [= <-]. exists x, e. split_and!; [done|set_solver|].
    destruct Hp as [t ->]. set_solver.
Qed.

(** acquiring a list of subscriptions is all or nothing. If it succeeds, each key is
    held once more for every time it is listed, with this reason; if the provider refuses
    one, the error names that refusal and every count is what it was before. Nothing else
    is acquired or released. *)
Theorem acquire_subs_all_or_nothing ks reason w r w' :
  acquire_subs ks reason w = Done r w' ->
  (forall k reason', holds (history w') k reason' = holds (history w) k reason' +
     match r with
     | Ok _ => if decide (reason = reason') then count k ks else 0
     | Err _ => 0
     end)%Z
  /\ (forall e, r = Err e -> exists k err, e = FailedToSubscribeToAccount k err /\ k ∈ ks
        /\ LSub (Acquire k reason) (Some (Err err)) ∈ history w').
Proof.
  intros Hw. split.
  - intros k reason'.
    pose proof (acquire_each_spec reason ks (history w) k reason' [] (history w)) as Ht.
    specialize (Ht ltac:(rewrite count_nil; case_decide; lia) w eq_refl). unfold acquire_subs in Hw. rewrite Hw in Ht.
    destruct Ht as (_ & _ & E); [done|]. exact E.
  - intros e ->. pose proof (acquire_each_error reason ks [] (history w) w eq_refl) as Ht.
    unfold acquire_subs in Hw. rewrite Hw in Ht. destruct Ht as (_ & _ & E); [done|]. by apply E.
Qed.
End subscriptions.

Module ConcreteErrors.
Import ConcreteLink.
Local Open Scope Z_scope.

(** Program 21 has its data at 4021; program 22 has no loader state. *)
Definition program (owner : Pubkey) (data : list Z) : SharedAccount :=
  mkSharedAccount 10 data owner Mirrored false 50 0 true 0.
Definition two_programs (k : Pubkey) : RemoteAccount :=
  if N.eqb k 21 then found (program LOADER_V3 [1])
  else if N.eqb k 4021 then found (program LOADER_V3 [3; 9])
  else if N.eqb k 22 then found (program LOADER_V4 [])
  else NotFound 60.
Definition programs_link : LinkEnv := link_env two_programs None.

Lemma acquire_subs_all_or_nothing_witness : exists w',
  @acquire_subs _ programs_link [21%N; 22%N] ProgramDataReason (mkWorld caches [] 10) = Done (Ok tt) w'
  /\ holds (history w') 21 ProgramDataReason = 1.
Proof.
  destruct (@acquire_subs _ programs_link [21%N; 22%N] ProgramDataReason (mkWorld caches [] 10))
    as [r w'|i w'|] eqn:E; [|discriminate E..].
  assert (r = Ok tt) as -> by (vm_compute in E; injection E as <- _; reflexivity).
  exists w'. split; [reflexivity|].
  exact (proj1 (acquire_subs_all_or_nothing _ _ _ _ _ E) 21%N ProgramDataReason).
Defined.

(** A request that fails because one program cannot be decoded keeps the subscription
    to the program data of the others: the count of account 4021 is 1 after the error, and
    no later event of the request releases it. *)
Theorem failed_program_load_keeps_subscription :
  exists e w, @ensure_accounts _ _ _ programs_link [21%N; 22%N] (mkWorld caches [] 100) = Done (Err e) w
  /\ holds (history w) 4021 ProgramDataReason = 1.
Proof.
  eexists _, _. split; vm_compute; reflexivity.
Qed.
End ConcreteErrors.
