(* ===== verification/LinkCycle.v ===== *)
(** * Chainlink: actions that need each other

    Two delegated accounts whose actions name each other, read-only: cloning the one
    first fetches and clones the other, which first fetches and clones the one. *)

From stdpp Require Import base gmap sets list strings.
From Stdlib Require Import ZArith Lia.
From S2P Require Import Prelude Intent Runtime TokenPrograms Limits Process Link LinkResolve LinkClient.
From S2P Require Import FetchCloner LinkPipeline LinkClone LinkLogic LinkTotal LinkConcrete.

(** ** Processes that do not return

    [stuck m]: [m] never returns; it stops only with the validator. *)

Section stuck.
Context {Ev St : Type}.
Abbreviation P A := (Proc Ev St A).

Definition stuck {A} (m : P A) : Prop := forall w,
  match m w with Done _ _ => False | Interrupted i _ => i = Stopped | OutOfFuel => True end.

Lemma stuck_bind {A B} (m : P A) (k : A -> P B) : stuck m -> stuck (pbind m k).
Proof. intros Hm w. unfold pbind. specialize (Hm w). by destruct (m w). Qed.
Lemma stuck_assoc {A B C} (m : P A) (k : A -> P B) (k' : B -> P C) :
  stuck (pbind m (fun a => pbind (k a) k')) -> stuck (pbind (pbind m k) k').
Proof. intros Hs w. specialize (Hs w). unfold pbind in *. by destruct (m w). Qed.
Lemma stuck_ret {A B} (a : A) (k : A -> P B) : stuck (k a) -> stuck (pbind (pret a) k).
Proof. intros Hs w. apply Hs. Qed.
Lemma stuck_modify {B} f (k : unit -> P B) : stuck (k tt) -> stuck (pbind (pmodify f) k).
Proof. intros Hs w. apply Hs. Qed.
Lemma stuck_call {A B} (ask : list Ev -> A) log (k : A -> P B) a :
  (forall h, ask h = a) -> stuck (k a) -> stuck (pbind (call ask log) k).
Proof. intros Ha Hs w. unfold pbind, call. rewrite Ha. apply Hs. Qed.
Lemma stuck_await {A B} (ask : list Ev -> answer A) log (k : A -> P B) a :
  (forall h, ask h = Answer a) -> stuck (k a) -> stuck (pbind (await ask log) k).
Proof.
  intros Ha Hs w. unfold pbind, await. destruct (awaits w); [done|]. rewrite Ha. apply Hs.
Qed.
Lemma stuck_function {B} (f : World Ev St -> World Ev St) (k : unit -> P B) :
  stuck (k tt) -> stuck (pbind (fun w => Done tt (f w)) k).
Proof. intros Hs w. apply Hs. Qed.
End stuck.

Lemma stuck_yield `{LinkEnv} {B} (k : unit -> Proc LEvent Caches B) : stuck (k tt) -> stuck (pbind yield k).
Proof. intros Hs w. apply Hs. Qed.

Module Cycle.
Import ConcreteLink.
Local Open Scope Z_scope.

(** Accounts 21 and 22, each with an action that names the other one. *)
Definition two_accounts (k : Pubkey) : RemoteAccount :=
  if N.eqb k 21 || N.eqb k 22 then found (dlp_account [1])
  else if N.eqb k 1021 then found (dlp_account [5; 8; 40; 22; 0])
  else if N.eqb k 1022 then found (dlp_account [5; 8; 40; 21; 0])
  else if N.eqb k 2021 || N.eqb k 2022 then found (dlp_account [9; 0])
  else NotFound 60.

#[local] Instance cyclic : LinkEnv := link_env two_accounts None.

(** The request that Chainlink makes for such an account. *)
Definition request (k other : Pubkey) : AccountCloneRequest :=
  mkAccountCloneRequest k (mkSharedAccount 10 [1] 8 Delegated false 40 0 false 0)
    (ExecuteActions (mkDelegationActions 8 [mkInstruction 7 [mkIxMeta other false false] []]))
    None (Some (slots_single 50)).

#[local] Opaque pbind pret pmodify call await yield.

Ltac run_head m := let m' := eval hnf in m in progress change m with m'.
Ltac evaluate t := let v := eval vm_compute in t in progress change t with v.
Ltac run_decide b d :=
  let v := eval vm_compute in (@bool_decide b d) in
  lazymatch v with
  | true => destruct (@decide b d) as [_|Hd];
            [|exfalso; apply Hd, (@bool_decide_unpack b d); vm_compute; exact I]
  | false => destruct (@decide b d) as [Hd|_];
             [exfalso; apply (@bool_decide_pack b d) in Hd; vm_compute in Hd; exact Hd|]
  end.
(** Sets and decisions do not reduce by themselves. *)
Ltac run_sets m :=
  match m with
  | context [elements ?x] => evaluate (elements x)
  | context [is_nil ?l] => evaluate (is_nil l)
  | context [bool_decide ?b] => evaluate (bool_decide b)
  | context [filter ?b ?l] => evaluate (filter b l)
  | context [@decide ?b ?d] => run_decide b d
  end.
Ltac run_args m :=
  lazymatch m with
  | ?f ?x =>
      first
        [ let t := type of x in
          lazymatch t with
          | _ -> _ => fail
          | Type => fail
          | Proc _ _ _ => fail
          | _ => evaluate x
          end
        | run_args f ]
  end.
Ltac run :=
  lazymatch goal with
  | |- stuck (pbind (pret ?a) _) => try evaluate a; apply stuck_ret
  | |- stuck (pbind (pmodify _) _) => apply stuck_modify
  | |- stuck (pbind yield _) => apply stuck_yield
  | |- stuck (pbind (pbind _ _) _) => apply stuck_assoc
  | |- stuck (pbind (call ?ask _) _) =>
      let a := eval vm_compute in (ask []) in
      apply (stuck_call _ _ _ a); [intros ?h; vm_compute; reflexivity|]
  | |- stuck (pbind (await ?ask _) _) =>
      let r := eval vm_compute in (ask []) in
      lazymatch r with Answer ?a => apply (stuck_await _ _ _ a); [intros ?h; vm_compute; reflexivity|] end
  | |- stuck (pbind ?m _) => first [run_head m | run_args m | run_sets m]
  | |- stuck ?m => run_head m
  end.

Section step.
Context (rec : AccountCloneRequest -> Proc LEvent Caches (LinkResult unit)).
Context (Hrec : forall r, r = request 21 22 \/ r = request 22 21 -> stuck (rec r)).

Lemma stuck_rec {B} r (k : LinkResult unit -> Proc LEvent Caches B) :
  r = request 21 22 \/ r = request 22 21 -> stuck (pbind (rec r) k).
Proof. intros Hr. by apply stuck_bind, Hrec. Qed.

Lemma stuck_body r : r = request 21 22 \/ r = request 22 21 -> stuck (clone_account_body rec r).
Proof.
  intros [-> | ->]; repeat run; apply stuck_rec; vm_compute; by (left + right).
Qed.
End step.

Lemma stuck_fuel n r : r = request 21 22 \/ r = request 22 21 -> stuck (clone_account_fuel n r).
Proof.
  revert r. induction n as [|n IH]; intros r Hr; [by intros w|]. by apply stuck_body.
Qed.
#[local] Transparent pbind pret pmodify call await yield.

(** C23: Two accounts delegated to this validator, absent here, whose actions name each
    other read-only: cloning one of them never returns. Each level of the recursion
    fetches both accounts again and starts cloning both again, until the validator
    stops. *)
Theorem cyclic_actions_never_settle n c h :
  exists w, clone_account (request 21 22) (mkWorld c h n) = Interrupted Stopped w.
Proof.
  pose proof (stuck_fuel (S n) (request 21 22) (or_introl eq_refl) (mkWorld c h n)) as Hs.
  destruct (total_clone_account (S n) (request 21 22)) as [_ Ht].
  specialize (Ht (mkWorld c h n)). unfold clone_account in *. cbn [awaits] in *.
  destruct (clone_account_fuel (S n) (request 21 22) (mkWorld c h n)) as [a w|i w|]; [done|subst i; by exists w|].
  destruct Ht; [lia|done].
Qed.
End Cycle.
