(* ===== verification/Concurrent.v ===== *)
(** * Futures that share a state

    Components whose tasks share state behind locks are modelled as futures run by an
    executor. A future is a tree: [Do] is a section without an [await], such as one
    under a synchronous mutex; [When] waits until a section is enabled, such as one
    behind an asynchronous mutex or a channel; [Ask] is a call to the outside world,
    with any answer; [Spawn] starts a detached job. [When] and [Ask] are [await]
    points: a future may be dropped there, and [drop] is what its guards do then.

    [Sys] is the shared state with the futures in flight. Any of them may take the
    next step, new jobs arrive at any time, and futures that belong to a request may
    be dropped. The file has three proof methods for such systems:
    - [safe], a rely-guarantee logic for a future in a changing state;
    - [discharges], which shows that every obligation in the state has a future that
      sees to it, however the system is scheduled and whoever is dropped;
    - [progress_terminates], that futures without new jobs come to an end. *)

From stdpp Require Import base list gmap sets relations.
From Stdlib Require Import Lia.
From S2P Require Import Prelude.

Section futures.
Context {St Job Call : Type} {Reply : Call -> Type}.

Inductive Future (A : Type) : Type :=
| Ready (a : A)
| Do {B : Type} (f : St -> St * B) (k : B -> Future A)
| When {B : Type} (drop : St -> St) (f : St -> option (St * B)) (k : B -> Future A)
| Ask (drop : St -> St) (c : Call) (k : Reply c -> Future A)
| Spawn (j : Job) (k : Future A).

Fixpoint fbind {A B} (m : Future A) (g : A -> Future B) : Future B :=
  match m with
  | Ready _ a => g a
  | Do _ f k => Do _ f (fun b => fbind (k b) g)
  | When _ drop f k => When _ drop f (fun b => fbind (k b) g)
  | Ask _ drop c k => Ask _ drop c (fun r => fbind (k r) g)
  | Spawn _ j k => Spawn _ j (fbind k g)
  end.

(** A guard in scope: [cleanup] runs after the guards inside it. *)
Fixpoint protect {A} (cleanup : St -> St) (m : Future A) : Future A :=
  match m with
  | Ready _ a => Ready _ a
  | Do _ f k => Do _ f (fun b => protect cleanup (k b))
  | When _ drop f k => When _ (fun s => cleanup (drop s)) f (fun b => protect cleanup (k b))
  | Ask _ drop c k => Ask _ (fun s => cleanup (drop s)) c (fun r => protect cleanup (k r))
  | Spawn _ j k => Spawn _ j (protect cleanup k)
  end.

Definition fdo {B} (f : St -> St * B) : Future B := Do _ f (Ready _).
Definition fget {B} (f : St -> B) : Future B := fdo (fun s => (s, f s)).
Definition fput (f : St -> St) : Future unit := fdo (fun s => (f s, tt)).
(** A section behind an asynchronous mutex no one holds at an [await]. *)
Definition fsection {B} (f : St -> St * B) : Future B := When _ id (fun s => Some (f s)) (Ready _).
Definition fwait {B} (f : St -> option (St * B)) : Future B := When _ id f (Ready _).
Definition fask (c : Call) : Future (Reply c) := Ask _ id c (Ready _).
Definition fspawn (j : Job) : Future unit := Spawn _ j (Ready _ tt).

(** ** Steps *)

Inductive moves {A} : Future A -> St -> St -> Future A -> list Job -> Prop :=
| moves_do {B} (f : St -> St * B) k s : moves (Do _ f k) s (fst (f s)) (k (snd (f s))) []
| moves_when {B} drop (f : St -> option (St * B)) k s s' b :
    f s = Some (s', b) -> moves (When _ drop f k) s s' (k b) []
| moves_ask drop c k s r : moves (Ask _ drop c k) s s (k r) []
| moves_spawn j k s : moves (Spawn _ j k) s s k [j].

(** What dropping a future does, where it can be dropped. *)
Definition dropped {A} (m : Future A) (s : St) : option St :=
  match m with
  | When _ drop _ _ | Ask _ drop _ _ => Some (drop s)
  | _ => None
  end.

Definition finished {A} (m : Future A) : Prop := match m with Ready _ _ => True | _ => False end.

(** [returns I m s a s']: from [s], with [I] in between its steps, [m] returns [a] in [s']. *)
Fixpoint returns {A} (I : St -> St -> Prop) (m : Future A) (s : St) (a : A) (s' : St) : Prop :=
  match m with
  | Ready _ b => a = b /\ I s s'
  | Do _ f k => exists s1, I s s1 /\ returns I (k (snd (f s1))) (fst (f s1)) a s'
  | When _ drop f k => exists s1 s2 b, I s s1 /\ f s1 = Some (s2, b) /\ returns I (k b) s2 a s'
  | Ask _ drop c k => exists s1 r, I s s1 /\ returns I (k r) s1 a s'
  | Spawn _ j k => exists s1, I s s1 /\ returns I k s1 a s'
  end.

(** The future by itself, where it is never blocked. *)
Fixpoint alone {A} (answer : forall c, Reply c) (m : Future A) (s : St) : option (A * St) :=
  match m with
  | Ready _ a => Some (a, s)
  | Do _ f k => alone answer (k (snd (f s))) (fst (f s))
  | When _ _ f k => match f s with Some (s', b) => alone answer (k b) s' | None => None end
  | Ask _ _ c k => alone answer (k (answer c)) s
  | Spawn _ _ k => alone answer k s
  end.
Lemma alone_returns {A} (I : St -> St -> Prop) `{!Reflexive I} answer (m : Future A) s a s' :
  alone answer m s = Some (a, s') -> returns I m s a s'.
Proof.
  revert s. induction m as [b|C f k IH|C drop f k IH|drop c k IH|j k IH]; intros s; cbn.
  - intros [= <- <-]. by split.
  - eauto.
  - destruct (f s) as [[s1 b]|] eqn:Hf; [|done]. eauto 10.
  - eauto.
  - eauto.
Qed.

Lemma returns_before {A} (I : St -> St -> Prop) `{!PreOrder I} (m : Future A) s1 s2 a s3 :
  I s1 s2 -> returns I m s2 a s3 -> returns I m s1 a s3.
Proof.
  intros HI. destruct m; cbn.
  - intros [-> ?]. split; [done|by etrans].
  - intros (s' & ? & ?). exists s'. split; [by etrans|done].
  - intros (s' & s'' & b & ? & ?). exists s', s'', b. split; [by etrans|done].
  - intros (s' & r & ? & ?). exists s', r. split; [by etrans|done].
  - intros (s' & ? & ?). exists s'. split; [by etrans|done].
Qed.

Lemma returns_bind {A B} (I : St -> St -> Prop) `{!PreOrder I} (m : Future A) (g : A -> Future B) s b s' :
  returns I (fbind m g) s b s' <-> exists a s1, returns I m s a s1 /\ returns I (g a) s1 b s'.
Proof.
  revert s. induction m as [a|C f k IH|C drop f k IH|drop c k IH|j k IH]; intros s; cbn.
  - split.
    + intros Hr. by exists a, s.
    + intros (a' & s1 & [-> HI] & Hr). by eapply returns_before.
  - setoid_rewrite IH. naive_solver.
  - setoid_rewrite IH. naive_solver.
  - setoid_rewrite IH. naive_solver.
  - setoid_rewrite IH. naive_solver.
Qed.

Lemma returns_after {A} (I : St -> St -> Prop) `{!PreOrder I} (m : Future A) s1 a s2 s3 :
  returns I m s1 a s2 -> I s2 s3 -> returns I m s1 a s3.
Proof.
  intros Hm HI. revert s1 Hm. induction m as [b|C f k IH|C drop f k IH|drop c k IH|j k IH]; intros s1; cbn.
  - intros [-> ?]. split; [done|by etrans].
  - intros (s' & ? & ?). eauto.
  - intros (s' & s'' & b & ? & ? & ?). eauto 10.
  - intros (s' & r & ? & ?). eauto.
  - intros (s' & ? & ?). eauto.
Qed.

Lemma returns_protect {A} (I : St -> St -> Prop) cleanup (m : Future A) s a s' :
  returns I (protect cleanup m) s a s' <-> returns I m s a s'.
Proof.
  revert s. induction m as [b|C f k IH|C drop f k IH|drop c k IH|j k IH]; intros s; cbn;
    [done|by setoid_rewrite IH..].
Qed.

(** Every section of the future, and dropping it, is a step [P]; its calls are in [C], it
    is blocked only where [B] holds and it starts no job. *)
Fixpoint frames {A} (P : St -> St -> Prop) (B : St -> Prop) (C : Call -> Prop) (m : Future A) : Prop :=
  match m with
  | Ready _ _ => True
  | Do _ f k => forall s, P s (fst (f s)) /\ frames P B C (k (snd (f s)))
  | When _ drop f k =>
      (forall s, P s (drop s)) /\ (forall s, f s = None -> B s) /\
      forall s s' b, f s = Some (s', b) -> P s s' /\ frames P B C (k b)
  | Ask _ drop c k => (forall s, P s (drop s)) /\ C c /\ forall r, frames P B C (k r)
  | Spawn _ _ _ => False
  end.

Lemma frames_bind {A B} P Bl C (m : Future A) (g : A -> Future B) :
  frames P Bl C m -> (forall a, frames P Bl C (g a)) -> frames P Bl C (fbind m g).
Proof. intros Hm Hg. induction m; cbn in Hm |- *; naive_solver. Qed.
Lemma returns_frames {A} (I R P : St -> St -> Prop) `{!PreOrder R} Bl C (m : Future A) s a s' :
  frames P Bl C m -> (forall s s', I s s' -> R s s') -> (forall s s', P s s' -> R s s') ->
  returns I m s a s' -> R s s'.
Proof.
  intros Hm HI HP. revert s. induction m as [b|X f k IH|X drop f k IH|drop c k IH|j k IH]; intros s; cbn in Hm |- *.
  - intros [_ ?]. auto.
  - intros (s1 & H1 & Hk). destruct (Hm s1) as [Hf Hm1]. apply IH in Hk; [|done]. etrans; [by apply HI|]. etrans; eauto.
  - intros (s1 & s2 & b & H1 & Hf & Hk). destruct Hm as (_ & _ & Hm). destruct (Hm _ _ _ Hf) as [HPs Hm1].
    apply IH in Hk; [|done]. etrans; [by apply HI|]. etrans; eauto.
  - intros (s1 & r & H1 & Hk). destruct Hm as (_ & _ & Hm). apply IH in Hk; [|done]. etrans; eauto.
  - done.
Qed.
Lemma frames_protect {A} (P : St -> St -> Prop) Bl C cleanup (m : Future A) :
  frames P Bl C m -> (forall s s', P s s' -> P s (cleanup s')) -> frames P Bl C (protect cleanup m).
Proof. intros Hm Hc. induction m; cbn in Hm |- *; naive_solver. Qed.
Lemma frames_do {A} (P : St -> St -> Prop) Bl C (f : St -> St * A) :
  (forall s, P s (fst (f s))) -> frames P Bl C (fdo f).
Proof. intros Hf s. split; [apply Hf|done]. Qed.
Lemma frames_put (P : St -> St -> Prop) Bl C f : (forall s, P s (f s)) -> frames P Bl C (fput f).
Proof. intros Hf. by apply frames_do. Qed.
Lemma frames_get {A} (P : St -> St -> Prop) `{!Reflexive P} Bl C (f : St -> A) : frames P Bl C (fget f).
Proof. by apply frames_do. Qed.
Lemma frames_section {A} (P : St -> St -> Prop) `{!Reflexive P} Bl C (f : St -> St * A) :
  (forall s, P s (fst (f s))) -> frames P Bl C (fsection f).
Proof.
  intros Hf. split_and!; [done|done|]. intros s s' b [= Heq]. split; [|done].
  specialize (Hf s). by rewrite Heq in Hf.
Qed.
Lemma frames_wait {A} (P : St -> St -> Prop) `{!Reflexive P} (Bl : St -> Prop) C (f : St -> option (St * A)) :
  (forall s, f s = None -> Bl s) -> (forall s s' b, f s = Some (s', b) -> P s s') -> frames P Bl C (fwait f).
Proof. intros Hb Hf. split_and!; [done|done|]. intros s s' b Heq. split; [by eapply Hf|done]. Qed.
Lemma frames_ask (P : St -> St -> Prop) `{!Reflexive P} Bl (C : Call -> Prop) c : C c -> frames P Bl C (fask c).
Proof. intros Hc. by split_and!. Qed.
Lemma frames_mono {A} (P P' : St -> St -> Prop) (Bl Bl' : St -> Prop) C (m : Future A) :
  frames P Bl C m -> (forall s s', P s s' -> P' s s') -> (forall s, Bl s -> Bl' s) -> frames P' Bl' C m.
Proof. intros Hm HP HB. induction m; cbn in Hm |- *; naive_solver. Qed.
End futures.

Arguments Future : clear implicits.
Arguments Ready {St Job Call Reply A} a.
Arguments Do {St Job Call Reply A B} f k.
Arguments When {St Job Call Reply A B} drop f k.
Arguments Ask {St Job Call Reply A} drop c k.
Arguments Spawn {St Job Call Reply A} j k.

(** Takes a future apart, down to its sections. *)
Ltac frames_step :=
  lazymatch goal with
  | |- frames _ _ _ (fbind _ _) => apply frames_bind; [|intros ?]
  | |- frames _ _ _ (fdo _) => apply frames_do; intros ?
  | |- frames _ _ _ (fput _) => apply frames_put; intros ?
  | |- frames _ _ _ (fget _) => apply frames_get; try apply _
  | |- frames _ _ _ (fsection _) => apply frames_section; [try apply _|intros ?]
  | |- frames ?P ?B ?C (fask ?c) => refine (frames_ask P B C c _); try done
  | |- frames _ _ _ (Ready _) => exact I
  | |- frames _ _ _ (match ?x with _ => _ end) => destruct x
  | |- frames _ _ _ _ => progress cbv zeta
  end.
Ltac frames_steps := repeat frames_step.

Declare Scope future_scope.
Delimit Scope future_scope with future.
Bind Scope future_scope with Future.
Notation "x ← m ; k" := (fbind m (fun x => k))
  (at level 20, m at level 100, k at level 200, right associativity) : future_scope.
Notation "m ;; k" := (fbind m (fun _ => k)) (at level 100, k at level 200, right associativity) : future_scope.

(** ** Systems *)

Section systems.
Context {St Job Call : Type} {Reply : Call -> Type}.
Abbreviation F A := (Future St Job Call Reply A).

(** What a job runs, and whether it belongs to a request that may be dropped. *)
Context (job : Job -> F unit) (droppable : Job -> bool).

Record Sys := mkSys {
  shared : St;
  futures : list (bool * F unit) }.

Definition launched (js : list Job) : list (bool * F unit) :=
  map (fun j => (droppable j, job j)) js.

(** A future takes a step. *)
Inductive progress : Sys -> Sys -> Prop :=
| progress_move i d m s ts s' m' js :
    ts !! i = Some (d, m) -> moves m s s' m' js ->
    progress (mkSys s ts) (mkSys s' (<[i := (d, m')]> ts ++ launched js)).

(** A job that [admitted] lets in arrives, or a request is dropped, if [drops]. *)
Inductive disturb (admitted : Job -> Prop) (drops : bool) : Sys -> Sys -> Prop :=
| disturb_start j s ts :
    admitted j -> disturb admitted drops (mkSys s ts) (mkSys s (ts ++ launched [j]))
| disturb_drop i m s ts s' :
    drops = true -> ts !! i = Some (true, m) -> dropped m s = Some s' ->
    disturb admitted drops (mkSys s ts) (mkSys s' (<[i := (true, Ready tt)]> ts)).

Inductive step (admitted : Job -> Prop) (drops : bool) : Sys -> Sys -> Prop :=
| step_progress a b : progress a b -> step admitted drops a b
| step_disturb a b : disturb admitted drops a b -> step admitted drops a b.

Definition reachable (admitted : Job -> Prop) (drops : bool) (s : St) : Sys -> Prop :=
  rtc (step admitted drops) (mkSys s []).

(** Where no future can take a step, each has finished or is blocked. *)
Lemma stuck_blocked y i d m :
  (forall c, inhabited (Reply c)) -> (forall y', ~ progress y y') -> futures y !! i = Some (d, m) ->
  finished m \/ exists B drop f k, m = @When St Job Call Reply unit B drop f k /\ f (shared y) = None.
Proof.
  intros Hrep Hstuck Hi. destruct y as [s ts]. cbn in *.
  assert (forall s' m' js, ~ moves m s s' m' js) as Hn.
  { intros s' m' js Hm. by eapply Hstuck, progress_move. }
  destruct m as [a|B f k|B drop f k|drop c k|j k].
  - by left.
  - by destruct (Hn _ _ _ (moves_do f k s)).
  - right. exists B, drop, f, k. split; [done|]. destruct (f s) as [[s' b]|] eqn:Hf; [|done].
    by destruct (Hn _ _ _ (moves_when drop f k s s' b Hf)).
  - destruct (Hrep c) as [r]. by destruct (Hn _ _ _ (moves_ask drop c k s r)).
  - by destruct (Hn _ _ _ (moves_spawn j k s)).
Qed.

(** A schedule, with the answers to calls: an executable step. *)
Inductive choice :=
| Run (i : nat) (answer : forall c, Reply c)
| Abandon (i : nat)
| Start (j : Job).

Definition exec_move {A} (m : F A) (answer : forall c, Reply c) (s : St) : option (St * F A * list Job) :=
  match m with
  | Ready _ => None
  | Do f k => Some (fst (f s), k (snd (f s)), [])
  | When _ f k => match f s with Some (s', b) => Some (s', k b, []) | None => None end
  | Ask _ c k => Some (s, k (answer c), [])
  | Spawn j k => Some (s, k, [j])
  end.

Definition exec_choice (ch : choice) (y : Sys) : option Sys :=
  match ch with
  | Run i answer =>
      match futures y !! i with
      | Some (d, m) =>
          match exec_move m answer (shared y) with
          | Some (s', m', js) => Some (mkSys s' (<[i := (d, m')]> (futures y) ++ launched js))
          | None => None
          end
      | None => None
      end
  | Abandon i =>
      match futures y !! i with
      | Some (true, m) =>
          match dropped m (shared y) with
          | Some s' => Some (mkSys s' (<[i := (true, Ready tt)]> (futures y)))
          | None => None
          end
      | _ => None
      end
  | Start j => Some (mkSys (shared y) (futures y ++ launched [j]))
  end.

Fixpoint exec (chs : list choice) (y : Sys) : option Sys :=
  match chs with
  | [] => Some y
  | ch :: chs => match exec_choice ch y with Some y' => exec chs y' | None => None end
  end.

Lemma exec_move_moves {A} (m : F A) answer s s' m' js :
  exec_move m answer s = Some (s', m', js) -> moves m s s' m' js.
Proof.
  destruct m as [a|B f k|B drop f k|drop c k|j k]; cbn; intros Hm; simplify_eq; try constructor.
  destruct (f s) as [[s1 b]|] eqn:Hf; simplify_eq. by constructor.
Qed.

(** The jobs of a schedule may arrive, and it drops nobody unless [drops]. *)
Definition choice_ok (admitted : Job -> Prop) (drops : bool) (ch : choice) : Prop :=
  match ch with Run _ _ => True | Abandon _ => drops = true | Start j => admitted j end.

Lemma exec_choice_step admitted drops ch y y' :
  choice_ok admitted drops ch -> exec_choice ch y = Some y' -> step admitted drops y y'.
Proof.
  destruct y as [s ts]. destruct ch as [i answer|i|j]; cbn; intros Hok Hc.
  - destruct (ts !! i) as [[d m]|] eqn:Hi; [|done].
    destruct (exec_move m answer s) as [[[s' m'] js]|] eqn:Hm; [|done]. simplify_eq.
    apply step_progress. econstructor; [done|]. by eapply exec_move_moves.
  - destruct (ts !! i) as [[[] m]|] eqn:Hi; [|done..].
    destruct (dropped m s) as [s'|] eqn:Hm; [|done]. simplify_eq.
    apply step_disturb. by econstructor.
  - simplify_eq. apply step_disturb. by constructor.
Qed.

Lemma exec_reachable admitted drops chs s y :
  Forall (choice_ok admitted drops) chs -> exec chs (mkSys s []) = Some y ->
  reachable admitted drops s y.
Proof.
  unfold reachable. generalize (mkSys s []). induction chs as [|ch chs IH]; intros y0 Hok Hex.
  - cbn in Hex. simplify_eq. apply rtc_refl.
  - cbn in Hex. destruct (exec_choice ch y0) as [y1|] eqn:Hc; [|done].
    inversion_clear Hok. eapply rtc_l; [by eapply exec_choice_step|by apply IH].
Qed.

Lemma exec_choice_default admitted drops ch y :
  choice_ok admitted drops ch -> match exec_choice ch y with Some _ => True | None => False end ->
  step admitted drops y (default y (exec_choice ch y)).
Proof. intros Hok. destruct (exec_choice ch y) eqn:Hc; [|done]. intros _. by eapply exec_choice_step. Qed.

(** Where a schedule leads, from the start. *)
Definition run (chs : list choice) (s : St) : Sys := default (mkSys s []) (exec chs (mkSys s [])).
Lemma run_reachable admitted drops chs s :
  Forall (choice_ok admitted drops) chs -> reachable admitted drops s (run chs s).
Proof.
  intros Hok. unfold run. destruct (exec chs (mkSys s [])) as [y|] eqn:Hex; cbn; [|apply rtc_refl].
  by eapply exec_reachable.
Qed.

(** ** Rely and guarantee

    A future holds a resource, such as the locks it has taken. [rely h] is what the
    others may do to the state meanwhile, [guar h h'] what a step that turns [h] into
    [h'] does, [world] says that the resources of all futures fit together. *)

Section rely_guarantee.
Context {Res : Type} (unit_res : Res).
Context (inv : St -> Prop) (rely : Res -> St -> St -> Prop) (guar : Res -> Res -> St -> St -> Prop)
  (world : list Res -> St -> Prop).
(** What holds of the state when a job starts, when a call is made, when a future is
    blocked. *)
Context (starts : Job -> St -> Prop) (asks : Call -> Res -> St -> Prop)
  (blocks : Res -> St -> Prop).

(** [safe D Q m h s]: from [s], each step of [m] keeps the guarantee, [Q] holds where
    it returns, and [D] of what dropping it does. *)
Fixpoint safe {A} (D : Res -> St -> St -> Prop) (Q : A -> Res -> St -> Prop) (m : F A) (h : Res)
    (s : St) {struct m} : Prop :=
  forall s', rely h s s' -> inv s' ->
  match m with
  | Ready a => Q a h s'
  | Do f k => exists h', guar h h' s' (fst (f s')) /\ safe D Q (k (snd (f s'))) h' (fst (f s'))
  | When drop f k =>
      D h s' (drop s') /\ (f s' = None -> blocks h s') /\
      forall s'' b, f s' = Some (s'', b) -> exists h', guar h h' s' s'' /\ safe D Q (k b) h' s''
  | Ask drop c k => D h s' (drop s') /\ asks c h s' /\ forall r, safe D Q (k r) h s'
  | Spawn j k => starts j s' /\ safe D Q k h s'
  end.

Class Discipline := {
  rely_refl h s : rely h s s;
  rely_trans h s1 s2 s3 : rely h s1 s2 -> rely h s2 s3 -> rely h s1 s3;
  guar_refl h s : guar h h s s;
  starts_rely j s s' : rely unit_res s s' -> starts j s -> starts j s';
  world_inv hs s : world hs s -> inv s;
  world_new hs s : world hs s -> world (hs ++ [unit_res]) s;
  world_step hs i h h' s s' :
    world hs s -> hs !! i = Some h -> guar h h' s s' ->
    world (<[i := h']> hs) s' /\ forall j h2, j <> i -> hs !! j = Some h2 -> rely h2 s s' }.

Section logic.
Context `{Discipline}.

Lemma safe_at {A} D (Q : A -> Res -> St -> Prop) m h s s' :
  safe D Q m h s -> rely h s s' -> safe D Q m h s'.
Proof.
  intros Hs Hr. destruct m; cbn in *; intros s'' Hr' Hi; apply Hs; eauto using rely_trans.
Qed.

Lemma safe_intro {A} D (Q : A -> Res -> St -> Prop) m h s :
  (forall s', rely h s s' -> inv s' -> safe D Q m h s') -> safe D Q m h s.
Proof.
  intros Hs. destruct m; cbn in *; intros s'' Hr' Hi; (apply (Hs s''); [done|done| |done]);
    apply rely_refl.
Qed.

Lemma safe_mono {A} (D D' : Res -> St -> St -> Prop) (Q Q' : A -> Res -> St -> Prop) m h s :
  safe D Q m h s -> (forall h s s', D h s s' -> D' h s s') ->
  (forall a h s, inv s -> Q a h s -> Q' a h s) -> safe D' Q' m h s.
Proof.
  intros Hs HD HQ. revert h s Hs.
  induction m as [a|B f k IH|B drop f k IH|drop c k IH|j k IH]; cbn; intros h s Hs s' Hr Hi;
    specialize (Hs s' Hr Hi).
  - eauto.
  - destruct Hs as (h' & Hg & Hk). eauto.
  - destruct Hs as (Hd & Hb & Hk). split_and!; eauto.
    intros s'' b Hf. destruct (Hk _ _ Hf) as (h' & Hg & ?). eauto.
  - destruct Hs as (Hd & Ha & Hk). split_and!; eauto.
  - destruct Hs as [Hst Hk]. split; eauto.
Qed.

Lemma safe_bind {A B} D (Q : B -> Res -> St -> Prop) (m : F A) (g : A -> F B) h s :
  safe D (fun a h s => safe D Q (g a) h s) m h s -> safe D Q (fbind m g) h s.
Proof.
  revert h s. induction m as [a|C f k IH|C drop f k IH|drop c k IH|j k IH]; cbn [fbind];
    intros h s Hs.
  - apply safe_intro. exact Hs.
  - intros s' Hr Hi. destruct (Hs s' Hr Hi) as (h' & Hg & Hk). eauto.
  - intros s' Hr Hi. destruct (Hs s' Hr Hi) as (Hd & Hb & Hk). split_and!; eauto.
    intros s'' b Hf. destruct (Hk _ _ Hf) as (h' & Hg & ?). eauto.
  - intros s' Hr Hi. destruct (Hs s' Hr Hi) as (Hd & Ha & Hk). split_and!; [done|done|].
    intros r. apply IH, Hk.
  - intros s' Hr Hi. destruct (Hs s' Hr Hi) as [Hst Hk]. split; eauto.
Qed.

Lemma safe_protect {A} (D D' : Res -> St -> St -> Prop) (Q : A -> Res -> St -> Prop) cleanup m h s :
  (forall h s s', D' h s s' -> D h s (cleanup s')) -> safe D' Q m h s -> safe D Q (protect cleanup m) h s.
Proof.
  intros HD. revert h s. induction m as [a|C f k IH|C drop f k IH|drop c k IH|j k IH];
    cbn [protect]; intros h s Hs s' Hr Hi; specialize (Hs s' Hr Hi).
  - done.
  - destruct Hs as (h' & Hg & Hk). eauto.
  - destruct Hs as (Hd & Hb & Hk). split_and!; eauto.
    intros s'' b Hf. destruct (Hk _ _ Hf) as (h' & Hg & ?). eauto.
  - destruct Hs as (Hd & Ha & Hk). split_and!; [auto|done|]. intros r. apply IH, Hk.
  - destruct Hs as [Hst Hk]. split; eauto.
Qed.

Lemma safe_frames {A} D (Q : A -> Res -> St -> Prop) P Bl C (m : F A) h s :
  frames P Bl C m ->
  (forall s s', inv s -> P s s' -> guar h h s s' /\ D h s s') ->
  (forall s, inv s -> Bl s -> blocks h s) -> (forall c s, inv s -> C c -> asks c h s) ->
  (forall a s', inv s' -> Q a h s') -> safe D Q m h s.
Proof.
  intros Hm HP HB Ha HQ. revert s.
  induction m as [a|X f k IH|X drop f k IH|drop c k IH|j k IH]; cbn in Hm |- *; intros s s' Hr Hi.
  - auto.
  - destruct (Hm s') as [Hf Hk]. exists h. destruct (HP _ _ Hi Hf). eauto.
  - destruct Hm as (Hd & Hn & Hk). split_and!; [by eapply HP|auto|].
    intros s'' b Hf. destruct (Hk _ _ _ Hf) as [Hp Hk']. exists h. destruct (HP _ _ Hi Hp). eauto.
  - destruct Hm as (Hd & Hc & Hk). split_and!; [by eapply HP|auto|auto].
  - done.
Qed.

(** A future that keeps a fact others keep too. *)
Lemma safe_frames_keep {A} D (Q : A -> Res -> St -> Prop) (K : St -> Prop) P Bl C (m : F A) h s :
  frames P Bl C m ->
  (forall s s', K s -> rely h s s' -> inv s' -> K s') ->
  (forall s s', inv s -> K s -> P s s' -> guar h h s s' /\ D h s s' /\ K s') ->
  (forall s, inv s -> K s -> Bl s -> blocks h s) -> (forall c s, inv s -> K s -> C c -> asks c h s) ->
  K s -> (forall a s', inv s' -> K s' -> Q a h s') -> safe D Q m h s.
Proof.
  intros Hm HK HP HB Ha HKs HQ. revert s HKs.
  induction m as [a|X f k IH|X drop f k IH|drop c k IH|j k IH]; cbn in Hm |- *; intros s HKs s' Hr Hi;
    pose proof (HK _ _ HKs Hr Hi) as HK'.
  - auto.
  - destruct (Hm s') as [Hf Hk]. exists h. destruct (HP _ _ Hi HK' Hf) as (Hg & _ & HKf). eauto.
  - destruct Hm as (Hd & Hn & Hk). split_and!; [by eapply HP|auto|].
    intros s'' b Hf. destruct (Hk _ _ _ Hf) as [Hp Hk']. exists h. destruct (HP _ _ Hi HK' Hp) as (Hg & _ & HKf). eauto.
  - destruct Hm as (Hd & Hc & Hk). split_and!; [by eapply HP|auto|auto].
  - done.
Qed.

(** Where the steps of the future are among those it may rely on, what it knew holds after
    it. *)
Lemma safe_frames_rely {A} D (Q : A -> Res -> St -> Prop) P Bl C (m : F A) h s :
  frames P Bl C m ->
  (forall s s', inv s -> P s s' -> guar h h s s' /\ D h s s' /\ rely h s s') ->
  (forall s, inv s -> Bl s -> blocks h s) -> (forall c s, inv s -> C c -> asks c h s) ->
  (forall a s', rely h s s' -> inv s' -> Q a h s') -> safe D Q m h s.
Proof.
  intros Hm HP HB Ha HQ. apply (safe_frames_keep _ _ (rely h s) P Bl C); eauto using rely_refl, rely_trans.
  intros s1 s2 Hi Hr Hp. destruct (HP s1 s2 Hi Hp) as (? & ? & ?). eauto using rely_trans.
Qed.

(** ** The logic is sound *)

Context (admitted : Job -> Prop) (drops : bool).
(** A request may be dropped if [drops]; what is left then keeps the guarantee. *)
Definition may_drop (d : bool) (h : Res) (s s' : St) : Prop :=
  drops = true -> d = true -> guar h unit_res s s'.
Definition returns_res : unit -> Res -> St -> Prop := fun _ h _ => h = unit_res.

Definition sys_safe (y : Sys) : Prop := exists hs,
  length hs = length (futures y) /\ world hs (shared y) /\
  forall i d m h, futures y !! i = Some (d, m) -> hs !! i = Some h ->
    safe (may_drop d) returns_res m h (shared y).

Hypothesis jobs_safe : forall j s, inv s -> starts j s ->
  safe (may_drop (droppable j)) returns_res (job j) unit_res s.
Hypothesis admitted_starts : forall j s, inv s -> admitted j -> starts j s.

Lemma safe_moves {A} D (Q : A -> Res -> St -> Prop) m h s s' m' js :
  safe D Q m h s -> inv s -> moves m s s' m' js ->
  exists h', guar h h' s s' /\ safe D Q m' h' s' /\ Forall (fun j => starts j s') js.
Proof.
  intros Hs Hi Hm. destruct Hm as [B f k s|B drop f k s s' b Hf|drop c k s r|j k s]; cbn in Hs;
    specialize (Hs s (rely_refl h s) Hi).
  - destruct Hs as (h' & ? & ?). eauto.
  - destruct Hs as (_ & _ & Hk). destruct (Hk _ _ Hf) as (h' & ? & ?). eauto.
  - destruct Hs as (_ & _ & Hk). exists h. split_and!; [apply guar_refl|apply Hk|constructor].
  - destruct Hs as [Hst Hk]. exists h. split_and!; [apply guar_refl|done|by repeat constructor].
Qed.

Lemma world_launch (js : list Job) hs s : world hs s -> world (hs ++ replicate (length js) unit_res) s.
Proof.
  revert hs. induction js as [|j js IH]; intros hs Hw; cbn; [by rewrite app_nil_r|].
  specialize (IH _ (world_new _ _ Hw)). by rewrite <- app_assoc in IH.
Qed.

Lemma launched_safe js s j d m :
  inv s -> Forall (fun j => starts j s) js -> launched js !! j = Some (d, m) ->
  safe (may_drop d) returns_res m unit_res s.
Proof.
  intros Hi Hjs Hj. unfold launched in Hj. rewrite list_lookup_fmap in Hj.
  destruct (js !! j) as [x|] eqn:Hx; cbn in Hj; [|done]. injection Hj as <- <-.
  rewrite Forall_lookup in Hjs. eauto.
Qed.

(** The futures in flight after a step of one of them, with new jobs. *)
Lemma sys_safe_update s s' ts hs i h h' d m' js :
  world hs s -> length hs = length ts -> hs !! i = Some h -> guar h h' s s' ->
  (forall i d m h, ts !! i = Some (d, m) -> hs !! i = Some h -> safe (may_drop d) returns_res m h s) ->
  safe (may_drop d) returns_res m' h' s' -> Forall (fun j => starts j s') js ->
  sys_safe (mkSys s' (<[i := (d, m')]> ts ++ launched js)).
Proof.
  intros Hw Hlen Hh Hg Hall Hm' Hjs.
  destruct (world_step _ _ _ _ _ _ Hw Hh Hg) as [Hw' Hr].
  pose proof (world_inv _ _ Hw') as Hi'.
  exists (<[i := h']> hs ++ replicate (length js) unit_res). cbn. split_and!.
  - unfold launched. rewrite !length_app, !length_insert, length_replicate, length_map. lia.
  - by apply world_launch.
  - intros j d2 m2 h2 Hj Hhj. apply lookup_app_Some in Hj as [Hj|[Hge Hj]].
    + assert (j < length ts) as Hlt.
      { apply lookup_lt_Some in Hj. by rewrite length_insert in Hj. }
      rewrite lookup_app_l in Hhj by (rewrite length_insert; lia).
      destruct (decide (j = i)) as [->|Hne].
      * rewrite list_lookup_insert_eq in Hj by lia. rewrite list_lookup_insert_eq in Hhj by lia.
        by simplify_eq.
      * rewrite list_lookup_insert_ne in Hj by done. rewrite list_lookup_insert_ne in Hhj by done.
        eapply safe_at; eauto.
    + rewrite length_insert in Hge, Hj.
      rewrite lookup_app_r in Hhj by (rewrite length_insert; lia).
      rewrite length_insert, lookup_replicate in Hhj. destruct Hhj as [-> _].
      by eapply launched_safe.
Qed.

Lemma sys_safe_step y y' : step admitted drops y y' -> sys_safe y -> sys_safe y'.
Proof.
  intros Hstep (hs & Hlen & Hw & Hall). pose proof (world_inv _ _ Hw) as Hi.
  assert (forall i x, futures y !! i = Some x -> exists h, hs !! i = Some h) as Hres.
  { intros i x Hx. apply lookup_lt_is_Some. apply lookup_lt_Some in Hx. lia. }
  destruct Hstep as [? ? [i d m s ts s' m' js Hlook Hm]|? ? [j s ts Hj|i m s ts s' Hdr Hlook Hd]];
    cbn [shared futures] in Hlen, Hw, Hall, Hi, Hres.
  - destruct (Hres _ _ Hlook) as [h Hh].
    destruct (safe_moves _ _ _ _ _ _ _ _ (Hall _ _ _ _ Hlook Hh) Hi Hm) as (h' & Hg & Hs' & Hjs).
    eauto using sys_safe_update.
  - exists (hs ++ [unit_res]). cbn. split_and!; [rewrite !length_app; cbn; lia|by apply world_new|].
    intros i d m h Hl Hh. apply lookup_app_Some in Hl as [Hl|[Hge Hl]].
    + rewrite lookup_app_l in Hh by (apply lookup_lt_Some in Hl; lia). eauto.
    + rewrite lookup_app_r in Hh by lia. rewrite Hlen in Hh.
      apply list_lookup_singleton_Some in Hh as [_ <-].
      eapply (launched_safe [j]); [exact Hi| |exact Hl]. repeat constructor. eauto.
  - destruct (Hres _ _ Hlook) as [h Hh].
    rewrite <- (app_nil_r (<[i := (true, Ready tt)]> ts)).
    eapply (sys_safe_update _ _ _ _ _ _ unit_res _ _ []); eauto.
    + pose proof (Hall _ _ _ _ Hlook Hh) as Hs.
      destruct m as [| |? drop f k|drop c k|]; cbn in Hd; simplify_eq;
        destruct (Hs s (rely_refl _ _) Hi) as [Hs' _]; by apply Hs'.
    + by intros s'' ? ?.
Qed.

(** Every step of the system keeps the guarantee of the future that takes it. *)
Lemma sys_safe_guar y y' :
  sys_safe y -> step admitted drops y y' ->
  shared y' = shared y \/ exists h h', guar h h' (shared y) (shared y').
Proof.
  intros (hs & Hlen & Hw & Hall) Hstep. pose proof (world_inv _ _ Hw) as Hi.
  assert (forall i x, futures y !! i = Some x -> exists h, hs !! i = Some h) as Hres.
  { intros i x Hx. apply lookup_lt_is_Some. apply lookup_lt_Some in Hx. lia. }
  destruct Hstep as [? ? [i d m s ts s' m' js Hlook Hm]|? ? [j s ts Hj|i m s ts s' Hdr Hlook Hd]];
    cbn [shared futures] in *; [right|by left|right].
  - destruct (Hres _ _ Hlook) as [h Hh].
    destruct (safe_moves _ _ _ _ _ _ _ _ (Hall _ _ _ _ Hlook Hh) Hi Hm) as (h' & Hg & _). eauto.
  - destruct (Hres _ _ Hlook) as [h Hh]. pose proof (Hall _ _ _ _ Hlook Hh) as Hs.
    exists h, unit_res. destruct m as [| |? drop f k|drop c k|]; cbn in Hd; simplify_eq;
      destruct (Hs s (rely_refl _ _) Hi) as [Hs' _]; by apply Hs'.
Qed.

Lemma reachable_safe s y : world [] s -> reachable admitted drops s y -> sys_safe y.
Proof.
  intros Hw Hr. assert (sys_safe (mkSys s [])) as Hs.
  { exists []. split_and!; [done|done|]. by intros i d m h ?. }
  revert Hs. unfold reachable in Hr. remember (mkSys s []) as x eqn:Hx. clear Hx Hw s.
  induction Hr as [x|x y z Hstep _ IH]; [done|]. eauto using sys_safe_step.
Qed.
End logic.
End rely_guarantee.

(** ** Obligations

    [pending s o]: the state holds an obligation, such as a request that waits for an
    answer. [discharges o m]: [m] ends the obligation, itself or through a job, on
    every path and wherever it is dropped; and while it has not, it is blocked only
    for a reason [allows] of. *)

Section settling.
Context {Ob : Type} (pending : St -> Ob -> Prop) (takes : Job -> Ob -> Prop) (allows : St -> Prop).

Fixpoint discharges {A} (d : bool) (o : Ob) (m : F A) {struct m} : Prop :=
  match m with
  | Ready _ => False
  | Do f k => forall s, ~ pending (fst (f s)) o \/ discharges d o (k (snd (f s)))
  | When drop f k =>
      (d = true -> forall s, ~ pending (drop s) o) /\ (forall s, f s = None -> allows s) /\
      forall s s' b, f s = Some (s', b) -> ~ pending s' o \/ discharges d o (k b)
  | Ask drop c k => (d = true -> forall s, ~ pending (drop s) o) /\ forall r, discharges d o (k r)
  | Spawn j k => takes j o \/ discharges d o k
  end.

(** Whatever a future adds to the obligations, it discharges. *)
Fixpoint accounts_for {A} (d : bool) (m : F A) {struct m} : Prop :=
  match m with
  | Ready _ => True
  | Do f k => forall s,
      (forall o, pending (fst (f s)) o -> pending s o \/ discharges d o (k (snd (f s)))) /\
      accounts_for d (k (snd (f s)))
  | When drop f k =>
      (forall s o, pending (drop s) o -> pending s o) /\
      forall s s' b, f s = Some (s', b) ->
        (forall o, pending s' o -> pending s o \/ discharges d o (k b)) /\ accounts_for d (k b)
  | Ask drop c k =>
      (forall s o, pending (drop s) o -> pending s o) /\ forall r, accounts_for d (k r)
  | Spawn j k => accounts_for d k
  end.

Lemma discharges_bind {A B} d o (m : F A) (g : A -> F B) :
  discharges d o m -> discharges d o (fbind m g).
Proof.
  intros Hm. induction m as [a|X f k IH|X drop f k IH|drop c k IH|j k IH]; cbn in Hm |- *.
  - done.
  - intros s. destruct (Hm s); auto.
  - destruct Hm as (? & ? & Hm). split_and!; [done..|]. intros s s' b Hf. destruct (Hm s s' b Hf); auto.
  - destruct Hm. auto.
  - destruct Hm; auto.
Qed.

(** A future that leaves the obligation to what follows; dropped before that, its
    guards end it. *)
Lemma discharges_after {A B} d o P Bl C cleanup (m : F A) (g : A -> F B) :
  frames P Bl C m -> (forall s, Bl s -> allows s) -> (forall s, ~ pending (cleanup s) o) ->
  (forall a, discharges d o (g a)) -> discharges d o (fbind (protect cleanup m) g).
Proof. intros Hm HB Hc Hg. induction m; cbn in Hm |- *; naive_solver. Qed.
(** The same without guards, in a future that is not dropped. *)
Lemma discharges_later {A B} o P Bl C (m : F A) (g : A -> F B) :
  frames P Bl C m -> (forall s, Bl s -> allows s) ->
  (forall a, discharges false o (g a)) -> discharges false o (fbind m g).
Proof. intros Hm HB Hg. induction m; cbn in Hm |- *; naive_solver. Qed.

Lemma accounts_bind {A B} d (m : F A) (g : A -> F B) :
  accounts_for d m -> (forall a, accounts_for d (g a)) -> accounts_for d (fbind m g).
Proof.
  intros Hm Hg. induction m as [a|C f k IH|C drop f k IH|drop c k IH|j k IH]; cbn in Hm |- *.
  - done.
  - intros s. destruct (Hm s) as [Ho Hk]. split; [|auto]. intros o Hp.
    destruct (Ho o Hp); [by left|right; by apply discharges_bind].
  - destruct Hm as [Hd Hm]. split; [done|]. intros s s' b Hf. destruct (Hm _ _ _ Hf) as [Ho Hk].
    split; [|auto]. intros o Hp. destruct (Ho o Hp); [by left|right; by apply discharges_bind].
  - destruct Hm as [Hd Hm]. split; auto.
  - auto.
Qed.

Lemma accounts_frames {A} d P Bl C (m : F A) :
  frames P Bl C m -> (forall s s' o, P s s' -> pending s' o -> pending s o) -> accounts_for d m.
Proof. intros Hm HP. induction m; cbn in Hm |- *; naive_solver. Qed.

Section obligations.
Hypothesis jobs_account : forall j, accounts_for (droppable j) (job j).
Hypothesis jobs_take : forall j o, takes j o -> discharges (droppable j) o (job j).

Definition settled_by (ts : list (bool * F unit)) (o : Ob) : Prop :=
  exists i d m, ts !! i = Some (d, m) /\ discharges d o m.
Definition sys_settles (y : Sys) : Prop :=
  (forall i d m, futures y !! i = Some (d, m) -> accounts_for d m) /\
  (forall o, pending (shared y) o -> settled_by (futures y) o).

Lemma settled_by_app ts ts' o : settled_by ts o -> settled_by (ts ++ ts') o.
Proof.
  intros (i & d & m & Hl & Hd). exists i, d, m. split; [|done]. by apply lookup_app_l_Some.
Qed.
Lemma settled_by_insert ts i d m o : i < length ts -> discharges d o m -> settled_by (<[i := (d, m)]> ts) o.
Proof. intros Hi Hd. exists i, d, m. split; [|done]. by rewrite list_lookup_insert_eq. Qed.
Lemma settled_by_other ts i d m d' m' o :
  ts !! i = Some (d, m) -> settled_by ts o ->
  discharges d o m \/ settled_by (<[i := (d', m')]> ts) o.
Proof.
  intros Hl (i0 & d0 & m0 & Hl0 & Hd0). destruct (decide (i0 = i)) as [->|Hne].
  - left. by simplify_eq.
  - right. exists i0, d0, m0. split; [|done]. by rewrite list_lookup_insert_ne.
Qed.
Lemma settled_by_launched ts js j o : j ∈ js -> takes j o -> settled_by (ts ++ launched js) o.
Proof.
  intros Hj Ht. apply list_elem_of_lookup in Hj as [n Hj].
  exists (length ts + n), (droppable j), (job j). split; [|by apply jobs_take].
  rewrite lookup_app_r by lia. replace (length ts + n - length ts) with n by lia.
  unfold launched. by rewrite list_lookup_fmap, Hj.
Qed.
Lemma launched_accounts js i d m : launched js !! i = Some (d, m) -> accounts_for d m.
Proof.
  unfold launched. rewrite list_lookup_fmap. intros Hl.
  apply fmap_Some in Hl as (x & _ & [= -> ->]). apply jobs_account.
Qed.
Lemma insert_accounts ts i d m js :
  (forall i d m, ts !! i = Some (d, m) -> accounts_for d m) -> accounts_for d m ->
  forall i' d' m', (<[i := (d, m)]> ts ++ launched js) !! i' = Some (d', m') -> accounts_for d' m'.
Proof.
  intros Hall Hm i' d' m' Hl. apply lookup_app_Some in Hl as [Hl|[_ Hl]]; [|by eapply launched_accounts].
  apply list_lookup_insert_Some in Hl as [(_ & ? & _)|[_ Hl]]; [by simplify_eq|eauto].
Qed.

Lemma moves_accounts {A} d (m : F A) s s' m' js :
  moves m s s' m' js -> accounts_for d m ->
  accounts_for d m' /\
  (forall o, pending s' o -> pending s o \/ discharges d o m') /\
  (forall o, discharges d o m -> pending s' o -> discharges d o m' \/ exists j, j ∈ js /\ takes j o).
Proof.
  intros Hm Ha. destruct Hm as [B f k s|B drop f k s s' b Hf|drop c k s r|j k s]; cbn in *.
  - destruct (Ha s) as [Hn Hk]. split_and!; [done|done|]. intros o Hd Hp.
    destruct (Hd s); [done|by left].
  - destruct Ha as [_ Ha]. destruct (Ha _ _ _ Hf) as [Hn Hk]. split_and!; [done|done|].
    intros o (_ & _ & Hd) Hp. destruct (Hd _ _ _ Hf); [done|by left].
  - destruct Ha as [_ Ha]. split_and!; [done|by left|]. intros o [_ Hd] _. by left.
  - split_and!; [done|by left|]. intros o [Hd|Hd] _; [right|by left]. exists j. by split; [left|].
Qed.

Lemma sys_settles_step admitted drops y y' :
  step admitted drops y y' -> sys_settles y -> sys_settles y'.
Proof.
  intros Hstep [Hacc Hset].
  destruct Hstep as [? ? [i d m s ts s' m' js Hlook Hm]|? ? [j s ts Hj|i m s ts s' Hdr Hlook Hd]];
    cbn [shared futures] in Hacc, Hset.
  - destruct (moves_accounts _ _ _ _ _ _ Hm (Hacc _ _ _ Hlook)) as (Ha & Hn & Hk).
    pose proof (lookup_lt_Some _ _ _ Hlook) as Hlt.
    split; cbn; [by apply insert_accounts|]. intros o Hp.
    destruct (Hn o Hp) as [Hp0|Hd0]; [|by apply settled_by_app, settled_by_insert].
    destruct (settled_by_other _ _ _ _ d m' _ Hlook (Hset _ Hp0)) as [Hd|?]; [|by apply settled_by_app].
    destruct (Hk o Hd Hp) as [Hd1|(j & Hj & Ht)]; [by apply settled_by_app, settled_by_insert|].
    by eapply settled_by_launched.
  - split; cbn [shared futures].
    + intros i d m Hl. apply lookup_app_Some in Hl as [Hl|[_ Hl]]; [eauto|by eapply launched_accounts].
    + intros o Hp. by apply settled_by_app, Hset.
  - assert (accounts_for true m) as Ha by eauto.
    split; cbn [shared futures].
    + rewrite <- (app_nil_r (<[i := _]> ts)). by apply (insert_accounts _ _ _ _ []).
    + intros o Hp.
      assert (pending s o /\ ~ discharges true o m) as [Hp0 Hnd].
      { destruct m as [| |? drop f k|drop c k|]; cbn in Hd; simplify_eq; destruct Ha as [Ha _];
          (split; [by apply Ha|]); intros [Hdis _]; by apply (Hdis eq_refl s). }
      by destruct (settled_by_other _ _ _ _ true (Ready tt) _ Hlook (Hset _ Hp0)).
Qed.

Lemma reachable_settles admitted drops s y :
  (forall o, ~ pending s o) -> reachable admitted drops s y -> sys_settles y.
Proof.
  intros Hp Hr. assert (sys_settles (mkSys s [])) as Hs; [split; [done|]|].
  { intros o Ho. by destruct (Hp o). }
  revert Hs. unfold reachable in Hr. remember (mkSys s []) as x eqn:Hx. clear Hx Hp s.
  induction Hr as [x|x y z Hstep _ IH]; [done|]. eauto using sys_settles_step.
Qed.
End obligations.
End settling.

(** ** Termination

    A future is a well-founded tree, and a job only starts jobs of a smaller [rank]:
    unless jobs arrive from outside, every schedule comes to an end. *)

Context (rank : Job -> nat).

Fixpoint spawns_below {A} (n : nat) (m : F A) {struct m} : Prop :=
  match m with
  | Ready _ => True
  | Do f k => forall s, spawns_below n (k (snd (f s)))
  | When drop f k => forall s s' b, f s = Some (s', b) -> spawns_below n (k b)
  | Ask drop c k => forall r, spawns_below n (k r)
  | Spawn j k => rank j < n /\ spawns_below n k
  end.

Lemma spawns_below_bind {A B} n (m : F A) (g : A -> F B) :
  spawns_below n m -> (forall a, spawns_below n (g a)) -> spawns_below n (fbind m g).
Proof. intros Hm Hg. induction m; cbn in Hm |- *; eauto. destruct Hm; eauto. Qed.
Lemma spawns_below_protect {A} n cleanup (m : F A) :
  spawns_below n m -> spawns_below n (protect cleanup m).
Proof. intros Hm. induction m; cbn in Hm |- *; eauto. destruct Hm; eauto. Qed.

Lemma frames_spawns {A} P Bl C n (m : F A) : frames P Bl C m -> spawns_below n m.
Proof.
  intros Hm. induction m as [a|X f k IH|X drop f k IH|drop c k IH|j k IH]; cbn in Hm |- *; try done.
  - intros s. by apply IH, Hm.
  - intros s s' b Hf. destruct Hm as (_ & _ & Hm). by apply IH, (Hm s s').
  - intros r. by apply IH, Hm.
Qed.
Lemma moves_spawns {A} n (m : F A) s s' m' js :
  moves m s s' m' js -> spawns_below n m -> spawns_below n m' /\ Forall (fun j => rank j < n) js.
Proof. intros [] Hb; cbn in Hb; [eauto..|]. destruct Hb. by repeat constructor. Qed.

Section termination.
Hypothesis jobs_rank : forall j, spawns_below (rank j) (job j).

Definition pool_step (ts ts' : list (F unit)) : Prop := exists m rest s s' m' js,
  ts ≡ₚ m :: rest /\ moves m s s' m' js /\ ts' ≡ₚ (m' :: map job js) ++ rest.
Abbreviation ends := (Acc (flip pool_step)).

Lemma ends_Permutation ts ts' : ts ≡ₚ ts' -> ends ts -> ends ts'.
Proof.
  intros Hp [Hacc]. constructor. intros x (m & rest & s & s' & m' & js & Hts & Hm & Hx).
  apply Hacc. exists m, rest, s, s', m', js. by rewrite Hp.
Qed.

Lemma ends_app ts1 ts2 : ends ts1 -> ends ts2 -> ends (ts1 ++ ts2).
Proof.
  intros H1. revert ts2. induction H1 as [ts1 H1 IH1]. intros ts2 H2.
  induction H2 as [ts2 H2 IH2]. constructor. intros x (m & rest & s & s' & m' & js & Hts & Hm & Hx).
  assert (m ∈ ts1 ++ ts2) as Hin by (rewrite Hts; left). apply elem_of_app in Hin as [Hin|Hin].
  - apply elem_of_Permutation in Hin as [rest1 Hr1].
    assert (rest ≡ₚ rest1 ++ ts2) as Hr.
    { apply (Permutation_cons_inv (a := m)). by rewrite <- Hts, Hr1. }
    apply (ends_Permutation (((m' :: map job js) ++ rest1) ++ ts2)).
    { by rewrite Hx, Hr, app_assoc. }
    apply IH1; [|by constructor]. by exists m, rest1, s, s', m', js.
  - apply elem_of_Permutation in Hin as [rest2 Hr2].
    assert (rest ≡ₚ ts1 ++ rest2) as Hr.
    { apply (Permutation_cons_inv (a := m)). rewrite <- Hts, Hr2. by rewrite Permutation_middle. }
    apply (ends_Permutation (ts1 ++ ((m' :: map job js) ++ rest2))).
    { rewrite Hx, Hr, !app_assoc. f_equiv. by rewrite Permutation_app_comm. }
    apply IH2. by exists m, rest2, s, s', m', js.
Qed.

Lemma ends_map {A} (f : A -> F unit) l : (forall x, x ∈ l -> ends [f x]) -> ends (map f l).
Proof.
  induction l as [|x l IH]; intros Hl; cbn.
  - constructor. intros ? (m & rest & ? & ? & ? & ? & Hts & _). by apply Permutation_nil_cons in Hts.
  - apply (ends_app [f x]); [apply Hl; left|apply IH; intros y Hy; apply Hl; by right].
Qed.

Lemma moves_next {A} (P : F A -> Prop) (m : F A) s s' m' js :
  moves m s s' m' js ->
  match m with
  | Ready _ => True
  | Do f k => forall s, P (k (snd (f s)))
  | When _ f k => forall s s' b, f s = Some (s', b) -> P (k b)
  | Ask _ _ k => forall r, P (k r)
  | Spawn _ k => P k
  end -> P m'.
Proof. intros [] HP; eauto. Qed.

Lemma future_ends n m : spawns_below n m -> ends [m].
Proof.
  revert m. induction (lt_wf n) as [n _ IHn]. intros m Hb.
  assert (forall m', spawns_below n m' -> ends [m'] -> forall js, Forall (fun j => rank j < n) js ->
    ends (m' :: map job js)) as Hcons.
  { intros m' _ Hm' js Hjs. apply (ends_app [m']); [done|]. apply ends_map. intros j Hj.
    rewrite Forall_forall in Hjs. by apply (IHn (rank j)); [apply Hjs|]. }
  induction m as [a|B f k IH|B drop f k IH|drop c k IH|j k IH]; constructor;
    intros x (m & rest & s & s' & m' & js & Hts & Hm & Hx);
    symmetry in Hts; apply Permutation_singleton_r in Hts; injection Hts as -> ->;
    rewrite app_nil_r in Hx; symmetry in Hx; apply (ends_Permutation _ _ Hx);
    destruct (moves_spawns _ _ _ _ _ _ Hm Hb) as [Hb' Hjs]; (apply Hcons; [done| |done]);
    apply (moves_next (fun m => ends [m]) _ _ _ _ _ Hm); cbn in Hb; [done|eauto..|].
  destruct Hb; auto.
Qed.

Definition sys_bounded (y : Sys) : Prop :=
  forall i d m, futures y !! i = Some (d, m) -> exists n, spawns_below n m.

Lemma progress_pool y y' : progress y y' -> pool_step (map snd (futures y)) (map snd (futures y')).
Proof.
  intros [i d m s ts s' m' js Hl Hm]. cbn. pose proof (lookup_lt_Some _ _ _ Hl) as Hlt.
  exists m, (map snd (take i ts) ++ map snd (drop (S i) ts)), s, s', m', js. split_and!; [|done|].
  - rewrite <- (take_drop_middle _ _ _ Hl) at 1. rewrite map_app. cbn. by rewrite Permutation_middle.
  - rewrite insert_take_drop by done. unfold launched. rewrite !map_app, map_map. cbn.
    rewrite <- Permutation_middle. cbn. f_equiv. by rewrite Permutation_app_comm.
Qed.

Lemma progress_terminates y : sys_bounded y -> Acc (flip progress) y.
Proof.
  intros Hb. assert (ends (map snd (futures y))) as Hends.
  { apply ends_map. intros [d m] Hin. apply list_elem_of_lookup in Hin as [i Hi].
    destruct (Hb _ _ _ Hi) as [n Hn]. by eapply future_ends. }
  clear Hb. remember (map snd (futures y)) as ts eqn:Hts. revert y Hts.
  induction Hends as [ts _ IH]. intros y ->. constructor. intros y' Hp.
  by eapply IH; [apply progress_pool|].
Qed.

Lemma reachable_bounded admitted drops s y : reachable admitted drops s y -> sys_bounded y.
Proof.
  intros Hr. assert (sys_bounded (mkSys s [])) as Hs by done. revert Hs.
  unfold reachable in Hr. remember (mkSys s []) as x eqn:Hx. clear Hx s.
  induction Hr as [x|x y z Hstep _ IH]; [done|]. intros Hb. apply IH. clear IH.
  assert (forall js i d m, launched js !! i = Some (d, m) -> exists n, spawns_below n m) as Hjobs.
  { unfold launched. intros js i d m Hl. rewrite list_lookup_fmap in Hl.
    apply fmap_Some in Hl as (j & _ & [= -> ->]). eauto. }
  destruct Hstep as [? ? [i d m s ts s' m' js Hlook Hm]|? ? [j s ts Hj|i m s ts s' Hdr Hlook Hd]];
    intros i2 d2 m2 Hl; cbn in Hl.
  - apply lookup_app_Some in Hl as [Hl|[_ Hl]]; [|eauto].
    apply list_lookup_insert_Some in Hl as [(_ & ? & _)|[_ Hl]]; [|eauto].
    simplify_eq. destruct (Hb _ _ _ Hlook) as [n Hn]. exists n. by eapply moves_spawns.
  - apply lookup_app_Some in Hl as [Hl|[_ Hl]]; [by eapply Hb|by eapply (Hjobs [j])].
  - apply list_lookup_insert_Some in Hl as [(_ & ? & _)|[_ Hl]]; [|by eapply Hb].
    simplify_eq. by exists 0.
Qed.
End termination.
End systems.

Arguments safe_bind {St Job Call Reply Res unit_res inv rely guar world starts asks blocks} H {A B} D Q m g h s _.
Arguments safe_intro {St Job Call Reply Res unit_res inv rely guar world starts asks blocks} H {A} D Q m h s _.
Arguments safe_at {St Job Call Reply Res unit_res inv rely guar world starts asks blocks} H {A} D Q m h s s' _ _.
Arguments safe_protect {St Job Call Reply Res inv rely guar starts asks blocks A} D D' Q cleanup m h s _ _.
Arguments safe_mono {St Job Call Reply Res inv rely guar starts asks blocks A} D D' Q Q' m h s _ _ _.
Arguments safe_frames {St Job Call Reply Res inv rely guar starts asks blocks A} D Q P Bl C m h s _ _ _ _ _.
Arguments safe_frames_rely {St Job Call Reply Res unit_res inv rely guar world starts asks blocks} H {A} D Q P Bl C m h s _ _ _ _ _.
Arguments safe_frames_keep {St Job Call Reply Res inv rely guar starts asks blocks A} D Q K P Bl C m h s _ _ _ _ _ _ _.
