(* ===== verification/Provider.v ===== *)
(** * The remote account provider: state and subscriptions

    [chainlink/src/remote_account_provider]: the part of Chainlink that talks to the
    base layer. It keeps a subscription for each account someone has a reason to
    follow, fetches accounts over RPC, and merges both into one stream of updates.
    Many tasks use it at once, so it is modelled with the futures of [Concurrent]:
    [Provider] is the state the tasks share, and each [await] lets any other task run.

    This file has the state, the calls to the outside world and the subscriptions
    ([mod.rs], [subscribed_accounts.rs], [chain_slot.rs]). A pubsub client and an RPC
    client are external: any answer is possible. A mutex that is never held across an
    [await] is a section. The lock of a key is held across them; the map of weak
    references that hands these locks out is taken as one mutex per key, [key_locks]. The
    channels to the update pipeline and to the listener for stale accounts are bounded:
    sending waits for room, also with a lock held. *)

From stdpp Require Import base gmap sets list strings.
From Stdlib Require Import ZArith Lia.
From S2P Require Import Prelude Intent Runtime RpcClient Link Concurrent.

Open Scope future_scope.

Abbreviation ProviderResult A := (result A RemoteAccountProviderError).

#[export] Instance SubscriptionReason_countable : Countable SubscriptionReason.
Proof.
  refine (inj_countable'
    (fun r => match r with
              | DirectAccount => 0%N | DelegationRecordReason => 1%N | ProgramDataReason => 2%N
              | UndelegationTracking => 3%N | AtaProjection => 4%N
              end)
    (fun n => match n with
              | 0%N => DirectAccount | 1%N => DelegationRecordReason | 2%N => ProgramDataReason
              | 3%N => UndelegationTracking | _ => AtaProjection
              end) _); by intros [].
Defined.

(** ** Ownership: how often a key is held for each reason *)

Record SubscriptionOwnership := mkOwnership {
  reasons : gmap SubscriptionReason Z;
  recovered_at : option Z }.

Definition no_ownership : SubscriptionOwnership := mkOwnership ∅ None.

Definition own_acquire (r : SubscriptionReason) (o : SubscriptionOwnership) : SubscriptionOwnership :=
  mkOwnership (<[r := (default 0 (reasons o !! r) + 1)%Z]> (reasons o)) (recovered_at o).
Definition own_contains (r : SubscriptionReason) (o : SubscriptionOwnership) : bool :=
  bool_decide (is_Some (reasons o !! r)).
Definition own_release (r : SubscriptionReason) (o : SubscriptionOwnership) : SubscriptionOwnership :=
  match reasons o !! r with
  | Some count =>
      let count := (count - 1)%Z in
      mkOwnership (if (count =? 0)%Z then delete r (reasons o) else <[r := count]> (reasons o))
        (recovered_at o)
  | None => o
  end.
(** The number of references released. [now] is the current instant. *)
Definition own_release_all (now : Z) (r : SubscriptionReason) (o : SubscriptionOwnership)
    : SubscriptionOwnership * Z :=
  let count := default 0%Z (reasons o !! r) in
  let o' := mkOwnership (delete r (reasons o)) (recovered_at o) in
  if bool_decide (r = UndelegationTracking) && (0 <? count)%Z && own_contains DirectAccount o'
  then (mkOwnership (reasons o') (Some now), count)
  else (o', count).
Definition own_is_empty (o : SubscriptionOwnership) : bool := bool_decide (reasons o = ∅).

Inductive SubscriptionReleaseMode := Single | All.

Definition own_release_mode (now : Z) (mode : SubscriptionReleaseMode) (r : SubscriptionReason)
    (o : SubscriptionOwnership) : SubscriptionOwnership * Z :=
  match mode with
  | Single => (own_release r o, 1%Z)
  | All => own_release_all now r o
  end.

(** [for _ in 0..count], from the state without an entry or with an empty one. *)
Definition own_restore (count : Z) (r : SubscriptionReason) (o : option SubscriptionOwnership)
    : option SubscriptionOwnership :=
  if match o with Some o => own_is_empty o | None => true end
  then Some (Nat.iter (Z.to_nat count) (own_acquire r) (default no_ownership o))
  else o.

(** ** State *)

Abbreviation FetchResult := (ProviderResult RemoteAccount).

(** [waiters]: the channels of the requests that wait for the account. *)
Record FetchingAccountState := mkFetching {
  generation : Z;
  fetch_start_slot : Z;
  waiters : list nat }.

Record Provider := mkProvider {
  ownership : gmap Pubkey SubscriptionOwnership;
  (** [SubscribedAccounts::accounts]. *)
  subscribed : gset Pubkey;
  (** The keys whose lock is held. *)
  key_locks : gset Pubkey;
  fetching : gmap Pubkey FetchingAccountState;
  next_generation : Z;
  (** The one-shot channels that were opened, with what was sent on them. *)
  oneshots : list (option FetchResult);
  slot_seen : Z;
  last_update : Z;
  updates_received : Z;
  replay_outbox : gmap Pubkey ForwardedSubscriptionUpdate;
  (** The channel to the update pipeline, and whether the pipeline is there. *)
  forwarded : list ForwardedSubscriptionUpdate;
  pipeline_open : bool;
  (** The channel to the listener for stale accounts, and whether the listener is there. *)
  stale_accounts : list Pubkey;
  stale_open : bool;
  instant : Z }.

Definition set_subs (o : gmap Pubkey SubscriptionOwnership) (t : gset Pubkey) (l : gset Pubkey)
    (s : Provider) : Provider :=
  mkProvider o t l (fetching s) (next_generation s) (oneshots s) (slot_seen s) (last_update s)
    (updates_received s) (replay_outbox s) (forwarded s) (pipeline_open s) (stale_accounts s)
    (stale_open s) (instant s).
Definition set_fetch (f : gmap Pubkey FetchingAccountState) (g : Z) (os : list (option FetchResult))
    (s : Provider) : Provider :=
  mkProvider (ownership s) (subscribed s) (key_locks s) f g os (slot_seen s) (last_update s)
    (updates_received s) (replay_outbox s) (forwarded s) (pipeline_open s) (stale_accounts s)
    (stale_open s) (instant s).
Definition set_slots (seen last received now : Z) (s : Provider) : Provider :=
  mkProvider (ownership s) (subscribed s) (key_locks s) (fetching s) (next_generation s)
    (oneshots s) seen last received (replay_outbox s) (forwarded s) (pipeline_open s)
    (stale_accounts s) (stale_open s) now.
Definition set_pipeline (outbox : gmap Pubkey ForwardedSubscriptionUpdate)
    (sent : list ForwardedSubscriptionUpdate) (stale : list Pubkey) (s : Provider) : Provider :=
  mkProvider (ownership s) (subscribed s) (key_locks s) (fetching s) (next_generation s)
    (oneshots s) (slot_seen s) (last_update s) (updates_received s) outbox sent (pipeline_open s)
    stale (stale_open s) (instant s).

Definition set_ownership (k : Pubkey) (o : option SubscriptionOwnership) (s : Provider) : Provider :=
  set_subs (match o with Some o => <[k := o]> (ownership s) | None => delete k (ownership s) end)
    (subscribed s) (key_locks s) s.

(** [ChainSlot::update]. *)
Definition update_chain_slot (slot : Z) (s : Provider) : Provider :=
  set_slots (Z.max (slot_seen s) slot) (last_update s) (updates_received s) (instant s) s.
Definition MAX_SLOTS_SUB_ACTIVATION : Z := 100.
Definition compute_from_slot (s : Provider) : Z := saturating_sub (slot_seen s) MAX_SLOTS_SUB_ACTIVATION.

(** ** The outside world *)

Inductive SubscriptionCleanupSource :=
| NormalRelease
| DelegatedAccountSilent
| ManualUnsubscribe
| Reconciler.

Record SubscriptionReconciliationSnapshot := mkSnapshot {
  sn_union : gset Pubkey;
  sn_intersection : gset Pubkey }.

Record SubscriptionGap := mkGap {
  detected_at : Z;
  gap_pubkeys : gset Pubkey }.

(** The [solana_account] crate and the iteration order of a hash set. *)
Class ProviderEnv := {
  RawAccount : Type;
  account_from : RawAccount -> SharedAccount;
  missing_account : SharedAccount;
  clock_id : Pubkey;
  hash_order : gset Pubkey -> list Pubkey;
  hash_order_perm X : hash_order X ≡ₚ elements X }.

(** An answer of the RPC client under the fetch timeout. *)
Inductive RpcAnswer (A : Type) :=
| RpcTimedOut
| RpcFailed (e : ClientError)
| RpcOk (slot : Z) (value : A).
Arguments RpcTimedOut {A}.
Arguments RpcFailed {A} e.
Arguments RpcOk {A} slot value.

Inductive ProviderCall :=
| Subscribe (k : Pubkey)
| Unsubscribe (k : Pubkey) (source : SubscriptionCleanupSource)
| PreferGrpc (k : Pubkey)
| ReconciliationSnapshot
| GetAccount (k : Pubkey) (min_context_slot : Z)
| GetMultipleAccounts (ks : list Pubkey) (min_context_slot : Z)
| GetDataSlice (k : Pubkey) (offset length : nat)
| Sleep (ms : Z)
(** [cloner::claim_account_eviction] and [claim_cached_account_eviction]: whether the
    engine's lease on the account was claimed, and the eATA of a claimed ATA. *)
| ClaimEviction (k : Pubkey)
| ClaimCachedEviction (k : Pubkey)
| DeleteClaimed (k : Pubkey).

Section provider.
Context `{ProviderEnv}.

Record SubscriptionUpdate := mkSubscriptionUpdate {
  su_pubkey : Pubkey;
  su_slot : Z;
  su_account : option RawAccount;
  su_source : SubscriptionSource }.

Definition ProviderReply (c : ProviderCall) : Type :=
  match c with
  | Subscribe _ | Unsubscribe _ _ | PreferGrpc _ => ProviderResult unit
  | ReconciliationSnapshot => option SubscriptionReconciliationSnapshot
  | GetAccount _ _ => RpcAnswer (option RawAccount)
  | GetMultipleAccounts _ _ => RpcAnswer (list (option RawAccount))
  | GetDataSlice _ _ _ => RpcAnswer (option (list Z))
  | Sleep _ => unit
  | ClaimEviction _ => bool
  | ClaimCachedEviction _ => option (option Pubkey)
  | DeleteClaimed _ => bool
  end.

(** The tasks of the provider. The loops of its background tasks are one job per
    iteration. *)
Inductive ProviderJob :=
| AcquireJob (k : Pubkey) (r : SubscriptionReason)
| EnsureJob (k : Pubkey) (r : SubscriptionReason)
| ReleaseJob (k : Pubkey) (r : SubscriptionReason) (mode : SubscriptionReleaseMode)
| ReleaseSilentlyJob (k : Pubkey) (r : SubscriptionReason)
| ForgetJob (k : Pubkey) (r : SubscriptionReason)
| PreferGrpcJob (k : Pubkey)
| TryGetMultiJob (ks : list Pubkey) (mark_empty : option (list Pubkey)) (start : option Z)
| MatchSlotsJob (ks : list Pubkey) (min_context_slot : option Z)
| SnapshotJob (ks : list Pubkey) (min_context_slot : Z)
| DataSliceJob (k : Pubkey) (offset length : nat) (min_context_slot : Z)
| UnsubscribeJob (k : Pubkey)
| EvictStaleJob
| EvictCachedJob (k : Pubkey)
| SendStaleJob (k : Pubkey)
| ReceiveUpdateJob
| FetchJob (ks : list Pubkey) (generations : gmap Pubkey Z) (mark_empty : list Pubkey) (min_context_slot : Z)
| UpdateJob (u : SubscriptionUpdate)
| ReplayJob
| RefreshJob
| ReconcileJob
| ReconnectJob (gap : SubscriptionGap)
| StartupJob
| TickJob (ms : Z).

Abbreviation F A := (Future Provider ProviderJob ProviderCall ProviderReply A).

(** ** Locks and channels *)

Definition lock_key (k : Pubkey) : F unit :=
  fwait (fun s => if decide (k ∈ key_locks s) then None
                  else Some (set_subs (ownership s) (subscribed s) ({[k]} ∪ key_locks s) s, tt)).
Definition unlock_key (k : Pubkey) (s : Provider) : Provider :=
  set_subs (ownership s) (subscribed s) (key_locks s ∖ {[k]}) s.

(** The section between taking the lock of a key and dropping its guard. *)
Definition with_key_lock {A} (k : Pubkey) (body : F A) : F A :=
  lock_key k ;; a ← protect (unlock_key k) body; fput (unlock_key k) ;; Ready a.

(** The bounded channels: [mpsc::Sender::send] waits for room, and returns whether the
    receiver is still there; [recv] takes what was sent first. *)
Definition STALE_ACCOUNTS_LIMIT : nat := 100.
Definition SUBSCRIPTION_UPDATE_LIMIT : nat := Z.to_nat 5000.
Definition stale_full (s : Provider) : bool := stale_open s && (STALE_ACCOUNTS_LIMIT <=? length (stale_accounts s)).
Definition pipeline_full (s : Provider) : bool :=
  pipeline_open s && (SUBSCRIPTION_UPDATE_LIMIT <=? length (forwarded s)).
Definition forward (u : ForwardedSubscriptionUpdate) : F bool :=
  fwait (fun s =>
    if pipeline_full s then None
    else if pipeline_open s
    then Some (set_pipeline (replay_outbox s) (forwarded s ++ [u]) (stale_accounts s) s, true)
    else Some (s, false)).
Definition send_stale_account (k : Pubkey) : F bool :=
  fwait (fun s =>
    if stale_full s then None
    else if stale_open s
    then Some (set_pipeline (replay_outbox s) (forwarded s) (stale_accounts s ++ [k]) s, true)
    else Some (s, false)).
Definition recv_stale_account (s : Provider) : Provider * option Pubkey :=
  match stale_accounts s with
  | k :: ks => (set_pipeline (replay_outbox s) (forwarded s) ks s, Some k)
  | [] => (s, None)
  end.
(** The pipeline takes an update, which is then handled there. *)
Definition recv_update (s : Provider) : Provider :=
  set_pipeline (replay_outbox s) (tail (forwarded s)) (stale_accounts s) s.

(** ** The set of subscribed accounts *)

Definition is_internally_managed (k : Pubkey) : bool := bool_decide (k = clock_id).
Definition add_subscribed (k : Pubkey) (s : Provider) : Provider :=
  if is_internally_managed k then s
  else set_subs (ownership s) ({[k]} ∪ subscribed s) (key_locks s) s.
Definition remove_subscribed (k : Pubkey) (s : Provider) : Provider :=
  if is_internally_managed k then s
  else set_subs (ownership s) (subscribed s ∖ {[k]}) (key_locks s) s.
Definition is_watching (k : Pubkey) (s : Provider) : bool := bool_decide (k ∈ subscribed s).

Definition has_subscription_reason (k : Pubkey) (r : SubscriptionReason) (s : Provider) : bool :=
  match ownership s !! k with Some o => own_contains r o | None => false end.
Definition has_any_subscription_reason (ks : list Pubkey) (r : SubscriptionReason) (s : Provider) : bool :=
  existsb (fun k => has_subscription_reason k r s) ks.

(** ** Acquiring *)

Definition register_subscription (k : Pubkey) : F (ProviderResult unit) :=
  r ← fask (Subscribe k);
  match r with
  | Err e => Ready (Err e)
  | Ok _ => fput (add_subscribed k) ;; Ready (Ok tt)
  end.

Definition acquire_subscription_with_mode (k : Pubkey) (r : SubscriptionReason)
    (skip_existing_reason : bool) : F (ProviderResult unit) :=
  with_key_lock k (
    existing ← fsection (fun s =>
      match ownership s !! k with
      | Some o =>
          (set_ownership k (Some (if negb skip_existing_reason || negb (own_contains r o)
                                  then own_acquire r o else o)) s, true)
      | None => (s, false)
      end);
    if (existing : bool) then fput (add_subscribed k) ;; Ready (Ok tt)
    else
      registered ← register_subscription k;
      match registered with
      | Err e => Ready (Err e)
      | Ok _ =>
          fsection (fun s =>
            (set_ownership k (Some (own_acquire r (default no_ownership (ownership s !! k)))) s, tt)) ;;
          Ready (Ok tt)
      end).

Definition acquire_subscription (k : Pubkey) (r : SubscriptionReason) : F (ProviderResult unit) :=
  acquire_subscription_with_mode k r false.
Definition ensure_subscription (k : Pubkey) (r : SubscriptionReason) : F (ProviderResult unit) :=
  acquire_subscription_with_mode k r true.

(** ** Releasing *)

Definition unsubscribe_account (k : Pubkey) (source : SubscriptionCleanupSource) : F bool :=
  r ← fask (Unsubscribe k source); Ready (is_ok r).

(** The entry after a release and the number released, if that was the last reason;
    the entry of a key no one holds any more is removed. *)
Definition release_entry (k : Pubkey) (r : SubscriptionReason) (mode : SubscriptionReleaseMode)
    (s : Provider) : Provider * option Z :=
  match ownership s !! k with
  | None => (s, None)
  | Some o =>
      let (o', released_count) := own_release_mode (instant s) mode r o in
      if own_is_empty o' then (set_ownership k None s, Some released_count)
      else (set_ownership k (Some o') s, None)
  end.

Definition restore_entry (k : Pubkey) (r : SubscriptionReason) (count : Z) (s : Provider) : Provider :=
  set_ownership k (own_restore count r (ownership s !! k)) s.

Definition release_subscription_with_mode (k : Pubkey) (r : SubscriptionReason)
    (mode : SubscriptionReleaseMode) : F (ProviderResult bool) :=
  with_key_lock k (
    if is_internally_managed k then Ready (Ok false)
    else
      last ← fsection (release_entry k r mode);
      match last with
      | None => Ready (Ok false)
      | Some released_count =>
          success ← unsubscribe_account k NormalRelease;
          if (success : bool) then fput (remove_subscribed k) ;; Ready (Ok true)
          else
            fsection (fun s => (restore_entry k r released_count s, tt)) ;;
            Ready (Ok false)
      end).
Definition release_single_subscription (k : Pubkey) (r : SubscriptionReason) : F (ProviderResult bool) :=
  release_subscription_with_mode k r Single.

Definition is_missing_subscription (e : RemoteAccountProviderError) : bool :=
  match e with AccountSubscriptionDoesNotExist => true | _ => false end.

Definition release_subscription_reason_silently_for_delegated_account (k : Pubkey)
    (r : SubscriptionReason) : F (ProviderResult bool) :=
  with_key_lock k (
    last ← fsection (fun s =>
      match ownership s !! k with
      | None => (s, None)
      | Some o =>
          let (o', released_count) := own_release_mode (instant s) All r o in
          if (released_count =? 0)%Z then (set_ownership k (Some o') s, None)
          else if own_is_empty o' then (set_ownership k None s, Some released_count)
          else (set_ownership k (Some o') s, None)
      end);
    match last with
    | None => Ready (Ok false)
    | Some released_count =>
        res ← fask (Unsubscribe k DelegatedAccountSilent);
        match res with
        | Ok _ => fput (remove_subscribed k) ;; Ready (Ok true)
        | Err e =>
            if is_missing_subscription e then fput (remove_subscribed k) ;; Ready (Ok false)
            else
              fsection (fun s => (restore_entry k r released_count s, tt)) ;;
              Ready (Err e)
        end
    end).

(** The caller holds the lock of the key. *)
Definition unsubscribe_locked (k : Pubkey) : F (ProviderResult unit) :=
  if is_internally_managed k then Ready (Ok tt)
  else
    watched ← fget (is_watching k);
    if negb watched then Ready (Ok tt)
    else
      res ← fask (Unsubscribe k ManualUnsubscribe);
      match res with
      | Err e =>
          if is_missing_subscription e
          then fput (remove_subscribed k) ;; fsection (fun s => (set_ownership k None s, tt)) ;;
               Ready (Ok tt)
          else Ready (Err e)
      | Ok _ =>
          fput (remove_subscribed k) ;; fsection (fun s => (set_ownership k None s, tt)) ;;
          Ready (Ok tt)
      end.
Definition unsubscribe (k : Pubkey) : F (ProviderResult unit) :=
  with_key_lock k (unsubscribe_locked k).

Definition forget_subscription_reason (k : Pubkey) (r : SubscriptionReason) : F unit :=
  with_key_lock k (
    now_unowned ← fsection (fun s =>
      match ownership s !! k with
      | None => (s, false)
      | Some o =>
          let o' := own_release r o in
          (set_ownership k (if own_is_empty o' then None else Some o') s, own_is_empty o')
      end);
    if (now_unowned : bool)
    then unsubscribe_account k NormalRelease ;; fput (remove_subscribed k)
    else Ready tt).

Definition prefer_grpc_subscription (k : Pubkey) : F unit := fask (PreferGrpc k) ;; Ready tt.

(** ** Evictions

    The two tasks of [InnerChainlink] that remove an account, with the lock of its key
    ([lock_account_eviction]) held from the decision to the deletion. A task handles one
    key after the other; here each key is a job, and jobs of several keys may overlap. *)

Definition evict_stale_account (k : Pubkey) : F unit :=
  with_key_lock k (
    watched ← fget (is_watching k);
    if (watched : bool) then Ready tt
    else
      claimed ← fask (ClaimEviction k);
      if negb claimed then Ready tt
      else
        res ← unsubscribe_locked k;
        match res with
        | Err _ => Ready tt
        | Ok _ => fask (DeleteClaimed k) ;; Ready tt
        end).
(** One iteration of the listener, where something was sent to it. *)
Definition evict_stale : F unit :=
  k ← fsection recv_stale_account;
  match k with Some k => evict_stale_account k | None => Ready tt end.

Definition evict_cached (k : Pubkey) : F unit :=
  eata ← with_key_lock k (
    claimed ← fask (ClaimCachedEviction k);
    match claimed with
    | None => Ready None
    | Some eata =>
        res ← unsubscribe_locked k;
        match res with
        | Err _ => Ready None
        | Ok _ => deleted ← fask (DeleteClaimed k); Ready (if (deleted : bool) then eata else None)
        end
    end);
  match eata with
  | Some eata => release_single_subscription eata AtaProjection ;; Ready tt
  | None => Ready tt
  end.
End provider.
