(* ===== verification/ProviderFetch.v ===== *)
(** * The remote account provider: fetching

    Fetches and the updates that arrive meanwhile ([remote_account_provider/mod.rs]).
    A request claims the accounts no other request is fetching and waits for the
    others; one task fetches what was claimed, and a subscription update that is
    recent enough answers the waiting requests first. On top of it, fetches whose
    accounts all come from one slot.

    A batch of futures ([join_all]) runs in order. One-shot channels are indices into
    [oneshots]. *)

From stdpp Require Import base gmap sets list strings.
From Stdlib Require Import ZArith Lia Ascii.
From S2P Require Import Prelude Intent Runtime RpcClient Link Concurrent Provider.

Open Scope future_scope.

Definition RPC_FETCH_MAX_RETRIES : nat := 15.
Definition RPC_FETCH_RETRY_DELAY : Z := 400.
Definition DATA_SLICE_FETCH_MAX_ATTEMPTS : nat := 5.
Definition MATCH_SLOTS_MAX_TOTAL_TIME : Z := 10000.
Definition MAX_MULTIPLE_ACCOUNTS_PER_REQUEST : nat := 100.
Definition DEFAULT_MATCH_SLOTS_MAX_RETRIES : nat := 10.
Definition DEFAULT_MATCH_SLOTS_RETRY_INTERVAL_MS : Z := 50.
Definition HELIUS_CONTEXT_SLOT_NOT_REACHED : Z := -32603.
Definition JSON_RPC_SERVER_ERROR_MIN_CONTEXT_SLOT_NOT_REACHED : Z := -32016.

Definition nat_div_ceil (a b : nat) : nat := (a + b - 1) / b.

(** [slice::chunks], for a positive size. *)
Fixpoint chunks_fuel {A} (fuel : nat) (size : nat) (l : list A) : list (list A) :=
  match fuel, l with
  | S fuel, _ :: _ => take size l :: chunks_fuel fuel size (drop size l)
  | _, _ => []
  end.
Definition chunks {A} (size : nat) (l : list A) : list (list A) := chunks_fuel (length l) size l.

Definition balanced_chunks (keys : list Pubkey) : list (list Pubkey) :=
  if length keys <=? MAX_MULTIPLE_ACCOUNTS_PER_REQUEST then [keys]
  else
    let num_chunks := nat_div_ceil (length keys) MAX_MULTIPLE_ACCOUNTS_PER_REQUEST in
    let chunk_size := nat_div_ceil (length keys) num_chunks in
    chunks chunk_size keys.

Definition ascii_lowercase (c : ascii) : ascii :=
  let n := nat_of_ascii c in if (65 <=? n) && (n <=? 90) then ascii_of_nat (n + 32) else c.
Fixpoint to_ascii_lowercase (s : string) : string :=
  match s with
  | EmptyString => EmptyString
  | String c s => String (ascii_lowercase c) (to_ascii_lowercase s)
  end.

(** An error that says the node has not reached the slot yet. *)
Definition is_lagging (e : ClientError) : bool :=
  match ce_kind e with
  | KindRpcError (ForUser _) => true
  | KindRpcError (RpcResponseError code _) =>
      (code =? JSON_RPC_SERVER_ERROR_MIN_CONTEXT_SLOT_NOT_REACHED)%Z
      || (code =? HELIUS_CONTEXT_SLOT_NOT_REACHED)%Z
  | KindCustom message => contains "minimum context slot" (to_ascii_lowercase message)
  | _ => false
  end.

Definition is_found (a : RemoteAccount) : bool :=
  match a with NotFound _ => false | Found _ _ => true end.
Definition is_subscription_result (a : RemoteAccount) : bool :=
  match a with Found _ SourceSubscription => true | _ => false end.

(** ** Slots *)

Definition all_slots_match (accs : list RemoteAccount) : bool :=
  match accs with
  | [] => true
  | first :: rest => forallb (fun acc => remote_slot acc =? remote_slot first)%Z rest
  end.

Inductive SlotsMatchResult :=
| Match
| Mismatch
| MatchButBelowMinContextSlot (min_slot : Z).

Definition max_found_slot (accs : list RemoteAccount) : option Z :=
  foldl (fun m acc => if is_found acc
                      then Some (match m with Some x => Z.max x (remote_slot acc) | None => remote_slot acc end)
                      else m) None accs.

Definition raised_min_context_slot (min_context_slot : option Z) (accs : list RemoteAccount) : option Z :=
  match min_context_slot, max_found_slot accs with
  | Some min, Some found => Some (Z.max min found)
  | None, Some found => Some found
  | min, None => min
  end.

Definition slots_match_and_meet_min_context (accs : list RemoteAccount) (min_context_slot : option Z)
    : SlotsMatchResult :=
  if negb (all_slots_match accs) then Mismatch
  else match min_context_slot with
       | Some min_slot =>
           if match accs with [] => true | first :: _ => (min_slot <=? remote_slot first)%Z end
           then Match else MatchButBelowMinContextSlot min_slot
       | None => Match
       end.

Definition account_slots (accs : list RemoteAccount) : list Z := map remote_slot accs.

(** ** Claims *)

(** [oneshot::Sender::send] on each of the channels. *)
Definition send_all (r : FetchResult) (ws : list nat) (os : list (option FetchResult))
    : list (option FetchResult) := foldl (fun os w => <[w := Some r]> os) os ws.

(** [remove_fetching_account_if_generation_matches], and the answer to its waiters. *)
Definition resolve_generation (k : Pubkey) (g : Z) (r : FetchResult) (s : Provider) : Provider :=
  match fetching s !! k with
  | Some st =>
      if (generation st =? g)%Z
      then set_fetch (delete k (fetching s)) (next_generation s)
             (send_all r (waiters st) (oneshots s)) s
      else s
  | None => s
  end.

Definition resolve_claim (generations : gmap Pubkey Z) (k : Pubkey) (r : FetchResult) (s : Provider)
    : Provider :=
  match generations !! k with Some g => resolve_generation k g r s | None => s end.

(** [ClaimedSubscriptionSetupGuard::cleanup_with_error]. *)
Definition cleanup_with_error (ks : list Pubkey) (generations : gmap Pubkey Z)
    (e : RemoteAccountProviderError) (s : Provider) : Provider :=
  foldl (fun s k => resolve_claim generations k (Err e) s) s ks.

Record Claims := mkClaims {
  receivers : list nat;
  claimed_pubkeys : list Pubkey;
  claimed_generations : gmap Pubkey Z }.

(** The request joins the fetch of an account that is being fetched. *)
Definition claim_account (start : Z) (k : Pubkey) (s : Provider) (c : Claims) : Provider * Claims :=
  let ch := length (oneshots s) in
  match fetching s !! k with
  | Some st =>
      (set_fetch (<[k := mkFetching (generation st) (fetch_start_slot st) (waiters st ++ [ch])]> (fetching s))
         (next_generation s) (oneshots s ++ [None]) s,
       mkClaims (receivers c ++ [ch]) (claimed_pubkeys c) (claimed_generations c))
  | None =>
      let g := wadd 64 (next_generation s) 1 in
      (set_fetch (<[k := mkFetching g start [ch]]> (fetching s)) g (oneshots s ++ [None]) s,
       mkClaims (receivers c ++ [ch]) (claimed_pubkeys c ++ [k]) (<[k := g]> (claimed_generations c)))
  end.
Definition claim_accounts (start : Z) (ks : list Pubkey) (s : Provider) : Provider * Claims :=
  foldl (fun '(s, c) k => claim_account start k s c) (s, mkClaims [] [] ∅) ks.

Section fetch.
Context `{ProviderEnv}.
Abbreviation F A := (Future Provider ProviderJob ProviderCall ProviderReply A).

Definition from_fresh_account (a : RawAccount) (slot : Z) (source : RemoteAccountUpdateSource)
    : RemoteAccount := Found (with_slot slot (account_from a)) source.

(** ** Fetching what was claimed *)

Fixpoint acquire_all (ks : list Pubkey) : F (list (ProviderResult unit)) :=
  match ks with
  | [] => Ready []
  | k :: ks =>
      r ← acquire_subscription k DirectAccount;
      rs ← acquire_all ks;
      Ready (r :: rs)
  end.

Fixpoint release_each (ks : list Pubkey) : F unit :=
  match ks with
  | [] => Ready tt
  | k :: ks => release_single_subscription k DirectAccount ;; release_each ks
  end.

Definition setup_subscriptions (ks : list Pubkey) : F (ProviderResult unit) :=
  results ← acquire_all ks;
  let acquired := map fst (filter (fun p => is_ok (snd p)) (zip ks results)) in
  if forallb is_ok results then Ready (Ok tt)
  else release_each acquired ;; Ready (Err AccountSubscriptionsTaskFailed).

(** The wire call for one account or for several. *)
Definition rpc_fetch (ks : list Pubkey) (min_context_slot : Z) : F (RpcAnswer (list (option RawAccount))) :=
  match ks with
  | [k] =>
      r ← fask (GetAccount k min_context_slot);
      Ready (match r with
             | RpcOk slot value => RpcOk slot [value]
             | RpcFailed e => RpcFailed e
             | RpcTimedOut => RpcTimedOut
             end)
  | _ => fask (GetMultipleAccounts ks min_context_slot)
  end.

Definition fetched_account (mark_empty : list Pubkey) (slot : Z) (k : Pubkey) (acc : option RawAccount)
    : RemoteAccount :=
  match acc with
  | Some value => from_fresh_account value slot SourceFetch
  | None =>
      if bool_decide (k ∈ mark_empty) then Found (with_slot slot missing_account) SourceFetch
      else NotFound slot
  end.

(** The requests that wait get the result, unless an update answered them. *)
Fixpoint deliver (generations : gmap Pubkey Z) (accs : list (Pubkey * RemoteAccount)) : F unit :=
  match accs with
  | [] => Ready tt
  | (k, acc) :: accs => fput (resolve_claim generations k (Ok acc)) ;; deliver generations accs
  end.

Definition still_claimed (generations : gmap Pubkey Z) (s : Provider) (k : Pubkey) : bool :=
  match fetching s !! k, generations !! k with
  | Some st, Some g => (generation st =? g)%Z
  | _, _ => false
  end.

Definition notify_error (ks : list Pubkey) (generations : gmap Pubkey Z) (why : ResolutionFailure)
    : F unit :=
  fput (fun s => foldl (fun s k => resolve_claim generations k (Err (AccountResolutionsFailed why)) s) s ks).

Section fetch_loop.
Context (generations : gmap Pubkey Z) (mark_empty : list Pubkey) (min_context_slot : Z).

Definition fetch_succeeded (ks : list Pubkey) (slot : Z) (value : list (option RawAccount)) : F unit :=
  if negb (length value =? length ks)
  then notify_error ks generations (WrongResultCount (length value) (length ks))
  else deliver generations (zip ks (zip_with (fetched_account mark_empty slot) ks value)).

Fixpoint fetch_loop (remaining_retries : nat) (ks : list Pubkey) : F unit :=
  ks ← fget (fun s => filter (fun k => still_claimed generations s k) ks);
  match ks with
  | [] => Ready tt
  | _ :: _ =>
      match remaining_retries with
      | O => notify_error ks generations MaxRetriesReached
      | S remaining_retries =>
          answer ← rpc_fetch ks min_context_slot;
          let retry :=
            (match remaining_retries with O => Ready tt | S _ => fask (Sleep RPC_FETCH_RETRY_DELAY) end) ;;
            fetch_loop remaining_retries ks in
          match answer with
          | RpcOk slot value =>
              if (min_context_slot <=? slot)%Z then fetch_succeeded ks slot value else retry
          | RpcFailed e =>
              if is_lagging e then retry else notify_error ks generations (RpcCallFailed e)
          | RpcTimedOut => retry
          end
      end
  end.
End fetch_loop.

(** The body of the task [fetch] spawns. *)
Definition fetch (ks : list Pubkey) (generations : gmap Pubkey Z) (mark_empty : list Pubkey)
    (min_context_slot : Z) : F unit :=
  fetch_loop generations mark_empty min_context_slot RPC_FETCH_MAX_RETRIES ks.

(** ** Requests *)

Definition recv (ch : nat) : F FetchResult :=
  fwait (fun s => match oneshots s !! ch with Some (Some r) => Some (s, r) | _ => None end).

Fixpoint recv_all (chs : list nat) : F (list FetchResult) :=
  match chs with
  | [] => Ready []
  | ch :: chs => r ← recv ch; rs ← recv_all chs; Ready (r :: rs)
  end.

Definition failed_keys (ks : list Pubkey) (rs : list FetchResult) : list Pubkey :=
  map fst (filter (fun p => negb (is_ok (snd p))) (zip ks rs)).
Definition resolved_accounts (rs : list FetchResult) : list RemoteAccount :=
  omap (fun r => match r with Ok a => Some a | Err _ => None end) rs.

Definition collect_results (ks : list Pubkey) (rs : list FetchResult) : ProviderResult (list RemoteAccount) :=
  if forallb is_ok rs
  then if negb (length (resolved_accounts rs) =? length ks)
       then Err (AccountResolutionsFailed (WrongResultCount (length (resolved_accounts rs)) (length ks)))
       else Ok (resolved_accounts rs)
  else Err (AccountResolutionsFailed (FailedAccounts (failed_keys ks rs))).

Fixpoint spawn_fetches (chunks : list (list Pubkey)) (generations : gmap Pubkey Z)
    (mark_empty : list Pubkey) (min_context_slot : Z) : F unit :=
  match chunks with
  | [] => Ready tt
  | ks :: chunks =>
      fspawn (FetchJob ks generations mark_empty min_context_slot) ;;
      spawn_fetches chunks generations mark_empty min_context_slot
  end.

Definition try_get_multi (ks : list Pubkey) (mark_empty_if_not_found : option (list Pubkey))
    (start : option Z) : F (ProviderResult (list RemoteAccount)) :=
  if is_nil ks then Ready (Ok [])
  else
    start ← fget (fun s => default (slot_seen s) start);
    claims ← fdo (claim_accounts start ks);
    let claimed := claimed_pubkeys claims in
    let generations := claimed_generations claims in
    ready ← (if is_nil claimed then Ready (Ok tt)
             else
               r ← protect (cleanup_with_error claimed generations AccountSubscriptionsTaskFailed)
                     (setup_subscriptions claimed);
               match r with
               | Err e =>
                   fput (cleanup_with_error claimed generations AccountSubscriptionsTaskFailed) ;;
                   Ready (Err e)
               | Ok _ =>
                   spawn_fetches (balanced_chunks claimed) generations
                     (default [] mark_empty_if_not_found) start ;;
                   Ready (Ok tt)
               end);
    match ready with
    | Err e => Ready (Err e)
    | Ok _ => rs ← recv_all (receivers claims); Ready (collect_results ks rs)
    end.

Definition try_get (k : Pubkey) : F (ProviderResult RemoteAccount) :=
  accs ← try_get_multi [k] None None;
  Ready (match accs with
         | Ok (acc :: _) => Ok acc
         | Ok [] => Err (AccountResolutionsFailed NoAccountResult)
         | Err e => Err e
         end).

(** ** Updates *)

(** One update, in the task of [listen_for_account_updates]. *)
Definition update_account (u : SubscriptionUpdate) : RemoteAccount :=
  match su_account u with
  | Some account => from_fresh_account account (su_slot u) SourceSubscription
  | None => NotFound (su_slot u)
  end.

Definition resolve_with_update (u : SubscriptionUpdate) (s : Provider)
    : Provider * option ForwardedSubscriptionUpdate :=
  let k := su_pubkey u in
  let forwarded := mkUpdate k (update_account u) (su_source u) in
  match fetching s !! k with
  | Some st =>
      if (fetch_start_slot st <=? su_slot u)%Z
      then (resolve_generation k (generation st) (Ok (update_account u)) s, Some forwarded)
      else (s, None)
  | None => (s, Some forwarded)
  end.

Definition handle_account_update (u : SubscriptionUpdate) : F unit :=
  fput (fun s => set_slots (slot_seen s) (su_slot u) (updates_received s + 1) (instant s) s) ;;
  if decide (su_pubkey u = clock_id) then fput (update_chain_slot (su_slot u))
  else
    f ← fdo (resolve_with_update u);
    match f with
    | Some f => forward f ;; Ready tt
    | None => Ready tt
    end.

(** ** The outbox of replays *)

Definition reforward_one (outbox : gmap Pubkey ForwardedSubscriptionUpdate) (p : Pubkey * RemoteAccount)
    : gmap Pubkey ForwardedSubscriptionUpdate :=
  let (k, account) := p in
  match outbox !! k with
  | Some existing =>
      if (remote_slot (up_account existing) <? remote_slot account)%Z
      then <[k := mkUpdate k account SubReplay]> outbox else outbox
  | None => <[k := mkUpdate k account SubReplay]> outbox
  end.

Definition reforward_consumed_subscription_results (consumed : list (Pubkey * RemoteAccount)) : F unit :=
  if is_nil consumed then Ready tt
  else fput (fun s => set_pipeline (foldl reforward_one (replay_outbox s) consumed) (forwarded s)
                        (stale_accounts s) s).

(** One iteration of [start_replay_outbox_worker]. *)
Definition replay_next : F unit :=
  update ← fdo (fun s =>
    match hash_order (dom (replay_outbox s)) with
    | [] => (s, None)
    | k :: _ =>
        (set_pipeline (delete k (replay_outbox s)) (forwarded s) (stale_accounts s) s,
         replay_outbox s !! k)
    end);
  match update with
  | Some u => forward u ;; Ready tt
  | None => Ready tt
  end.

(** ** Fetches over RPC only *)

Definition rpc_account (slot : Z) (acc : option RawAccount) : RemoteAccount :=
  match acc with
  | Some account => from_fresh_account account slot SourceFetch
  | None => NotFound slot
  end.

Definition fetch_multi_rpc_only (ks : list Pubkey) (min_context_slot : Z)
    : F (ProviderResult (list RemoteAccount)) :=
  response ← fask (GetMultipleAccounts ks min_context_slot);
  Ready (match response with
         | RpcTimedOut => Err (AccountResolutionsFailed RpcCallTimeout)
         | RpcFailed e => Err (AccountResolutionsFailed (RpcCallFailed e))
         | RpcOk response_slot value =>
             if (response_slot <? min_context_slot)%Z
             then Err (AccountResolutionsFailed (ResponseBelowMinContext response_slot min_context_slot))
             else if negb (length value =? length ks)
             then Err (AccountResolutionsFailed (WrongResultCount (length value) (length ks)))
             else Ok (map (rpc_account response_slot) value)
         end).

Definition undelegation_tracking_pubkeys (s : Provider) : list Pubkey :=
  hash_order (dom (filter (fun p => own_contains UndelegationTracking (snd p)) (ownership s))).

(** Whether the pipeline is still open. *)
Fixpoint forward_refreshed (accs : list (Pubkey * RemoteAccount)) : F bool :=
  match accs with
  | [] => Ready true
  | (k, acc) :: accs =>
      sent ← forward (mkUpdate k acc SubReplay);
      if (sent : bool) then forward_refreshed accs else Ready false
  end.
Fixpoint refresh_chunks (chunks : list (list Pubkey)) : F bool :=
  match chunks with
  | [] => Ready true
  | ks :: chunks =>
      r ← fetch_multi_rpc_only ks 0;
      match r with
      | Err _ => refresh_chunks chunks
      | Ok accounts =>
          open ← forward_refreshed (zip ks accounts);
          if (open : bool) then refresh_chunks chunks else Ready false
      end
  end.
Definition refresh_undelegation_tracking_accounts_once : F bool :=
  ks ← fsection (fun s => (s, undelegation_tracking_pubkeys s));
  if is_nil ks then Ready true else refresh_chunks (balanced_chunks ks).

(** ** Retries *)

(** The retry counter of [next_match_slots_retry] is kept as the number of retries the
    limit still allows; the time limit comes second. *)
Definition out_of_time (start now : Z) : bool := (MATCH_SLOTS_MAX_TOTAL_TIME <? now - start)%Z.
Definition match_slots_retry_delay : Z := DEFAULT_MATCH_SLOTS_RETRY_INTERVAL_MS.
Definition rpc_error_retry_delay : Z := Z.max match_slots_retry_delay RPC_FETCH_RETRY_DELAY.

(** [next_match_slots_retry]: another attempt after [delay], or the limit that ends it. *)
Definition next_match_slots_retry {A} (more : nat) (start delay : Z) (again : F A)
    (exhausted : MatchLimit -> F A) : F A :=
  now ← fget instant;
  match more with
  | O => exhausted MaxRetries
  | S _ => if out_of_time start now then exhausted MaxTotalTime else fask (Sleep delay) ;; again
  end.

Fixpoint snapshot_loop (ks : list Pubkey) (min_context_slot : Z) (started_at : Z) (more : nat)
    : F (ProviderResult (list RemoteAccount)) :=
  r ← fetch_multi_rpc_only ks min_context_slot;
  match r with
  | Ok accounts => Ready (Ok accounts)
  | Err err =>
      next_match_slots_retry more started_at rpc_error_retry_delay
        (match more with S more => snapshot_loop ks min_context_slot started_at more | O => Ready (Err err) end)
        (fun _ => Ready (Err err))
  end.
Definition fetch_snapshot_until_slot (ks : list Pubkey) (min_context_slot : Z)
    : F (ProviderResult (list RemoteAccount)) :=
  started_at ← fget instant;
  snapshot_loop ks min_context_slot started_at (DEFAULT_MATCH_SLOTS_MAX_RETRIES - 1).

(** ** Accounts of one slot *)

Definition consumed_subscription_results (ks : list Pubkey) (accs : list RemoteAccount)
    : list (Pubkey * RemoteAccount) :=
  filter (fun p => is_subscription_result (snd p)) (zip ks accs).

Section match_slots.
Context (ks : list Pubkey) (consumed : list (Pubkey * RemoteAccount)) (start : Z).

Fixpoint match_slots_loop (min_context_slot : option Z) (fetch_start : Z) (more : nat)
    : F (ProviderResult (list RemoteAccount)) :=
  r ← fetch_multi_rpc_only ks fetch_start;
  match r with
  | Err err =>
      let failed := reforward_consumed_subscription_results consumed ;; Ready (Err err) in
      next_match_slots_retry more start rpc_error_retry_delay
        (match more with S more => match_slots_loop min_context_slot fetch_start more | O => failed end)
        (fun _ => failed)
  | Ok accs =>
      let min_context_slot := raised_min_context_slot min_context_slot accs in
      let fetch_start := Z.max fetch_start (default 0%Z min_context_slot) in
      match slots_match_and_meet_min_context accs min_context_slot with
      | Match => Ready (Ok accs)
      | unmatched =>
          let failed limit :=
            reforward_consumed_subscription_results consumed ;;
            Ready (Err (match unmatched with
                        | MatchButBelowMinContextSlot slot =>
                            MatchingSlotsNotSatisfyingMinContextSlot (account_slots accs) slot limit
                        | _ => SlotsDidNotMatch (account_slots accs) limit
                        end)) in
          next_match_slots_retry more start match_slots_retry_delay
            (match more with
             | S more => match_slots_loop min_context_slot fetch_start more
             | O => failed MaxRetries
             end)
            failed
      end
  end.
End match_slots.

Definition try_get_multi_until_slots_match (ks : list Pubkey) (min_context_slot : option Z)
    : F (ProviderResult (list RemoteAccount)) :=
  first ← try_get_multi ks None None;
  match first with
  | Err err => Ready (Err err)
  | Ok accs =>
      let min_context_slot := raised_min_context_slot min_context_slot accs in
      match slots_match_and_meet_min_context accs min_context_slot with
      | Match => Ready (Ok accs)
      | _ =>
          seen ← fget slot_seen;
          start ← fget instant;
          match_slots_loop ks (consumed_subscription_results ks accs) start min_context_slot
            (Z.max seen (default 0%Z min_context_slot)) (DEFAULT_MATCH_SLOTS_MAX_RETRIES - 1)
      end
  end.

(** ** A part of an account's data *)

Fixpoint data_slice_attempts (k : Pubkey) (offset len : nat) (min_context_slot : Z) (attempts : nat)
    : F (ProviderResult (option (list Z))) :=
  match attempts with
  | O => Ready (Err (AccountDataSliceFetchFailed k min_context_slot))
  | S attempts =>
      r ← fask (GetDataSlice k offset len);
      let again :=
        (match attempts with O => Ready tt | S _ => fask (Sleep RPC_FETCH_RETRY_DELAY) end) ;;
        data_slice_attempts k offset len min_context_slot attempts in
      match r with
      | RpcOk slot value => if (min_context_slot <=? slot)%Z then Ready (Ok value) else again
      | RpcFailed _ | RpcTimedOut => again
      end
  end.
Definition get_account_data_slice (k : Pubkey) (offset len : nat) (min_context_slot : Z)
    : F (ProviderResult (option (list Z))) :=
  data_slice_attempts k offset len min_context_slot DATA_SLICE_FETCH_MAX_ATTEMPTS.

(** ** Start-up: the clock tells the slot of the chain *)

Definition provider_new : F (ProviderResult unit) :=
  clock ← try_get clock_id;
  match clock with
  | Err e => Ready (Err e)
  | Ok (NotFound _) => Ready (Err ClockAccountCouldNotBeResolved)
  | Ok (Found _ _ as clock) => fput (update_chain_slot (remote_slot clock)) ;; Ready (Ok tt)
  end.
End fetch.
