(* ===== verification/ProviderReconcile.v ===== *)
(** * The remote account provider: repair

    [remote_account_provider/subscription_reconciler.rs] and the jobs of the provider.
    The reconciler compares the accounts that should be followed with what the pubsub
    clients report, one key at a time under the lock of the key, and looks again at
    the live state before each repair. After a reconnect, accounts without coverage
    are given up so that they are fetched again on their next use. *)

From stdpp Require Import base gmap sets list strings.
From Stdlib Require Import ZArith Lia.
From S2P Require Import Prelude Intent Runtime RpcClient Link Concurrent Provider ProviderFetch.

Open Scope future_scope.

Section reconcile.
Context `{ProviderEnv}.
Abbreviation F A := (Future Provider ProviderJob ProviderCall ProviderReply A).

Definition internally_managed : gset Pubkey := {[clock_id]}.

Definition tracks_undelegation (k : Pubkey) (s : Provider) : bool :=
  has_subscription_reason k UndelegationTracking s.

(** The account is not followed any more; its local copy is to be discarded. *)
Definition abandon_account (k : Pubkey) : F bool :=
  fput (remove_subscribed k) ;;
  fsection (fun s => (set_ownership k None s, tt)) ;;
  send_stale_account k.

Definition covers (k : Pubkey) (snapshot : option SubscriptionReconciliationSnapshot) : bool :=
  match snapshot with Some sn => bool_decide (k ∈ sn_union sn) | None => false end.

Fixpoint resubscribe_internal (ks : list Pubkey) : F unit :=
  match ks with
  | [] => Ready tt
  | k :: ks => with_key_lock k (fask (Subscribe k) ;; Ready tt) ;; resubscribe_internal ks
  end.

Definition resubscribe_missing (k : Pubkey) : F unit :=
  with_key_lock k (
    watched ← fget (is_watching k);
    if negb watched then Ready tt
    else
      snapshot ← fask ReconciliationSnapshot;
      match snapshot with
      | None => Ready tt
      | Some sn =>
          if bool_decide (k ∈ sn_intersection sn) then Ready tt
          else
            fask (Subscribe k) ;;
            snapshot ← fask ReconciliationSnapshot;
            if covers k snapshot then Ready tt
            else
              tracking ← fsection (fun s => (s, tracks_undelegation k s));
              if (tracking : bool) then Ready tt else abandon_account k ;; Ready tt
      end).

Definition unsubscribe_extra (k : Pubkey) : F unit :=
  with_key_lock k (
    watched ← fget (is_watching k);
    if (watched : bool) then Ready tt
    else
      snapshot ← fask ReconciliationSnapshot;
      match snapshot with
      | None => Ready tt
      | Some sn =>
          if negb (bool_decide (k ∈ sn_union sn)) then Ready tt
          else unsubscribe_account k Reconciler ;; Ready tt
      end).

Fixpoint each_key (f : Pubkey -> F unit) (ks : list Pubkey) : F unit :=
  match ks with
  | [] => Ready tt
  | k :: ks => f k ;; each_key f ks
  end.

(** The number of accounts that should be monitored. *)
Definition reconcile_subscriptions : F nat :=
  tracked ← fget subscribed;
  let monitored := size tracked + size internally_managed in
  snapshot ← fask ReconciliationSnapshot;
  match snapshot with
  | None => Ready monitored
  | Some sn =>
      let missing_internally_managed := internally_managed ∖ sn_intersection sn in
      let ensured := sn_intersection sn ∖ internally_managed in
      let partial := sn_union sn ∖ internally_managed in
      resubscribe_internal (hash_order missing_internally_managed) ;;
      each_key resubscribe_missing (hash_order (tracked ∖ ensured)) ;;
      each_key unsubscribe_extra (hash_order (partial ∖ tracked)) ;;
      Ready monitored
  end.

(** ** After a gap *)

(** A watch a completed undelegation renewed after the gap was noticed is kept. *)
Definition keeps_watch (gap : option Z) (k : Pubkey) (s : Provider) : bool :=
  match ownership s !! k with
  | None => false
  | Some own =>
      own_contains UndelegationTracking own
      || match gap, recovered_at own with Some gap, Some recovered => (gap <=? recovered)%Z | _, _ => false end
  end.

Definition evict_uncovered (from_gap : option Z) (k : Pubkey) : F nat :=
  with_key_lock k (
    watched ← fget (is_watching k);
    if negb watched then Ready 0
    else
      restored ← (match from_gap with
                  | Some _ => Ready false
                  | None => sn ← fask ReconciliationSnapshot; Ready (covers k sn)
                  end);
      if (restored : bool) then Ready 0
      else
        keep ← fsection (fun s => (s, keeps_watch from_gap k s));
        if (keep : bool) then Ready 0
        else sent ← abandon_account k; Ready (if (sent : bool) then 1 else 0)).

Fixpoint evict_each (from_gap : option Z) (ks : list Pubkey) : F nat :=
  match ks with
  | [] => Ready 0
  | k :: ks => n ← evict_uncovered from_gap k; m ← evict_each from_gap ks; Ready (n + m)
  end.

Definition evict_uncovered_subscriptions (gap : option SubscriptionGap) : F nat :=
  tracked ← (match gap with Some gap => Ready (gap_pubkeys gap) | None => fget subscribed end);
  if decide (tracked = ∅) then Ready 0
  else
    uncovered ← (match gap with
                 | Some _ => Ready tracked
                 | None =>
                     sn ← fask ReconciliationSnapshot;
                     Ready (tracked ∖ match sn with Some sn => sn_union sn | None => ∅ end)
                 end);
    evict_each (detected_at <$> gap) (hash_order uncovered).

(** The two events of [start_active_subscriptions_updater]. *)
Definition on_interval : F unit := reconcile_subscriptions ;; Ready tt.
Definition on_reconnect (gap : SubscriptionGap) : F unit :=
  evict_uncovered_subscriptions (Some gap) ;; reconcile_subscriptions ;; Ready tt.

(** ** The jobs *)

Definition discard {A} (m : F A) : F unit := m ;; Ready tt.

Definition provider_job (j : ProviderJob) : F unit :=
  match j with
  | AcquireJob k r => discard (acquire_subscription k r)
  | EnsureJob k r => discard (ensure_subscription k r)
  | ReleaseJob k r mode => discard (release_subscription_with_mode k r mode)
  | ReleaseSilentlyJob k r => discard (release_subscription_reason_silently_for_delegated_account k r)
  | ForgetJob k r => forget_subscription_reason k r
  | PreferGrpcJob k => prefer_grpc_subscription k
  | TryGetMultiJob ks mark_empty start => discard (try_get_multi ks mark_empty start)
  | MatchSlotsJob ks min_context_slot => discard (try_get_multi_until_slots_match ks min_context_slot)
  | SnapshotJob ks min_context_slot => discard (fetch_snapshot_until_slot ks min_context_slot)
  | DataSliceJob k offset len min_context_slot => discard (get_account_data_slice k offset len min_context_slot)
  | UnsubscribeJob k => discard (unsubscribe k)
  | EvictStaleJob => evict_stale
  | EvictCachedJob k => evict_cached k
  | SendStaleJob k => discard (send_stale_account k)
  | ReceiveUpdateJob => fput recv_update
  | FetchJob ks generations mark_empty min_context_slot => fetch ks generations mark_empty min_context_slot
  | UpdateJob u => handle_account_update u
  | ReplayJob => replay_next
  | RefreshJob => discard refresh_undelegation_tracking_accounts_once
  | ReconcileJob => on_interval
  | ReconnectJob gap => on_reconnect gap
  | StartupJob => discard provider_new
  | TickJob ms => fput (fun s => set_slots (slot_seen s) (last_update s) (updates_received s) (instant s + ms) s)
  end.

(** A call made for a request is dropped with it; the provider's own tasks are spawned
    and run to their end. *)
Definition provider_droppable (j : ProviderJob) : bool :=
  match j with
  | AcquireJob _ _ | EnsureJob _ _ | ReleaseJob _ _ _ | ReleaseSilentlyJob _ _ | ForgetJob _ _
  | PreferGrpcJob _ | TryGetMultiJob _ _ _ | MatchSlotsJob _ _ | SnapshotJob _ _ | DataSliceJob _ _ _ _
  | SendStaleJob _ | StartupJob => true
  | UnsubscribeJob _ | EvictStaleJob | ReceiveUpdateJob | EvictCachedJob _ | FetchJob _ _ _ _ | UpdateJob _ | ReplayJob
  | RefreshJob | ReconcileJob | ReconnectJob _ | TickJob _ => false
  end.

(** Fetches are only started by requests. *)
Definition admitted (j : ProviderJob) : Prop :=
  match j with FetchJob _ _ _ _ => False | TickJob ms => (0 <= ms)%Z | _ => True end.

Definition provider_init : Provider :=
  mkProvider ∅ ∅ ∅ ∅ 0 [] 0 0 0 ∅ [] true [] true 0.

Abbreviation ProviderSys := (@Sys Provider ProviderJob ProviderCall ProviderReply).
Definition provider_reachable (drops : bool) (y : ProviderSys) : Prop :=
  reachable provider_job provider_droppable admitted drops provider_init y.
End reconcile.

Abbreviation ProviderSys := (@Sys Provider ProviderJob ProviderCall ProviderReply).

(** ** A small chain

    An environment in which the definitions evaluate: an account is its lamports, every
    call succeeds and the node answers at a given slot. *)

Definition small_account (lamports : Z) : SharedAccount :=
  mkSharedAccount lamports [] 0 Mirrored false 0 0 false 0.
Definition small_env : ProviderEnv := {|
  RawAccount := Z;
  account_from := small_account;
  missing_account := no_account;
  clock_id := 1%N;
  hash_order := elements;
  hash_order_perm X := reflexivity (elements X) |}.
Definition answer_at (slot : Z) (c : ProviderCall) : @ProviderReply small_env c :=
  match c return @ProviderReply small_env c with
  | Subscribe _ | Unsubscribe _ _ | PreferGrpc _ => Ok tt
  | ReconciliationSnapshot => None
  | GetAccount _ _ => RpcOk slot (Some 5%Z)
  | GetMultipleAccounts ks _ => RpcOk slot (map (fun _ => Some 5%Z) ks)
  | GetDataSlice _ _ _ => RpcOk slot None
  | Sleep _ => tt
  | ClaimEviction _ => false
  | ClaimCachedEviction _ => None
  | DeleteClaimed _ => true
  end.

Abbreviation SmallChoice := (@choice (@ProviderJob small_env) ProviderCall (@ProviderReply small_env)).
Definition steps_of (i n : nat) (slot : Z) : list SmallChoice := replicate n (Run i (answer_at slot)).
Definition small_run (chs : list SmallChoice) : @Sys Provider (@ProviderJob small_env) ProviderCall (@ProviderReply small_env) :=
  run (@provider_job small_env) provider_droppable chs provider_init.
Lemma small_run_reachable drops chs :
  Forall (choice_ok (@admitted small_env) drops) chs -> provider_reachable drops (small_run chs).
Proof. apply run_reachable. Qed.
