(* ===== verification/ProviderLocks.v ===== *)
(** * The remote account provider: what is followed

    Whatever tasks use the provider at once, a key someone holds is followed whenever
    no transition of it is under way, and the counts of its reasons are positive, so
    releasing one never underflows. The argument is per key: [kview] is what the state
    says about a key; while a task holds the lock of the key only that task changes it,
    so the section is verified like sequential code ([kwp]), and [free_key] holds again
    where the lock is given up, also where the task is dropped. *)

From stdpp Require Import base gmap sets list strings.
From Stdlib Require Import ZArith Lia.
From S2P Require Import Prelude Intent Runtime RpcClient Link Concurrent Provider ProviderFetch ProviderReconcile.

Open Scope future_scope.

(** ** A key *)

Abbreviation View := (option SubscriptionOwnership * bool)%type.
Definition kview (k : Pubkey) (s : Provider) : View := (ownership s !! k, bool_decide (k ∈ subscribed s)).

(** Every reason is held at least once, and there is one. *)
Definition own_ok (o : SubscriptionOwnership) : Prop :=
  reasons o <> ∅ /\ forall r n, reasons o !! r = Some n -> (1 <= n)%Z.

Lemma own_acquire_ok r o : (forall r n, reasons o !! r = Some n -> (1 <= n)%Z) -> own_ok (own_acquire r o).
Proof.
  intros Ho. split; cbn; [by apply insert_non_empty|]. intros r' n. destruct (decide (r = r')) as [->|Hne].
  - rewrite lookup_insert_eq. intros [= <-]. destruct (reasons o !! r') eqn:Hr; cbn; [|lia].
    apply Ho in Hr. lia.
  - rewrite lookup_insert_ne by done. apply Ho.
Qed.

Lemma own_release_pos r o :
  (forall r n, reasons o !! r = Some n -> (1 <= n)%Z) ->
  forall r' n, reasons (own_release r o) !! r' = Some n -> (1 <= n)%Z.
Proof.
  intros Ho r' n. unfold own_release. destruct (reasons o !! r) as [c|] eqn:Hr; [|apply Ho]. cbn.
  pose proof (Ho _ _ Hr). destruct (c - 1 =? 0)%Z eqn:Hc.
  - intros [_ Hl]%lookup_delete_Some. by eapply Ho.
  - intros [[<- <-]|[_ Hl]]%lookup_insert_Some; [lia|by eapply Ho].
Qed.

Lemma own_release_all_reasons now r o : reasons (fst (own_release_all now r o)) = delete r (reasons o).
Proof. unfold own_release_all. by case_match. Qed.

Lemma own_release_mode_pos now mode r o :
  (forall r n, reasons o !! r = Some n -> (1 <= n)%Z) ->
  forall r' n, reasons (fst (own_release_mode now mode r o)) !! r' = Some n -> (1 <= n)%Z.
Proof.
  destruct mode; cbn [own_release_mode fst]; [apply own_release_pos|].
  intros Ho r' n. rewrite own_release_all_reasons. intros [_ Hl]%lookup_delete_Some. by eapply Ho.
Qed.

(** What was released was held: there is something to restore. *)
Lemma own_release_mode_count now mode r o :
  own_ok o -> reasons (fst (own_release_mode now mode r o)) = ∅ ->
  (1 <= snd (own_release_mode now mode r o))%Z.
Proof.
  intros [Hne Hpos]. destruct mode; cbn [own_release_mode fst snd]; [lia|].
  rewrite own_release_all_reasons. intros Hd. unfold own_release_all.
  destruct (reasons o !! r) as [n|] eqn:Hr.
  - apply Hpos in Hr. by case_match; cbn.
  - rewrite delete_id in Hd by done. done.
Qed.

Lemma own_iter_pos r n o :
  (forall r n, reasons o !! r = Some n -> (1 <= n)%Z) ->
  forall r' m, reasons (Nat.iter n (own_acquire r) o) !! r' = Some m -> (1 <= m)%Z.
Proof. intros Ho. induction n as [|n IH]; cbn [Nat.iter nat_rect]; [done|]. by apply own_acquire_ok. Qed.

Lemma no_ownership_pos r n : reasons no_ownership !! r = Some n -> (1 <= n)%Z.
Proof. cbn. by rewrite lookup_empty. Qed.

Lemma own_restore_ok count r : (1 <= count)%Z -> exists o, own_restore count r None = Some o /\ own_ok o.
Proof.
  intros Hc. unfold own_restore. eexists. split; [done|]. destruct (Z.to_nat count) as [|n] eqn:Hn; [lia|].
  cbn [Nat.iter nat_rect]. by apply own_acquire_ok, own_iter_pos, no_ownership_pos.
Qed.

Section locks.
Context `{ProviderEnv} (drops : bool).
Abbreviation F A := (Future Provider ProviderJob ProviderCall ProviderReply A).

(** A key whose lock is free: if someone holds it, it is followed; if no request was
    ever dropped, it is followed only then. The clock is followed by the clients. *)
Definition free_key (k : Pubkey) (v : View) : Prop :=
  (forall o, v.1 = Some o -> own_ok o /\ (k <> clock_id -> v.2 = true)) /\
  (drops = false -> v.2 = true -> is_Some v.1) /\
  (k = clock_id -> v.2 = false).

Definition linv (s : Provider) : Prop := forall k, k ∉ key_locks s -> free_key k (kview k s).

(** ** The discipline of the locks

    A future holds the locks [h]: no one else changes what the state says about these
    keys, and it changes nothing else. *)
Definition lrely (h : gset Pubkey) (s s' : Provider) : Prop := forall k, k ∈ h -> kview k s' = kview k s.
Definition lguar (h h' : gset Pubkey) (s s' : Provider) : Prop :=
  (forall k, k ∈ key_locks s' <-> (k ∈ key_locks s /\ (k ∈ h -> k ∈ h')) \/ (k ∈ h' /\ k ∉ h)) /\
  (forall k, k ∈ h' -> k ∉ h -> k ∉ key_locks s) /\
  (forall k, k ∉ h -> k ∉ h' -> kview k s' = kview k s) /\
  (forall k, k ∈ h -> k ∉ h' -> free_key k (kview k s')).
Definition lworld (hs : list (gset Pubkey)) (s : Provider) : Prop :=
  linv s /\
  (forall k, k ∈ key_locks s <-> exists i h, hs !! i = Some h /\ k ∈ h) /\
  (forall i j h1 h2 k, hs !! i = Some h1 -> hs !! j = Some h2 -> k ∈ h1 -> k ∈ h2 -> i = j).

(** A key is only unsubscribed when no one holds it, unless it is evicted. *)
Definition lasks (c : ProviderCall) (h : gset Pubkey) (s : Provider) : Prop :=
  match c with
  | Unsubscribe k ManualUnsubscribe => k ∈ h
  | Unsubscribe k _ => k ∈ h /\ ownership s !! k = None
  | _ => True
  end.
(** A future that holds a lock is never blocked. *)
Definition lblocks (h : gset Pubkey) (s : Provider) : Prop := h = ∅ \/ stale_full s = true.
Definition lstarts (j : ProviderJob) (s : Provider) : Prop := True.

Lemma lworld_inv_step hs i h h' s s' :
  lworld hs s -> hs !! i = Some h -> lguar h h' s s' -> linv s'.
Proof.
  intros (Hinv & Hl & _) Hi (Hk & _ & Hv & Hf) k Hfree.
  destruct (decide (k ∈ h')) as [Hin'|Hout'].
  - exfalso. apply Hfree, Hk. destruct (decide (k ∈ h)) as [Hin|]; [left|by right].
    split; [|done]. apply Hl. eauto.
  - destruct (decide (k ∈ h)) as [Hin|Hout]; [by apply Hf|]. rewrite Hv by done. apply Hinv.
    intros Hc. apply Hfree, Hk. by left.
Qed.

Lemma lworld_step hs i h h' s s' :
  lworld hs s -> hs !! i = Some h -> lguar h h' s s' ->
  lworld (<[i := h']> hs) s' /\ forall j h2, j <> i -> hs !! j = Some h2 -> lrely h2 s s'.
Proof.
  intros Hw Hi Hg. pose proof (lworld_inv_step _ _ _ _ _ _ Hw Hi Hg) as Hinv'.
  destruct Hw as (_ & Hl & Hd). destruct Hg as (Hk & Hnew & Hv & _).
  pose proof (lookup_lt_Some _ _ _ Hi) as Hlt.
  assert (forall j h2 k, j <> i -> hs !! j = Some h2 -> k ∈ h2 -> (k ∉ h /\ k ∉ h')) as Hother.
  { intros j h2 k Hne Hj Hin. assert (k ∉ h) as Hn by (intros Hc; by apply Hne, (Hd j i h2 h k)).
    split; [done|]. intros Hc. apply (Hnew k Hc Hn), Hl. eauto. }
  split; [split_and!; [done| |]|].
  - intros k. rewrite Hk, Hl. split.
    + intros [[(j & h2 & Hj & Hin) Himp]|[Hin _]].
      * destruct (decide (j = i)) as [->|Hne].
        -- simplify_eq. exists i, h'. by rewrite list_lookup_insert_eq by done; auto.
        -- exists j, h2. by rewrite list_lookup_insert_ne.
      * exists i, h'. by rewrite list_lookup_insert_eq.
    + intros (j & h2 & Hj & Hin). apply list_lookup_insert_Some in Hj as [(-> & -> & _)|[Hne Hj]].
      * destruct (decide (k ∈ h)) as [Hh|Hh]; [left|by right]. split; eauto.
      * left. split; [eauto|]. intros Hh. by destruct (Hother j h2 k) as [? _].
  - intros j1 j2 h1 h2 k H1 H2 Hin1 Hin2.
    apply list_lookup_insert_Some in H1 as [(<- & <- & _)|[Hn1 H1]];
      apply list_lookup_insert_Some in H2 as [(<- & <- & _)|[Hn2 H2]].
    + done.
    + by destruct (Hother j2 h2 k) as [_ ?].
    + by destruct (Hother j1 h1 k) as [_ ?].
    + by eapply Hd.
  - intros j h2 Hne Hj k Hin. destruct (Hother j h2 k) as [??]; auto.
Qed.

Lemma lguar_refl h s : lguar h h s s.
Proof. split_and!; [naive_solver|done|done|done]. Qed.

#[local] Instance locks_discipline :
  Discipline ∅ linv lrely lguar lworld lstarts.
Proof.
  split.
  - by intros h s k.
  - intros h s1 s2 s3 H1 H2 k Hk. by rewrite H2, H1.
  - apply lguar_refl.
  - done.
  - by intros hs s [? _].
  - intros hs s (Hinv & Hl & Hd). split_and!; [done| |].
    + intros k. rewrite Hl. split; intros (i & h & Hi & Hin).
      * exists i, h. split; [by apply lookup_app_l_Some|done].
      * apply lookup_app_Some in Hi as [Hi|[_ Hi]]; [eauto|].
        apply list_lookup_singleton_Some in Hi as [_ <-]. set_solver.
    + intros i j h1 h2 k Hi Hj H1 H2.
      apply lookup_app_Some in Hi as [Hi|[_ Hi]];
        [|apply list_lookup_singleton_Some in Hi as [_ <-]; set_solver].
      apply lookup_app_Some in Hj as [Hj|[_ Hj]];
        [|apply list_lookup_singleton_Some in Hj as [_ <-]; set_solver].
      by eapply Hd.
  - apply lworld_step.
Qed.

(** ** Sections under the lock of a key *)

(** A step that changes at most what the state says about [k]. *)
Definition local (k : Pubkey) (s s' : Provider) : Prop :=
  key_locks s' = key_locks s /\ forall k', k' <> k -> kview k' s' = kview k' s.

(** [d]: the section may be dropped; then the key must be free at its [await]s. *)
Fixpoint kwp {A} (d : bool) (k : Pubkey) (m : F A) (Q : A -> View -> Prop) (v : View) : Prop :=
  match m with
  | Ready a => Q a v
  | Do f g => forall s, kview k s = v ->
      local k s (fst (f s)) /\ kwp d k (g (snd (f s))) Q (kview k (fst (f s)))
  | When drop f g =>
      (drops = true -> d = true -> free_key k v) /\ (forall s, drop s = s) /\ (forall s, f s = None -> stale_full s = true) /\
      forall s s' b, kview k s = v -> f s = Some (s', b) -> local k s s' /\ kwp d k (g b) Q (kview k s')
  | Ask drop c g =>
      (drops = true -> d = true -> free_key k v) /\ (forall s, drop s = s) /\
      match c with
      | Unsubscribe k' ManualUnsubscribe => k' = k
      | Unsubscribe k' _ => k' = k /\ v.1 = None
      | _ => True
      end /\ forall r, kwp d k (g r) Q v
  | Spawn _ _ => False
  end.

Lemma kwp_bind {A B} d k (m : F A) (g : A -> F B) Q v :
  kwp d k m (fun a v => kwp d k (g a) Q v) v -> kwp d k (fbind m g) Q v.
Proof.
  revert v. induction m as [a|C f c IH|C drop f c IH|drop q c IH|j c IH]; cbn [fbind kwp]; intros v Hm.
  - done.
  - intros s Hs. destruct (Hm s Hs). auto.
  - destruct Hm as (Hd & Hid & Hn & Hm). split_and!; [done..|]. intros s s' b Hs Hf.
    destruct (Hm s s' b Hs Hf). auto.
  - destruct Hm as (Hd & Hid & Hc & Hm). split_and!; auto.
  - done.
Qed.

Lemma local_guar k s s' : local k s s' -> lguar {[k]} {[k]} s s'.
Proof.
  intros [Hl Hv]. split_and!.
  - intros k'. rewrite Hl. destruct (decide (k' ∈ ({[k]} : gset Pubkey))); naive_solver.
  - done.
  - intros k' Hk' _. apply Hv. set_solver.
  - done.
Qed.

(** What a section under a lock leaves where it is dropped, and where it ends. *)
Definition section_drop (d : bool) (k : Pubkey) (h : gset Pubkey) (s s' : Provider) : Prop :=
  drops = true -> d = true -> h = {[k]} /\ s' = s /\ free_key k (kview k s).

Lemma safe_section {A} d k (m : F A) (Q : A -> View -> Prop) s v :
  kview k s = v -> kwp d k m Q v ->
  safe linv lrely lguar lstarts lasks lblocks (section_drop d k)
    (fun a h s => h = {[k]} /\ Q a (kview k s)) m {[k]} s.
Proof.
  revert s v. induction m as [a|C f c IH|C drop f c IH|drop q c IH|j c IH]; cbn [kwp safe];
    intros s v Hv Hm s' Hr Hi;
    (assert (kview k s' = v) as Hv' by (rewrite Hr, Hv by set_solver; done)).
  - by rewrite Hv'.
  - destruct (Hm s' Hv') as [Hl Hk]. exists {[k]}. split; [by apply local_guar|by eapply IH].
  - destruct Hm as (Hd & Hid & Hn & Hm). split_and!.
    + intros Hdr Hdd. rewrite Hid, Hv'. auto.
    + intros Hf. right. by apply Hn.
    + intros s'' b Hf. destruct (Hm s' s'' b Hv' Hf) as [Hl Hk]. exists {[k]}.
      split; [by apply local_guar|by eapply IH].
  - destruct Hm as (Hd & Hid & Hc & Hm). split_and!.
    + intros Hdr Hdd. rewrite Hid, Hv'. auto.
    + unfold lasks. destruct q as [|k' []| | | | | | | | |]; try done; subst v.
      1,2,4: destruct Hc as [-> Hc]; split; [by apply elem_of_singleton|by rewrite <- Hv' in Hc].
      rewrite Hc. by apply elem_of_singleton.
    + intros r. by eapply IH.
  - done.
Qed.

(** ** Rules for whole operations *)

Abbreviation lsafe d Q := (safe linv lrely lguar lstarts lasks lblocks (may_drop ∅ lguar drops d) Q).

Lemma lguar_lock k s :
  k ∉ key_locks s -> lguar ∅ {[k]} s (set_subs (ownership s) (subscribed s) ({[k]} ∪ key_locks s) s).
Proof.
  intros Hk. split_and!; cbn.
  - intros k'. rewrite elem_of_union, elem_of_singleton. split; [|naive_solver].
    intros [->|?]; [right|left]; split; set_solver.
  - by intros k' ->%elem_of_singleton _.
  - done.
  - intros k' ?. set_solver.
Qed.

Lemma lguar_unlock k s : free_key k (kview k s) -> lguar {[k]} ∅ s (unlock_key k s).
Proof.
  intros Hk. split_and!; cbn.
  - intros k'. rewrite elem_of_difference, elem_of_singleton. set_solver.
  - intros k' ?. set_solver.
  - done.
  - by intros k' ->%elem_of_singleton _.
Qed.

Lemma safe_with_key_lock {A} d (Q : A -> gset Pubkey -> Provider -> Prop) k (body : F A) s :
  (forall v, free_key k v -> kwp d k body (fun a v => free_key k v) v) ->
  (forall a s, linv s -> Q a ∅ s) ->
  lsafe d Q (with_key_lock k body) ∅ s.
Proof.
  intros Hbody HQ. unfold with_key_lock. apply (safe_bind locks_discipline).
  unfold lock_key, fwait. cbn [safe]. intros s1 _ Hi1. split_and!.
  { intros _ _. apply lguar_refl. }
  { case_decide; [|done]. by left. }
  intros s2 [] Hf. case_decide as Hk; [done|]. injection Hf as <-.
  exists {[k]}. split; [by apply lguar_lock|]. intros s3 Hr3 Hi3. apply (safe_bind locks_discipline).
  assert (kview k s3 = kview k s1) as Hv by (apply Hr3, elem_of_singleton; done).
  eapply (safe_protect _ (section_drop d k)).
  { intros h s4 s4' Hd Hdr Hdd. destruct (Hd Hdr Hdd) as (-> & -> & Hfree). by apply lguar_unlock. }
  eapply safe_mono; [apply (safe_section d k body (fun _ v => free_key k v) s3 _ Hv)|done|].
  { by apply Hbody, Hi1. }
  cbn. intros a h s4 Hi4 [-> Hfree] s5 Hr5 Hi5. exists ∅. split.
  - apply lguar_unlock. by rewrite (Hr5 k) by (by apply elem_of_singleton).
  - intros s6 _ Hi6. by apply HQ.
Qed.

(** ** What the operations do to a key *)

Lemma kview_set_ownership k o s : kview k (set_ownership k o s) = (o, (kview k s).2).
Proof.
  unfold kview, set_ownership. cbn. f_equal. destruct o; [apply lookup_insert_eq|apply lookup_delete_eq].
Qed.
Lemma local_set_ownership k o s : local k s (set_ownership k o s).
Proof.
  split; [done|]. intros k' Hne. unfold kview, set_ownership. cbn. f_equal.
  destruct o; [by apply lookup_insert_ne|by apply lookup_delete_ne].
Qed.
Definition tracks (k : Pubkey) (b : bool) (v : View) : View :=
  (v.1, if is_internally_managed k then v.2 else b).
Lemma kview_add k s : kview k (add_subscribed k s) = tracks k true (kview k s).
Proof.
  unfold add_subscribed, tracks. case_match; [done|]. unfold kview. cbn. f_equal.
  apply bool_decide_eq_true. set_solver.
Qed.
Lemma local_add k s : local k s (add_subscribed k s).
Proof.
  unfold add_subscribed. case_match; [done|]. split; [done|]. intros k' Hne. unfold kview. cbn. f_equal.
  apply bool_decide_ext. set_solver.
Qed.
Lemma kview_remove k s : kview k (remove_subscribed k s) = tracks k false (kview k s).
Proof.
  unfold remove_subscribed, tracks. case_match; [done|]. unfold kview. cbn. f_equal.
  apply bool_decide_eq_false. set_solver.
Qed.
Lemma local_remove k s : local k s (remove_subscribed k s).
Proof.
  unfold remove_subscribed. case_match; [done|]. split; [done|]. intros k' Hne. unfold kview. cbn. f_equal.
  apply bool_decide_ext. set_solver.
Qed.
(** Steps that do not touch the subscriptions. *)
Definition same_subs (s s' : Provider) : Prop :=
  ownership s' = ownership s /\ subscribed s' = subscribed s /\ key_locks s' = key_locks s.
Lemma kview_same k s s' : same_subs s s' -> kview k s' = kview k s.
Proof. intros (Ho & Hs & _). unfold kview. by rewrite Ho, Hs. Qed.
Lemma local_same k s s' : same_subs s s' -> local k s s'.
Proof. intros Hs. split; [apply Hs|]. intros k' _. by apply kview_same. Qed.

Lemma kwp_section {A} d k (f : Provider -> Provider * A) Q v :
  (drops = true -> d = true -> free_key k v) ->
  (forall s, kview k s = v -> local k s (fst (f s)) /\ Q (snd (f s)) (kview k (fst (f s)))) ->
  kwp d k (fsection f) Q v.
Proof.
  intros Hd Hf. cbn. split_and!; [done..|]. intros s s' b Hs [= Hfs]. destruct (Hf s Hs) as [??].
  by rewrite Hfs in *.
Qed.
Lemma kwp_put d k f (Q : unit -> View -> Prop) v :
  (forall s, kview k s = v -> local k s (f s) /\ Q tt (kview k (f s))) -> kwp d k (fput f) Q v.
Proof. intros Hf s Hs. by apply Hf. Qed.
Lemma kwp_get {A} d k (f : Provider -> A) Q v :
  (forall s, kview k s = v -> Q (f s) v) -> kwp d k (fget f) Q v.
Proof. intros Hf s Hs. cbn. rewrite Hs. split; [done|by apply Hf]. Qed.

(** The views an operation leaves behind. *)
Lemma free_dropped k w : drops = true -> (k = clock_id -> w = false) -> free_key k (None, w).
Proof. intros Hd Hc. split_and!; cbn; [done| |done]. intros Hd'. by rewrite Hd in Hd'. Qed.
Lemma free_gone k w : (k = clock_id -> w = false) -> free_key k (tracks k false (None, w)).
Proof.
  intros Hc. unfold tracks, is_internally_managed. case_bool_decide as Hk; split_and!; cbn; try done.
  intros _ Hw. by rewrite Hc in Hw.
Qed.
Lemma free_held k o w : own_ok o -> (k = clock_id -> w = false) -> free_key k (tracks k true (Some o, w)).
Proof.
  intros Ho Hc. unfold tracks, is_internally_managed. case_bool_decide as Hk; split_and!; cbn;
    naive_solver.
Qed.
Lemma free_kept k o w o' : free_key k (Some o, w) -> own_ok o' -> free_key k (Some o', w).
Proof. intros (H1 & H2 & H3) Ho. split_and!; cbn; naive_solver. Qed.
Lemma free_own k o w : free_key k (Some o, w) -> own_ok o.
Proof. intros (H1 & _). by apply H1. Qed.
Lemma free_clock k o w : free_key k (o, w) -> k = clock_id -> w = false.
Proof. intros (_ & _ & H3). done. Qed.


Lemma kwp_ask d k c Q v :
  (drops = true -> d = true -> free_key k v) ->
  match c with
  | Unsubscribe k' ManualUnsubscribe => k' = k
  | Unsubscribe k' _ => k' = k /\ v.1 = None
  | _ => True
  end -> (forall r, Q r v) -> kwp d k (fask c) Q v.
Proof. intros Hd Hc HQ. by split_and!. Qed.

Lemma kwp_put_track d k b f (Q : unit -> View -> Prop) v :
  (forall s, local k s (f s)) -> (forall s, kview k (f s) = tracks k b (kview k s)) ->
  Q tt (tracks k b v) -> kwp d k (fput f) Q v.
Proof. intros Hl Hv HQ. apply kwp_put. intros s <-. split; [done|]. by rewrite Hv. Qed.
Lemma kwp_add d k (Q : unit -> View -> Prop) v : Q tt (tracks k true v) -> kwp d k (fput (add_subscribed k)) Q v.
Proof. apply kwp_put_track; [apply local_add|apply kview_add]. Qed.
Lemma kwp_remove d k (Q : unit -> View -> Prop) v : Q tt (tracks k false v) -> kwp d k (fput (remove_subscribed k)) Q v.
Proof. apply kwp_put_track; [apply local_remove|apply kview_remove]. Qed.

Lemma kwp_same {A} d k (f : Provider -> Provider * A) (Q : A -> View -> Prop) v :
  (drops = true -> d = true -> free_key k v) ->
  (forall s, same_subs s (fst (f s)) /\ Q (snd (f s)) v) -> kwp d k (fsection f) Q v.
Proof.
  intros Hd Hf. apply kwp_section; [done|]. intros s Hs. destruct (Hf s) as [Hsame HQ].
  split; [by apply local_same|]. by rewrite (kview_same _ _ _ Hsame), Hs.
Qed.

Lemma lguar_same h h' s s' s'' : lguar h h' s s' -> same_subs s' s'' -> lguar h h' s s''.
Proof.
  intros (H1 & H2 & H3 & H4) Hs. split_and!; [|done|..].
  - destruct Hs as (_ & _ & ->). done.
  - intros k Hk Hk'. rewrite (kview_same k _ _ Hs). auto.
  - intros k Hk Hk'. rewrite (kview_same k _ _ Hs). auto.
Qed.
Lemma send_stale_same k s s' b :
  (if stale_full s then None
   else if stale_open s
   then Some (set_pipeline (replay_outbox s) (forwarded s) (stale_accounts s ++ [k]) s, true)
   else Some (s, false)) = Some (s', b) -> same_subs s s'.
Proof. repeat case_match; intros; by simplify_eq. Qed.
Lemma kwp_send_stale d k k' (Q : bool -> View -> Prop) v :
  (drops = true -> d = true -> free_key k v) -> (forall b, Q b v) -> kwp d k (send_stale_account k') Q v.
Proof.
  intros Hd HQ. cbn. split_and!; [done|done| |].
  - intros s. by repeat case_match.
  - intros s s' b Hs Hsame%send_stale_same. split; [by apply local_same|]. by rewrite (kview_same _ _ _ Hsame), Hs.
Qed.

(** A section that sets the entry of the key. *)
Lemma kwp_entry {A} d k (f : Provider -> Provider * A) Q v :
  (drops = true -> d = true -> free_key k v) ->
  (forall s, ownership s !! k = v.1 -> exists o,
     (fst (f s) = set_ownership k o s \/ fst (f s) = s /\ o = v.1) /\ Q (snd (f s)) (o, v.2)) ->
  kwp d k (fsection f) Q v.
Proof.
  intros Hd Hf. apply kwp_section; [done|]. intros s Hs.
  destruct (Hf s) as (o & [Heq|[Heq ->]] & HQ); [by rewrite <- Hs|..]; rewrite Heq.
  - split; [apply local_set_ownership|]. by rewrite kview_set_ownership, Hs.
  - split; [done|]. rewrite Hs. by destruct v.
Qed.

Section operations.
Context (d : bool).

Lemma acquire_safe k r skip (Q : ProviderResult unit -> gset Pubkey -> Provider -> Prop) s :
  (forall a s, linv s -> Q a ∅ s) -> lsafe d Q (acquire_subscription_with_mode k r skip) ∅ s.
Proof.
  intros HQ. apply safe_with_key_lock; [|done]. intros [o w] Hfree.
  pose proof (free_clock _ _ _ Hfree) as Hc.
  apply kwp_bind, kwp_entry; [done|]. cbn [fst snd]. intros s1 Ho. rewrite Ho.
  destruct o as [o|]; cbn [fst snd].
  - eexists. split; [by left|]. apply kwp_bind, kwp_add, free_held; [|done].
    pose proof (free_own _ _ _ Hfree) as Hok. case_match; [|done]. by apply own_acquire_ok, Hok.
  - exists None. split; [by right|]. unfold register_subscription.
    apply kwp_bind, kwp_bind, kwp_ask; [done|done|]. intros [[]|e]; [|done].
    apply kwp_bind, kwp_add. apply kwp_bind, kwp_entry.
    + intros Hdr _. apply free_dropped; [done|]. unfold is_internally_managed. by case_bool_decide.
    + intros s2 Ho2. eexists. split; [by left|]. cbn in Ho2. rewrite Ho2.
      apply (free_held k _ w); [|done]. by apply own_acquire_ok, no_ownership_pos.
Qed.

(** The last reference of a key is given up: it is unsubscribed, or comes back. *)
Lemma free_release now mode r o w k :
  free_key k (Some o, w) ->
  reasons (fst (own_release_mode now mode r o)) <> ∅ ->
  free_key k (Some (fst (own_release_mode now mode r o)), w).
Proof.
  intros Hfree Hne. apply (free_kept _ _ _ _ Hfree). split; [done|].
  apply own_release_mode_pos, (free_own _ _ _ Hfree).
Qed.
Lemma free_restore count r k w :
  (1 <= count)%Z -> (w = false -> k = clock_id) -> (k = clock_id -> w = false) ->
  free_key k (own_restore count r None, w).
Proof.
  intros Hc Hw Hk. destruct (own_restore_ok count r Hc) as (o & -> & Ho).
  split_and!; cbn; [|by eexists|done]. intros o' [= <-]. split; [done|]. intros Hne. destruct w; [done|].
  by destruct Hne; auto.
Qed.

Lemma release_safe k r mode (Q : ProviderResult bool -> gset Pubkey -> Provider -> Prop) s :
  (forall a s, linv s -> Q a ∅ s) -> lsafe d Q (release_subscription_with_mode k r mode) ∅ s.
Proof.
  intros HQ. apply safe_with_key_lock; [|done]. intros [o w] Hfree.
  destruct (is_internally_managed k) eqn:Hint; [done|].
  apply bool_decide_eq_false in Hint.
  apply kwp_bind, kwp_entry; [done|]. cbn [fst snd]. intros s1 Ho. unfold release_entry. rewrite Ho.
  destruct o as [o|]; [|by exists None; split; [right|]].
  destruct (own_release_mode (instant s1) mode r o) as [o' n] eqn:Hrel.
  pose proof (free_release (instant s1) mode r o w k Hfree) as Hr.
  pose proof (own_release_mode_count (instant s1) mode r o (free_own _ _ _ Hfree)) as Hn.
  rewrite Hrel in Hr, Hn. cbn [fst snd] in Hr, Hn.
  unfold own_is_empty. case_bool_decide as He; cbn [fst snd].
  2:{ exists (Some o'). split; [by left|]. by apply Hr. }
  exists None. split; [by left|].
  assert (w = true) as -> by (destruct Hfree as [H1 _]; by apply (H1 o)).
  unfold unsubscribe_account. apply kwp_bind, kwp_bind, kwp_ask; [|done|].
  { intros Hdr _. by apply free_dropped. }
  intros [[]|e].
  - apply kwp_bind, kwp_remove. by apply free_gone.
  - apply kwp_bind, kwp_entry; [intros Hdr _; by apply free_dropped|]. intros s2 Ho2. cbn in Ho2.
    eexists. split; [by left|]. rewrite Ho2. apply free_restore; [auto|done|done].
Qed.

Lemma release_silently_safe k r (Q : ProviderResult bool -> gset Pubkey -> Provider -> Prop) s :
  (forall a s, linv s -> Q a ∅ s) ->
  lsafe d Q (release_subscription_reason_silently_for_delegated_account k r) ∅ s.
Proof.
  intros HQ. apply safe_with_key_lock; [|done]. intros [o w] Hfree.
  pose proof (free_clock _ _ _ Hfree) as Hc.
  apply kwp_bind, kwp_entry; [done|]. cbn [fst snd]. intros s1 Ho. rewrite Ho.
  destruct o as [o|]; [|by exists None; split; [right|]].
  destruct (own_release_mode (instant s1) All r o) as [o' n] eqn:Hrel.
  pose proof (free_release (instant s1) All r o w k Hfree) as Hr.
  pose proof (own_release_mode_count (instant s1) All r o (free_own _ _ _ Hfree)) as Hn.
  rewrite Hrel in Hr, Hn. cbn [fst snd] in Hr, Hn.
  destruct (n =? 0)%Z eqn:Hz; [|unfold own_is_empty; case_bool_decide as He]; cbn [fst snd].
  - exists (Some o'). split; [by left|]. apply Hr. intros He. apply Hn in He. lia.
  - exists None. split; [by left|].
    apply kwp_bind, kwp_ask; [intros Hdr _; by apply free_dropped|done|]. intros [[]|e].
    + apply kwp_bind, kwp_remove. by apply free_gone.
    + case_match; [apply kwp_bind, kwp_remove; by apply free_gone|].
      apply kwp_bind, kwp_entry; [intros Hdr _; by apply free_dropped|]. intros s2 Ho2. cbn in Ho2.
      eexists. split; [by left|]. rewrite Ho2. apply free_restore; [auto| |done].
      intros Hw. destruct Hfree as [H1 _]. destruct (decide (k = clock_id)) as [|Hne]; [done|].
      destruct (H1 o eq_refl) as [_ H2]. cbn in H2. by rewrite H2 in Hw.
  - exists (Some o'). split; [by left|]. by apply Hr.
Qed.

Lemma forget_safe k r (Q : unit -> gset Pubkey -> Provider -> Prop) s :
  (forall a s, linv s -> Q a ∅ s) -> lsafe d Q (forget_subscription_reason k r) ∅ s.
Proof.
  intros HQ. apply safe_with_key_lock; [|done]. intros [o w] Hfree.
  pose proof (free_clock _ _ _ Hfree) as Hc.
  apply kwp_bind, kwp_entry; [done|]. cbn [fst snd]. intros s1 Ho. rewrite Ho.
  destruct o as [o|]; [|by exists None; split; [right|]].
  pose proof (free_release (instant s1) Single r o w k Hfree) as Hr. cbn in Hr.
  unfold own_is_empty. case_bool_decide as He; cbn [fst snd].
  - exists None. split; [by left|]. unfold unsubscribe_account.
    apply kwp_bind, kwp_bind, kwp_ask; [intros Hdr _; by apply free_dropped|done|]. intros res.
    apply kwp_remove. by apply free_gone.
  - exists (Some (own_release r o)). split; [by left|]. by apply Hr.
Qed.
End operations.

(** The tasks that evict are not dropped. *)
Lemma kwp_unsubscribe_locked k v (Q : ProviderResult unit -> View -> Prop) :
  free_key k v -> (forall a v, free_key k v -> Q a v) -> kwp false k (unsubscribe_locked k) Q v.
Proof.
  intros Hfree HQ. unfold unsubscribe_locked. destruct (is_internally_managed k) eqn:Hint; [by apply HQ|].
  assert (forall a, kwp false k (fput (remove_subscribed k) ;;
    fsection (fun s => (set_ownership k None s, tt)) ;; Ready a)%future Q v) as Hgone.
  { intros a. apply kwp_bind, kwp_remove, kwp_bind, kwp_entry; [done|]. intros s2 _. exists None.
    split; [by left|]. apply HQ. unfold tracks. cbn. rewrite Hint. by split_and!. }
  apply kwp_bind, kwp_get. intros s1 _. destruct (negb _); [by apply HQ|].
  apply kwp_bind, kwp_ask; [done|done|]. intros [[]|e]; [done|]. case_match; [done|by apply HQ].
Qed.

Lemma unsubscribe_safe k (Q : ProviderResult unit -> gset Pubkey -> Provider -> Prop) s :
  (forall a s, linv s -> Q a ∅ s) -> lsafe false Q (unsubscribe k) ∅ s.
Proof. intros HQ. apply safe_with_key_lock; [|done]. intros v Hv. by apply kwp_unsubscribe_locked. Qed.

Lemma evict_stale_safe (Q : unit -> gset Pubkey -> Provider -> Prop) s :
  (forall a s, linv s -> Q a ∅ s) -> lsafe false Q evict_stale ∅ s.
Proof.
  intros HQ. apply (safe_bind locks_discipline). intros s1 _ Hi1. split_and!; [by intros _ _; apply lguar_refl|done|].
  intros s2 o [= Hrecv]. exists ∅. split.
  { eapply lguar_same; [apply lguar_refl|]. unfold recv_stale_account in Hrecv. case_match; by simplify_eq. }
  destruct o as [k|]; intros s3 _ Hi3; [|by intros s4 _ Hi4; apply HQ].
  apply safe_with_key_lock; [|done]. intros v Hv.
  apply kwp_bind, kwp_get. intros s4 _. case_match; [done|].
  apply kwp_bind, kwp_ask; [done|done|]. intros [|]; [|done].
  apply kwp_bind, kwp_unsubscribe_locked; [done|]. intros [[]|e] v' Hv'; [|done].
  apply kwp_bind, kwp_ask; [done|done|]. by intros r.
Qed.

Lemma evict_cached_safe k (Q : unit -> gset Pubkey -> Provider -> Prop) s :
  (forall a s, linv s -> Q a ∅ s) -> lsafe false Q (evict_cached k) ∅ s.
Proof.
  intros HQ. apply (safe_bind locks_discipline). apply safe_with_key_lock.
  - intros v Hv. apply kwp_bind, kwp_ask; [done|done|]. intros [eata|]; [|done].
    apply kwp_bind, kwp_unsubscribe_locked; [done|]. intros [[]|e] v' Hv'; [|done].
    apply kwp_bind, kwp_ask; [done|done|]. by intros r.
  - intros [eata|] s1 Hi1; [|by intros s2 _ Hi2; apply HQ].
    apply (safe_bind locks_discipline). apply release_safe. intros a s2 Hi2 s3 _ Hi3. by apply HQ.
Qed.

Lemma kwp_abandon k v (Q : bool -> View -> Prop) :
  free_key k v -> (forall a v, free_key k v -> Q a v) -> kwp false k (abandon_account k) Q v.
Proof.
  intros Hfree HQ. pose proof (free_clock k v.1 v.2) as Hc. destruct v as [o w].
  apply kwp_bind, kwp_remove, kwp_bind, kwp_entry; [done|]. intros s2 _. exists None. split; [by left|].
  apply kwp_send_stale; [done|]. intros a. apply HQ, (free_gone k w). auto.
Qed.

(** ** Repair *)

Lemma resubscribe_missing_safe k (Q : unit -> gset Pubkey -> Provider -> Prop) s :
  (forall a s, linv s -> Q a ∅ s) -> lsafe false Q (resubscribe_missing k) ∅ s.
Proof.
  intros HQ. apply safe_with_key_lock; [|done]. intros v Hv.
  apply kwp_bind, kwp_get. intros s1 _. case_match; [done|].
  apply kwp_bind, kwp_ask; [done|done|]. intros [sn|]; [|done]. case_match; [done|].
  apply kwp_bind, kwp_ask; [done|done|]. intros _.
  apply kwp_bind, kwp_ask; [done|done|]. intros sn'. case_match; [done|].
  apply kwp_bind, kwp_same; [done|]. intros s2. split; [done|]. cbn [snd]. case_match; [done|].
  apply kwp_bind, kwp_abandon; [done|]. by intros a v' Hv'.
Qed.

(** A key that is not followed is held by no one, other than the clock. *)
Lemma unsubscribe_extra_safe k (Q : unit -> gset Pubkey -> Provider -> Prop) s :
  k <> clock_id -> (forall a s, linv s -> Q a ∅ s) -> lsafe false Q (unsubscribe_extra k) ∅ s.
Proof.
  intros Hne HQ. apply safe_with_key_lock; [|done]. intros [o w] Hv.
  apply kwp_bind, kwp_get. intros s1 Hs1. case_match eqn:Hw; [done|].
  apply kwp_bind, kwp_ask; [done|done|]. intros [sn|]; [|done]. case_match; [done|].
  unfold unsubscribe_account. apply kwp_bind, kwp_bind, kwp_ask; [done| |by intros r].
  split; [done|]. cbn. destruct o as [o|]; [|done]. exfalso.
  destruct Hv as [Hv _]. destruct (Hv o eq_refl) as [_ Htrue]. cbn in Htrue.
  injection Hs1 as _ Hs1. unfold is_watching in Hw. rewrite Hw in Hs1. by rewrite Htrue in Hs1.
Qed.

Lemma each_key_safe (f : Pubkey -> F unit) ks (Q : unit -> gset Pubkey -> Provider -> Prop) s :
  (forall k (Q : unit -> gset Pubkey -> Provider -> Prop) s, k ∈ ks ->
     (forall a s, linv s -> Q a ∅ s) -> lsafe false Q (f k) ∅ s) ->
  (forall a s, linv s -> Q a ∅ s) -> lsafe false Q (each_key f ks) ∅ s.
Proof.
  revert s. induction ks as [|k ks IH]; intros s Hf HQ; [by intros s1 _ Hi1; apply HQ|].
  apply (safe_bind locks_discipline). apply Hf; [left|]. intros [] s1 Hi1. apply IH; [|done].
  intros k' Q' s' Hk'. apply Hf. by right.
Qed.

Lemma resubscribe_internal_safe ks (Q : unit -> gset Pubkey -> Provider -> Prop) s :
  (forall a s, linv s -> Q a ∅ s) -> lsafe false Q (resubscribe_internal ks) ∅ s.
Proof.
  revert s. induction ks as [|k ks IH]; intros s HQ; [by intros s1 _ Hi1; apply HQ|].
  apply (safe_bind locks_discipline). apply safe_with_key_lock; [|by intros [] s1 Hi1; apply IH].
  intros v Hv. apply kwp_bind, kwp_ask; [done|done|]. by intros r.
Qed.

(** A call that cannot end a subscription. *)
Definition harmless (c : ProviderCall) : Prop := match c with Unsubscribe _ _ => False | _ => True end.

#[local] Instance same_subs_preorder : PreOrder same_subs.
Proof. split; [by intros s|]. intros s1 s2 s3 (?&?&?) (?&?&?). split_and!; congruence. Qed.

Lemma lsafe_frames {A} d (Q : A -> gset Pubkey -> Provider -> Prop) (m : F A) s :
  frames same_subs (fun _ => True) harmless m -> (forall a s, linv s -> Q a ∅ s) -> lsafe d Q m ∅ s.
Proof.
  intros Hm HQ. eapply safe_frames; [exact Hm|..|by intros c ? _ Hc; destruct c|done].
  - intros s1 s2 Hi1 Hs. assert (lguar ∅ ∅ s1 s2) as Hg; [|by split; [|intros _ _]].
    split_and!; [|done| |done].
    + intros k. destruct Hs as (_ & _ & ->). set_solver.
    + intros k _ _. by apply kview_same.
  - by left.
Qed.

Lemma elem_of_hash_order k X : k ∈ hash_order X <-> k ∈ X.
Proof. by rewrite hash_order_perm, elem_of_elements. Qed.

Lemma reconcile_safe (Q : nat -> gset Pubkey -> Provider -> Prop) s :
  (forall a s, linv s -> Q a ∅ s) -> lsafe false Q reconcile_subscriptions ∅ s.
Proof.
  intros HQ. unfold reconcile_subscriptions. apply (safe_bind locks_discipline).
  apply lsafe_frames; [frames_steps|]. intros tracked s1 Hi1.
  apply (safe_bind locks_discipline), lsafe_frames; [frames_steps|]. intros [sn|] s2 Hi2.
  2:{ intros s3 _ Hi3. by apply HQ. }
  apply (safe_bind locks_discipline), resubscribe_internal_safe. intros _ s3 Hi3.
  apply (safe_bind locks_discipline), each_key_safe.
  { intros k Q' s' _. apply resubscribe_missing_safe. }
  intros _ s4 Hi4. apply (safe_bind locks_discipline), each_key_safe.
  { intros k Q' s' Hk. apply unsubscribe_extra_safe. intros ->.
    apply elem_of_hash_order in Hk. unfold internally_managed in Hk. set_solver. }
  intros _ s5 Hi5 s6 _ Hi6. by apply HQ.
Qed.

Lemma evict_uncovered_safe gap k (Q : nat -> gset Pubkey -> Provider -> Prop) s :
  (forall a s, linv s -> Q a ∅ s) -> lsafe false Q (evict_uncovered gap k) ∅ s.
Proof.
  intros HQ. apply safe_with_key_lock; [|done]. intros v Hv.
  apply kwp_bind, kwp_get. intros s1 _. case_match; [done|]. apply kwp_bind.
  assert (forall restored, kwp false k (if (restored : bool) then Ready 0 else
    keep ← fsection (fun s => (s, keeps_watch gap k s));
    if (keep : bool) then Ready 0
    else sent ← abandon_account k; Ready (if (sent : bool) then 1 else 0))%future (fun _ v => free_key k v) v) as Hrest.
  { intros [|]; [done|]. apply kwp_bind, kwp_same; [done|]. intros s2. split; [done|]. cbn [snd].
    case_match; [done|]. apply kwp_bind, kwp_abandon; [done|]. by intros a v' Hv'. }
  destruct gap; [by apply (Hrest false)|].
  apply kwp_bind, kwp_ask; [done|done|]. intros sn. by apply Hrest.
Qed.

Lemma evict_each_safe gap ks (Q : nat -> gset Pubkey -> Provider -> Prop) s :
  (forall a s, linv s -> Q a ∅ s) -> lsafe false Q (evict_each gap ks) ∅ s.
Proof.
  revert Q s. induction ks as [|k ks IH]; intros Q s HQ; [by intros s1 _ Hi1; apply HQ|].
  apply (safe_bind locks_discipline), evict_uncovered_safe. intros n s1 Hi1.
  apply (safe_bind locks_discipline), IH. intros m s2 Hi2 s3 _ Hi3. by apply HQ.
Qed.

Lemma evict_uncovered_subscriptions_safe gap (Q : nat -> gset Pubkey -> Provider -> Prop) s :
  (forall a s, linv s -> Q a ∅ s) -> lsafe false Q (evict_uncovered_subscriptions gap) ∅ s.
Proof.
  intros HQ. apply (safe_bind locks_discipline), lsafe_frames; [by destruct gap; frames_steps|].
  intros tracked s1 Hi1. case_decide; [by intros s2 _ Hi2; apply HQ|].
  apply (safe_bind locks_discipline), lsafe_frames; [by destruct gap; frames_steps|].
  intros uncovered s2 Hi2. by apply evict_each_safe.
Qed.

(** ** Fetching leaves the subscriptions alone *)

Lemma same_subs_resolve gens k r s : same_subs s (resolve_claim gens k r s).
Proof. unfold resolve_claim, resolve_generation. by repeat case_match. Qed.
Lemma same_subs_resolve_all gens ks r s : same_subs s (foldl (fun s k => resolve_claim gens k r s) s ks).
Proof.
  revert s. induction ks as [|k ks IH]; intros s; cbn; [done|]. etrans; [apply same_subs_resolve|apply IH].
Qed.
Lemma same_subs_claim start ks s c : same_subs s (foldl (fun '(s, c) k => claim_account start k s c) (s, c) ks).1.
Proof.
  revert s c. induction ks as [|k ks IH]; intros s c; cbn; [done|].
  destruct (claim_account start k s c) as [s' c'] eqn:Hc. etrans; [|apply IH].
  unfold claim_account in Hc. case_match; by simplify_eq.
Qed.

Abbreviation quiet m := (frames same_subs (fun _ => True) harmless m).

Lemma quiet_deliver gens accs : quiet (deliver gens accs).
Proof.
  induction accs as [|[k acc] accs IH]; cbn [deliver]; frames_steps; [apply same_subs_resolve|done].
Qed.
Lemma quiet_notify ks gens why : quiet (notify_error ks gens why).
Proof. unfold notify_error. frames_steps. apply same_subs_resolve_all. Qed.
Lemma quiet_rpc_fetch ks min : quiet (rpc_fetch ks min).
Proof. unfold rpc_fetch. frames_steps. Qed.
Lemma quiet_fetch_loop gens mark min n ks : quiet (fetch_loop gens mark min n ks).
Proof.
  assert (forall ks slot value, quiet (fetch_succeeded gens mark ks slot value)) as Hsucc.
  { intros. unfold fetch_succeeded. case_match; [apply quiet_notify|apply quiet_deliver]. }
  revert ks. induction n as [|n IH]; intros ks; cbn [fetch_loop]; (apply frames_bind; [frames_steps|]);
    intros [|k ks']; try exact I; [apply quiet_notify|].
  apply frames_bind; [apply quiet_rpc_fetch|]. intros r. cbv zeta.
  assert (quiet (fbind (match n with O => Ready tt | S _ => fask (Sleep RPC_FETCH_RETRY_DELAY) end)
    (fun _ => fetch_loop gens mark min n (k :: ks')))) as Hretry.
  { apply frames_bind; [by destruct n; frames_steps|]. intros _. apply IH. }
  destruct r as [|e|slot value]; [done| |].
  - destruct (is_lagging e); [done|apply quiet_notify].
  - destruct (min <=? slot)%Z; [apply Hsucc|done].
Qed.
Lemma quiet_recv_all chs : quiet (recv_all chs).
Proof.
  induction chs as [|ch chs IH]; cbn [recv_all]; [done|]. apply frames_bind.
  - apply frames_wait; [done|done|]. intros s s' b. repeat case_match; intros; by simplify_eq.
  - intros r. apply frames_bind; [done|]. by intros rs.
Qed.
Lemma quiet_forward u : quiet (forward u).
Proof.
  apply frames_wait; [apply _|done|]. intros s s' b. repeat case_match; intros; by simplify_eq.
Qed.
Lemma quiet_send_stale k : quiet (send_stale_account k).
Proof. apply frames_wait; [apply _|done|]. intros s s' b. apply send_stale_same. Qed.
Lemma quiet_account_update u : quiet (handle_account_update u).
Proof.
  unfold handle_account_update. frames_steps; try done; [|apply quiet_forward].
  unfold resolve_with_update, resolve_generation. by repeat case_match.
Qed.
Lemma quiet_replay : quiet replay_next.
Proof. unfold replay_next. frames_steps; [by case_match|apply quiet_forward]. Qed.
Lemma quiet_rpc_only ks min : quiet (fetch_multi_rpc_only ks min).
Proof. unfold fetch_multi_rpc_only. frames_steps. Qed.
Lemma quiet_refresh : quiet refresh_undelegation_tracking_accounts_once.
Proof.
  assert (forall accs, quiet (forward_refreshed accs)) as Hf.
  { induction accs as [|[k acc] accs IH]; cbn [forward_refreshed]; [done|].
    apply frames_bind; [apply quiet_forward|]. by intros []. }
  unfold refresh_undelegation_tracking_accounts_once. frames_steps; [done|].
  match goal with |- context [balanced_chunks ?l] => induction (balanced_chunks l) as [|c cs IH] end;
    cbn [refresh_chunks]; [done|].
  apply frames_bind; [apply quiet_rpc_only|]. intros []; [|done]. apply frames_bind; [apply Hf|]. by intros [].
Qed.
Lemma quiet_retry {A} more start delay (again : F A) exhausted :
  quiet again -> (forall l, quiet (exhausted l)) -> quiet (next_match_slots_retry more start delay again exhausted).
Proof. intros Ha Hg. unfold next_match_slots_retry. frames_steps; auto. Qed.
Lemma quiet_snapshot ks min : quiet (fetch_snapshot_until_slot ks min).
Proof.
  unfold fetch_snapshot_until_slot. apply frames_bind; [frames_steps|]. intros st.
  generalize (DEFAULT_MATCH_SLOTS_MAX_RETRIES - 1). intros n. induction n as [|n IH]; cbn [snapshot_loop];
    (apply frames_bind; [apply quiet_rpc_only|]); intros []; try done; by apply quiet_retry.
Qed.
Lemma quiet_reforward consumed : quiet (reforward_consumed_subscription_results consumed).
Proof. unfold reforward_consumed_subscription_results. frames_steps. done. Qed.
Lemma quiet_match_loop ks consumed start more : forall min fs, quiet (match_slots_loop ks consumed start min fs more).
Proof.
  assert (forall r : ProviderResult (list RemoteAccount),
    quiet (reforward_consumed_subscription_results consumed ;; Ready r)%future) as Hf.
  { intros r. apply frames_bind; [apply quiet_reforward|done]. }
  induction more as [|more IH]; intros min fs; cbn [match_slots_loop];
    (apply frames_bind; [apply quiet_rpc_only|]); intros []; cbv zeta;
    repeat case_match; try done; by apply quiet_retry.
Qed.
Lemma quiet_slice k off len min : quiet (get_account_data_slice k off len min).
Proof.
  unfold get_account_data_slice. generalize DATA_SLICE_FETCH_MAX_ATTEMPTS. intros n.
  induction n as [|n IH]; cbn [data_slice_attempts]; [done|].
  apply frames_bind; [frames_steps|]. intros r. cbv zeta.
  repeat case_match; try done; (apply frames_bind; [frames_steps|done]).
Qed.

(** ** Requests *)


Lemma setup_safe d ks (Q : ProviderResult unit -> gset Pubkey -> Provider -> Prop) s :
  (forall a s, linv s -> Q a ∅ s) -> lsafe d Q (setup_subscriptions ks) ∅ s.
Proof.
  assert (forall ks (Q : list (ProviderResult unit) -> gset Pubkey -> Provider -> Prop) s,
    (forall a s, linv s -> Q a ∅ s) -> lsafe d Q (acquire_all ks) ∅ s) as Hacq.
  { intros l. induction l as [|k l IH]; intros Q' s' HQ'; [by intros s1 _ Hi1; apply HQ'|].
    apply (safe_bind locks_discipline), acquire_safe. intros r s1 Hi1.
    apply (safe_bind locks_discipline), IH. intros rs s2 Hi2 s3 _ Hi3. by apply HQ'. }
  assert (forall ks (Q : unit -> gset Pubkey -> Provider -> Prop) s,
    (forall a s, linv s -> Q a ∅ s) -> lsafe d Q (release_each ks) ∅ s) as Hrel.
  { intros l. induction l as [|k l IH]; intros Q' s' HQ'; [by intros s1 _ Hi1; apply HQ'|].
    apply (safe_bind locks_discipline), release_safe. intros r s1 Hi1. by apply IH. }
  intros HQ. apply (safe_bind locks_discipline), Hacq. intros rs s1 Hi1.
  case_match; [by intros s2 _ Hi2; apply HQ|].
  apply (safe_bind locks_discipline), Hrel. intros _ s2 Hi2 s3 _ Hi3. by apply HQ.
Qed.

Lemma spawn_fetches_safe d cs gens mark min (Q : unit -> gset Pubkey -> Provider -> Prop) s :
  (forall a s, linv s -> Q a ∅ s) -> lsafe d Q (spawn_fetches cs gens mark min) ∅ s.
Proof.
  revert s. induction cs as [|c cs IH]; intros s HQ; [by intros s1 _ Hi1; apply HQ|].
  intros s1 _ Hi1. split; [done|]. by apply IH.
Qed.

Lemma try_get_multi_safe d ks mark start (Q : ProviderResult (list RemoteAccount) -> gset Pubkey -> Provider -> Prop) s :
  (forall a s, linv s -> Q a ∅ s) -> lsafe d Q (try_get_multi ks mark start) ∅ s.
Proof.
  intros HQ. unfold try_get_multi. case_match; [by intros s1 _ Hi1; apply HQ|].
  apply (safe_bind locks_discipline), lsafe_frames; [frames_steps|]. intros st s1 Hi1.
  apply (safe_bind locks_discipline), lsafe_frames; [frames_steps; apply same_subs_claim|]. intros c s2 Hi2.
  cbv zeta. apply (safe_bind locks_discipline).
  assert (forall (r : ProviderResult unit) s, linv s -> lsafe d Q
    (match r with
     | Ok _ => rs ← recv_all (receivers c); Ready (collect_results ks rs)
     | Err e => Ready (Err e)
     end)%future ∅ s) as Hwait.
  { intros [[]|e] s3 Hi3; apply lsafe_frames; try done.
    apply frames_bind; [apply quiet_recv_all|done]. }
  case_match; [by intros s3 _ Hi3; apply (Hwait (Ok tt))|].
  apply (safe_bind locks_discipline). eapply safe_protect; [|apply setup_safe].
  { intros h s3 s3' Hd Hdr Hdd. eapply lguar_same; [by apply Hd|apply same_subs_resolve_all]. }
  intros [[]|e] s3 Hi3.
  - apply (safe_bind locks_discipline), spawn_fetches_safe. intros _ s4 Hi4 s5 _ Hi5.
    by apply (Hwait (Ok tt)).
  - apply (safe_bind locks_discipline), lsafe_frames; [frames_steps; apply same_subs_resolve_all|].
    intros _ s4 Hi4 s5 _ Hi5. by apply (Hwait (Err e)).
Qed.

Lemma discard_safe {A} d (m : F A) s :
  (forall Q : A -> gset Pubkey -> Provider -> Prop, (forall a s, linv s -> Q a ∅ s) -> lsafe d Q m ∅ s) ->
  lsafe d (returns_res ∅) (discard m) ∅ s.
Proof. intros Hm. apply (safe_bind locks_discipline), Hm. by intros a s1 Hi1 s2 _ Hi2. Qed.

Lemma provider_jobs_safe j s :
  lsafe (provider_droppable j) (returns_res ∅) (provider_job j) ∅ s.
Proof.
  assert (forall a s, linv s -> returns_res (∅ : gset Pubkey) a ∅ s) as HQ by (unfold returns_res; done).
  destruct j; cbn [provider_job provider_droppable].
  - apply discard_safe. intros. by apply acquire_safe.
  - apply discard_safe. intros. by apply acquire_safe.
  - apply discard_safe. intros. by apply release_safe.
  - apply discard_safe. intros. by apply release_silently_safe.
  - by apply forget_safe.
  - apply lsafe_frames; [unfold prefer_grpc_subscription; frames_steps|done].
  - apply discard_safe. intros. by apply try_get_multi_safe.
  - apply discard_safe. intros Q HQ'. apply (safe_bind locks_discipline), try_get_multi_safe.
    intros [accs|e] s1 Hi1; apply lsafe_frames; try done.
    cbv zeta. case_match; try done; (frames_steps; apply quiet_match_loop).
  - apply discard_safe. intros. apply lsafe_frames; [apply quiet_snapshot|done].
  - apply discard_safe. intros. apply lsafe_frames; [apply quiet_slice|done].
  - apply discard_safe. intros. by apply unsubscribe_safe.
  - by apply evict_stale_safe.
  - by apply evict_cached_safe.
  - apply discard_safe. intros. apply lsafe_frames; [apply quiet_send_stale|done].
  - apply lsafe_frames; [by frames_steps|done].
  - apply lsafe_frames; [apply quiet_fetch_loop|done].
  - apply lsafe_frames; [apply quiet_account_update|done].
  - apply lsafe_frames; [apply quiet_replay|done].
  - apply discard_safe. intros. apply lsafe_frames; [apply quiet_refresh|done].
  - apply discard_safe. intros. by apply reconcile_safe.
  - apply (safe_bind locks_discipline), evict_uncovered_subscriptions_safe. intros _ s1 Hi1.
    apply discard_safe. intros. by apply reconcile_safe.
  - apply discard_safe. intros Q HQ'. apply (safe_bind locks_discipline).
    apply (safe_bind locks_discipline), try_get_multi_safe. intros r s1 Hi1 s2 _ Hi2.
    apply lsafe_frames; [frames_steps; done|done].
  - apply lsafe_frames; [frames_steps; done|done].
Qed.

Lemma lworld_init : lworld [] provider_init.
Proof.
  split_and!; [|by intros k; split; [set_solver|intros (? & ? & ? & _)]|done].
  intros k _. split_and!; cbn; [by rewrite lookup_empty|by case_bool_decide|by case_bool_decide].
Qed.

Lemma provider_sys_safe y : provider_reachable drops y ->
  sys_safe ∅ linv lrely lguar lworld lstarts lasks lblocks drops y.
Proof.
  eapply (reachable_safe _ _ _ _ _ _ _ _ _ _ (H := locks_discipline)).
  - intros j s _ _. apply provider_jobs_safe.
  - done.
  - apply lworld_init.
Qed.
End locks.

(** C10: whatever requests, updates and repairs use the provider at once, a key someone
    holds a reason for is followed whenever no transition of it is under way, and every
    reason it holds is counted at least once, so that releasing it never underflows; if
    no request was dropped, a key is followed only then. *)
Theorem owned_keys_watched `{ProviderEnv} (drops : bool) (y : ProviderSys) (k : Pubkey) :
  provider_reachable drops y -> k ∉ key_locks (shared y) ->
  (forall o, ownership (shared y) !! k = Some o ->
     reasons o <> ∅ /\ (forall r n, reasons o !! r = Some n -> (1 <= n)%Z) /\
     (k <> clock_id -> is_watching k (shared y) = true)) /\
  (drops = false -> is_watching k (shared y) = true -> is_Some (ownership (shared y) !! k)).
Proof.
  intros Hr Hk. destruct (provider_sys_safe _ _ Hr) as (hs & _ & (Hinv & _) & _).
  destruct (Hinv k Hk) as (H1 & H2 & _). split; [|done].
  intros o Ho. destruct (H1 o Ho) as [[Hne Hpos] Hw]. done.
Qed.

(** A subscription is acquired, and then released as far as the call that ends it. *)
Definition acquire_and_release : list SmallChoice :=
  Start (AcquireJob 7%N DirectAccount) :: steps_of 0 6 10 ++
  Start (ReleaseJob 7%N DirectAccount Single) :: steps_of 1 2 10.

Lemma owned_keys_watched_witness :
  let y := small_run (Start (AcquireJob 7%N DirectAccount) :: steps_of 0 6 10) in
  ownership (shared y) !! 7%N <> None /\ is_watching 7%N (shared y) = true.
Proof.
  intros y. split; [by vm_compute|].
  destruct (owned_keys_watched (H := small_env) false y 7%N) as [Ho _].
  - by apply small_run_reachable; repeat constructor.
  - by vm_compute.
  - destruct (ownership (shared y) !! 7%N) as [o|] eqn:Hown; [|by vm_compute in Hown].
    by apply (Ho o eq_refl).
Defined.

(** C11: a pubsub subscription is only ended by a task that has the lock of the key, and,
    unless the account is being evicted, at a moment when no one holds a reason for it. *)
Theorem unsubscribes_only_unowned `{ProviderEnv} (drops : bool) (y : ProviderSys) i d drop k source c :
  provider_reachable drops y ->
  futures y !! i = Some (d, Ask drop (Unsubscribe k source) c) ->
  k ∈ key_locks (shared y) /\
  (source <> ManualUnsubscribe -> ownership (shared y) !! k = None).
Proof.
  intros Hr Hi. destruct (provider_sys_safe _ _ Hr) as (hs & Hlen & Hw & Hall).
  destruct (lookup_lt_is_Some_2 hs i) as [h Hh].
  { rewrite Hlen. by eapply lookup_lt_Some. }
  pose proof (Hall _ _ _ _ Hi Hh) as Hs. destruct Hw as (Hinv & Hl & _).
  destruct (Hs (shared y)) as (_ & Hask & _); [done|done|].
  assert (k ∈ h /\ (source <> ManualUnsubscribe -> ownership (shared y) !! k = None)) as [Hin Hown].
  { destruct source; naive_solver. }
  split; [|done]. apply Hl. eauto.
Qed.

Lemma unsubscribes_only_unowned_witness :
  let y := small_run acquire_and_release in
  exists drop c, futures y !! 1 = Some (true, Ask drop (Unsubscribe 7%N NormalRelease) c) /\
    7%N ∈ key_locks (shared y) /\ ownership (shared y) !! 7%N = None.
Proof.
  intros y. eexists _, _. split; [reflexivity|].
  destruct (unsubscribes_only_unowned (H := small_env) false y 1 true _ 7%N NormalRelease _
              (small_run_reachable _ acquire_and_release ltac:(by repeat constructor)) eq_refl) as [Hk Ho].
  split; [exact Hk|by apply Ho].
Defined.
