(* ===== verification/ProviderSettle.v ===== *)
(** * The remote account provider: every fetch settles

    An entry of [fetching] is an obligation: requests wait for it. Whoever claims an
    account sees to it that its waiters are answered, by the guard while subscriptions
    are set up, by the task that fetches after that, or by an update that comes first.
    This file follows that obligation through every schedule and every request that is
    dropped ([Concurrent.discharges]), and with it shows that no request waits for ever. *)

From stdpp Require Import base gmap sets list strings.
From Stdlib Require Import ZArith Lia.
From S2P Require Import Prelude Intent Runtime RpcClient Link Concurrent Provider ProviderFetch ProviderReconcile ProviderLocks.

Open Scope future_scope.

(** ** Subscriptions leave the fetches alone *)

Definition same_fetch (s s' : Provider) : Prop :=
  fetching s' = fetching s /\ next_generation s' = next_generation s /\ oneshots s' = oneshots s.

Create HintDb subs.

#[export] Instance same_fetch_preorder : PreOrder same_fetch.
Proof. split; [by intros s|]. intros s1 s2 s3 (?&?&?) (?&?&?). split_and!; congruence. Qed.

Definition held_up (s : Provider) : Prop :=
  key_locks s <> ∅ \/ stale_full s = true \/ pipeline_full s = true.

Section subs.
Context `{ProviderEnv}.
Abbreviation F A := (Future Provider ProviderJob ProviderCall ProviderReply A).
Abbreviation subs_only m := (frames same_fetch held_up (fun _ => True) m).

Lemma same_fetch_add k s : same_fetch s (add_subscribed k s).
Proof. unfold add_subscribed. by case_match. Qed.
Lemma same_fetch_remove k s : same_fetch s (remove_subscribed k s).
Proof. unfold remove_subscribed. by case_match. Qed.

Lemma subs_with_key_lock {A} k (body : F A) : subs_only body -> subs_only (with_key_lock k body).
Proof.
  intros Hbody. apply frames_bind; [|intros _; apply frames_bind; [|intros a; frames_steps; done]].
  - apply frames_wait; [done|..].
    + intros s. case_decide; [|done]. intros _. left. set_solver.
    + intros s s' b. case_decide; [done|]. intros [= <-]. done.
  - apply frames_protect; [done|]. intros s s' Hs. etrans; [exact Hs|done].
Qed.

#[local] Hint Resolve same_fetch_add same_fetch_remove : subs.

Ltac subs_solve :=
  repeat first
    [ solve [auto 2 with subs] | frames_step | apply subs_with_key_lock
    | progress unfold register_subscription, unsubscribe_account, restore_entry | done | case_match ].

Lemma subs_acquire k r skip : subs_only (acquire_subscription_with_mode k r skip).
Proof. unfold acquire_subscription_with_mode. subs_solve. Qed.
Lemma subs_release k r mode : subs_only (release_subscription_with_mode k r mode).
Proof. unfold release_subscription_with_mode, release_entry. subs_solve. Qed.
Lemma subs_unsubscribe_locked k : subs_only (unsubscribe_locked k).
Proof. unfold unsubscribe_locked. subs_solve. Qed.
#[local] Hint Resolve subs_acquire subs_release subs_unsubscribe_locked : subs.

Lemma subs_release_silently k r : subs_only (release_subscription_reason_silently_for_delegated_account k r).
Proof. unfold release_subscription_reason_silently_for_delegated_account. subs_solve. Qed.
Lemma subs_forget k r : subs_only (forget_subscription_reason k r).
Proof. unfold forget_subscription_reason. subs_solve. Qed.
Lemma subs_evict_stale : subs_only evict_stale.
Proof. unfold evict_stale, recv_stale_account, evict_stale_account. subs_solve. Qed.
Lemma subs_evict_cached k : subs_only (evict_cached k).
Proof. unfold evict_cached, release_single_subscription. subs_solve. Qed.

Lemma subs_forward u : subs_only (forward u).
Proof.
  apply frames_wait; [apply _|..].
  - intros s. case_match eqn:Hfull; [|by case_match]. intros _. right. by right.
  - intros s s' b. repeat case_match; intros; by simplify_eq.
Qed.
Lemma subs_send_stale k : subs_only (send_stale_account k).
Proof.
  apply frames_wait; [apply _|..].
  - intros s. case_match eqn:Hfull; [|by case_match]. intros _. right. by left.
  - intros s s' b. repeat case_match; intros; by simplify_eq.
Qed.
Lemma subs_rpc_only ks min : subs_only (fetch_multi_rpc_only ks min).
Proof. unfold fetch_multi_rpc_only. subs_solve. Qed.
Lemma subs_rpc_fetch ks min : subs_only (rpc_fetch ks min).
Proof. unfold rpc_fetch. subs_solve. Qed.
#[local] Hint Resolve subs_forward subs_send_stale subs_rpc_only : subs.

Lemma subs_setup ks : subs_only (setup_subscriptions ks).
Proof.
  assert (forall l, subs_only (acquire_all l)) by
    (intros l; induction l; cbn [acquire_all]; unfold acquire_subscription; subs_solve).
  assert (forall l, subs_only (release_each l)) by
    (intros l; induction l; cbn [release_each]; unfold release_single_subscription; subs_solve).
  unfold setup_subscriptions. subs_solve.
Qed.

Lemma subs_each (f : Pubkey -> F unit) ks : (forall k, subs_only (f k)) -> subs_only (each_key f ks).
Proof. intros Hf. induction ks; cbn [each_key]; subs_solve. Qed.
Lemma subs_reconcile : subs_only reconcile_subscriptions.
Proof.
  assert (forall k, subs_only (resubscribe_missing k)) by
    (intros k; unfold resubscribe_missing, abandon_account; subs_solve).
  assert (forall k, subs_only (unsubscribe_extra k)) by (intros k; unfold unsubscribe_extra; subs_solve).
  assert (forall l, subs_only (resubscribe_internal l)) by
    (intros l; induction l; cbn [resubscribe_internal]; subs_solve).
  unfold reconcile_subscriptions. subs_solve; by apply subs_each.
Qed.
Lemma subs_evict_uncovered gap : subs_only (evict_uncovered_subscriptions gap).
Proof.
  assert (forall g k, subs_only (evict_uncovered g k)) by
    (intros g k; unfold evict_uncovered, abandon_account; subs_solve).
  assert (forall g l, subs_only (evict_each g l)) by (intros g l; induction l; cbn [evict_each]; subs_solve).
  unfold evict_uncovered_subscriptions. subs_solve.
Qed.
Lemma subs_refresh : subs_only refresh_undelegation_tracking_accounts_once.
Proof.
  assert (forall l, subs_only (forward_refreshed l)) by
    (intros l; induction l as [|[] l IH]; cbn [forward_refreshed]; subs_solve).
  assert (forall l, subs_only (refresh_chunks l)) by (intros l; induction l; cbn [refresh_chunks]; subs_solve).
  unfold refresh_undelegation_tracking_accounts_once. subs_solve.
Qed.
Lemma subs_retry {A} more start delay (again : F A) exhausted :
  subs_only again -> (forall l, subs_only (exhausted l)) ->
  subs_only (next_match_slots_retry more start delay again exhausted).
Proof. intros Ha Hg. unfold next_match_slots_retry. subs_solve. Qed.
#[local] Hint Resolve subs_retry : subs.
Lemma subs_snapshot ks min : subs_only (fetch_snapshot_until_slot ks min).
Proof.
  unfold fetch_snapshot_until_slot. apply frames_bind; [subs_solve|]. intros st.
  generalize (DEFAULT_MATCH_SLOTS_MAX_RETRIES - 1). intros n.
  induction n as [|n IH]; cbn [snapshot_loop]; subs_solve; by apply subs_retry.
Qed.
Lemma subs_match_loop ks consumed start more : forall min fs,
  subs_only (match_slots_loop ks consumed start min fs more).
Proof.
  assert (forall r : ProviderResult (list RemoteAccount),
    subs_only (reforward_consumed_subscription_results consumed ;; Ready r)%future) as Hf.
  { intros r. unfold reforward_consumed_subscription_results. subs_solve. }
  induction more as [|more IH]; intros min fs; cbn [match_slots_loop];
    (apply frames_bind; [apply subs_rpc_only|]); intros []; cbv zeta;
    repeat case_match; try done; by apply subs_retry.
Qed.
Lemma subs_slice k off len min : subs_only (get_account_data_slice k off len min).
Proof.
  unfold get_account_data_slice. generalize DATA_SLICE_FETCH_MAX_ATTEMPTS. intros n.
  induction n as [|n IH]; cbn [data_slice_attempts]; [done|].
  apply frames_bind; [subs_solve|]. intros r. cbv zeta.
  repeat case_match; try done; (apply frames_bind; [subs_solve|done]).
Qed.
Lemma subs_replay : subs_only replay_next.
Proof. unfold replay_next. subs_solve. Qed.
End subs.

(** ** Chunks cover the keys *)

Lemma concat_key_chunks {A} size (l : list A) : 0 < size -> concat (chunks size l) = l.
Proof.
  intros Hs. unfold chunks. remember (length l) as n eqn:Hn.
  assert (length l <= n) as Hle by lia. clear Hn. revert l Hle.
  induction n as [|n IH]; intros [|x l] Hle; cbn [chunks_fuel concat length] in *; try done; [lia|].
  rewrite IH; [apply take_drop|]. rewrite length_drop. cbn. lia.
Qed.

Lemma nat_div_ceil_pos a b : 0 < a -> 0 < b -> 0 < nat_div_ceil a b.
Proof. intros Ha Hb. unfold nat_div_ceil. apply Nat.div_str_pos. lia. Qed.

Lemma concat_balanced_chunks ks : concat (balanced_chunks ks) = ks.
Proof.
  unfold balanced_chunks. case_match eqn:Hl; [cbn; by rewrite app_nil_r|]. apply Nat.leb_gt in Hl.
  unfold MAX_MULTIPLE_ACCOUNTS_PER_REQUEST in *.
  apply concat_key_chunks, nat_div_ceil_pos; [lia|]. apply nat_div_ceil_pos; lia.
Qed.

(** ** Obligations *)

Definition pending (s : Provider) (o : Pubkey * Z) : Prop :=
  exists st, fetching s !! o.1 = Some st /\ generation st = o.2.
Definition takes `{ProviderEnv} (j : ProviderJob) (o : Pubkey * Z) : Prop :=
  match j with FetchJob ks gens _ _ => o.1 ∈ ks /\ gens !! o.1 = Some o.2 | _ => False end.
(** No obligation is added. *)
Definition shrinks (s s' : Provider) : Prop := forall o, pending s' o -> pending s o.

#[export] Instance shrinks_preorder : PreOrder shrinks.
Proof. split; [by intros s o|]. intros s1 s2 s3 H1 H2 o Ho. by apply H1, H2. Qed.

Lemma same_fetch_shrinks s s' : same_fetch s s' -> shrinks s s'.
Proof. intros (Hf & _) o. unfold pending. by rewrite Hf. Qed.

Lemma shrinks_resolve_generation k g r s : shrinks s (resolve_generation k g r s).
Proof.
  intros [k' g'] (st & Hst & Hg). revert Hst. unfold resolve_generation. repeat case_match; cbn; intros Hst;
    try by exists st. apply lookup_delete_Some in Hst as [_ Hst]. by exists st.
Qed.
Lemma shrinks_resolve gens k r s : shrinks s (resolve_claim gens k r s).
Proof. unfold resolve_claim. case_match; [apply shrinks_resolve_generation|done]. Qed.
Lemma shrinks_resolve_all gens ks r s : shrinks s (foldl (fun s k => resolve_claim gens k r s) s ks).
Proof.
  revert s. induction ks as [|k ks IH]; intros s; cbn; [done|]. etrans; [apply shrinks_resolve|apply IH].
Qed.

Lemma resolve_ends gens k g r s : gens !! k = Some g -> ~ pending (resolve_claim gens k r s) (k, g).
Proof.
  intros Hg (st & Hst & Hgen). cbn in Hst, Hgen. revert Hst. unfold resolve_claim. rewrite Hg.
  unfold resolve_generation. destruct (fetching s !! k) as [st'|] eqn:Hk; [|by rewrite Hk].
  case_match eqn:Hm; cbn; [by rewrite lookup_delete_eq|]. rewrite Hk. intros [= ->]. lia.
Qed.
Lemma resolve_all_ends gens ks k g r s :
  gens !! k = Some g -> k ∈ ks -> ~ pending (foldl (fun s k => resolve_claim gens k r s) s ks) (k, g).
Proof.
  intros Hg. revert s. induction ks as [|k' ks IH]; intros s Hin; cbn; [by apply not_elem_of_nil in Hin|].
  apply elem_of_cons in Hin as [<-|Hin]; [|by apply IH].
  intros Hp. apply (shrinks_resolve_all gens ks r) in Hp. by eapply resolve_ends.
Qed.

Definition claimed_by (c : Claims) (o : Pubkey * Z) : Prop :=
  o.1 ∈ claimed_pubkeys c /\ claimed_generations c !! o.1 = Some o.2.

Lemma claim_accounts_pending start ks s o :
  pending (fst (claim_accounts start ks s)) o ->
  pending s o \/ claimed_by (snd (claim_accounts start ks s)) o.
Proof.
  unfold claim_accounts.
  assert (forall s1 c1, (forall o, pending s1 o -> pending s o \/ claimed_by c1 o) ->
    forall o, let r := foldl (fun '(s, c) k => claim_account start k s c) (s1, c1) ks in
      pending r.1 o -> pending s o \/ claimed_by r.2 o) as Hfold.
  { induction ks as [|k ks IH]; intros s1 c1 Hinv; cbn; [done|].
    destruct (claim_account start k s1 c1) as [s2 c2] eqn:Hc. apply IH. intros [k' g'] (st & Hst & Hg).
    unfold claim_account in Hc. destruct (fetching s1 !! k) as [st1|] eqn:Hk; simplify_eq; cbn in *.
    - apply Hinv. apply lookup_insert_Some in Hst as [[-> <-]|[_ Hst]]; [by exists st1|by exists st].
    - apply lookup_insert_Some in Hst as [[-> <-]|[Hne Hst]]; cbn in *.
      + right. split; cbn; [set_solver|by rewrite lookup_insert_eq, Hg].
      + destruct (Hinv (k', g')) as [?|[??]]; [by exists st|by left|].
        right. split; cbn; [set_solver|by rewrite lookup_insert_ne]. }
  apply (Hfold s (mkClaims [] [] ∅)). by left.
Qed.

Section settle.
Context `{ProviderEnv}.
Abbreviation F A := (Future Provider ProviderJob ProviderCall ProviderReply A).
Abbreviation settles d o m := (discharges pending takes held_up d o m).
Abbreviation accounts d m := (accounts_for pending takes held_up d m).

(** ** The task that fetches *)

Section fetching.
Context (gens : gmap Pubkey Z) (k : Pubkey) (g : Z) (Hg : gens !! k = Some g).

Lemma settles_notify ks why : k ∈ ks -> settles false (k, g) (notify_error ks gens why).
Proof. intros Hk s. left. by apply resolve_all_ends. Qed.

Lemma settles_deliver accs : k ∈ accs.*1 -> settles false (k, g) (deliver gens accs).
Proof.
  induction accs as [|[k' acc] accs IH]; cbn [deliver]; intros Hk; [by apply not_elem_of_nil in Hk|].
  intros s. cbn in Hk. apply elem_of_cons in Hk as [->|Hk]; [left; by apply resolve_ends|right; by apply IH].
Qed.

Lemma settles_succeeded mark ks slot value :
  k ∈ ks -> settles false (k, g) (fetch_succeeded gens mark ks slot value).
Proof.
  intros Hk. unfold fetch_succeeded. case_match eqn:Hl; [by apply settles_notify|].
  apply negb_false_iff, Nat.eqb_eq in Hl. apply settles_deliver. rewrite fst_zip; [done|].
  rewrite length_zip_with. lia.
Qed.

Lemma settles_fetch mark min n ks : k ∈ ks -> settles false (k, g) (fetch_loop gens mark min n ks).
Proof.
  revert ks. induction n as [|n IH]; intros ks Hk; cbn [fetch_loop]; intros s; cbn [fst snd].
  all: destruct (decide (still_claimed gens s k)) as [Hc|Hc]; [right|left].
  2,4: intros (st & Hst & Hgen); apply Hc; unfold still_claimed; cbn in Hst, Hgen;
       rewrite Hst, Hg; apply Is_true_true, Z.eqb_eq; done.
  all: assert (k ∈ filter (fun k => still_claimed gens s k) ks) as Hin
         by (by apply list_elem_of_filter).
  all: destruct (filter (fun k => still_claimed gens s k) ks) as [|k' ks'];
         [by apply not_elem_of_nil in Hin|].
  - by apply settles_notify.
  - cbn [fbind]. eapply discharges_later; [apply (subs_rpc_fetch (k' :: ks') min)|done|].
    intros r. cbv zeta.
    assert (settles false (k, g) (fbind (match n with O => Ready tt | S _ => fask (Sleep RPC_FETCH_RETRY_DELAY) end)
      (fun _ => fetch_loop gens mark min n (k' :: ks')))) as Hretry.
    { eapply (discharges_later _ _ _ _ same_fetch held_up (fun _ => True));
        [by destruct n; frames_steps|done|]. intros _. by apply IH. }
    destruct r as [|e|slot value]; [done|..].
    + destruct (is_lagging e); [done|by apply settles_notify].
    + destruct (min <=? slot)%Z; [by apply settles_succeeded|done].
Qed.
End fetching.

(** ** Requests *)

Lemma shrinks_cleanup c e s o : claimed_by c o ->
  ~ pending (cleanup_with_error (claimed_pubkeys c) (claimed_generations c) e s) o.
Proof. destruct o as [k g]. intros [Hk Hg]. by apply resolve_all_ends. Qed.

Lemma settles_spawn {A} c cs mark min (m : F A) o :
  o.1 ∈ concat cs -> claimed_generations c !! o.1 = Some o.2 ->
  settles true o (spawn_fetches cs (claimed_generations c) mark min ;; m).
Proof.
  intros Hin Hg. induction cs as [|ks cs IH]; [by apply not_elem_of_nil in Hin|]. cbn in Hin.
  apply elem_of_app in Hin as [Hin|Hin]; [left|right; by apply IH]. by split.
Qed.

(** After its claims, a request sees to them whatever happens. *)
Definition after_claims (ks : list Pubkey) (mark : list Pubkey) (start : Z) (c : Claims)
    : F (ProviderResult (list RemoteAccount)) :=
  ready ← (if is_nil (claimed_pubkeys c) then Ready (Ok tt)
           else
             r ← protect (cleanup_with_error (claimed_pubkeys c) (claimed_generations c) AccountSubscriptionsTaskFailed)
                   (setup_subscriptions (claimed_pubkeys c));
             match r with
             | Err e =>
                 fput (cleanup_with_error (claimed_pubkeys c) (claimed_generations c) AccountSubscriptionsTaskFailed) ;;
                 Ready (Err e)
             | Ok _ =>
                 spawn_fetches (balanced_chunks (claimed_pubkeys c)) (claimed_generations c) mark start ;;
                 Ready (Ok tt)
             end);
  match ready with
  | Err e => Ready (Err e)
  | Ok _ => rs ← recv_all (receivers c); Ready (collect_results ks rs)
  end.

Lemma try_get_multi_eq ks mark start :
  try_get_multi ks mark start =
  if is_nil ks then Ready (Ok [])
  else start ← fget (fun s => default (slot_seen s) start);
       c ← fdo (claim_accounts start ks);
       after_claims ks (default [] mark) start c.
Proof. reflexivity. Qed.

Lemma settles_after_claims ks mark start c o : claimed_by c o -> settles true o (after_claims ks mark start c).
Proof.
  intros Hc. unfold after_claims. apply discharges_bind. destruct (is_nil (claimed_pubkeys c)) eqn:Hn.
  { destruct Hc as [Hin _]. by destruct (claimed_pubkeys c); [apply not_elem_of_nil in Hin|]. }
  eapply discharges_after; [apply subs_setup|done|intros s; by apply shrinks_cleanup|].
  intros [[]|e].
  - destruct Hc as [Hin Hg]. apply settles_spawn; [|done]. by rewrite concat_balanced_chunks.
  - intros s. left. by apply shrinks_cleanup.
Qed.

Lemma accounts_frames_shrink {A} d Bl C (m : F A) : frames shrinks Bl C m -> accounts d m.
Proof. intros Hm. by eapply accounts_frames; [exact Hm|]; intros s s' o Hs Ho; apply Hs. Qed.
Lemma accounts_subs {A} d (m : F A) : frames same_fetch held_up (fun _ => True) m -> accounts d m.
Proof.
  intros Hm. eapply accounts_frames_shrink, frames_mono; [exact Hm|apply same_fetch_shrinks|]. intros s Hs. exact Hs.
Qed.

Lemma shrinks_recv_all chs : frames shrinks (fun _ => True) (fun _ => True) (recv_all chs).
Proof.
  induction chs as [|ch chs IH]; cbn [recv_all]; [done|]. apply frames_bind.
  - apply frames_wait; [apply _|done|]. intros s s' b. repeat case_match; intros; by simplify_eq.
  - intros r. apply frames_bind; [done|]. by intros rs.
Qed.

Lemma accounts_spawn {A} d cs gens mark min (m : F A) :
  accounts d m -> accounts d (spawn_fetches cs gens mark min ;; m).
Proof. intros Hm. by induction cs. Qed.

Lemma accounts_after_claims d ks mark start c : accounts d (after_claims ks mark start c).
Proof.
  unfold after_claims. apply accounts_bind.
  - case_match; [done|]. apply accounts_bind.
    + eapply accounts_frames_shrink, frames_protect.
      * eapply frames_mono; [apply subs_setup|apply same_fetch_shrinks|]. intros s Hs. exact Hs.
      * intros s s' Hs. etrans; [exact Hs|]. apply shrinks_resolve_all.
    + intros [[]|e]; [by apply accounts_spawn|].
      eapply (accounts_frames_shrink _ (fun _ => True) (fun _ => True)). frames_steps. apply shrinks_resolve_all.
  - intros [[]|e]; [|done]. eapply accounts_frames_shrink, frames_bind; [apply shrinks_recv_all|done].
Qed.

Lemma accounts_try_get_multi ks mark start : accounts true (try_get_multi ks mark start).
Proof.
  rewrite try_get_multi_eq. case_match; [done|]. intros s. split; [by left|]. cbn [snd fst].
  intros s2. split; [|apply accounts_after_claims]. intros o Ho.
  apply claim_accounts_pending in Ho as [Ho|Ho]; [by left|right]. by apply settles_after_claims.
Qed.

(** ** The jobs *)

Lemma shrinks_update u : frames shrinks held_up (fun _ => True) (handle_account_update u).
Proof.
  unfold handle_account_update. frames_steps; try (by apply same_fetch_shrinks).
  - unfold resolve_with_update. repeat case_match; cbn [fst]; try done. apply shrinks_resolve_generation.
  - eapply frames_mono; [apply subs_forward|apply same_fetch_shrinks|done].
Qed.

Lemma shrinks_fetch gens mark min n ks :
  frames shrinks (fun _ => True) (fun _ => True) (fetch_loop gens mark min n ks).
Proof.
  assert (forall ks why, frames shrinks (fun _ => True) (fun _ => True) (notify_error ks gens why)) as Hn.
  { intros. unfold notify_error. frames_steps. apply shrinks_resolve_all. }
  assert (forall accs, frames shrinks (fun _ => True) (fun _ => True) (deliver gens accs)) as Hd.
  { induction accs as [|[k acc] accs IH]; cbn [deliver]; frames_steps; [apply shrinks_resolve|done]. }
  revert ks. induction n as [|n IH]; intros ks; cbn [fetch_loop]; (apply frames_bind; [frames_steps|]);
    intros [|k ks']; try exact I; [apply Hn|].
  apply frames_bind.
  { eapply frames_mono; [apply (subs_rpc_fetch (k :: ks') min)|apply same_fetch_shrinks|done]. }
  intros r. cbv zeta.
  assert (frames shrinks (fun _ => True) (fun _ => True)
    (fbind (match n with O => Ready tt | S _ => fask (Sleep RPC_FETCH_RETRY_DELAY) end)
       (fun _ => fetch_loop gens mark min n (k :: ks')))) as Hretry.
  { apply frames_bind; [by destruct n; frames_steps|]. intros _. apply IH. }
  destruct r as [|e|slot value]; [done|..].
  - destruct (is_lagging e); [done|apply Hn].
  - destruct (min <=? slot)%Z; [|done]. unfold fetch_succeeded. destruct (negb _); [apply Hn|apply Hd].
Qed.

Lemma accounts_discard {A} d (m : F A) : accounts d m -> accounts d (discard m).
Proof. intros Hm. by apply accounts_bind. Qed.

Lemma provider_jobs_account j : accounts (provider_droppable j) (provider_job j).
Proof.
  destruct j; cbn [provider_job provider_droppable]; try apply accounts_discard.
  - apply accounts_subs, subs_acquire.
  - apply accounts_subs, subs_acquire.
  - apply accounts_subs, subs_release.
  - apply accounts_subs, subs_release_silently.
  - apply accounts_subs, subs_forget.
  - apply accounts_subs. unfold prefer_grpc_subscription. frames_steps.
  - apply accounts_try_get_multi.
  - apply accounts_bind; [apply accounts_try_get_multi|]. intros [accs|e]; [|done]. cbv zeta.
    case_match; try done; apply accounts_subs; frames_steps; apply subs_match_loop.
  - apply accounts_subs, subs_snapshot.
  - apply accounts_subs, subs_slice.
  - apply accounts_subs, subs_with_key_lock, subs_unsubscribe_locked.
  - apply accounts_subs, subs_evict_stale.
  - apply accounts_subs, subs_evict_cached.
  - apply accounts_subs, subs_send_stale.
  - apply accounts_subs. by frames_steps.
  - eapply accounts_frames_shrink, shrinks_fetch.
  - eapply accounts_frames_shrink, shrinks_update.
  - apply accounts_subs, subs_replay.
  - apply accounts_subs, subs_refresh.
  - apply accounts_subs, subs_reconcile.
  - apply accounts_bind; [apply accounts_subs, subs_evict_uncovered|]. intros _.
    apply accounts_discard, accounts_subs, subs_reconcile.
  - apply accounts_bind; [apply accounts_bind; [apply accounts_try_get_multi|done]|].
    intros [[]|e]; try done. apply accounts_subs. frames_steps. done.
  - apply accounts_subs. frames_steps. done.
Qed.

Lemma provider_jobs_take j o : takes j o -> settles (provider_droppable j) o (provider_job j).
Proof. destruct j; try done. destruct o as [k g]. intros [Hk Hg]. by apply settles_fetch. Qed.



(** Only requests start jobs, and those jobs start none. *)
Definition job_rank (j : ProviderJob) : nat := match j with FetchJob _ _ _ _ => 0 | _ => 1 end.

Lemma spawns_try_get_multi ks mark start : spawns_below job_rank 1 (try_get_multi ks mark start).
Proof.
  rewrite try_get_multi_eq. case_match; [done|].
  apply spawns_below_bind; [done|]. intros st. apply spawns_below_bind; [done|]. intros c.
  unfold after_claims. apply spawns_below_bind.
  - destruct (is_nil (claimed_pubkeys c)); [done|]. apply spawns_below_bind.
    + eapply spawns_below_protect, frames_spawns, subs_setup.
    + intros [[]|e]; [|done]. apply spawns_below_bind; [|done].
      induction (balanced_chunks _); cbn [spawn_fetches]; [done|]. split; [cbn; lia|done].
  - intros [[]|e]; [|done]. apply spawns_below_bind; [|done]. eapply frames_spawns, shrinks_recv_all.
Qed.

Lemma provider_jobs_rank j : spawns_below job_rank (job_rank j) (provider_job j).
Proof.
  assert (forall A n (m : F A), frames same_fetch held_up (fun _ => True) m ->
    spawns_below job_rank n (discard m)) as Hd.
  { intros A n m Hm. apply spawns_below_bind; [by eapply frames_spawns|done]. }
  destruct j; cbn [provider_job job_rank].
  - apply Hd, subs_acquire.
  - apply Hd, subs_acquire.
  - apply Hd, subs_release.
  - apply Hd, subs_release_silently.
  - eapply frames_spawns, subs_forget.
  - by cbn.
  - apply spawns_below_bind; [apply spawns_try_get_multi|done].
  - apply spawns_below_bind; [|done]. apply spawns_below_bind; [apply spawns_try_get_multi|].
    intros [accs|e]; [|done]. cbv zeta. case_match; try done; intros s s2; eapply frames_spawns, subs_match_loop.
  - apply Hd, subs_snapshot.
  - apply Hd, subs_slice.
  - apply Hd, subs_with_key_lock, subs_unsubscribe_locked.
  - eapply frames_spawns, subs_evict_stale.
  - eapply frames_spawns, subs_evict_cached.
  - apply Hd, subs_send_stale.
  - done.
  - eapply frames_spawns, shrinks_fetch.
  - eapply frames_spawns, shrinks_update.
  - eapply frames_spawns, subs_replay.
  - apply Hd, subs_refresh.
  - apply Hd, subs_reconcile.
  - apply spawns_below_bind; [eapply frames_spawns, subs_evict_uncovered|]. intros _. apply Hd, subs_reconcile.
  - apply spawns_below_bind; [|done]. apply spawns_below_bind.
    + apply spawns_below_bind; [apply spawns_try_get_multi|done].
    + by intros [[]|e].
  - done.
Qed.
End settle.
