(* ===== verification/ProviderWaiters.v ===== *)
(** * The remote account provider: answers

    The channels of the requests that wait. Every channel without an answer belongs to
    exactly one account that is being fetched, an answer is never replaced, and an
    account that answers a request is as new as the slot at which its fetch started:
    the generation of a claim ties what was fetched to the claim, whatever was claimed,
    answered and claimed again in between. *)

From stdpp Require Import base gmap sets list strings.
From Stdlib Require Import ZArith Lia.
From S2P Require Import Prelude Intent Runtime RpcClient Link Concurrent Provider ProviderFetch ProviderReconcile ProviderLocks ProviderSettle.

Open Scope future_scope.

Definition unsent (s : Provider) (w : nat) : Prop := oneshots s !! w = Some None.
(** Fewer channels were opened than there are generations. *)
Definition bounded (s : Provider) : Prop := (Z.of_nat (length (oneshots s)) < 2 ^ 64)%Z.

Record waiters_ok (s : Provider) : Prop := {
  waiter_unsent k st w : fetching s !! k = Some st -> w ∈ waiters st -> unsent s w;
  waiter_unique k1 k2 st1 st2 w :
    fetching s !! k1 = Some st1 -> fetching s !! k2 = Some st2 ->
    w ∈ waiters st1 -> w ∈ waiters st2 -> k1 = k2;
  unsent_waits w : unsent s w -> exists k st, fetching s !! k = Some st /\ w ∈ waiters st;
  generations_known : bounded s ->
    (0 <= next_generation s <= Z.of_nat (length (oneshots s)))%Z /\
    forall k st, fetching s !! k = Some st -> (generation st <= next_generation s)%Z }.

(** What others may do to the fetches: answers stay, and an entry that appears has a new
    generation. *)
Definition frely (_ : unit) (s s' : Provider) : Prop :=
  length (oneshots s) <= length (oneshots s') /\
  (forall w r, oneshots s !! w = Some (Some r) -> oneshots s' !! w = Some (Some r)) /\
  (bounded s' ->
     (next_generation s <= next_generation s')%Z /\
     forall k st', fetching s' !! k = Some st' ->
       (exists st, fetching s !! k = Some st /\ generation st' = generation st /\
                   fetch_start_slot st' = fetch_start_slot st) \/
       (next_generation s < generation st')%Z).
(** An account that answers a request is not older than the start of its fetch. *)
Definition answers_fresh (s s' : Provider) : Prop := forall w a,
  unsent s w -> oneshots s' !! w = Some (Some (Ok a)) -> bounded s' ->
  exists k st, fetching s !! k = Some st /\ w ∈ waiters st /\ (fetch_start_slot st <= remote_slot a)%Z.
Definition fguar (_ _ : unit) (s s' : Provider) : Prop :=
  waiters_ok s -> waiters_ok s' /\ frely tt s s' /\ answers_fresh s s'.
(** A fetch knows the slots of its claims. *)
Definition fstarts `{ProviderEnv} (j : ProviderJob) (s : Provider) : Prop :=
  match j with
  | FetchJob _ gens _ min => bounded s -> forall k g, gens !! k = Some g ->
      (g <= next_generation s)%Z /\
      forall st, fetching s !! k = Some st -> generation st = g -> fetch_start_slot st = min
  | _ => True
  end.
Definition fasks (c : ProviderCall) (_ : unit) (s : Provider) : Prop := True.
Definition fblocks (_ : unit) (s : Provider) : Prop := held_up s \/ fetching s <> ∅.
Definition fworld (hs : list unit) (s : Provider) : Prop := waiters_ok s.

Lemma frely_refl s : frely tt s s.
Proof. split_and!; [done|done|]. intros _. split; [done|]. intros k st Hk. left. eauto. Qed.
Lemma bounded_before s s' : length (oneshots s) <= length (oneshots s') -> bounded s' -> bounded s.
Proof. unfold bounded. lia. Qed.
Lemma frely_trans s1 s2 s3 : frely tt s1 s2 -> frely tt s2 s3 -> frely tt s1 s3.
Proof.
  intros (Hl1 & Ha1 & Hg1) (Hl2 & Ha2 & Hg2). split_and!; [lia|auto|]. intros Hb.
  destruct (Hg2 Hb) as [Hn2 He2]. destruct (Hg1 (bounded_before _ _ Hl2 Hb)) as [Hn1 He1].
  split; [lia|]. intros k st Hst. destruct (He2 k st Hst) as [(st2 & Hst2 & Hgen2 & Hs2)|Hnew]; [|right; lia].
  destruct (He1 k st2 Hst2) as [(st1 & Hst1 & Hgen1 & Hs1)|Hnew]; [left|right; lia].
  exists st1. split; [done|]. by rewrite Hgen2, Hs2.
Qed.

Lemma fguar_refl s : fguar tt tt s s.
Proof.
  intros Hok. split_and!; [done|apply frely_refl|]. intros w a Hu Hs. unfold unsent in Hu. by rewrite Hu in Hs.
Qed.

Lemma fguar_same s s' : same_fetch s s' -> fguar tt tt s s'.
Proof.
  intros (Hf & Hn & Ho) Hok. split_and!.
  - destruct Hok. split; unfold unsent, bounded; rewrite ?Hf, ?Hn, ?Ho; auto.
  - unfold frely, bounded. rewrite Hf, Hn, Ho. apply frely_refl.
  - intros w a Hu Hs. rewrite Ho in Hs. unfold unsent in Hu. by rewrite Hu in Hs.
Qed.

Section waiters.
Context `{ProviderEnv}.
Abbreviation F A := (Future Provider ProviderJob ProviderCall ProviderReply A).

Lemma fstarts_rely j s s' : frely tt s s' -> fstarts j s -> fstarts j s'.
Proof.
  intros (Hl & _ & Hg) Hs. destruct j; try done. cbn in *. intros Hb k g Hk.
  destruct (Hg Hb) as [Hn He]. destruct (Hs (bounded_before _ _ Hl Hb) k g Hk) as [Hle Hst].
  split; [lia|]. intros st' Hst' Hgen.
  destruct (He k st' Hst') as [(st & Hold & Hgen' & ->)|Hnew]; [|lia]. apply Hst; [done|congruence].
Qed.

#[local] Instance fetch_discipline : Discipline tt waiters_ok frely fguar fworld fstarts.
Proof.
  split.
  - intros [] s. apply frely_refl.
  - intros [] s1 s2 s3. apply frely_trans.
  - intros [] s. apply fguar_refl.
  - apply fstarts_rely.
  - done.
  - done.
  - intros hs i [] [] s s' Hw Hi Hg. destruct (Hg Hw) as (Hok & Hr & _). split; [done|]. by intros j [] _ _.
Qed.

(** ** Answering *)

Lemma send_all_length r ws os : length (send_all r ws os) = length os.
Proof. unfold send_all. revert os. induction ws as [|w ws IH]; intros os; cbn; [done|]. by rewrite IH, length_insert. Qed.
Lemma send_all_lookup r ws os w :
  send_all r ws os !! w = if decide (w ∈ ws /\ w < length os) then Some (Some r) else os !! w.
Proof.
  unfold send_all. revert os. induction ws as [|w' ws IH]; intros os; cbn [foldl].
  - destruct (decide _) as [[?%not_elem_of_nil _]|]; done.
  - rewrite IH, length_insert.
    destruct (decide (w ∈ ws /\ w < length os)) as [[Hin Hlt]|Hn].
    + rewrite decide_True; [done|]. split; [by right|done].
    + destruct (decide (w ∈ w' :: ws /\ w < length os)) as [[Hin Hlt]|Hn'].
      * apply elem_of_cons in Hin as [->|Hin]; [by apply list_lookup_insert_eq|by destruct Hn].
      * destruct (decide (w = w')) as [->|Hne]; [|by apply list_lookup_insert_ne].
        rewrite list_insert_ge; [done|]. destruct (decide (length os <= w')); [done|].
        destruct Hn'. split; [left|lia].
Qed.

(** What answering the waiters of a claim does. *)
Record answered (k : Pubkey) (g : Z) (r : FetchResult) (s s' : Provider) : Prop := {
  answered_ok : waiters_ok s';
  answered_rely : frely tt s s';
  answered_with w v : unsent s w -> oneshots s' !! w = Some (Some v) ->
    v = r /\ exists st, fetching s !! k = Some st /\ generation st = g /\ w ∈ waiters st }.

Lemma resolve_generation_answered k g r s :
  waiters_ok s -> answered k g r s (resolve_generation k g r s).
Proof.
  intros Hok. unfold resolve_generation.
  destruct (fetching s !! k) as [st|] eqn:Hk; [destruct (Z.eqb_spec (generation st) g) as [Hg|Hg]|].
  2,3: split; [done|apply frely_refl|]; intros w v Hu Hv; unfold unsent in Hu; by rewrite Hu in Hv.
  destruct Hok as [Hun Huniq Hwait Hgen].
  assert (forall w, send_all r (waiters st) (oneshots s) !! w =
            if decide (w ∈ waiters st) then Some (Some r) else oneshots s !! w) as Hsend.
  { intros w. rewrite send_all_lookup. destruct (decide (w ∈ waiters st)) as [Hin|Hn].
    - apply decide_True. split; [done|]. by eapply lookup_lt_Some, Hun.
    - apply decide_False. by intros [? _]. }
  split; [split|split_and!|]; cbn; rewrite ?send_all_length.
  - intros k' st' w [Hne Hk']%lookup_delete_Some Hw. unfold unsent. cbn. rewrite Hsend.
    case_decide as Hin; [|by eapply Hun]. destruct Hne. by eapply Huniq.
  - intros k1 k2 st1 st2 w [_ H1]%lookup_delete_Some [_ H2]%lookup_delete_Some. by eapply Huniq.
  - intros w. unfold unsent. cbn. rewrite Hsend. case_decide as Hin; [done|]. intros Hu.
    destruct (Hwait w Hu) as (k' & st' & Hk' & Hw). exists k', st'. split; [|done].
    apply lookup_delete_Some. split; [|done]. intros <-. by simplify_eq.
  - unfold bounded. cbn. rewrite send_all_length. intros Hb. destruct (Hgen Hb) as [Hn Hall]. split; [done|].
    intros k' st' [_ Hk']%lookup_delete_Some. eauto.
  - done.
  - intros w v Hv. rewrite Hsend. case_decide as Hin; [|done].
    assert (unsent s w) as Hu by eauto. unfold unsent in Hu. by rewrite Hu in Hv.
  - intros Hb. split; [done|]. intros k' st' [_ Hk']%lookup_delete_Some. left. eauto.
  - intros w v Hu. rewrite Hsend. case_decide as Hin; [|unfold unsent in Hu; by rewrite Hu].
    intros [= <-]. split; [done|]. eauto.
Qed.

Lemma fguar_resolve k g r s :
  (bounded s -> forall a st, r = Ok a -> fetching s !! k = Some st -> generation st = g ->
     (fetch_start_slot st <= remote_slot a)%Z) ->
  fguar tt tt s (resolve_generation k g r s).
Proof.
  intros Hfresh Hok. destruct (resolve_generation_answered k g r s Hok) as [Hok' Hr Hans].
  split_and!; [done|done|]. intros w a Hu Hs Hb. destruct (Hans w _ Hu Hs) as (<- & st & Hst & Hg & Hw).
  exists k, st. split_and!; [done|done|]. eapply Hfresh; eauto. eapply bounded_before; [|done]. apply Hr.
Qed.

(** Errors may be sent to many claims in one section. *)
Definition no_account_sent (s s' : Provider) : Prop :=
  waiters_ok s' /\ frely tt s s' /\ forall w a, unsent s w -> oneshots s' !! w <> Some (Some (Ok a)).
Lemma no_account_trans s1 s2 s3 : no_account_sent s1 s2 -> no_account_sent s2 s3 -> no_account_sent s1 s3.
Proof.
  intros (_ & Hr1 & Hn1) (Hok & Hr2 & Hn2). split_and!; [done|by eapply frely_trans|].
  intros w a Hu Hs. destruct (oneshots s2 !! w) as [[v|]|] eqn:H2.
  - assert (v = Ok a) as ->; [|by eapply Hn1].
    destruct Hr2 as (_ & Hr2 & _). apply Hr2 in H2. congruence.
  - by eapply Hn2.
  - apply lookup_ge_None in H2. apply lookup_lt_Some in Hu. destruct Hr1 as (Hl & _). lia.
Qed.
Lemma no_account_guar s s' : (waiters_ok s -> no_account_sent s s') -> fguar tt tt s s'.
Proof.
  intros Hn Hok. destruct (Hn Hok) as (Hok' & Hr & Hno). split_and!; [done|done|].
  intros w a Hu Hs. by destruct (Hno w a Hu).
Qed.

Lemma no_account_refl s : waiters_ok s -> no_account_sent s s.
Proof.
  intros Hok. split_and!; [done|apply frely_refl|]. intros w a Hu. unfold unsent in Hu. by rewrite Hu.
Qed.
Lemma no_account_resolve gens k e s : waiters_ok s -> no_account_sent s (resolve_claim gens k (Err e) s).
Proof.
  intros Hok. unfold resolve_claim. case_match; [|by apply no_account_refl].
  destruct (resolve_generation_answered k z (Err e) s Hok) as [Hok' Hr Hans]. split_and!; [done|done|].
  intros w a Hu Hs. by destruct (Hans w _ Hu Hs).
Qed.
Lemma no_account_resolve_all gens ks e s :
  waiters_ok s -> no_account_sent s (foldl (fun s k => resolve_claim gens k (Err e) s) s ks).
Proof.
  revert s. induction ks as [|k ks IH]; intros s Hok; cbn; [by apply no_account_refl|].
  pose proof (no_account_resolve gens k e s Hok) as Hn. eapply no_account_trans; [exact Hn|]. apply IH, Hn.
Qed.

(** ** Claiming *)

(** A channel is opened for an account that is being fetched, or is now. *)
Lemma open_channel s k g f n :
  waiters_ok s ->
  let ws := match fetching s !! k with Some st => waiters st | None => [] end in
  let s' := set_fetch (<[k := mkFetching g f (ws ++ [length (oneshots s)])]> (fetching s)) n (oneshots s ++ [None]) s in
  (bounded s' -> (next_generation s <= n <= Z.of_nat (length (oneshots s)) + 1)%Z /\ (g <= n)%Z) ->
  waiters_ok s'.
Proof.
  intros [Hun Huniq Hwait Hgen] ws s' Hn.
  assert (forall w, w ∈ ws -> exists st, fetching s !! k = Some st /\ w ∈ waiters st) as Hws.
  { intros w Hw. subst ws. destruct (fetching s !! k) as [st|]; [eauto|by apply not_elem_of_nil in Hw]. }
  assert (forall w, unsent s w -> unsent s' w) as Hmono.
  { intros w Hu. unfold unsent. cbn. by apply lookup_app_l_Some. }
  assert (forall k' st' w, k' <> k -> fetching s !! k' = Some st' -> w ∈ waiters st' -> w ∉ ws ++ [length (oneshots s)])
    as Hother.
  { intros k' st' w Hne Hk' Hw [Hin| ->%list_elem_of_singleton]%elem_of_app.
    - destruct (Hws w Hin) as (st & Hk & Hin'). by eapply Hne, Huniq.
    - apply (Hun _ _ _ Hk'), lookup_lt_Some in Hw. lia. }
  split; cbn.
  - intros k' st' w [[<- <-]|[Hne Hk']]%lookup_insert_Some Hw; cbn in Hw; [|eauto].
    apply elem_of_app in Hw as [Hw| ->%list_elem_of_singleton].
    + destruct (Hws w Hw) as (st & Hk & Hin). eauto.
    + unfold unsent. cbn. rewrite lookup_app_r by lia. by rewrite Nat.sub_diag.
  - intros k1 k2 st1 st2 w [[<- <-]|[Hne1 H1]]%lookup_insert_Some [[<- <-]|[Hne2 H2]]%lookup_insert_Some Hw1 Hw2;
      cbn in Hw1, Hw2.
    + done.
    + by destruct (Hother k2 st2 w).
    + by destruct (Hother k1 st1 w).
    + by eapply Huniq.
  - intros w Hu. unfold unsent in Hu. cbn in Hu. apply lookup_app_Some in Hu as [Hu|[Hge Hu]].
    + destruct (Hwait w Hu) as (k' & st' & Hk' & Hw). destruct (decide (k' = k)) as [->|Hne].
      * exists k. eexists. split; [apply lookup_insert_eq|]. cbn. subst ws. rewrite Hk'. set_solver.
      * exists k', st'. by rewrite lookup_insert_ne.
    + apply list_lookup_singleton_Some in Hu as [Hw _]. exists k. eexists. split; [apply lookup_insert_eq|].
      cbn. apply elem_of_app. right. apply list_elem_of_singleton. lia.
  - intros Hb. destruct (Hn Hb) as [Hn1 Hn2].
    assert (bounded s) as Hb0 by (eapply bounded_before; [|exact Hb]; cbn; rewrite length_app; lia).
    destruct (Hgen Hb0) as [Hle Hall]. rewrite length_app. cbn. split; [lia|].
    intros k' st' [[<- <-]|[Hne Hk']]%lookup_insert_Some; cbn; [done|]. specialize (Hall _ _ Hk'). lia.
Qed.

(** The claims a request has made so far, since [s0]. *)
Record claims_ok (start : Z) (s0 s : Provider) (c : Claims) : Prop := {
  claims_sent : no_account_sent s0 s;
  claims_receivers w : w ∈ receivers c -> w < length (oneshots s);
  claims_start : fstarts (FetchJob [] (claimed_generations c) [] start) s }.

Section claiming.
Context (start : Z) (k : Pubkey) (s : Provider) (c : Claims) (Hok : waiters_ok s).
Let s' : Provider := (claim_account start k s c).1.

Lemma claim_account_oneshots : oneshots s' = oneshots s ++ [None].
Proof using Type. unfold s', claim_account. by case_match. Qed.
Lemma claim_account_bounded : bounded s' -> bounded s.
Proof using Type. apply bounded_before. rewrite claim_account_oneshots, length_app. lia. Qed.

(** The generation of a claim is new. *)
Lemma claim_account_next :
  bounded s' -> wadd 64 (next_generation s) 1 = (next_generation s + 1)%Z.
Proof using Hok.
  intros Hb. destruct (generations_known s Hok (claim_account_bounded Hb)) as [Hle _].
  unfold bounded in Hb. rewrite claim_account_oneshots, length_app in Hb. cbn in Hb.
  apply wrap_small. lia.
Qed.

Lemma claim_account_waiters : waiters_ok s'.
Proof using Hok.
  pose proof (open_channel s k) as Hopen. pose proof claim_account_bounded as Hb0.
  pose proof claim_account_next as Hnext. unfold s', claim_account in *.
  destruct (fetching s !! k) as [st|] eqn:Hk; cbn in *.
  - apply Hopen; [done|]. cbn. intros Hb. destruct (generations_known s Hok (Hb0 Hb)) as [Hle Hall].
    specialize (Hall _ _ Hk). lia.
  - apply (Hopen _ start); [done|]. cbn. intros Hb. specialize (Hnext Hb).
    destruct (generations_known s Hok (Hb0 Hb)) as [Hle _]. lia.
Qed.

Lemma claim_account_rely : frely tt s s'.
Proof using Hok.
  pose proof claim_account_oneshots as Ho. pose proof claim_account_next as Hnext.
  split_and!; rewrite ?Ho.
  - rewrite length_app. lia.
  - intros w r Hr. by apply lookup_app_l_Some.
  - intros Hb. specialize (Hnext Hb). unfold s', claim_account in *.
    destruct (fetching s !! k) as [st|] eqn:Hk; cbn in *; (split; [lia|]);
      intros k' st' [[<- <-]|[Hne Hk']]%lookup_insert_Some; cbn; eauto. right. lia.
Qed.

Lemma claim_account_sent : no_account_sent s s'.
Proof using Hok.
  split_and!; [apply claim_account_waiters|apply claim_account_rely|].
  intros w a Hu. rewrite claim_account_oneshots. unfold unsent in Hu.
  by rewrite (lookup_app_l_Some _ _ _ _ Hu).
Qed.

Lemma claim_account_start :
  fstarts (FetchJob [] (claimed_generations c) [] start) s ->
  fstarts (FetchJob [] (claimed_generations (claim_account start k s c).2) [] start) s'.
Proof using Hok.
  intros Hst. pose proof (fstarts_rely _ _ _ claim_account_rely Hst) as Hst'.
  pose proof claim_account_next as Hnext. unfold s', claim_account in *.
  destruct (fetching s !! k) as [st|] eqn:Hk; [exact Hst'|]. cbn in *.
  intros Hb k' g [[<- <-]|[Hne Hk']]%lookup_insert_Some; [|by apply Hst'].
  split; [lia|]. intros st'. rewrite lookup_insert_eq. by intros [= <-].
Qed.
End claiming.

Lemma claim_account_ok start s0 k s c :
  claims_ok start s0 s c ->
  claims_ok start s0 (claim_account start k s c).1 (claim_account start k s c).2.
Proof.
  intros [Hsent Hrec Hst]. pose proof Hsent as (Hok & _ & _). split.
  - eapply no_account_trans; [exact Hsent|]. by apply claim_account_sent.
  - rewrite claim_account_oneshots, length_app. cbn. intros w Hw.
    assert (w ∈ receivers c \/ w = length (oneshots s)) as [Hin| ->]; [|specialize (Hrec w Hin); lia|lia].
    unfold claim_account in Hw. case_match; cbn in Hw; apply elem_of_app in Hw as [Hw|Hw%list_elem_of_singleton]; auto.
  - by apply claim_account_start.
Qed.

Lemma claim_accounts_ok start ks s :
  waiters_ok s -> claims_ok start s (claim_accounts start ks s).1 (claim_accounts start ks s).2.
Proof.
  intros Hok. unfold claim_accounts.
  assert (claims_ok start s s (mkClaims [] [] ∅)) as Hc.
  { split; [by apply no_account_refl|by intros w ?%not_elem_of_nil|]. cbn. intros _ k g. by rewrite lookup_empty. }
  revert Hc. generalize (mkClaims [] [] ∅). generalize s at 2 4 5 as s1.
  induction ks as [|k ks IH]; intros s1 c Hc; cbn; [done|].
  pose proof (claim_account_ok start s k s1 c Hc) as Hc'. destruct (claim_account start k s1 c). by apply IH.
Qed.

(** ** Every job keeps the discipline *)

Context (drops : bool).
Abbreviation fdrop d := (may_drop tt fguar drops d).
Abbreviation fsafe d Q := (safe waiters_ok frely fguar fstarts fasks fblocks (fdrop d) Q).

Lemma fguar_rely s s' : waiters_ok s -> fguar tt tt s s' -> frely tt s s'.
Proof. intros Hok Hg. by apply Hg. Qed.
Lemma same_fetch_rely s s' : waiters_ok s -> same_fetch s s' -> frely tt s s'.
Proof. intros Hok Hs. by apply fguar_rely, fguar_same. Qed.

Lemma fsafe_guar {A} d (Q : A -> unit -> Provider -> Prop) C (m : F A) s :
  frames (fguar tt tt) (fblocks tt) C m -> (forall a s', frely tt s s' -> waiters_ok s' -> Q a tt s') ->
  fsafe d Q m tt s.
Proof.
  intros Hm HQ. eapply (safe_frames_rely fetch_discipline); [exact Hm|..|done|done|exact HQ].
  intros s1 s2 Hi Hg. split_and!; [done|by intros _ _|by apply fguar_rely].
Qed.
Lemma fsafe_subs {A} d (Q : A -> unit -> Provider -> Prop) C (m : F A) s :
  frames same_fetch held_up C m -> (forall a s', frely tt s s' -> waiters_ok s' -> Q a tt s') ->
  fsafe d Q m tt s.
Proof.
  intros Hm. apply (fsafe_guar _ _ C). eapply frames_mono; [exact Hm|apply fguar_same|by left].
Qed.

Lemma fguar_cleanup gens ks e s s' :
  same_fetch s s' -> fguar tt tt s (foldl (fun s k => resolve_claim gens k (Err e) s) s' ks).
Proof.
  intros Hs. apply no_account_guar. intros Hok. pose proof (fguar_same _ _ Hs Hok) as (Hok' & _).
  eapply no_account_trans; [|by apply no_account_resolve_all].
  split_and!; [done|by apply same_fetch_rely|]. destruct Hs as (_ & _ & Ho). intros w a Hu. rewrite Ho.
  unfold unsent in Hu. by rewrite Hu.
Qed.

Lemma deliver_safe (Q : unit -> unit -> Provider -> Prop) ks gens mark min accs s :
  fstarts (FetchJob ks gens mark min) s -> Forall (fun p => (min <= remote_slot p.2)%Z) accs ->
  (forall a s', waiters_ok s' -> Q a tt s') -> fsafe false Q (deliver gens accs) tt s.
Proof.
  intros Hst Hall HQ. revert s Hst. induction Hall as [|[k acc] accs Hacc Hall IH]; intros s Hst; cbn [deliver].
  { intros s' _ Hi. by apply HQ. }
  intros s' Hr Hi. apply (fstarts_rely _ _ _ Hr) in Hst. exists tt.
  assert (fguar tt tt s' (resolve_claim gens k (Ok acc) s')) as Hg.
  { unfold resolve_claim. destruct (gens !! k) as [g|] eqn:Hk; [|apply fguar_refl].
    apply fguar_resolve. intros Hb a st [= <-] Hst' Hgen. cbn in Hst.
    destruct (Hst Hb k g Hk) as [_ ->]; [exact Hacc|done|done]. }
  split; [exact Hg|]. apply IH. eapply fstarts_rely; [|exact Hst]. by apply fguar_rely.
Qed.

Lemma notify_safe d (Q : unit -> unit -> Provider -> Prop) gens ks why s :
  (forall a s', waiters_ok s' -> Q a tt s') -> fsafe d Q (notify_error ks gens why) tt s.
Proof.
  intros HQ. apply (fsafe_guar _ _ (fun _ => True)); [|auto]. unfold notify_error. frames_steps.
  by apply fguar_cleanup.
Qed.

Lemma fetched_slot mark slot k acc : remote_slot (fetched_account mark slot k acc) = slot.
Proof. unfold fetched_account, from_fresh_account. by repeat case_match. Qed.

Lemma fetch_succeeded_safe (Q : unit -> unit -> Provider -> Prop) gens mark min ks slot value s :
  fstarts (FetchJob ks gens mark min) s -> (min <= slot)%Z ->
  (forall a s', waiters_ok s' -> Q a tt s') -> fsafe false Q (fetch_succeeded gens mark ks slot value) tt s.
Proof.
  intros Hst Hslot HQ. unfold fetch_succeeded. case_match; [by apply notify_safe|].
  eapply deliver_safe; [exact Hst| |done]. apply Forall_forall. intros [k acc] Hin%elem_of_zip_r.
  apply list_elem_of_lookup in Hin as (i & Hi). apply lookup_zip_with_Some in Hi as (k' & v & -> & _).
  cbn. by rewrite fetched_slot.
Qed.

Lemma fetch_loop_safe (Q : unit -> unit -> Provider -> Prop) gens mark min n ks s :
  fstarts (FetchJob ks gens mark min) s ->
  (forall a s', waiters_ok s' -> Q a tt s') -> fsafe false Q (fetch_loop gens mark min n ks) tt s.
Proof.
  intros Hst HQ. revert ks s Hst. induction n as [|n IH]; intros ks s Hst; cbn [fetch_loop];
    apply (safe_bind fetch_discipline), (fsafe_subs _ _ (fun _ => True)); try by frames_steps.
  all: intros [|k ks'] s1 Hr1 Hi1; [by intros s2 _ Hi2; apply HQ|].
  { by apply notify_safe. }
  apply (fstarts_rely _ _ _ Hr1) in Hst.
  apply (safe_bind fetch_discipline), (fsafe_subs _ _ (fun _ => True)); [apply (subs_rpc_fetch (k :: ks') min)|].
  intros r s2 Hr2 Hi2. apply (fstarts_rely _ _ _ Hr2) in Hst. cbv zeta.
  assert (fsafe false Q (fbind (match n with O => Ready tt | S _ => fask (Sleep RPC_FETCH_RETRY_DELAY) end)
    (fun _ => fetch_loop gens mark min n (k :: ks'))) tt s2) as Hretry.
  { apply (safe_bind fetch_discipline), (fsafe_subs _ _ (fun _ => True)); [by destruct n; frames_steps|].
    intros _ s3 Hr3 Hi3. apply IH. by apply (fstarts_rely _ _ _ Hr3) in Hst. }
  destruct r as [|e|slot value]; [done|..].
  - destruct (is_lagging e); [done|by apply notify_safe].
  - destruct (Z.leb_spec min slot); [|done]. by eapply fetch_succeeded_safe.
Qed.

Lemma update_slot u : remote_slot (update_account u) = su_slot u.
Proof. unfold update_account, from_fresh_account. by case_match. Qed.

Lemma guar_update u : frames (fguar tt tt) (fblocks tt) (fun _ => True) (handle_account_update u).
Proof.
  unfold handle_account_update. apply frames_bind; [apply frames_put; intros s; by apply fguar_same|].
  intros _. destruct (decide _); [apply frames_put; intros s; by apply fguar_same|].
  apply frames_bind; [apply frames_do; intros s|intros [f|]; [|exact I]].
  - unfold resolve_with_update. destruct (fetching s !! su_pubkey u) as [st|] eqn:Hk; [|apply fguar_refl].
    destruct (Z.leb_spec (fetch_start_slot st) (su_slot u)) as [Hle|]; [|apply fguar_refl]. cbn [fst].
    apply fguar_resolve. intros _ a st' [= <-] Hst _. rewrite Hk in Hst. simplify_eq. by rewrite update_slot.
  - apply frames_bind; [|done]. eapply frames_mono; [apply subs_forward|apply fguar_same|by left].
Qed.

Lemma recv_all_safe d (Q : list FetchResult -> unit -> Provider -> Prop) chs s :
  (forall w, w ∈ chs -> w < length (oneshots s)) ->
  (forall a s', waiters_ok s' -> Q a tt s') -> fsafe d Q (recv_all chs) tt s.
Proof.
  revert Q s. induction chs as [|ch chs IH]; intros Q s Hlt HQ; cbn [recv_all].
  { intros s' _ Hi. by apply HQ. }
  apply (safe_bind fetch_discipline). intros s1 Hr1 Hi1. split_and!.
  - intros _ _. apply fguar_refl.
  - intros Hnone. right. destruct (oneshots s1 !! ch) as [[r|]|] eqn:Hch; [done|..].
    + destruct (unsent_waits s1 Hi1 ch Hch) as (k & st & Hk & _). intros He. by rewrite He, lookup_empty in Hk.
    + apply lookup_ge_None in Hch. destruct Hr1 as (Hl & _). specialize (Hlt ch ltac:(by left)). lia.
  - intros s2 r Heq. exists tt. destruct (oneshots s1 !! ch) as [[r'|]|] eqn:Hch; simplify_eq.
    split; [apply fguar_refl|]. intros s3 Hr3 Hi3. apply (safe_bind fetch_discipline), IH.
    + intros w Hw. destruct Hr1 as (Hl1 & _). destruct Hr3 as (Hl3 & _). specialize (Hlt w ltac:(by right)). lia.
    + intros rs s4 Hi4 s5 _ Hi5. by apply HQ.
Qed.

Lemma spawn_safe d (Q : unit -> unit -> Provider -> Prop) cs gens mark start s :
  fstarts (FetchJob [] gens [] start) s -> (forall a s', frely tt s s' -> waiters_ok s' -> Q a tt s') ->
  fsafe d Q (spawn_fetches cs gens mark start) tt s.
Proof.
  intros Hst. revert s Hst. induction cs as [|ks cs IH]; intros s Hst HQ; cbn [spawn_fetches].
  { intros s' Hr Hi. by apply HQ. }
  intros s' Hr Hi. apply (fstarts_rely _ _ _ Hr) in Hst. split; [exact Hst|].
  apply IH; [done|]. intros a s2 Hr2 Hi2. apply HQ; [|done]. by eapply frely_trans.
Qed.

Lemma after_claims_safe d (Q : ProviderResult (list RemoteAccount) -> unit -> Provider -> Prop) ks mark start c s :
  (forall w, w ∈ receivers c -> w < length (oneshots s)) ->
  fstarts (FetchJob [] (claimed_generations c) [] start) s ->
  (forall a s', waiters_ok s' -> Q a tt s') -> fsafe d Q (after_claims ks mark start c) tt s.
Proof.
  intros Hlt Hst HQ. unfold after_claims. apply (safe_bind fetch_discipline).
  assert (forall (r : ProviderResult unit) s', frely tt s s' -> waiters_ok s' -> fsafe d Q
    (match r with
     | Ok _ => rs ← recv_all (receivers c); Ready (collect_results ks rs)
     | Err e => Ready (Err e)
     end)%future tt s') as Hwait.
  { intros [[]|e] s1 Hr1 Hi1; [|by intros s2 _ Hi2; apply HQ].
    apply (safe_bind fetch_discipline), recv_all_safe; [|by intros rs s2 Hi2 s3 _ Hi3; apply HQ].
    intros w Hw. destruct Hr1 as (Hl & _). specialize (Hlt w Hw). lia. }
  destruct (is_nil (claimed_pubkeys c)); [by intros s1 Hr1 Hi1; apply (Hwait (Ok tt))|].
  apply (safe_bind fetch_discipline).
  apply (safe_protect _ (fun _ s s' => same_fetch s s')); [by intros [] s1 s2 Hs _ _; apply fguar_cleanup|].
  eapply (safe_frames_rely fetch_discipline); [apply subs_setup|..|by left|done|].
  { intros s1 s2 Hi1 Hs. split_and!; [by apply fguar_same|done|by apply same_fetch_rely]. }
  intros [[]|e] s1 Hr1 Hi1; apply (safe_bind fetch_discipline).
  - apply spawn_safe; [by eapply fstarts_rely|]. intros _ s2 Hr2 Hi2 s3 Hr3 Hi3.
    apply (Hwait (Ok tt)); [|done]. eauto using frely_trans.
  - apply (fsafe_guar _ _ (fun _ => True)); [frames_steps; by apply fguar_cleanup|].
    intros _ s2 Hr2 Hi2 s3 Hr3 Hi3. apply (Hwait (Err e)); [|done]. eauto using frely_trans.
Qed.

Lemma try_get_multi_fsafe d (Q : ProviderResult (list RemoteAccount) -> unit -> Provider -> Prop) ks mark start s :
  (forall a s', waiters_ok s' -> Q a tt s') -> fsafe d Q (try_get_multi ks mark start) tt s.
Proof.
  intros HQ. rewrite try_get_multi_eq. case_match; [by intros s1 _ Hi1; apply HQ|].
  apply (safe_bind fetch_discipline), (fsafe_subs _ _ (fun _ => True)); [frames_steps|]. intros st s1 _ Hi1.
  apply (safe_bind fetch_discipline). intros s2 _ Hi2. exists tt.
  destruct (claim_accounts_ok st ks s2 Hi2) as [Hsent Hlt Hst].
  split; [by apply no_account_guar|]. intros s3 Hr3 Hi3. apply after_claims_safe; [|by eapply fstarts_rely|done].
  intros w Hw. specialize (Hlt w Hw). destruct Hr3 as (Hl & _). lia.
Qed.

Lemma discard_fsafe {A} d (m : F A) s :
  (forall Q : A -> unit -> Provider -> Prop, (forall a s, waiters_ok s -> Q a tt s) -> fsafe d Q m tt s) ->
  fsafe d (returns_res tt) (discard m) tt s.
Proof. intros Hm. apply (safe_bind fetch_discipline), Hm. by intros a s1 Hi1 s2 _ Hi2. Qed.
Lemma subs_fsafe {A} d (m : F A) s :
  frames same_fetch held_up (fun _ => True) m -> fsafe d (returns_res tt) (discard m) tt s.
Proof. intros Hm. apply discard_fsafe. intros Q HQ. by eapply fsafe_subs; [exact Hm|auto]. Qed.
Lemma subs_fsafe_unit d (m : F unit) s :
  frames same_fetch held_up (fun _ => True) m -> fsafe d (returns_res tt) m tt s.
Proof. intros Hm. by eapply fsafe_subs; [exact Hm|]. Qed.

Lemma provider_jobs_fsafe j s :
  fstarts j s -> fsafe (provider_droppable j) (returns_res tt) (provider_job j) tt s.
Proof.
  intros Hst. destruct j; cbn [provider_job provider_droppable].
  - apply subs_fsafe, subs_acquire.
  - apply subs_fsafe, subs_acquire.
  - apply subs_fsafe, subs_release.
  - apply subs_fsafe, subs_release_silently.
  - apply subs_fsafe_unit, subs_forget.
  - apply subs_fsafe_unit. unfold prefer_grpc_subscription. frames_steps.
  - apply discard_fsafe. intros. by apply try_get_multi_fsafe.
  - apply discard_fsafe. intros Q HQ. apply (safe_bind fetch_discipline), try_get_multi_fsafe.
    intros [accs|e] s1 Hi1; [|by intros s2 _ Hi2; apply HQ]. cbv zeta.
    case_match; [by intros s2 _ Hi2; apply HQ|..]; (eapply fsafe_subs; [frames_steps; apply subs_match_loop|auto]).
  - apply subs_fsafe, subs_snapshot.
  - apply subs_fsafe, subs_slice.
  - apply subs_fsafe, subs_with_key_lock, subs_unsubscribe_locked.
  - apply subs_fsafe_unit, subs_evict_stale.
  - apply subs_fsafe_unit, subs_evict_cached.
  - apply subs_fsafe, subs_send_stale.
  - apply subs_fsafe_unit. by frames_steps.
  - by apply fetch_loop_safe.
  - by eapply fsafe_guar; [apply guar_update|].
  - apply subs_fsafe_unit, subs_replay.
  - apply subs_fsafe, subs_refresh.
  - apply subs_fsafe, subs_reconcile.
  - apply (safe_bind fetch_discipline). eapply fsafe_subs; [apply subs_evict_uncovered|]. intros _ s1 _ Hi1.
    apply subs_fsafe, subs_reconcile.
  - apply discard_fsafe. intros Q HQ. apply (safe_bind fetch_discipline).
    apply (safe_bind fetch_discipline), try_get_multi_fsafe. intros r s1 Hi1 s2 _ Hi2.
    eapply (fsafe_subs _ _ (fun _ => True)); [frames_steps; done|auto].
  - apply subs_fsafe_unit. frames_steps. done.
Qed.

Lemma fworld_init : fworld [] provider_init.
Proof.
  split; cbn.
  - intros k st w Hk. by rewrite lookup_empty in Hk.
  - intros k1 k2 st1 st2 w Hk. by rewrite lookup_empty in Hk.
  - by intros w.
  - intros _. split; [done|]. intros k st Hk. by rewrite lookup_empty in Hk.
Qed.

Lemma provider_sys_fsafe y : provider_reachable drops y ->
  sys_safe tt waiters_ok frely fguar fworld fstarts fasks fblocks drops y.
Proof.
  eapply (reachable_safe _ _ _ _ _ _ _ _ _ _ (H := fetch_discipline)).
  - intros j s _. apply provider_jobs_fsafe.
  - intros j s _ Hj. by destruct j.
  - apply fworld_init.
Qed.

Lemma reachable_waiters y : provider_reachable drops y -> waiters_ok (shared y).
Proof. intros Hr. by destruct (provider_sys_fsafe y Hr) as (hs & _ & Hw & _). Qed.
End waiters.

Abbreviation provider_step := (progress provider_job provider_droppable).

(** C9: whatever claims, answers, updates and cancellations interleave, an answer is given
    once, and an account that answers a request is no older than the slot at which the
    fetch the request waits for was started, as long as fewer than 2^64 channels were
    opened. *)
Theorem answers_fresh_once `{ProviderEnv} (drops : bool) (y y' : ProviderSys) (w : nat) :
  provider_reachable drops y ->
  step provider_job provider_droppable admitted drops y y' ->
  (forall r, oneshots (shared y) !! w = Some (Some r) -> oneshots (shared y') !! w = Some (Some r)) /\
  (forall a, oneshots (shared y) !! w = Some None -> oneshots (shared y') !! w = Some (Some (Ok a)) ->
     bounded (shared y') ->
     exists k st, fetching (shared y) !! k = Some st /\ w ∈ waiters st /\
                  (fetch_start_slot st <= remote_slot a)%Z).
Proof.
  intros Hr Hstep. pose proof (reachable_waiters _ _ Hr) as Hok.
  assert (fguar tt tt (shared y) (shared y')) as Hg.
  { destruct (sys_safe_guar _ _ _ _ _ _ _ _ _ _ _ _ (H := fetch_discipline) _ _ (provider_sys_fsafe _ _ Hr) Hstep)
      as [->|([] & [] & Hg)]; [apply fguar_refl|exact Hg]. }
  destruct (Hg Hok) as (_ & (_ & Hkeep & _) & Hfresh). split; [apply Hkeep|]. intros a. apply Hfresh.
Qed.

(** A request waits for its fetch, which has the answer of the node. *)
Definition fetch_answered : list SmallChoice :=
  Start (TryGetMultiJob [7%N] None None) :: steps_of 0 9 10 ++ steps_of 1 2 10.

Lemma answers_fresh_once_witness :
  let y := small_run fetch_answered in
  let y' := default y (exec_choice (@provider_job small_env) provider_droppable (Run 1 (answer_at 10)) y) in
  oneshots (shared y) !! 0 = Some None /\
  exists a, oneshots (shared y') !! 0 = Some (Some (Ok a)) /\
  exists k st, fetching (shared y) !! k = Some st /\ 0 ∈ waiters st /\ (fetch_start_slot st <= remote_slot a)%Z.
Proof.
  intros y y'. assert (oneshots (shared y) = [None]) as Ho by (vm_compute; reflexivity).
  assert (oneshots (shared y') = [Some (Ok (Found (with_slot 10 (small_account 5)) SourceFetch))]) as Ho'
    by (vm_compute; reflexivity).
  rewrite Ho, Ho'. split; [done|]. eexists. split; [done|].
  refine (proj2 (answers_fresh_once (H := small_env) false y y' 0 _ _) _ _ _ _).
  - by apply small_run_reachable; repeat constructor.
  - apply exec_choice_default; [done|by vm_compute].
  - by rewrite Ho.
  - by rewrite Ho'.
  - unfold bounded. by rewrite Ho'.
Defined.
