(* ===== verification/ProviderLive.v ===== *)
(** * The remote account provider: no request waits for ever

    The disciplines of the locks ([ProviderLocks]) and of the channels
    ([ProviderWaiters]) and the obligations of the claims ([ProviderSettle]) together: a
    set of requests, fetches, updates and repairs that is left alone comes to rest after
    finitely many steps, and at rest, unless a bounded channel is full, all of them have
    returned, no account is still being fetched and no key is locked. A full channel to
    the listener for stale accounts can stay full for ever ([stale_listener_stuck]). *)

From stdpp Require Import base relations gmap sets list strings.
From Stdlib Require Import ZArith Lia.
From S2P Require Import Prelude Intent Runtime RpcClient Link Concurrent Provider ProviderFetch ProviderReconcile ProviderLocks ProviderSettle ProviderWaiters.

Section live.
Context `{ProviderEnv}.

Lemma replies_inhabited c : inhabited (ProviderReply c).
Proof. destruct c; cbn; repeat constructor; try exact RpcTimedOut; exact (Ok tt) || exact None. Qed.

Section at_rest.
Context (drops : bool) (y : ProviderSys) (Hr : provider_reachable drops y)
  (Hstuck : forall y', ~ provider_step y y').

Lemma rest_blocked i d m : futures y !! i = Some (d, m) ->
  finished m \/ exists B drop f k, m = @When _ _ _ _ _ B drop f k /\ f (shared y) = None.
Proof using Hstuck. eapply stuck_blocked; [exact replies_inhabited|exact Hstuck]. Qed.

(** The holder of a lock can take a step, unless it waits to send. *)
Lemma rest_unlocked : stale_full (shared y) = false -> key_locks (shared y) = ∅.
Proof using Hr Hstuck.
  intros Hfull.
  destruct (provider_sys_safe _ _ Hr) as (hs & Hlen & (Hinv & Hl & _) & Hall).
  apply set_eq. intros k. split; [|set_solver]. intros (i & h & Hh & Hk)%Hl.
  destruct (lookup_lt_is_Some_2 (futures y) i) as [[d m] Hi].
  { rewrite <- Hlen. by eapply lookup_lt_Some. }
  pose proof (Hall _ _ _ _ Hi Hh) as Hs.
  assert (lrely h (shared y) (shared y)) as Hrely by done.
  assert (h = ∅) as ->; [|set_solver].
  destruct (rest_blocked _ _ _ Hi) as [Hf|(B & drop & f & c & -> & Hf)].
  - destruct m; try done. exact (Hs (shared y) Hrely Hinv).
  - destruct (Hs (shared y) Hrely Hinv) as (_ & Hb & _). destruct (Hb Hf); [done|congruence].
Qed.

Lemma rest_free : stale_full (shared y) = false -> pipeline_full (shared y) = false -> ~ held_up (shared y).
Proof using Hr Hstuck.
  intros Hs Hp [Hl|[Hl|Hl]]; [by apply Hl, rest_unlocked|congruence..].
Qed.

(** So can whoever has to answer for a claim. *)
Lemma rest_settled : ~ held_up (shared y) -> fetching (shared y) = ∅.
Proof using Hr Hstuck.
  intros Hfree.
  assert (forall o, ~ pending provider_init o) as Hinit.
  { intros o (st & Hst & _). cbn in Hst. by rewrite lookup_empty in Hst. }
  destruct (reachable_settles _ _ pending takes held_up provider_jobs_account provider_jobs_take
              _ _ _ _ Hinit Hr) as [_ Hset].
  apply map_eq. intros k. rewrite lookup_empty. destruct (fetching (shared y) !! k) as [st|] eqn:Hk; [|done].
  destruct (Hset (k, generation st)) as (i & d & m & Hi & Hd); [by exists st|].
  destruct (rest_blocked _ _ _ Hi) as [Hf|(B & drop & f & c & -> & Hf)]; [by destruct m|].
  destruct Hd as (_ & Ha & _). by destruct (Hfree (Ha _ Hf)).
Qed.

Lemma rest_finished i d m : ~ held_up (shared y) -> futures y !! i = Some (d, m) -> finished m.
Proof using Hr Hstuck.
  intros Hfree Hi. destruct (rest_blocked _ _ _ Hi) as [Hf|(B & drop & f & c & -> & Hf)]; [done|exfalso].
  destruct (provider_sys_fsafe _ _ Hr) as (hs & Hlen & Hw & Hall).
  destruct (lookup_lt_is_Some_2 hs i) as [h Hh].
  { rewrite Hlen. by eapply lookup_lt_Some. }
  destruct (Hall _ _ _ _ Hi Hh (shared y) (frely_refl _) Hw) as (_ & Hb & _).
  destruct (Hb Hf) as [Hl|Hf']; [done|by apply Hf', rest_settled].
Qed.
End at_rest.
End live.

(** C8: however requests, fetches, updates and repairs interleave, and whichever requests
    were dropped halfway, they come to rest after finitely many steps whatever the RPC
    node and the pubsub client answer. At rest every key is unlocked unless the channel to
    the listener for stale accounts is full; and if the channel to the update pipeline is
    not full either, every request has returned and every claimed account was answered
    for. *)
Theorem every_request_returns `{ProviderEnv} (drops : bool) (y : ProviderSys) :
  provider_reachable drops y ->
  Acc (flip provider_step) y /\
  forall z, rtc provider_step y z -> (forall z', ~ provider_step z z') -> stale_full (shared z) = false ->
    key_locks (shared z) = ∅ /\
    (pipeline_full (shared z) = false ->
       Forall (fun t => finished t.2) (futures z) /\ fetching (shared z) = ∅ /\
       Forall (fun answer => is_Some answer) (oneshots (shared z))).
Proof.
  intros Hr. split.
  { eapply (progress_terminates _ _ job_rank); [exact provider_jobs_rank|].
    eapply reachable_bounded; [exact provider_jobs_rank|exact Hr]. }
  intros z Hz Hstuck Hsf. assert (provider_reachable drops z) as Hrz.
  { unfold provider_reachable, reachable in *. etrans; [exact Hr|]. eapply rtc_subrel; [|exact Hz]. intros a b Hab. by apply step_progress. }
  split; [by eapply rest_unlocked|]. intros Hpf.
  pose proof (rest_free drops z Hrz Hstuck Hsf Hpf) as Hfree.
  pose proof (rest_settled drops z Hrz Hstuck Hfree) as Hset. split_and!; [|done|].
  - apply Forall_lookup. intros i [d m] Hi. by eapply rest_finished.
  - apply Forall_lookup. intros w [r|] Hw; [done|].
    destruct (unsent_waits _ (reachable_waiters _ _ Hrz) w Hw) as (k & st & Hk & _).
    by rewrite Hset, lookup_empty in Hk.
Qed.

(** A request, and the fetch and the update that race to answer it. *)
Definition fetch_and_update : list SmallChoice :=
  Start (TryGetMultiJob [7%N] None None) :: steps_of 0 9 10 ++
  [Start (UpdateJob (mkSubscriptionUpdate (H := small_env) 7%N 12 (Some 6%Z) SubAccount))] ++ steps_of 2 2 10.

Lemma every_request_returns_witness :
  let y := small_run fetch_and_update in
  length (futures y) = 3 /\ Acc (flip (progress (@provider_job small_env) provider_droppable)) y.
Proof.
  intros y. split; [reflexivity|].
  apply (every_request_returns (H := small_env) false y). by apply small_run_reachable; repeat constructor.
Defined.

(** ** A listener that waits for ever

    The repair of subscriptions sends with the lock of the key held, and the listener, one
    key after the other, takes that lock. *)

(** Whether a future stands still. *)
Definition stands (s : Provider) (t : bool * Future Provider (@ProviderJob small_env) ProviderCall (@ProviderReply small_env) unit) : bool :=
  match t.2 with
  | Ready _ => true
  | When _ f _ => match f s with Some _ => false | None => true end
  | _ => false
  end.
Lemma stands_stuck (y : @Sys Provider (@ProviderJob small_env) ProviderCall (@ProviderReply small_env)) :
  forallb (stands (shared y)) (futures y) = true ->
  forall y', ~ progress (@provider_job small_env) provider_droppable y y'.
Proof.
  intros Hall y' Hp. destruct Hp as [i d m s ts s' m' js Hi Hm]. cbn in Hall.
  rewrite forallb_forall in Hall. specialize (Hall (d, m)).
  assert (stands s (d, m) = true) as Hst by (apply Hall, list_elem_of_In; by eapply list_elem_of_lookup_2).
  destruct Hm as [| ? ? ? ? ? ? ? Hf | |]; cbn in Hst; try done. by rewrite Hf in Hst.
Qed.

(** Key 7 is followed, and was sent to the listener before 99 others; one more task waits
    to send when coverage of 7 is lost. The listener takes 7, the task sends, and the
    repair, which holds the lock of 7, waits for room. *)
Definition stale_race : list SmallChoice :=
  Start (AcquireJob 7%N DirectAccount) :: steps_of 0 6 10 ++
  Start (SendStaleJob 7%N) :: steps_of 1 1 10 ++
  (seq 0 99 ≫= fun i => Start (SendStaleJob (N.of_nat (100 + i))) :: steps_of (2 + i) 1 10) ++
  [Start (SendStaleJob 300%N); Start (ReconnectJob (mkGap 5 {[7%N]})); Start EvictStaleJob] ++
  steps_of 102 5 10 ++ steps_of 103 1 10 ++ steps_of 101 1 10.
Lemma stale_listener_stuck :
  let y := small_run stale_race in
  @provider_reachable small_env false y /\
  (forall y', ~ progress (@provider_job small_env) provider_droppable y y') /\
  stale_full (shared y) = true /\ 7%N ∈ key_locks (shared y).
Proof.
  intros y. split; [by apply small_run_reachable; repeat constructor|].
  split; [apply stands_stuck; by vm_compute|]. split; [by vm_compute|].
  apply (bool_decide_unpack _). by vm_compute.
Qed.
