(* ===== verification/ProviderMatch.v ===== *)
(** * The remote account provider: accounts of one slot

    [try_get_multi_until_slots_match] returns accounts that were all observed at one slot.
    Its results are followed through its attempts ([Concurrent.returns]) with any
    interference of the other tasks in between, on every branch. *)

From stdpp Require Import base gmap sets list strings.
From Stdlib Require Import ZArith Lia.
From S2P Require Import Prelude Intent Runtime RpcClient Link Concurrent Provider ProviderFetch ProviderReconcile.

Open Scope future_scope.

(** ** Slots *)

Lemma max_found_slot_spec accs m :
  max_found_slot accs = Some m ->
  (exists a, a ∈ accs /\ is_found a = true /\ remote_slot a = m) /\
  forall a, a ∈ accs -> is_found a = true -> (remote_slot a <= m)%Z.
Proof.
  unfold max_found_slot. revert m. induction accs as [|a accs IH] using rev_ind; intros m; [done|].
  rewrite foldl_snoc. set (f := foldl _ _ _) in *. destruct (is_found a) eqn:Ha.
  - intros [= <-]. split.
    + destruct f as [x|]; [|exists a; set_solver]. destruct (Z.max_spec x (remote_slot a)) as [[_ ->]|[_ ->]].
      * exists a. set_solver.
      * destruct (IH x eq_refl) as [(b & Hb & ?) _]. exists b. set_solver.
    + intros b [Hb| ->%list_elem_of_singleton]%elem_of_app Hfb; [|destruct f; lia].
      destruct f as [x|] eqn:Hf; [destruct (IH x eq_refl) as [_ Hall]; specialize (Hall b Hb Hfb); lia|].
      exfalso. clear IH. revert Hf Hb. unfold f. clear -Hfb. induction accs as [|c accs IH] using rev_ind.
      * by intros _ ?%not_elem_of_nil.
      * rewrite foldl_snoc. intros Hf [Hb| ->%list_elem_of_singleton]%elem_of_app; [|by rewrite Hfb in Hf].
        destruct (is_found c); [done|]. by apply IH.
  - intros Hf. destruct (IH m Hf) as [(b & Hb & ?) Hall]. split; [exists b; set_solver|].
    intros c [Hc| ->%list_elem_of_singleton]%elem_of_app Hfc; [by apply Hall|congruence].
Qed.

Lemma max_found_slot_is_Some accs a :
  a ∈ accs -> is_found a = true -> is_Some (max_found_slot accs).
Proof.
  intros Ha Hf. unfold max_found_slot. induction accs as [|c accs IH] using rev_ind; [by apply not_elem_of_nil in Ha|].
  rewrite foldl_snoc. apply elem_of_app in Ha as [Ha| ->%list_elem_of_singleton]; [|by rewrite Hf].
  destruct (is_found c); [done|by apply IH].
Qed.

(** The raised slot is the highest of the asked slot and the slots that were found. *)
Lemma raised_least min accs m :
  raised_min_context_slot min accs = Some m ->
  min = Some m \/ exists a, a ∈ accs /\ remote_slot a = m.
Proof.
  unfold raised_min_context_slot. destruct min as [x|], (max_found_slot accs) as [f|] eqn:Hf; intros [= <-]; try by left.
  all: destruct (max_found_slot_spec _ _ Hf) as [(a & Ha & _ & <-) _].
  - destruct (Z.max_spec x (remote_slot a)) as [[_ ->]|[_ ->]]; eauto.
  - eauto.
Qed.
Lemma raised_min min accs m : min = Some m -> exists m', raised_min_context_slot min accs = Some m' /\ (m <= m')%Z.
Proof. intros ->. unfold raised_min_context_slot. destruct (max_found_slot accs); eexists; (split; [done|lia]). Qed.
Lemma raised_found min accs a :
  a ∈ accs -> is_found a = true ->
  exists m', raised_min_context_slot min accs = Some m' /\ (remote_slot a <= m')%Z.
Proof.
  intros Ha Hf. destruct (max_found_slot_is_Some _ _ Ha Hf) as [f Hm].
  destruct (max_found_slot_spec _ _ Hm) as [_ Hall]. specialize (Hall a Ha Hf).
  unfold raised_min_context_slot. rewrite Hm. destruct min; eexists; (split; [done|lia]).
Qed.

Lemma all_slots_match_spec accs :
  all_slots_match accs = true <-> forall a b, a ∈ accs -> b ∈ accs -> remote_slot a = remote_slot b.
Proof.
  destruct accs as [|x accs]; cbn.
  { split; [|done]. by intros _ a b ?%not_elem_of_nil. }
  rewrite forallb_forall. setoid_rewrite <- list_elem_of_In. setoid_rewrite Z.eqb_eq. split.
  - intros Hall a b. rewrite !elem_of_cons. intros [->|Ha] [->|Hb]; rewrite ?(Hall a), ?(Hall b); done.
  - intros Hall a Ha. apply Hall; [by right|by left].
Qed.

Lemma slots_match_spec accs min :
  slots_match_and_meet_min_context accs min = Match <->
  all_slots_match accs = true /\ forall m a, min = Some m -> a ∈ accs -> (m <= remote_slot a)%Z.
Proof.
  unfold slots_match_and_meet_min_context. destruct (all_slots_match accs) eqn:Hall; cbn; [|naive_solver].
  destruct min as [m|]; [|naive_solver]. destruct accs as [|x accs]; cbn.
  { split; [|done]. intros _. split; [done|]. by intros ? a _ ?%not_elem_of_nil. }
  destruct (Z.leb_spec m (remote_slot x)) as [Hle|Hgt].
  - split; [|done]. intros _. split; [done|]. intros m' a [= <-] Ha.
    rewrite (proj1 (all_slots_match_spec (x :: accs)) Hall a x); [done|done|by left].
  - split; [done|]. intros [_ Hm]. specialize (Hm m x eq_refl ltac:(by left)). lia.
Qed.

(** ** The outbox *)

(** A consumed update is in the outbox, or a newer one of the same account. *)
Definition replays (s : Provider) (p : Pubkey * RemoteAccount) : Prop :=
  exists u, replay_outbox s !! p.1 = Some u /\ (remote_slot p.2 <= remote_slot (up_account u))%Z.

Lemma reforward_replays consumed outbox p :
  p ∈ consumed ->
  exists u, foldl reforward_one outbox consumed !! p.1 = Some u /\
            (remote_slot p.2 <= remote_slot (up_account u))%Z.
Proof.
  induction consumed as [|q consumed IH] using rev_ind; [by intros ?%not_elem_of_nil|].
  rewrite foldl_snoc. set (o := foldl _ _ _) in *. destruct p as [k a], q as [k' a'].
  assert (forall u, o !! k = Some u -> exists u', reforward_one o (k', a') !! k = Some u' /\
    (remote_slot (up_account u) <= remote_slot (up_account u'))%Z) as Hmono.
  { intros u Hu. unfold reforward_one. destruct (decide (k' = k)) as [->|Hne].
    - rewrite Hu. destruct (Z.ltb_spec (remote_slot (up_account u)) (remote_slot a')); [|by exists u].
      exists (mkUpdate k a' SubReplay). rewrite lookup_insert_eq. cbn. split; [done|lia].
    - exists u. split; [|done]. by repeat case_match; rewrite ?lookup_insert_ne. }
  intros [Hin|Heq%list_elem_of_singleton]%elem_of_app.
  - destruct (IH Hin) as (u & Hu & Hle). destruct (Hmono u Hu) as (u' & Hu' & Hle'). exists u'.
    split; [exact Hu'|cbn in *; lia].
  - simplify_eq. cbn. destruct (o !! k') as [u|] eqn:Hu.
    + destruct (Z.ltb_spec (remote_slot (up_account u)) (remote_slot a')).
      * exists (mkUpdate k' a' SubReplay). by rewrite lookup_insert_eq.
      * exists u. split; [done|lia].
    + exists (mkUpdate k' a' SubReplay). by rewrite lookup_insert_eq.
Qed.

(** ** The attempts *)

Section attempts.
Context `{ProviderEnv} (I : Provider -> Provider -> Prop) `{!PreOrder I}.
Abbreviation F A := (Future Provider ProviderJob ProviderCall ProviderReply A).

Lemma rpc_only_returns ks min s r s' :
  returns I (fetch_multi_rpc_only ks min) s r s' ->
  match r with
  | Ok accs => length accs = length ks /\ exists slot, (min <= slot)%Z /\ Forall (fun a => remote_slot a = slot) accs
  | Err e => exists why, e = AccountResolutionsFailed why
  end.
Proof.
  cbn. intros (s1 & answer & _ & -> & _). destruct answer as [|e|slot value]; [by eauto..|].
  destruct (Z.ltb_spec slot min); [by eauto|]. destruct (length value =? length ks) eqn:Hlen; cbn; [|by eauto].
  apply Nat.eqb_eq in Hlen. rewrite length_map. split; [done|]. exists slot. split; [done|].
  apply Forall_fmap, Forall_forall. intros [v|] _; done.
Qed.

Lemma retry_returns {A} more start delay (again : F A) exhausted s a s' :
  returns I (next_match_slots_retry more start delay again exhausted) s a s' ->
  (exists s1, (exists n, more = S n) /\ returns I again s1 a s') \/ exists limit s1, returns I (exhausted limit) s1 a s'.
Proof.
  intros (s1 & _ & Hr). cbn [fst snd fbind] in Hr. destruct more as [|n]; [by eauto|].
  destruct (out_of_time start (instant s1)); [by eauto|]. destruct Hr as (s2 & [] & _ & Hr). left. eauto.
Qed.

Lemma reforward_returns consumed (r : ProviderResult (list RemoteAccount)) s a s' :
  returns I (reforward_consumed_subscription_results consumed ;; Ready r) s a s' ->
  a = r /\ exists s2, I s2 s' /\ Forall (replays s2) consumed.
Proof.
  unfold reforward_consumed_subscription_results. destruct consumed as [|p consumed]; cbn [is_nil].
  { intros [-> HI]. split; [done|]. exists s'. split; [done|constructor]. }
  intros (s1 & _ & -> & HI). split; [done|]. eexists. split; [exact HI|].
  apply Forall_forall. intros q Hq. by apply reforward_replays.
Qed.

Lemma match_loop_returns ks consumed start min fs more s r s' :
  (forall m, min = Some m -> (m <= fs)%Z) ->
  returns I (match_slots_loop ks consumed start min fs more) s r s' ->
  match r with
  | Ok accs => length accs = length ks /\ exists slot, (fs <= slot)%Z /\ Forall (fun a => remote_slot a = slot) accs
  | Err e => (exists why, e = AccountResolutionsFailed why) /\ exists s2, I s2 s' /\ Forall (replays s2) consumed
  end.
Proof.
  intros Hmin. revert s. induction more as [|more IH]; intros s; cbn [match_slots_loop];
    rewrite (returns_bind I); intros (first & s1 & Hfirst%rpc_only_returns & Hr).
  all: destruct first as [accs|err].
  2,4: destruct Hfirst as [why ->]; apply retry_returns in Hr as [(s2 & (n & ?) & Hr)|(limit & s2 & Hr)];
       simplify_eq; try by apply IH in Hr.
  2,3: apply reforward_returns in Hr as [-> Hr]; eauto.
  all: destruct Hfirst as [Hlen (slot & Hslot & Hall)]; cbv zeta in Hr;
       rewrite (proj2 (slots_match_spec accs _)) in Hr; [by destruct Hr as [-> _]; eauto|].
  all: rewrite Forall_forall in Hall; split;
       [apply all_slots_match_spec; intros a b Ha Hb; by rewrite (Hall a), (Hall b)|].
  all: intros m a Hm Ha; rewrite (Hall a Ha); apply raised_least in Hm as [Hm|(b & Hb & <-)];
       [specialize (Hmin m Hm); lia|by rewrite (Hall b Hb)].
Qed.

Lemma setup_returns ks s r s' : returns I (setup_subscriptions ks) s r s' ->
  forall e, r = Err e -> e = AccountSubscriptionsTaskFailed.
Proof.
  unfold setup_subscriptions. rewrite (returns_bind I). intros (rs & s1 & _ & Hr) e ->. cbv zeta in Hr.
  destruct (forallb is_ok rs); [by destruct Hr|]. apply (returns_bind I) in Hr as (u & s2 & _ & [= ->] & _). done.
Qed.

Lemma try_get_multi_returns ks mark start s r s' :
  returns I (try_get_multi ks mark start) s r s' ->
  match r with
  | Ok accs => length accs = length ks
  | Err e => e = AccountSubscriptionsTaskFailed \/ exists why, e = AccountResolutionsFailed why
  end.
Proof.
  unfold try_get_multi. destruct (is_nil ks) eqn:Hnil; [intros [-> _]; by destruct ks|].
  intros (s1 & _ & s2 & _ & Hr). cbn [fst snd fbind] in Hr. apply (returns_bind I) in Hr as (ready & s3 & Hready & Hr).
  destruct ready as [[]|e].
  - apply (returns_bind I) in Hr as (rs & s4 & _ & -> & _). unfold collect_results.
    destruct (forallb is_ok rs); [|by eauto]. destruct (length _ =? length ks) eqn:Hlen; cbn; [|by eauto].
    by apply Nat.eqb_eq in Hlen.
  - destruct Hr as [-> _]. left. revert Hready. destruct (is_nil (claimed_pubkeys _)); [by intros [? _]|intros Hready].
    apply (returns_bind I) in Hready as ([[]|e'] & s4 & Hset & Hready).
    + apply (returns_bind I) in Hready as (u & s5 & _ & [=] & _).
    + apply returns_protect in Hset. destruct Hready as (s5 & _ & [= ->] & _). by eapply setup_returns.
Qed.
End attempts.

(** C12: whatever the other tasks do meanwhile, accounts that are returned as matching are
    one per key and all of one slot, which is not below the asked slot nor below any
    account the first fetch found; a failure is the failure of a fetch, never of slots
    that differ, and the updates the first fetch consumed are then due to be replayed. *)
Theorem until_slots_match_spec `{ProviderEnv} (I : Provider -> Provider -> Prop) `{!PreOrder I}
    (ks : list Pubkey) (min : option Z) s r s' :
  returns I (try_get_multi_until_slots_match ks min) s r s' ->
  exists first s1, returns I (try_get_multi ks None None) s first s1 /\
  match first, r with
  | Ok accs1, Ok accs =>
      length accs = length ks /\
      (forall a b, a ∈ accs -> b ∈ accs -> remote_slot a = remote_slot b) /\
      forall a, a ∈ accs ->
        (forall m, min = Some m -> (m <= remote_slot a)%Z) /\
        (forall f, f ∈ accs1 -> is_found f = true -> (remote_slot f <= remote_slot a)%Z)
  | Ok accs1, Err e =>
      (exists why, e = AccountResolutionsFailed why) /\
      exists s2, I s2 s' /\
        forall k a, (k, a) ∈ zip ks accs1 -> is_subscription_result a = true -> replays s2 (k, a)
  | Err e1, _ => r = Err e1
  end.
Proof.
  unfold try_get_multi_until_slots_match. rewrite (returns_bind I). intros (first & s1 & Hfirst & Hr).
  exists first, s1. split; [exact Hfirst|]. apply (try_get_multi_returns I) in Hfirst.
  destruct first as [accs1|e]; [|by destruct Hr]. cbv zeta in Hr.
  set (raised := raised_min_context_slot min accs1) in Hr.
  assert (forall bound, (forall m, raised = Some m -> (m <= bound)%Z) ->
    (forall m, min = Some m -> (m <= bound)%Z) /\
    (forall f, f ∈ accs1 -> is_found f = true -> (remote_slot f <= bound)%Z)) as Hraised.
  { intros bound Hb. split.
    - intros m Hm. destruct (raised_min min accs1 m Hm) as (m' & Hm' & ?). specialize (Hb m' Hm'). lia.
    - intros f Hin Hf. destruct (raised_found min accs1 f Hin Hf) as (m' & Hm' & ?). specialize (Hb m' Hm'). lia. }
  assert (forall seen m, raised = Some m -> (m <= Z.max seen (default 0 raised))%Z) as Hfs.
  { intros seen m ->. cbn. lia. }
  destruct (slots_match_and_meet_min_context accs1 raised) eqn:Hm.
  { destruct Hr as [-> _]. apply slots_match_spec in Hm as [Hall Hmin]. split_and!; [done| |].
    - by apply all_slots_match_spec.
    - intros a Ha. apply Hraised. eauto. }
  all: apply (returns_bind I) in Hr as (seen & s2 & _ & Hr); apply (returns_bind I) in Hr as (start & s3 & _ & Hr);
       apply (match_loop_returns I) in Hr; [|by apply Hfs].
  all: destruct r as [accs|e];
    [destruct Hr as [Hlen (slot & Hslot & Hall)]; rewrite Forall_forall in Hall; split_and!; [done|..]
    |destruct Hr as [Hwhy (s4 & HI & Hrep)]; split; [done|]; exists s4; split; [done|]].
  all: try by intros a b Ha Hb; rewrite (Hall a Ha), (Hall b Hb).
  all: try by intros a Ha; rewrite (Hall a Ha); apply Hraised; intros m Hm'; etrans; [by eapply Hfs|exact Hslot].
  all: intros k a Hin Hsub; rewrite Forall_forall in Hrep; apply Hrep; apply list_elem_of_filter; split; [cbn; by rewrite Hsub|done].
Qed.

(** Two accounts that were answered at slots 8 and 9, and are then both fetched at 10. *)
Lemma until_slots_match_spec_witness :
  let I (_ _ : Provider) := True in
  let s := set_fetch {[ 7%N := mkFetching 1 3 []; 8%N := mkFetching 2 3 [] ]} 2 [] provider_init in
  let old slot := Found (with_slot slot (small_account 4)) SourceSubscription in
  let new := Found (with_slot 10 (small_account 5)) SourceFetch in
  exists s', returns I (try_get_multi_until_slots_match (H := small_env) [7%N; 8%N] (Some 5%Z)) s (Ok [new; new]) s' /\
  exists first s1, returns I (try_get_multi (H := small_env) [7%N; 8%N] None None) s first s1 /\
    forall accs1, first = Ok accs1 -> forall f, f ∈ accs1 -> is_found f = true -> (remote_slot f <= 10)%Z.
Proof.
  intros I s old new. exists s.
  assert (returns I (try_get_multi_until_slots_match (H := small_env) [7%N; 8%N] (Some 5%Z)) s (Ok [new; new]) s) as Hr.
  { set (s2 := set_fetch ∅ 2 [Some (Ok (old 8%Z)); Some (Ok (old 9%Z))] s).
    exists s. split; [done|]. exists s. split; [done|]. exists s2, s2, (Ok (old 8%Z)). split_and!; [done|done|].
    exists s2, s2, (Ok (old 9%Z)). split_and!; [done|done|]. exists s2. split; [done|]. exists s2. split; [done|].
    exists s2, (RpcOk 10 [Some 5%Z; Some 5%Z]). split; [done|]. by vm_compute. }
  assert (PreOrder I) by by split. split; [exact Hr|].
  destruct (until_slots_match_spec (H := small_env) I [7%N; 8%N] (Some 5%Z) _ _ _ Hr) as (first & s1 & Hf & Hspec).
  exists first, s1. split; [exact Hf|]. intros accs1 -> f Hin Hfound.
  destruct Hspec as (_ & _ & Hle). by apply (Hle new ltac:(left)).
Defined.
