(* ===== verification/Tables.v ===== *)
(** * Address lookup tables

    [table-mania/src]: the tables of addresses that settlement transactions refer to.
    A transaction reserves the keys it needs before it uses a table and releases them
    afterwards; a table no key of which is reserved is deactivated and, once the chain
    lets it go, closed. [lookup_table_rc.rs] is a table with its reference counts,
    [manager.rs] the tables that are active and those that were released.

    The operations are futures over the shared tables ([Concurrent]). The two locks
    [active_tables] and [released_tables] are held across calls to the chain; whoever
    waits for one is blocked. A section under the read lock that makes no call is one
    step in which no one has the write lock. *)

From stdpp Require Import base gmap sets list strings.
From Stdlib Require Import ZArith Lia.
From S2P Require Import Prelude Intent RpcClient ExecErrors Concurrent.

Open Scope future_scope.

(** Solana's limits: the addresses of one table, and the slots a deactivated table has
    to wait. *)
Definition LOOKUP_TABLE_MAX_ADDRESSES : nat := 256.
Definition SLOT_HASHES_MAX_ENTRIES : Z := 512.

Definition MAX_ENTRIES_AS_PART_OF_EXTEND : nat := 24.
Definition MAX_ALLOWED_EXTEND_ERRORS : nat := 5.
Definition FALLBACK_NEW_TABLE_INIT_PUBKEYS : nat := 1.
Definition EXTEND_LOOKUP_TABLE_INSTRUCTION_INDEX : Z := 2.
(** Milliseconds: 32 slots of 400 and a buffer of 200. *)
Definition remote_table_finalization_delay : Z := 400 * 32 + 200.
Definition REMOTE_TABLE_FALLBACK_POLL_INTERVAL : Z := 500.
Definition LOCAL_TABLE_POLL_INTERVAL : Z := 200.

(** ** Reference counts *)

Record RefcountedPubkeyEntry := mkEntry {
  refcount : nat;
  update_sent_at : Z }.
Abbreviation RefcountedPubkeys := (gmap Pubkey RefcountedPubkeyEntry).

Definition refcounted_new (ks : list Pubkey) (at_ : Z) : RefcountedPubkeys :=
  foldl (fun m k => <[k := mkEntry 1 at_]> m) ∅ ks.
Definition insert_many (ks : list Pubkey) (at_ : Z) (m : RefcountedPubkeys) : RefcountedPubkeys :=
  foldl (fun m k =>
    match m !! k with
    | Some e => <[k := mkEntry (S (refcount e)) (update_sent_at e)]> m
    | None => <[k := mkEntry 1 at_]> m
    end) m ks.
Definition insert_unreserved_many (ks : list Pubkey) (at_ : Z) (m : RefcountedPubkeys) : RefcountedPubkeys :=
  foldl (fun m k => match m !! k with Some _ => m | None => <[k := mkEntry 0 at_]> m end) m ks.
(** [None] where the key could not be reserved, or released. *)
Definition rc_reserve (k : Pubkey) (m : RefcountedPubkeys) : option RefcountedPubkeys :=
  match m !! k with
  | Some e => Some (<[k := mkEntry (S (refcount e)) (update_sent_at e)]> m)
  | None => None
  end.
Definition rc_release (k : Pubkey) (m : RefcountedPubkeys) : option RefcountedPubkeys :=
  match m !! k with
  | Some e =>
      match refcount e with
      | O => None
      | S n => Some (<[k := mkEntry n (update_sent_at e)]> m)
      end
  | None => None
  end.
Definition rc_has_reservations (m : RefcountedPubkeys) : bool :=
  existsb (fun p => 0 <? refcount (snd p)) (map_to_list m).

(** ** A table *)

Record ActiveTable := mkActive {
  derived_auth : Pubkey;
  at_address : Pubkey;
  at_pubkeys : RefcountedPubkeys;
  creation_slot : Z;
  creation_sub_slot : Z;
  init_signature : Signature;
  extend_signatures : list Signature;
  extendable : bool }.
Inductive LookupTableRc :=
| Active (t : ActiveTable)
| Deactivated (auth address : Pubkey) (deactivation_slot : Z) (deactivate_signature : Signature).

Definition table_address (t : LookupTableRc) : Pubkey :=
  match t with Active t => at_address t | Deactivated _ address _ _ => address end.
Definition table_auth (t : LookupTableRc) : Pubkey :=
  match t with Active t => derived_auth t | Deactivated auth _ _ _ => auth end.
Definition table_pubkeys (t : LookupTableRc) : option RefcountedPubkeys :=
  match t with Active t => Some (at_pubkeys t) | Deactivated _ _ _ _ => None end.
Definition has_more_capacity (t : LookupTableRc) : bool :=
  match t with
  | Active t => extendable t && (size (at_pubkeys t) <? LOOKUP_TABLE_MAX_ADDRESSES)
  | Deactivated _ _ _ _ => false
  end.
Definition is_full (t : LookupTableRc) : bool := negb (has_more_capacity t).
Definition contains_key (k : Pubkey) (t : LookupTableRc) : bool :=
  match table_pubkeys t with Some m => bool_decide (is_Some (m !! k)) | None => false end.
Definition has_reservations (t : LookupTableRc) : bool :=
  match table_pubkeys t with Some m => rc_has_reservations m | None => false end.
Definition deactivate_triggered (t : LookupTableRc) : bool :=
  match t with Active _ => false | Deactivated _ _ _ _ => true end.
Definition match_pubkeys (t : LookupTableRc) (requested : gset Pubkey) : gset Pubkey :=
  match table_pubkeys t with Some m => requested ∩ dom m | None => ∅ end.
Definition latest_update_sent_at_for (t : LookupTableRc) (ks : gset Pubkey) : option Z :=
  match table_pubkeys t with
  | Some m => foldr (fun e acc => Some (match acc with Some a => Z.max (update_sent_at e) a | None => update_sent_at e end))
                None (omap (fun k => m !! k) (elements ks))
  | None => None
  end.
Definition set_pubkeys (m : RefcountedPubkeys) (t : ActiveTable) : ActiveTable :=
  mkActive (derived_auth t) (at_address t) m (creation_slot t) (creation_sub_slot t)
    (init_signature t) (extend_signatures t) (extendable t).
Definition push_signature (sig : Signature) (t : ActiveTable) : ActiveTable :=
  mkActive (derived_auth t) (at_address t) (at_pubkeys t) (creation_slot t) (creation_sub_slot t)
    (init_signature t) (extend_signatures t ++ [sig]) (extendable t).
Definition mark_non_extendable (t : ActiveTable) : ActiveTable :=
  mkActive (derived_auth t) (at_address t) (at_pubkeys t) (creation_slot t) (creation_sub_slot t)
    (init_signature t) (extend_signatures t) false.

(** ** The shared tables *)

Record Tables := mkTables {
  active_tables : list LookupTableRc;
  released_tables : list LookupTableRc;
  active_locked : bool;
  released_locked : bool;
  (** The reservations of each preparation attempt, which outlive the attempt
      ([CleanupResources::alt_reservation]). *)
  held : gmap nat (gset Pubkey);
  (** The statics of [create_new_table_and_extend]. *)
  last_slot : Z;
  sub_slot : Z;
  tables_now : Z }.

Definition set_active (ts : list LookupTableRc) (s : Tables) : Tables :=
  mkTables ts (released_tables s) (active_locked s) (released_locked s) (held s) (last_slot s) (sub_slot s) (tables_now s).
Definition set_released (ts : list LookupTableRc) (s : Tables) : Tables :=
  mkTables (active_tables s) ts (active_locked s) (released_locked s) (held s) (last_slot s) (sub_slot s) (tables_now s).
Definition set_table_locks (a r : bool) (s : Tables) : Tables :=
  mkTables (active_tables s) (released_tables s) a r (held s) (last_slot s) (sub_slot s) (tables_now s).
Definition set_held (h : gmap nat (gset Pubkey)) (s : Tables) : Tables :=
  mkTables (active_tables s) (released_tables s) (active_locked s) (released_locked s) h (last_slot s) (sub_slot s) (tables_now s).
Definition set_table_slots (l sub : Z) (s : Tables) : Tables :=
  mkTables (active_tables s) (released_tables s) (active_locked s) (released_locked s) (held s) l sub (tables_now s).
Definition advance (ms : Z) (s : Tables) : Tables :=
  mkTables (active_tables s) (released_tables s) (active_locked s) (released_locked s) (held s) (last_slot s) (sub_slot s) (tables_now s + ms).

(** Solana's key derivations and the iteration order of a hash set. *)
Class TableEnv := {
  derive_keypair : Pubkey -> Z -> Z -> Pubkey;
  lookup_table_address : Pubkey -> Z -> Pubkey;
  key_order : gset Pubkey -> list Pubkey;
  key_order_perm X : key_order X ≡ₚ elements X }.

(** Calls to the chain. A transaction is what it does to a table; the addresses of a
    table come as the chain's own decoder reads them, [None] where it cannot. *)
Inductive TableCall :=
| GetSlotCall
| GetLatestBlockhashCall
| SendInit (address auth payer : Pubkey) (ks : list Pubkey)
| SendExtend (address auth payer : Pubkey) (ks : list Pubkey)
| SendDeactivate (address auth payer : Pubkey)
| SendClose (address auth payer : Pubkey)
| AccountExists (address : Pubkey)
| GetTableAddresses (address : Pubkey)
| GetFinalizedTables (addresses : list Pubkey)
(** Answered by the time that passed beyond the asked one. *)
| TableSleep (ms : Z).
Definition TableReply (c : TableCall) : Type :=
  match c with
  | GetSlotCall => RpcResult Z
  | GetLatestBlockhashCall => RpcResult unit
  | SendInit _ _ _ _ | SendExtend _ _ _ _ | SendDeactivate _ _ _ | SendClose _ _ _ => RpcResult SendOutcome
  | AccountExists _ => RpcResult bool
  | GetTableAddresses _ => RpcResult (option (list Pubkey))
  | GetFinalizedTables _ => RpcResult (list (option (list Pubkey)))
  | TableSleep _ => nat
  end.

Inductive TableJob :=
| ReserveJob (rounds id : nat) (authority : Pubkey) (ks : gset Pubkey)
| EnsureTableJob (rounds : nat) (authority : Pubkey) (ks : gset Pubkey)
| ReleasePubkeysJob (id : nat)
| GetTablesJob (rounds : nat) (ks : gset Pubkey) (wait_local wait_remote : Z)
| DeactivateJob (authority : Pubkey)
| CloseJob (authority : Pubkey)
| PassJob (ms : nat).

Abbreviation F A := (Future Tables TableJob TableCall TableReply A).
Abbreviation TableResult A := (result A TableManiaError).

(** ** Locks *)

Definition unlock_active (s : Tables) : Tables := set_table_locks false (released_locked s) s.
Definition with_write {A} (body : F A) : F A :=
  fwait (fun s => if active_locked s then None else Some (set_table_locks true (released_locked s) s, tt)) ;;
  a ← protect unlock_active body;
  fput unlock_active ;;
  Ready a.
Definition with_read {A} (f : Tables -> Tables * A) : F A :=
  fwait (fun s => if active_locked s then None else Some (f s)).
Definition unlock_released (s : Tables) : Tables := set_table_locks (active_locked s) false s.
Definition with_released {A} (body : F A) : F A :=
  fwait (fun s => if released_locked s then None else Some (set_table_locks (active_locked s) true s, tt)) ;;
  a ← protect unlock_released body;
  fput unlock_released ;;
  Ready a.
Definition in_released {A} (f : Tables -> Tables * A) : F A :=
  fwait (fun s => if released_locked s then None else Some (f s)).

Definition table_sleep (ms : Z) : F unit :=
  more ← fask (TableSleep ms); fput (advance (ms + Z.of_nat more)).

(** ** Transactions *)

(** A transaction with a recent blockhash; what follows where it landed is done at once,
    with the time at which it was sent. *)
Definition send_table_tx {A} (ask : F (RpcResult SendOutcome))
    (landed : Z -> Signature -> Tables -> Tables * A) : F (TableResult A) :=
  blockhash ← fask GetLatestBlockhashCall;
  match blockhash with
  | Err e => Ready (Err (TableRpcError e))
  | Ok _ =>
      sent_at ← fget tables_now;
      outcome ← ask;
      match outcome with
      | Err e => Ready (Err (TableRpcError e))
      | Ok outcome =>
          match into_result outcome with
          | Err e => Ready (Err (TableRpcError e))
          | Ok sig => a ← fdo (landed sent_at sig); Ready (Ok a)
          end
      end
  end.

Definition check_max_pubkeys (ks : list Pubkey) : TableResult unit :=
  if MAX_ENTRIES_AS_PART_OF_EXTEND <? length ks
  then Err (MaxExtendPubkeysExceeded MAX_ENTRIES_AS_PART_OF_EXTEND (length ks)) else Ok tt.

(** ** Reserving keys that are in a table *)

(** [reserved.extend]; without a set to record into, nothing is recorded. *)
Definition record_reserved (reserved : option nat) (ks : list Pubkey) (s : Tables) : Tables :=
  match reserved with
  | Some id => set_held (<[id := list_to_set ks ∪ default ∅ (held s !! id)]> (held s)) s
  | None => s
  end.

(** The first table that has the key, with one more reservation. *)
Fixpoint reserve_in (k : Pubkey) (ts : list LookupTableRc) : option (list LookupTableRc) :=
  match ts with
  | [] => None
  | Active t :: ts =>
      match rc_reserve k (at_pubkeys t) with
      | Some m => Some (Active (set_pubkeys m t) :: ts)
      | None => cons (Active t) <$> reserve_in k ts
      end
  | Deactivated _ _ _ _ as t :: ts => cons t <$> reserve_in k ts
  end.
Definition reserve_pubkey (id : nat) (k : Pubkey) (s : Tables) : Tables * bool :=
  match reserve_in k (active_tables s) with
  | Some ts => (record_reserved (Some id) [k] (set_active ts s), true)
  | None => (s, false)
  end.
(** The keys that are in no table. *)
Fixpoint reserve_existing (id : nat) (ks : list Pubkey) : F (list Pubkey) :=
  match ks with
  | [] => Ready []
  | k :: ks =>
      found ← with_read (reserve_pubkey id k);
      remaining ← reserve_existing id ks;
      Ready (if (found : bool) then remaining else k :: remaining)
  end.

(** ** Extending a table *)

Inductive ExistingPubkeyAction := Reserve | LeaveUnreserved.
Inductive ExtendTableErrorAction := CreateNewTable | Retry | ReturnError.

Definition is_sent_transaction_invalid_instruction_data_at (index : Z) (e : TableManiaError) : bool :=
  match e with
  | TableRpcError (SentTransactionError (TxInstructionError i InvalidInstructionData) _) => (i =? index)%Z
  | _ => false
  end.
Definition handle_extend_table_error (e : TableManiaError) (extend_errors : nat)
    : ExtendTableErrorAction * nat :=
  if is_sent_transaction_invalid_instruction_data_at EXTEND_LOOKUP_TABLE_INSTRUCTION_INDEX e
  then (CreateNewTable, extend_errors)
  else if extend_errors <? MAX_ALLOWED_EXTEND_ERRORS then (Retry, S extend_errors)
  else (ReturnError, extend_errors).

(** The tables with the one at [i] changed, while the write lock is held. *)
Definition update_table (i : nat) (f : ActiveTable -> ActiveTable) (s : Tables) : Tables :=
  set_active (alter (fun t => match t with Active t => Active (f t) | d => d end) i (active_tables s)) s.

(** What the chain then holds is reserved for the caller. *)
Definition extend (reserved : option nat) (payer : Pubkey) (i : nat) (t : ActiveTable) (extra : list Pubkey)
    : F (TableResult unit) :=
  match check_max_pubkeys extra with
  | Err e => Ready (Err e)
  | Ok _ =>
      send_table_tx (fask (SendExtend (at_address t) (derived_auth t) payer extra)) (fun sent_at sig s =>
        (record_reserved reserved extra
           (update_table i (fun t => push_signature sig (set_pubkeys (insert_many extra sent_at (at_pubkeys t)) t)) s),
         tt))
  end.

Definition extend_respecting_capacity (reserved : option nat) (payer : Pubkey) (i : nat) (t : LookupTableRc)
    (ks : list Pubkey) : F (TableResult (list Pubkey)) :=
  match t with
  | Deactivated _ address _ _ => Ready (Err (CannotExtendDeactivatedTable address))
  | Active t =>
      let remaining_capacity := LOOKUP_TABLE_MAX_ADDRESSES - size (at_pubkeys t) in
      if remaining_capacity =? 0 then Ready (Ok [])
      else
        let storing := if remaining_capacity <=? length ks then take remaining_capacity ks else ks in
        res ← extend reserved payer i t storing;
        Ready (match res with Ok _ => Ok storing | Err e => Err e end)
  end.

Definition reconcile_with_chain (i : nat) (t : LookupTableRc) : F (TableResult unit) :=
  if deactivate_triggered t then Ready (Err (CannotExtendDeactivatedTable (table_address t)))
  else
    chain ← fask (GetTableAddresses (table_address t));
    match chain with
    | Err e => Ready (Err (TableRpcError e))
    | Ok None => Ready (Ok tt)
    | Ok (Some ks) =>
        fput (fun s => update_table i (fun t => set_pubkeys (insert_unreserved_many ks (tables_now s) (at_pubkeys t)) t) s) ;;
        Ready (Ok tt)
    end.

(** The keys the table at [i] does not have; the others are reserved. *)
Definition filter_one (reserved : option nat) (action : ExistingPubkeyAction) (i : nat) (k : Pubkey)
    (s : Tables) : Tables * bool :=
  match active_tables s !! i with
  | Some (Active t) =>
      match action with
      | Reserve =>
          match rc_reserve k (at_pubkeys t) with
          | Some m => (record_reserved reserved [k] (update_table i (set_pubkeys m) s), false)
          | None => (s, true)
          end
      | LeaveUnreserved => (s, negb (contains_key k (Active t)))
      end
  | _ => (s, true)
  end.
Fixpoint filter_pubkeys_present_in_table (reserved : option nat) (action : ExistingPubkeyAction) (i : nat)
    (remaining : list Pubkey) (s : Tables) : Tables * list Pubkey :=
  match remaining with
  | [] => (s, [])
  | k :: ks =>
      let '(s, keep) := filter_one reserved action i k s in
      let '(s, ks) := filter_pubkeys_present_in_table reserved action i ks s in
      (s, if (keep : bool) then k :: ks else ks)
  end.

Definition extend_table (reserved : option nat) (action : ExistingPubkeyAction) (payer : Pubkey) (i : nat)
    (t : LookupTableRc) (remaining : list Pubkey) : F (TableResult unit * list Pubkey) :=
  if deactivate_triggered t then Ready (Err (CannotExtendDeactivatedTable (table_address t)), remaining)
  else
    let storing := take (Nat.min (length remaining) MAX_ENTRIES_AS_PART_OF_EXTEND) remaining in
    stored ← extend_respecting_capacity reserved payer i t storing;
    match stored with
    | Ok stored => Ready (Ok tt, filter (fun k => k ∉ stored) remaining)
    | Err e =>
        reconciled ← reconcile_with_chain i t;
        remaining ← (match reconciled with
                     | Ok _ => fdo (filter_pubkeys_present_in_table reserved action i remaining)
                     | Err _ => Ready remaining
                     end);
        Ready (Err e, remaining)
    end.

(** ** Reserving keys that are in no table *)

Section tables.
Context `{TableEnv}.

Definition create_new_table_and_extend (reserved : option nat) (authority : Pubkey)
    (initial_pubkey_limit : nat) (ks : list Pubkey) : F (TableResult (list Pubkey)) :=
  slot ← fask GetSlotCall;
  match slot with
  | Err e => Ready (Err (TableRpcError e))
  | Ok slot =>
      sub ← fdo (fun s =>
        let sub := if (last_slot s =? slot)%Z then wadd 64 (sub_slot s) 1 else 0%Z in
        (set_table_slots slot sub s, sub));
      let len := Nat.min (Nat.min (length ks) initial_pubkey_limit) MAX_ENTRIES_AS_PART_OF_EXTEND in
      let init := take len ks in
      match check_max_pubkeys init with
      | Err e => Ready (Err e)
      | Ok _ =>
          let auth := derive_keypair authority slot sub in
          let address := lookup_table_address auth slot in
          send_table_tx (fask (SendInit address auth authority (take LOOKUP_TABLE_MAX_ADDRESSES init)))
            (fun sent_at sig s =>
              let t := Active (mkActive auth address (refcounted_new init sent_at) slot sub sig [] true) in
              (record_reserved reserved init (set_active (active_tables s ++ [t]) s),
               filter (fun k => negb (contains_key k t)) ks))
      end
  end.

(** The last table, where it has room. *)
Definition open_table (s : Tables) : option (nat * LookupTableRc) :=
  match last (active_tables s) with
  | Some t => if is_full t then None else Some (length (active_tables s) - 1, t)
  | None => None
  end.

Record Round := mkRound {
  rd_stored : bool;
  rd_force_new_after : option Pubkey;
  rd_errors : nat;
  rd_remaining : list Pubkey }.

(** The part of a round that uses the last table. *)
Definition use_last_table (reserved : option nat) (action : ExistingPubkeyAction) (authority : Pubkey)
    (extend_errors : nat) (remaining : list Pubkey) : F (TableResult Round) :=
  with_write (
    table ← fget open_table;
    match table with
    | None => Ready (Ok (mkRound false None extend_errors remaining))
    | Some (i, t) =>
        p ← extend_table reserved action authority i t remaining;
        let (r, remaining) := p : TableResult unit * list Pubkey in
        match r with
        | Ok _ => Ready (Ok (mkRound true None extend_errors remaining))
        | Err e =>
            match handle_extend_table_error e extend_errors with
            | (CreateNewTable, errors) =>
                fput (update_table i mark_non_extendable) ;;
                Ready (Ok (mkRound false (Some (table_address t)) errors remaining))
            | (Retry, errors) => Ready (Ok (mkRound false None errors remaining))
            | (ReturnError, _) => Ready (Err e)
            end
        end
    end).

(** The part of a round that creates a table, unless another task just did. *)
Definition use_new_table (reserved : option nat) (authority : Pubkey) (force_new_after : option Pubkey)
    (remaining : list Pubkey) : F (TableResult (list Pubkey)) :=
  with_write (
    again ← fget (fun s =>
      match open_table s with
      | Some (_, t) => negb (bool_decide (force_new_after = Some (table_address t)))
      | None => false
      end);
    if (again : bool) then Ready (Ok remaining)
    else
      create_new_table_and_extend reserved authority
        (match force_new_after with Some _ => FALLBACK_NEW_TABLE_INIT_PUBKEYS | None => MAX_ENTRIES_AS_PART_OF_EXTEND end)
        remaining).

(** [None] where the rounds were not enough. *)
Fixpoint reserve_rounds (reserved : option nat) (action : ExistingPubkeyAction) (authority : Pubkey)
    (rounds : nat) (extend_errors : nat) (remaining : list Pubkey) : F (option (TableResult unit)) :=
  match remaining with
  | [] => Ready (Some (Ok tt))
  | _ :: _ =>
      match rounds with
      | O => Ready None
      | S rounds =>
          r ← use_last_table reserved action authority extend_errors remaining;
          match r with
          | Err e => Ready (Some (Err e))
          | Ok rd =>
              if rd_stored rd || is_nil (rd_remaining rd)
              then reserve_rounds reserved action authority rounds (rd_errors rd) (rd_remaining rd)
              else
                created ← use_new_table reserved authority (rd_force_new_after rd) (rd_remaining rd);
                match created with
                | Err e => Ready (Some (Err e))
                | Ok remaining => reserve_rounds reserved action authority rounds (rd_errors rd) remaining
                end
          end
      end
  end.

Definition reserve_new_pubkeys (own_authority : Pubkey) (rounds : nat) (reserved : option nat)
    (action : ExistingPubkeyAction) (authority : Pubkey) (ks : gset Pubkey) : F (option (TableResult unit)) :=
  if decide (authority <> own_authority) then Ready (Some (Err (InvalidAuthority authority own_authority)))
  else reserve_rounds reserved action authority rounds 0 (key_order ks).

Definition reserve_pubkeys (own_authority : Pubkey) (rounds id : nat) (authority : Pubkey) (ks : gset Pubkey)
    : F (option (TableResult unit)) :=
  remaining ← reserve_existing id (key_order ks);
  reserve_new_pubkeys own_authority rounds (Some id) Reserve authority (list_to_set remaining).

Definition ensure_pubkeys_table (own_authority : Pubkey) (rounds : nat) (authority : Pubkey) (ks : gset Pubkey)
    : F (option (TableResult unit)) :=
  remaining ← with_read (fun s =>
    (s, filter (fun k => negb (existsb (contains_key k) (active_tables s))) ks));
  if decide (remaining = ∅) then Ready (Some (Ok tt))
  else reserve_new_pubkeys own_authority rounds None LeaveUnreserved authority remaining.

(** ** Releasing *)

(** The first table that has a reservation of the key, with one less. *)
Fixpoint release_in (k : Pubkey) (ts : list LookupTableRc) : list LookupTableRc :=
  match ts with
  | [] => []
  | Active t :: ts =>
      match rc_release k (at_pubkeys t) with
      | Some m => Active (set_pubkeys m t) :: ts
      | None => Active t :: release_in k ts
      end
  | Deactivated _ _ _ _ as t :: ts => t :: release_in k ts
  end.
Definition release_pubkey (k : Pubkey) (s : Tables) : Tables * unit :=
  (set_active (release_in k (active_tables s)) s, tt).
Fixpoint release_each_key (ks : list Pubkey) : F unit :=
  match ks with
  | [] => Ready tt
  | k :: ks => with_read (release_pubkey k) ;; release_each_key ks
  end.

(** The tables without reservations leave, with the write lock held; [ts] are those that
    were not looked at, from position [i] on. *)
Definition move_to_released (i : nat) (t : LookupTableRc) (s : Tables) : Tables * unit :=
  (set_released (released_tables s ++ [t]) (set_active (delete i (active_tables s)) s), tt).
Fixpoint drain_unreserved (i : nat) (ts : list LookupTableRc) : F unit :=
  match ts with
  | [] => Ready tt
  | t :: ts =>
      if has_reservations t then drain_unreserved (S i) ts
      else in_released (move_to_released i t) ;; drain_unreserved i ts
  end.

(** The resources of an attempt are handed to its release, which is done once. *)
Definition take_held (id : nat) (s : Tables) : Tables * gset Pubkey :=
  (set_held (delete id (held s)) s, default ∅ (held s !! id)).
Definition release_pubkeys (id : nat) : F unit :=
  ks ← fdo (take_held id);
  release_each_key (key_order ks) ;;
  with_write (ts ← fget active_tables; drain_unreserved 0 ts).

(** ** Tables for reserved keys *)

Record MatchingTableReadiness := mkReadiness {
  local_keys : gset Pubkey;
  latest_update : option Z }.

(** The keys no table has, and the tables of the others. *)
Definition match_table (acc : gset Pubkey * gmap Pubkey MatchingTableReadiness) (t : LookupTableRc)
    : gset Pubkey * gmap Pubkey MatchingTableReadiness :=
  let matching := match_pubkeys t (fst acc) in
  if decide (matching = ∅) then acc
  else (fst acc ∖ matching,
        <[table_address t := mkReadiness matching (latest_update_sent_at_for t matching)]> (snd acc)).
Definition match_tables (ts : list LookupTableRc) (ks : gset Pubkey)
    : gset Pubkey * gmap Pubkey MatchingTableReadiness := foldl match_table (ks, ∅) ts.

Fixpoint wait_for_local_tables (rounds : nat) (ks : gset Pubkey) (start wait : Z)
    : F (option (TableResult (gmap Pubkey MatchingTableReadiness))) :=
  match rounds with
  | O => Ready None
  | S rounds =>
      m ← with_read (fun s => (s, match_tables (active_tables s) ks));
      if decide (fst m = ∅) then Ready (Some (Ok (snd m)))
      else
        now ← fget tables_now;
        if (wait <? now - start)%Z then Ready (Some (Err TimedOutWaitingForRemoteTablesToUpdate))
        else table_sleep LOCAL_TABLE_POLL_INTERVAL ;; wait_for_local_tables rounds ks start wait
  end.

Definition remote_readiness_target (m : gmap Pubkey MatchingTableReadiness) : option Z :=
  foldr (fun r deadline =>
    match latest_update (snd r) with
    | Some sent_at =>
        let target := (sent_at + remote_table_finalization_delay)%Z in
        Some (match deadline with Some d => Z.max d target | None => target end)
    | None => deadline
    end) None (map_to_list m).
Definition wait_until_remote_readiness_target (deadline : option Z) (wait : Z) : F unit :=
  match deadline with
  | None => Ready tt
  | Some deadline =>
      now ← fget tables_now;
      if (deadline <=? now)%Z then Ready tt else table_sleep (Z.min (deadline - now) wait)
  end.

Definition remote_tables_of (addresses : list Pubkey) (answer : list (option (list Pubkey)))
    : gmap Pubkey (list Pubkey) :=
  list_to_map (omap (fun p => match snd p with Some ks => Some (fst p, ks) | None => None end)
                 (zip addresses answer)).
Definition all_matches_are_remote (m : gmap Pubkey MatchingTableReadiness) (remote : gmap Pubkey (list Pubkey))
    : bool :=
  forallb (fun p =>
    match remote !! fst p with
    | Some ks => forallb (fun k => bool_decide (k ∈ ks)) (elements (local_keys (snd p)))
    | None => false
    end) (map_to_list m).

Fixpoint wait_for_remote_tables (rounds : nat) (m : gmap Pubkey MatchingTableReadiness)
    (addresses : list Pubkey) (start wait : Z) : F (option (TableResult (gmap Pubkey (list Pubkey)))) :=
  match rounds with
  | O => Ready None
  | S rounds =>
      answer ← fask (GetFinalizedTables addresses);
      match answer with
      | Err e => Ready (Some (Err (TableRpcError e)))
      | Ok answer =>
          let remote := remote_tables_of addresses answer in
          if (size remote =? size m) && all_matches_are_remote m remote then Ready (Some (Ok remote))
          else
            now ← fget tables_now;
            if (wait <? now - start)%Z then Ready (Some (Err TimedOutWaitingForRemoteTablesToUpdate))
            else
              table_sleep REMOTE_TABLE_FALLBACK_POLL_INTERVAL ;;
              wait_for_remote_tables rounds m addresses start wait
      end
  end.

(** An [AddressLookupTableAccount] is its address and the addresses in it. *)
Definition lookup_table_accounts (addresses : list Pubkey) (remote : gmap Pubkey (list Pubkey))
    : TableResult (list (Pubkey * list Pubkey)) :=
  try_collect (fun address =>
    match remote !! address with
    | Some ks => Ok (address, ks)
    | None => Err TimedOutWaitingForRemoteTablesToUpdate
    end) addresses.

Definition try_get_active_address_lookup_table_accounts (rounds : nat) (ks : gset Pubkey)
    (wait_local wait_remote : Z) : F (option (TableResult (list (Pubkey * list Pubkey)))) :=
  start ← fget tables_now;
  matching ← wait_for_local_tables rounds ks start wait_local;
  match matching with
  | None => Ready None
  | Some (Err e) => Ready (Some (Err e))
  | Some (Ok m) =>
      let addresses := key_order (dom m) in
      start ← fget tables_now;
      wait_until_remote_readiness_target (remote_readiness_target m) wait_remote ;;
      remote ← wait_for_remote_tables rounds m addresses start wait_remote;
      Ready (match remote with
             | None => None
             | Some (Err e) => Some (Err e)
             | Some (Ok remote) => Some (lookup_table_accounts addresses remote)
             end)
  end.

(** ** The garbage collector *)

Definition put_released (i : nat) (t : LookupTableRc) (s : Tables) : Tables :=
  set_released (<[i := t]> (released_tables s)) s.

Definition deactivate (payer : Pubkey) (i : nat) (t : LookupTableRc) : F (TableResult unit) :=
  sent ← send_table_tx (fask (SendDeactivate (table_address t) (table_auth t) payer)) (fun _ sig s => (s, sig));
  match sent with
  | Err e => Ready (Err e)
  | Ok sig =>
      slot ← fask GetSlotCall;
      match slot with
      | Err e => Ready (Err (TableRpcError e))
      | Ok slot =>
          fput (put_released i (Deactivated (table_auth t) (table_address t) slot sig)) ;;
          Ready (Ok tt)
      end
  end.
Fixpoint deactivate_each (payer : Pubkey) (i : nat) (ts : list LookupTableRc) : F unit :=
  match ts with
  | [] => Ready tt
  | t :: ts =>
      if deactivate_triggered t then deactivate_each payer (S i) ts
      else deactivate payer i t ;; deactivate_each payer (S i) ts
  end.
Definition deactivate_tables (payer : Pubkey) : F unit :=
  in_released (fun s => (s, tt)) ;;
  with_released (ts ← fget released_tables; deactivate_each payer 0 ts).

Definition is_deactivated_on_chain (slot : Z) (t : LookupTableRc) : bool :=
  match t with
  | Deactivated _ _ deactivation_slot _ => (deactivation_slot + SLOT_HASHES_MAX_ENTRIES <=? slot)%Z
  | Active _ => false
  end.
Definition is_closed (t : LookupTableRc) : F (TableResult bool) :=
  acc ← fask (AccountExists (table_address t));
  Ready (match acc with Ok exists_ => Ok (negb exists_) | Err e => Err (TableRpcError e) end).
Definition close (payer : Pubkey) (slot : Z) (t : LookupTableRc) : F (TableResult bool) :=
  if negb (is_deactivated_on_chain slot t) then Ready (Ok false)
  else
    blockhash ← fask GetLatestBlockhashCall;
    match blockhash with
    | Err e => Ready (Err (TableRpcError e))
    | Ok _ =>
        sent ← fask (SendClose (table_address t) (table_auth t) payer);
        closed ← is_closed t;
        Ready (match sent with
               | Ok _ => closed
               | Err e => match closed with Ok true => Ok true | _ => Err (TableRpcError e) end
               end)
    end.
Fixpoint close_each (payer : Pubkey) (slot : Z) (ts : list LookupTableRc) : F (list Pubkey) :=
  match ts with
  | [] => Ready []
  | t :: ts =>
      if deactivate_triggered t then
        r ← close payer slot t;
        closed ← close_each payer slot ts;
        Ready (match r with Ok true => table_address t :: closed | _ => closed end)
      else close_each payer slot ts
  end.
Definition close_tables (payer : Pubkey) : F unit :=
  any ← in_released (fun s => (s, existsb deactivate_triggered (released_tables s)));
  if negb any then Ready tt
  else
    in_released (fun s => (s, tt)) ;;
    slot ← fask GetSlotCall;
    match slot with
    | Err _ => Ready tt
    | Ok slot =>
        closed ← with_released (ts ← fget released_tables; close_each payer slot ts);
        in_released (fun s =>
          (set_released (filter (fun t => table_address t ∉ closed) (released_tables s)) s, tt))
    end.

(** ** The jobs *)

(** A preparation attempt is dropped when its time is up; releases and the collector run
    to their end. *)
Definition table_job (own_authority : Pubkey) (j : TableJob) : F unit :=
  match j with
  | ReserveJob rounds id authority ks => reserve_pubkeys own_authority rounds id authority ks ;; Ready tt
  | EnsureTableJob rounds authority ks => ensure_pubkeys_table own_authority rounds authority ks ;; Ready tt
  | ReleasePubkeysJob id => release_pubkeys id
  | GetTablesJob rounds ks wait_local wait_remote =>
      try_get_active_address_lookup_table_accounts rounds ks wait_local wait_remote ;; Ready tt
  | DeactivateJob authority => deactivate_tables authority
  | CloseJob authority => close_tables authority
  | PassJob ms => fput (advance (Z.of_nat ms))
  end.
Definition table_droppable (j : TableJob) : bool :=
  match j with ReserveJob _ _ _ _ | EnsureTableJob _ _ _ | GetTablesJob _ _ _ _ => true | _ => false end.

Definition tables_init : Tables := mkTables [] [] false false ∅ 0 0 0.
Definition tables_reachable (own_authority : Pubkey) (drops : bool)
    (y : @Sys Tables TableJob TableCall TableReply) : Prop :=
  reachable (table_job own_authority) table_droppable (fun _ => True) drops tables_init y.
End tables.
