(* ===== verification/TableSafety.v ===== *)
(** * Address lookup tables: safety

    Every reservation someone holds is counted in an active table, whatever attempts
    reserve, are dropped, release and extend at once; only tables without reservations
    are deactivated and closed; and no task waits for a lock for ever. The discipline of
    the futures: who holds a lock owns what it guards, and whoever is about to release a
    reservation owns it. *)

From stdpp Require Import base gmap sets list strings.
From Stdlib Require Import ZArith Lia.
From S2P Require Import Prelude Intent RpcClient ExecErrors Concurrent Tables.

Open Scope future_scope.

(** ** Counting reservations *)

Definition key_count (k : Pubkey) (m : RefcountedPubkeys) : nat :=
  match m !! k with Some e => refcount e | None => 0 end.
Definition table_count (k : Pubkey) (t : LookupTableRc) : nat :=
  match table_pubkeys t with Some m => key_count k m | None => 0 end.
Definition refs_in (k : Pubkey) (ts : list LookupTableRc) : nat := sum_list_with (table_count k) ts.
Definition refs (k : Pubkey) (s : Tables) : nat := refs_in k (active_tables s).
Definition has (k : Pubkey) (X : gset Pubkey) : nat := if decide (k ∈ X) then 1 else 0.
Definition holders (k : Pubkey) (s : Tables) : nat := size (filter (fun p => k ∈ p.2) (held s)).

Lemma key_count_insert k k' e m :
  key_count k (<[k' := e]> m) = if decide (k = k') then refcount e else key_count k m.
Proof.
  unfold key_count. case_decide as Hk; [subst; by rewrite lookup_insert_eq|by rewrite lookup_insert_ne].
Qed.

Lemma insert_many_count k ks at_ m :
  key_count k m + has k (list_to_set ks) <= key_count k (insert_many ks at_ m).
Proof.
  unfold insert_many. revert m. induction ks as [|k' ks IH]; intros m; cbn [foldl].
  { unfold has. rewrite decide_False by set_solver. lia. }
  set (m' := match m !! k' with Some _ => _ | None => _ end).
  specialize (IH m').
  assert (key_count k m' = key_count k m + if decide (k = k') then 1 else 0) as Hm'.
  { unfold m'. destruct (m !! k') as [e|] eqn:Hk'; rewrite key_count_insert; case_decide as Hk; subst; cbn;
      unfold key_count; rewrite ?Hk'; lia. }
  unfold has in *. repeat case_decide; try set_solver; lia.
Qed.
Lemma insert_unreserved_count k ks at_ m :
  key_count k (insert_unreserved_many ks at_ m) = key_count k m.
Proof.
  unfold insert_unreserved_many. revert m. induction ks as [|k' ks IH]; intros m; cbn [foldl]; [done|].
  rewrite IH. destruct (m !! k') as [e|] eqn:Hk'; [done|]. rewrite key_count_insert. case_decide as Hk; [|done].
  subst. unfold key_count. by rewrite Hk'.
Qed.
Lemma refcounted_new_count k ks at_ : has k (list_to_set ks) <= key_count k (refcounted_new ks at_).
Proof.
  unfold refcounted_new.
  assert (forall m, (key_count k m <= 1) -> Nat.max (key_count k m) (has k (list_to_set ks)) <=
    key_count k (foldl (fun m k => <[k := mkEntry 1 at_]> m) m ks)) as Hgen.
  2:{ assert (key_count k ∅ = 0) as H0 by (unfold key_count; by rewrite lookup_empty).
      specialize (Hgen ∅). rewrite H0 in Hgen. lia. }
  induction ks as [|k' ks IH]; intros m Hm; cbn [foldl].
  { unfold has. rewrite decide_False by set_solver. lia. }
  specialize (IH (<[k' := mkEntry 1 at_]> m)). rewrite key_count_insert in IH. cbn in IH.
  unfold has in *. repeat case_decide; try set_solver; lia.
Qed.

Lemma has_reservations_count t : has_reservations t = false -> forall k, table_count k t = 0.
Proof.
  unfold has_reservations, table_count. destruct (table_pubkeys t) as [m|]; [|done].
  unfold rc_has_reservations. intros Hno k. unfold key_count. destruct (m !! k) as [e|] eqn:Hk; [|done].
  destruct (refcount e) as [|n] eqn:He; [done|exfalso].
  assert (existsb (fun p => 0 <? refcount (snd p)) (map_to_list m) = true); [|congruence].
  apply existsb_exists. exists (k, e). split; [by apply list_elem_of_In, elem_of_map_to_list|]. cbn. by rewrite He.
Qed.

Lemma has_empty k : has k ∅ = 0.
Proof. unfold has. by rewrite decide_False by set_solver. Qed.
Lemma has_singleton k k' : has k' {[k]} = if decide (k' = k) then 1 else 0.
Proof. unfold has. repeat case_decide; set_solver. Qed.
Lemma rc_reserve_count k m m' : rc_reserve k m = Some m' ->
  forall k', key_count k' m' = key_count k' m + has k' {[k]}.
Proof.
  unfold rc_reserve. destruct (m !! k) as [e|] eqn:Hk; [|done]. intros [= <-] k'.
  rewrite key_count_insert, has_singleton. case_decide; [|lia]. subst. unfold key_count. rewrite Hk. cbn. lia.
Qed.
Lemma rc_release_count k m m' : rc_release k m = Some m' ->
  forall k', key_count k' m = key_count k' m' + has k' {[k]}.
Proof.
  unfold rc_release. destruct (m !! k) as [e|] eqn:Hk; [|done].
  destruct (refcount e) as [|n] eqn:He; [done|]. intros [= <-] k'.
  rewrite key_count_insert, has_singleton. case_decide; [|lia]. subst. unfold key_count. rewrite Hk, He. cbn. lia.
Qed.
Lemma table_count_active k t : table_count k (Active t) = key_count k (at_pubkeys t).
Proof. done. Qed.
Lemma table_count_set k m t : table_count k (Active (set_pubkeys m t)) = key_count k m.
Proof. done. Qed.

Lemma reserve_in_refs k ts ts' : reserve_in k ts = Some ts' ->
  forall k', refs_in k' ts' = refs_in k' ts + has k' {[k]}.
Proof.
  unfold refs_in. revert ts'. induction ts as [|[t|] ts IH]; intros ts' Hr k'; cbn in Hr; [done|..].
  - destruct (rc_reserve k (at_pubkeys t)) as [m|] eqn:Hm.
    + simplify_eq. cbn [sum_list_with]. rewrite table_count_set, (rc_reserve_count _ _ _ Hm).
      unfold table_count at 2. cbn [table_pubkeys]. lia.
    + destruct (reserve_in k ts) as [ts1|]; cbn in Hr; simplify_eq. cbn [sum_list_with].
      rewrite (IH ts1 eq_refl). lia.
  - destruct (reserve_in k ts) as [ts1|]; cbn in Hr; simplify_eq. cbn [sum_list_with].
    rewrite (IH ts1 eq_refl). lia.
Qed.
Lemma release_in_refs k ts k' : refs_in k' ts <= refs_in k' (release_in k ts) + has k' {[k]}.
Proof.
  unfold refs_in. induction ts as [|[t|] ts IH]; cbn [release_in sum_list_with]; [lia|..|lia].
  destruct (rc_release k (at_pubkeys t)) as [m|] eqn:Hm; cbn [sum_list_with]; [|lia].
  rewrite table_count_set. unfold table_count at 1. cbn [table_pubkeys].
  rewrite (rc_release_count _ _ _ Hm k'). lia.
Qed.

(** One table changes. *)
Lemma refs_update k i f s t :
  active_tables s !! i = Some (Active t) ->
  refs k (update_table i f s) + key_count k (at_pubkeys t) = refs k s + key_count k (at_pubkeys (f t)).
Proof.
  unfold refs, refs_in, update_table. cbn. revert i.
  induction (active_tables s) as [|t' ts IH]; intros [|i] Hi; cbn [alter list_alter sum_list_with] in *; simplify_eq.
  - injection Hi as ->. rewrite !table_count_active. lia.
  - specialize (IH i Hi). change (list_alter ?g i ts) with (alter g i ts). lia.
Qed.
Lemma refs_app k ts t : refs_in k (ts ++ [t]) = refs_in k ts + table_count k t.
Proof. unfold refs_in. induction ts as [|t' ts IH]; cbn [app sum_list_with]; lia. Qed.
Lemma refs_delete k i ts t : ts !! i = Some t -> table_count k t = 0 -> refs_in k (delete i ts) = refs_in k ts.
Proof.
  unfold refs_in. revert i. induction ts as [|t' ts IH]; intros [|i] Hi Ht; cbn [delete list_delete sum_list_with];
    try done; [injection Hi as ->; lia|]. f_equal. exact (IH i Hi Ht).
Qed.

(** ** Counting holders *)

Lemma size_filter_delete {A} (P : nat * A -> Prop) `{!forall x, Decision (P x)} i (m : gmap nat A) :
  size (filter P m) = size (filter P (delete i m)) +
    match m !! i with Some y => if decide (P (i, y)) then 1 else 0 | None => 0 end.
Proof.
  destruct (m !! i) as [y|] eqn:Hi; [|rewrite delete_id by done; lia].
  rewrite <- (insert_delete_id m i y Hi) at 1. rewrite map_filter_insert, delete_delete_eq.
  case_decide; [|lia]. rewrite map_size_insert_None; [lia|].
  apply map_lookup_filter_None. left. by rewrite lookup_delete_eq.
Qed.

Lemma holders_take id k s : holders k (take_held id s).1 + has k (take_held id s).2 = holders k s.
Proof.
  unfold holders, take_held. cbn. rewrite (size_filter_delete _ id (held s)).
  destruct (held s !! id) as [X|]; unfold has; cbn; repeat case_decide; set_solver.
Qed.
Lemma holders_record reserved ks k s :
  holders k (record_reserved reserved ks s) <= holders k s + has k (list_to_set ks).
Proof.
  destruct reserved as [id|]; cbn; [|lia]. unfold holders. cbn.
  rewrite (size_filter_delete _ id (<[id := _]> (held s))), (size_filter_delete _ id (held s)).
  rewrite delete_insert_eq, lookup_insert_eq. unfold has.
  destruct (held s !! id) as [X|]; cbn; repeat case_decide; try set_solver; lia.
Qed.

(** ** The discipline *)

(** What a future owns: the reservations it is about to release, and the locks. *)
Record TableRes := mkRes {
  res_keys : gset Pubkey;
  res_write : bool;
  res_released : bool }.
Definition no_res : TableRes := mkRes ∅ false false.

Definition tables_ok (s : Tables) : Prop :=
  Forall (fun t => deactivate_triggered t = false) (active_tables s) /\
  Forall (fun t => has_reservations t = false) (released_tables s).

(** What a step may do to a lock, and to what the lock guards. *)
Definition lock_guar (mine mine' locked locked' : bool) (same : Prop) : Prop :=
  if mine then locked' = (if mine' then locked else false)
  else if locked then same /\ locked' = true /\ mine' = false
  else locked' = mine'.

Definition trely (h : TableRes) (s s' : Tables) : Prop :=
  (res_write h = true -> active_tables s' = active_tables s) /\
  (res_released h = true -> released_tables s' = released_tables s).
(** No step takes more reservations away than it owned or leaves to others. *)
Definition tguar (h h' : TableRes) (s s' : Tables) : Prop :=
  (tables_ok s -> tables_ok s') /\
  lock_guar (res_write h) (res_write h') (active_locked s) (active_locked s') (active_tables s' = active_tables s) /\
  lock_guar (res_released h) (res_released h') (released_locked s) (released_locked s')
    (released_tables s' = released_tables s) /\
  forall k, holders k s' + has k (res_keys h') + refs k s <= holders k s + has k (res_keys h) + refs k s'.

Definition locked_by (f : TableRes -> bool) (hs : list TableRes) (locked : bool) : Prop :=
  (locked = true <-> exists i h, hs !! i = Some h /\ f h = true) /\
  forall i j h1 h2, hs !! i = Some h1 -> hs !! j = Some h2 -> f h1 = true -> f h2 = true -> i = j.
Definition tworld (hs : list TableRes) (s : Tables) : Prop :=
  tables_ok s /\
  locked_by res_write hs (active_locked s) /\
  locked_by res_released hs (released_locked s) /\
  forall k, holders k s + sum_list_with (fun h => has k (res_keys h)) hs <= refs k s.

(** Only released tables are deactivated and closed. *)
Definition tasks (c : TableCall) (h : TableRes) (s : Tables) : Prop :=
  match c with
  | SendDeactivate address _ _ =>
      exists t, t ∈ released_tables s /\ table_address t = address /\ deactivate_triggered t = false
  | SendClose address _ _ =>
      exists t, t ∈ released_tables s /\ table_address t = address /\ deactivate_triggered t = true
  | _ => True
  end.
(** Who holds the second lock is never blocked, who holds the first one waits for the
    second one only. *)
Definition tblocks (h : TableRes) (s : Tables) : Prop :=
  res_released h = false /\
  ((res_write h = false /\ active_locked s = true) \/ released_locked s = true).
Definition tstarts (j : TableJob) (s : Tables) : Prop := True.


Lemma locked_step f hs i h h' l l' P :
  locked_by f hs l -> hs !! i = Some h -> lock_guar (f h) (f h') l l' P ->
  locked_by f (<[i := h']> hs) l' /\ (forall j h2, j <> i -> hs !! j = Some h2 -> f h2 = true -> P).
Proof.
  intros [Hl Hu] Hi Hg. assert (i < length hs) as Hlt by by eapply lookup_lt_Some.
  assert (f h = true -> forall j h2, j <> i -> hs !! j = Some h2 -> f h2 = true -> False) as Hmine.
  { intros Hh j h2 Hne Hj H2. by apply Hne, (Hu j i h2 h). }
  assert (l = false -> forall j h2, hs !! j = Some h2 -> f h2 = true -> False) as Hfree.
  { intros -> j h2 Hj H2. assert (false = true); [apply Hl; eauto|done]. }
  assert (f h' = true -> forall j h2, j <> i -> hs !! j = Some h2 -> f h2 = true -> False) as Hnew.
  { intros Hh'. unfold lock_guar in Hg. destruct (f h); [by apply Hmine|]. destruct l.
    - destruct Hg as (_ & _ & Hf). congruence.
    - intros j h2 _. by apply Hfree. }
  assert (f h = true -> l = true) as Hheld by (intros Hh; apply Hl; eauto).
  split; [split|].
  - split.
    + intros ->. unfold lock_guar in Hg. destruct (f h) eqn:Hh.
      * destruct (f h') eqn:Hh'; [|done]. exists i, h'. by rewrite list_lookup_insert_eq.
      * destruct l.
        -- destruct (proj1 Hl eq_refl) as (j & h2 & Hj & H2). destruct (decide (j = i)) as [->|Hne]; [congruence|].
           exists j, h2. by rewrite list_lookup_insert_ne.
        -- exists i, h'. by rewrite list_lookup_insert_eq.
    + intros (j & h2 & Hj & H2). apply list_lookup_insert_Some in Hj as [(<- & <- & _)|[Hne Hj]].
      * unfold lock_guar in Hg. rewrite H2 in Hg. destruct (f h); [by rewrite Hg, Hheld|].
        destruct l; [by destruct Hg as (_ & ? & _)|done].
      * unfold lock_guar in Hg. destruct (f h) eqn:Hh; [by destruct (Hmine eq_refl j h2)|].
        destruct l; [by destruct Hg as (_ & ? & _)|]. by destruct (Hfree eq_refl j h2).
  - intros j1 j2 h1 h2 Hj1 Hj2 H1 H2.
    apply list_lookup_insert_Some in Hj1 as [(<- & <- & _)|[Hne1 Hj1]];
      apply list_lookup_insert_Some in Hj2 as [(<- & <- & _)|[Hne2 Hj2]].
    + done.
    + by destruct (Hnew H1 j2 h2).
    + by destruct (Hnew H2 j1 h1).
    + by eapply Hu.
  - intros j h2 Hne Hj H2. unfold lock_guar in Hg. destruct (f h) eqn:Hh; [by destruct (Hmine eq_refl j h2)|].
    destruct l; [by destruct Hg|]. by destruct (Hfree eq_refl j h2).
Qed.

Lemma locked_new f hs l h : f h = false -> locked_by f hs l -> locked_by f (hs ++ [h]) l.
Proof.
  intros Hh [Hl Hu]. assert (forall j h2, (hs ++ [h]) !! j = Some h2 -> f h2 = true -> hs !! j = Some h2) as Hold.
  { intros j h2 Hj H2. apply lookup_app_Some in Hj as [Hj|[_ Hj]]; [done|].
    apply list_lookup_singleton_Some in Hj as [_ <-]. congruence. }
  split.
  - rewrite Hl. split; intros (j & h2 & Hj & H2).
    + exists j, h2. split; [by apply lookup_app_l_Some|done].
    + eauto.
  - intros j1 j2 h1 h2 H1 H2 Hf1 Hf2. by eapply Hu; eauto.
Qed.

Lemma sum_list_with_insert {A} (f : A -> nat) l i x y :
  l !! i = Some x -> sum_list_with f (<[i := y]> l) + f x = sum_list_with f l + f y.
Proof.
  revert i. induction l as [|z l IH]; intros [|i] Hi; try done.
  - injection Hi as ->. cbn. lia.
  - change (<[S i := y]> (z :: l)) with (z :: <[i := y]> l). cbn [sum_list_with]. specialize (IH i Hi). lia.
Qed.

#[local] Instance tables_discipline : Discipline no_res tables_ok trely tguar tworld tstarts.
Proof.
  split.
  - by intros h s.
  - intros h s1 s2 s3 [Ha1 Hr1] [Ha2 Hr2]. split; intros Hh; [rewrite Ha2, Ha1|rewrite Hr2, Hr1]; done.
  - intros h s. split_and!; [done|..|done].
    + destruct (res_write h), (active_locked s); cbn; auto.
    + destruct (res_released h), (released_locked s); cbn; auto.
  - done.
  - by intros hs s [Hok _].
  - intros hs s (Hok & Ha & Hr & Hc). split_and!; [done|by apply locked_new|by apply locked_new|].
    intros k. specialize (Hc k). rewrite sum_list_with_app. cbn. rewrite has_empty. lia.
  - intros hs i h h' s s' (Hok & Ha & Hr & Hc) Hi (Hok' & Hga & Hgr & Hgc).
    destruct (locked_step _ _ _ _ _ _ _ _ Ha Hi Hga) as [Ha' Hothers].
    destruct (locked_step _ _ _ _ _ _ _ _ Hr Hi Hgr) as [Hr' Hothers'].
    split; [split_and!; [auto|done|done|]|].
    + intros k. specialize (Hc k). specialize (Hgc k).
      pose proof (sum_list_with_insert (fun h => has k (res_keys h)) hs i h h' Hi) as Hsum. cbn in Hsum. lia.
    + intros j h2 Hne Hj. split; intros H2; [by eapply Hothers|by eapply Hothers'].
Qed.

Lemma tguar_refl h s : tguar h h s s.
Proof. eapply @guar_refl, tables_discipline. Qed.
Lemma tguar_intro h X' s s' :
  active_locked s' = active_locked s -> released_locked s' = released_locked s ->
  (active_tables s' = active_tables s \/ res_write h = true \/ active_locked s = false) ->
  (released_tables s' = released_tables s \/ res_released h = true \/ released_locked s = false) ->
  (tables_ok s -> tables_ok s') ->
  (forall k, holders k s' + has k X' + refs k s <= holders k s + has k (res_keys h) + refs k s') ->
  tguar h (mkRes X' (res_write h) (res_released h)) s s'.
Proof.
  intros Ha Hr HA HR Hok Hc. split_and!; [done|..|done]; cbn; unfold lock_guar.
  - destruct (res_write h); [done|]. destruct (active_locked s) eqn:Hl; [|done].
    split_and!; [|done|done]. by destruct HA as [?|[?|?]].
  - destruct (res_released h); [done|]. destruct (released_locked s) eqn:Hl; [|done].
    split_and!; [|done|done]. by destruct HR as [?|[?|?]].
Qed.

(** ** Sections under the write lock *)

Definition is_active_at (i : nat) (s : Tables) : Prop := exists t, active_tables s !! i = Some (Active t).
(** The active tables and what is recorded change, so that the reservations still count. *)
Record extends (s s' : Tables) : Prop := {
  ext_active_locked : active_locked s' = active_locked s;
  ext_released_locked : released_locked s' = released_locked s;
  ext_released : released_tables s' = released_tables s;
  ext_ok : tables_ok s -> tables_ok s';
  ext_at i : is_active_at i s -> is_active_at i s';
  ext_count k : holders k s' + refs k s <= holders k s + refs k s' }.

#[export] Instance extends_preorder : PreOrder extends.
Proof.
  split; [by intros s; split; auto; lia|]. intros s1 s2 s3 [A1 B1 C1 D1 E1 F1] [A2 B2 C2 D2 E2 F2].
  split; [congruence|congruence|congruence|auto|auto|]. intros k. specialize (F1 k). specialize (F2 k). lia.
Qed.

Lemma extends_guar X s s' : extends s s' -> tguar (mkRes X true false) (mkRes X true false) s s'.
Proof.
  intros [Ha Hr Hrel Hok _ Hc]. apply (tguar_intro (mkRes X true false)); cbn; auto.
  intros k. specialize (Hc k). lia.
Qed.
(** Dropping the future where it has done that much. *)
Lemma extends_drop X s s' : extends s s' -> tguar (mkRes X true false) no_res s (unlock_active s').
Proof.
  intros [Ha Hr Hrel Hok _ Hc]. split_and!; cbn; [done|done| |].
  - destruct (released_locked s) eqn:Hl; [by rewrite Hr|done].
  - intros k. specialize (Hc k). cut (holders k s' + 0 + refs k s <= holders k s + has k X + refs k s'); [|lia].
    by rewrite <- (has_empty k) at 1.
Qed.

Lemma update_ok i f s : tables_ok s -> tables_ok (update_table i f s).
Proof.
  intros [Ha Hr]. split; [|done]. cbn. apply Forall_lookup. intros j t Hj.
  rewrite Forall_lookup in Ha. destruct (decide (j = i)) as [->|Hne].
  - rewrite list_lookup_alter_eq in Hj. apply fmap_Some in Hj as (t' & Ht' & ->). destruct t'; [done|].
    by apply Ha in Ht'.
  - rewrite list_lookup_alter_ne in Hj by done. by apply Ha in Hj.
Qed.
Lemma update_at i f j s : is_active_at j s -> is_active_at j (update_table i f s).
Proof.
  intros (t & Ht). unfold is_active_at, update_table. cbn. destruct (decide (i = j)) as [->|Hne].
  - rewrite list_lookup_alter_eq, Ht. by eexists.
  - rewrite list_lookup_alter_ne by done. eauto.
Qed.

Lemma record_same reserved ks s :
  active_tables (record_reserved reserved ks s) = active_tables s /\
  released_tables (record_reserved reserved ks s) = released_tables s /\
  active_locked (record_reserved reserved ks s) = active_locked s /\
  released_locked (record_reserved reserved ks s) = released_locked s.
Proof. by destruct reserved. Qed.

(** A table changes, and what it gained is recorded. *)
Lemma extends_update reserved ks i f s :
  is_active_at i s ->
  (forall t k, active_tables s !! i = Some (Active t) ->
     key_count k (at_pubkeys t) + has k (list_to_set ks) <= key_count k (at_pubkeys (f t))) ->
  extends s (record_reserved reserved ks (update_table i f s)).
Proof.
  intros (t & Ht) Hf. destruct (record_same reserved ks (update_table i f s)) as (Ha & Hr & Hla & Hlr).
  split; rewrite ?Ha, ?Hr, ?Hla, ?Hlr; try done.
  - intros Hok. apply (update_ok i f) in Hok as [Hok1 Hok2]. split; by rewrite ?Ha, ?Hr.
  - intros j Hj. apply (update_at i f) in Hj as (t' & Ht'). exists t'. by rewrite Ha.
  - intros k. specialize (Hf t k Ht). pose proof (refs_update k i f s t Ht) as Hrefs.
    pose proof (holders_record reserved ks k (update_table i f s)) as Hh.
    assert (refs k (record_reserved reserved ks (update_table i f s)) = refs k (update_table i f s)) as ->
      by (unfold refs; by rewrite Ha).
    change (holders k (update_table i f s)) with (holders k s) in Hh. lia.
Qed.
Lemma extends_update_same i f s :
  is_active_at i s ->
  (forall t k, active_tables s !! i = Some (Active t) -> key_count k (at_pubkeys t) <= key_count k (at_pubkeys (f t))) ->
  extends s (update_table i f s).
Proof.
  intros Hi Hf. apply (extends_update None [] i f s Hi). intros t k Ht. specialize (Hf t k Ht).
  cbn. rewrite has_empty. lia.
Qed.

Lemma extends_filter_one reserved action i k s :
  is_active_at i s -> extends s (filter_one reserved action i k s).1.
Proof.
  intros (t & Ht). unfold filter_one. rewrite Ht. destruct action; [|done].
  destruct (rc_reserve k (at_pubkeys t)) as [m|] eqn:Hm; [|done]. cbn [fst].
  apply extends_update; [by exists t|]. intros t' k' Ht'. rewrite Ht in Ht'. simplify_eq. cbn.
  rewrite (rc_reserve_count _ _ _ Hm k'). rewrite union_empty_r_L. lia.
Qed.
Lemma extends_filter reserved action i ks s :
  is_active_at i s -> extends s (filter_pubkeys_present_in_table reserved action i ks s).1.
Proof.
  revert s. induction ks as [|k ks IH]; intros s Hi; cbn; [done|].
  pose proof (extends_filter_one reserved action i k s Hi) as H1. destruct (filter_one reserved action i k s) as [s1 b].
  cbn in H1. specialize (IH s1 (ext_at _ _ H1 i Hi)).
  destruct (filter_pubkeys_present_in_table reserved action i ks s1) as [s2 ks2]. cbn in *. by etrans.
Qed.

(** ** Every operation keeps the discipline *)

Section safety.
Context `{TableEnv} (drops : bool).
Abbreviation F A := (Future Tables TableJob TableCall TableReply A).
Abbreviation tdrop d := (may_drop no_res tguar drops d).
Abbreviation tsafe d Q := (safe tables_ok trely tguar tstarts tasks tblocks (tdrop d) Q).
(** Inside the write lock, which a drop gives back. *)
Abbreviation wsafe d Q :=
  (safe tables_ok trely tguar tstarts tasks tblocks (fun h s s' => tdrop d h s (unlock_active s')) Q).
Abbreviation W X := (mkRes X true false).
Abbreviation U X := (mkRes X false false).

(** Calls that are not made for the collector. *)
Definition plain (c : TableCall) : Prop :=
  match c with SendDeactivate _ _ _ | SendClose _ _ _ => False | _ => True end.

Lemma idle_drop d X s : tdrop d (U X) s s.
Proof.
  intros _ _. apply (tguar_intro (U X)); cbn; auto. intros k. rewrite has_empty. lia.
Qed.

Lemma write_safe {A} d X X' (Q : A -> TableRes -> Tables -> Prop) (body : F A) s :
  (forall s, tables_ok s -> wsafe d (fun _ h _ => h = W X') body (W X) s) ->
  (forall a s, tables_ok s -> Q a (U X') s) -> tsafe d Q (with_write body) (U X) s.
Proof.
  intros Hbody HQ. apply (safe_bind tables_discipline). intros s1 _ Hok1. split_and!.
  - apply idle_drop.
  - destruct (active_locked s1) eqn:Hl; [|done]. intros _. split; [done|left; done].
  - intros s2 []. destruct (active_locked s1) eqn:Hl; [done|]. intros [= <-]. exists (W X). split.
    { split_and!; cbn; [done|by rewrite Hl| |done]. by destruct (released_locked s1). }
    intros s3 _ Hok3. apply (safe_bind tables_discipline).
    apply (safe_protect _ (fun h s s' => tdrop d h s (unlock_active s'))); [done|].
    eapply safe_mono; [by apply Hbody|done|]. cbn. intros a h s4 Hok4 -> s5 _ Hok5. exists (U X'). split.
    + split_and!; cbn; [done|done| |done]. by destruct (released_locked s5).
    + intros s6 _ Hok6. by apply HQ.
Qed.

Lemma read_safe {A} d X X' (Q : A -> TableRes -> Tables -> Prop) (f : Tables -> Tables * A) s :
  (forall s, tables_ok s -> active_locked s = false ->
     active_locked (f s).1 = false /\ released_locked (f s).1 = released_locked s /\
     released_tables (f s).1 = released_tables s /\ tables_ok (f s).1 /\
     forall k, holders k (f s).1 + has k X' + refs k s <= holders k s + has k X + refs k (f s).1) ->
  (forall a s, tables_ok s -> Q a (U X') s) -> tsafe d Q (with_read f) (U X) s.
Proof.
  intros Hf HQ s1 _ Hok1. split_and!.
  - apply idle_drop.
  - destruct (active_locked s1) eqn:Hl; [|done]. intros _. split; [done|left; done].
  - intros s2 b. destruct (active_locked s1) eqn:Hl; [done|]. intros [= Heq]. exists (U X').
    destruct (Hf s1 Hok1 Hl) as (Hla & Hlr & Hrel & Hok & Hc). rewrite Heq in *. cbn [fst] in *. split.
    + apply (tguar_intro (U X)); cbn; auto; congruence.
    + intros s3 _ Hok3. by apply HQ.
Qed.

Lemma write_frames {A} d X (K : Tables -> Prop) P (m : F A) s :
  frames P (fun _ => False) plain m ->
  (forall s s', K s -> active_tables s' = active_tables s -> K s') ->
  (forall s s', K s -> P s s' -> extends s s' /\ K s') ->
  K s -> wsafe d (fun _ h s => h = W X /\ K s) m (W X) s.
Proof.
  intros Hm HK HP HKs. apply (safe_frames_keep _ _ K P (fun _ => False) plain); [exact Hm|..|done| |done|done].
  - intros s1 s2 Hs1 [Ha _] _. apply (HK s1); [done|]. by apply Ha.
  - intros s1 s2 Hok1 Hs1 Hp. destruct (HP s1 s2 Hs1 Hp) as [He Hs2].
    split_and!; [by apply extends_guar| |done]. intros _ _. by apply extends_drop.
  - intros c s1 _ _ Hc. by destruct c.
Qed.

Definition extends_at (i : nat) (s s' : Tables) : Prop := is_active_at i s -> extends s s'.
#[local] Instance extends_at_refl i : Reflexive (extends_at i).
Proof. by intros s _. Qed.

Lemma extends_advance ms s : extends s (advance ms s).
Proof. by split; auto. Qed.
Lemma extends_slots l sub s : extends s (set_table_slots l sub s).
Proof. by split; auto. Qed.

Lemma frames_send {A} P `{!Reflexive P} C (ask : F (RpcResult SendOutcome)) (landed : Z -> Signature -> Tables -> Tables * A) :
  C GetLatestBlockhashCall -> frames P (fun _ => False) C ask ->
  (forall sent_at sig s, P s (landed sent_at sig s).1) -> frames P (fun _ => False) C (send_table_tx ask landed).
Proof. intros HC Hask Hl. unfold send_table_tx. frames_steps; auto. Qed.

Lemma extend_table_frames reserved action payer i t remaining :
  frames (extends_at i) (fun _ => False) plain (extend_table reserved action payer i t remaining).
Proof.
  unfold extend_table. destruct (deactivate_triggered t) eqn:Hd; [exact I|]. destruct t as [t|]; [|done].
  cbv zeta. apply frames_bind.
  - unfold extend_respecting_capacity, extend. frames_steps. apply frames_send; [apply _|done|by frames_steps|].
    intros sent_at sig s Hi. cbn [fst]. apply extends_update; [done|]. intros t' k _. apply insert_many_count.
  - intros [stored|e]; [exact I|]. apply frames_bind.
    + unfold reconcile_with_chain. cbn [deactivate_triggered]. frames_steps. intros Hi.
      apply extends_update_same; [done|]. intros t' k _. cbn. by rewrite insert_unreserved_count.
    + intros r. apply frames_bind; [|done]. destruct r; [|exact I]. frames_steps. intros Hi. by apply extends_filter.
Qed.

Lemma open_table_Some s i t :
  tables_ok s -> open_table s = Some (i, t) -> active_tables s !! i = Some t /\ exists a, t = Active a.
Proof.
  intros [Ha _] Ho. unfold open_table in Ho. rewrite last_lookup in Ho.
  destruct (active_tables s !! Nat.pred (length (active_tables s))) as [t'|] eqn:Hl; [|done].
  destruct (is_full t') eqn:Hf; simplify_eq. rewrite Nat.sub_1_r. split; [done|].
  rewrite Forall_lookup in Ha. specialize (Ha _ _ Hl). destruct t; [eauto|done].
Qed.

Lemma use_last_safe d (Q : TableResult Round -> TableRes -> Tables -> Prop) reserved action authority errors remaining s :
  (forall a s, tables_ok s -> Q a (U ∅) s) ->
  tsafe d Q (use_last_table reserved action authority errors remaining) (U ∅) s.
Proof.
  intros HQ. apply (write_safe d ∅ ∅); [|done]. clear s. intros s Hok.
  apply (safe_bind tables_discipline). intros s1 _ Hok1. exists (W ∅). split; [by apply extends_guar|]. cbn [fst snd].
  destruct (open_table s1) as [[i t]|] eqn:Ho; [|by intros s2 _ Hok2 s3 _ Hok3].
  destruct (open_table_Some s1 i t Hok1 Ho) as [Hi (a & ->)].
  intros s2 [Ha2 _] Hok2. assert (is_active_at i s2) as Hi2.
  { exists a. by rewrite (Ha2 eq_refl). }
  assert (forall s s', is_active_at i s -> active_tables s' = active_tables s -> is_active_at i s') as Hstable.
  { intros x x' (b & Hb) Heq. exists b. by rewrite Heq. }
  apply (safe_bind tables_discipline). eapply safe_mono.
  { apply (write_frames d ∅ (is_active_at i) (extends_at i)); [apply extend_table_frames|done| |done].
    intros x x' Hx Hp. specialize (Hp Hx). split; [done|]. by apply (ext_at _ _ Hp). }
  { done. }
  cbn. intros [r rem] h s3 Hok3 [-> Hi3]. destruct r as [u|e]; [by intros s4 _ Hok4|].
  destruct (handle_extend_table_error e errors) as [[] n]; [|by intros s4 _ Hok4..].
  intros s4 [Ha4 _] Hok4. exists (W ∅). split; [|by intros s5 _ Hok5]. apply extends_guar.
  apply extends_update_same; [|done]. apply (Hstable s3); [done|by apply Ha4].
Qed.

Lemma extends_new_table reserved ks t s :
  (forall k, has k (list_to_set ks) <= table_count k (Active t)) ->
  extends s (record_reserved reserved ks (set_active (active_tables s ++ [Active t]) s)).
Proof.
  intros Hk. set (s1 := set_active _ s). destruct (record_same reserved ks s1) as (Ha & Hr & Hla & Hlr).
  split; rewrite ?Ha, ?Hr, ?Hla, ?Hlr; try done.
  - intros [Hok1 Hok2]. split; rewrite ?Ha, ?Hr; [|done]. cbn. apply Forall_app. split; [done|]. by repeat constructor.
  - intros j (t' & Ht'). exists t'. rewrite Ha. cbn. by apply lookup_app_l_Some.
  - intros k. pose proof (holders_record reserved ks k s1) as Hh. specialize (Hk k).
    assert (refs k (record_reserved reserved ks s1) = refs k s + table_count k (Active t)) as ->.
    { unfold refs. rewrite Ha. apply refs_app. }
    change (holders k s1) with (holders k s) in Hh. lia.
Qed.

Lemma create_frames reserved authority limit ks :
  frames extends (fun _ => False) plain (create_new_table_and_extend reserved authority limit ks).
Proof.
  unfold create_new_table_and_extend. frames_steps; [apply extends_slots|].
  apply frames_send; [apply _|done|by frames_steps|]. intros sent_at sig s. cbn [fst].
  apply extends_new_table. intros k. apply refcounted_new_count.
Qed.

Lemma use_new_safe d (Q : TableResult (list Pubkey) -> TableRes -> Tables -> Prop) reserved authority force remaining s :
  (forall a s, tables_ok s -> Q a (U ∅) s) -> tsafe d Q (use_new_table reserved authority force remaining) (U ∅) s.
Proof.
  intros HQ. apply (write_safe d ∅ ∅); [|done]. clear s. intros s Hok. eapply safe_mono.
  { apply (write_frames d ∅ (fun _ => True) extends); [|done|done|done].
    frames_steps. apply create_frames. }
  { done. }
  by intros a h s1 _ [-> _].
Qed.

Lemma reserve_rounds_safe d (Q : option (TableResult unit) -> TableRes -> Tables -> Prop) reserved action authority
    rounds errors remaining s :
  (forall a s, tables_ok s -> Q a (U ∅) s) ->
  tsafe d Q (reserve_rounds reserved action authority rounds errors remaining) (U ∅) s.
Proof.
  intros HQ. revert errors remaining s. induction rounds as [|rounds IH]; intros errors [|k ks] s;
    cbn [reserve_rounds]; try by intros s1 _ Hok1; apply HQ.
  apply (safe_bind tables_discipline), use_last_safe. intros [rd|e] s1 Hok1; [|by intros s2 _ Hok2; apply HQ].
  destruct (rd_stored rd || is_nil (rd_remaining rd)); [apply IH|].
  apply (safe_bind tables_discipline), use_new_safe. intros [ks'|e] s2 Hok2; [apply IH|].
  intros s3 _ Hok3. by apply HQ.
Qed.

Lemma reserve_pubkey_read id k s : tables_ok s -> active_locked s = false ->
  active_locked (reserve_pubkey id k s).1 = false /\
  released_locked (reserve_pubkey id k s).1 = released_locked s /\
  released_tables (reserve_pubkey id k s).1 = released_tables s /\ tables_ok (reserve_pubkey id k s).1 /\
  forall k', holders k' (reserve_pubkey id k s).1 + has k' ∅ + refs k' s <=
             holders k' s + has k' ∅ + refs k' (reserve_pubkey id k s).1.
Proof.
  intros [Ha Hr] Hl. unfold reserve_pubkey. destruct (reserve_in k (active_tables s)) as [ts|] eqn:Hts.
  - cbn [fst]. split_and!; [done|done|done|split; [|done]|].
    + cbn. revert ts Hts. clear Hl. induction Ha as [|[t|] l Ht Ha IH]; intros ts Hts; cbn in Hts; [done| |done].
      destruct (rc_reserve k (at_pubkeys t)); [simplify_eq; by constructor|].
      destruct (reserve_in k l) as [l'|]; cbn in Hts; simplify_eq. constructor; [done|by apply IH].
    + intros k'. pose proof (holders_record (Some id) [k] k' (set_active ts s)) as Hh.
      change (holders k' (set_active ts s)) with (holders k' s) in Hh.
      assert (refs k' (record_reserved (Some id) [k] (set_active ts s)) = refs k' s + has k' {[k]}) as ->
        by apply (reserve_in_refs _ _ _ Hts).
      assert (list_to_set [k] = ({[k]} : gset Pubkey)) as Hs by set_solver. rewrite Hs in Hh. lia.
  - cbn [fst]. split_and!; try done.
Qed.

Lemma reserve_existing_safe d (Q : list Pubkey -> TableRes -> Tables -> Prop) id ks s :
  (forall a s, tables_ok s -> Q a (U ∅) s) -> tsafe d Q (reserve_existing id ks) (U ∅) s.
Proof.
  revert Q s. induction ks as [|k ks IH]; intros Q s HQ; cbn [reserve_existing]; [by intros s1 _ Hok1; apply HQ|].
  apply (safe_bind tables_discipline), (read_safe d ∅ ∅); [apply reserve_pubkey_read|]. intros found s1 Hok1.
  apply (safe_bind tables_discipline), IH. intros remaining s2 Hok2 s3 _ Hok3. by apply HQ.
Qed.

Lemma reserve_new_safe d (Q : option (TableResult unit) -> TableRes -> Tables -> Prop) own rounds reserved action
    authority ks s :
  (forall a s, tables_ok s -> Q a (U ∅) s) ->
  tsafe d Q (reserve_new_pubkeys own rounds reserved action authority ks) (U ∅) s.
Proof.
  intros HQ. unfold reserve_new_pubkeys. case_decide; [by intros s1 _ Hok1; apply HQ|]. by apply reserve_rounds_safe.
Qed.

(** ** Releasing *)

Lemma release_ok k s : tables_ok s -> tables_ok (release_pubkey k s).1.
Proof.
  intros [Ha Hr]. split; [|done]. cbn. clear Hr. induction Ha as [|[t|] l Ht Ha IH]; cbn; [done| |done].
  destruct (rc_release k (at_pubkeys t)); by constructor.
Qed.

Lemma release_each_safe d X ks (Q : unit -> TableRes -> Tables -> Prop) s :
  NoDup ks -> (forall k, k ∈ X <-> k ∈ ks) ->
  (forall a s, tables_ok s -> Q a (U ∅) s) -> tsafe d Q (release_each_key ks) (U X) s.
Proof.
  intros Hnd HX HQ. revert X s HX. induction Hnd as [|k ks Hk Hnd IH]; intros X s HX; cbn [release_each_key].
  { assert (X = ∅) as -> by (apply set_eq; intros k; rewrite HX; set_solver). intros s1 _ Hok1. by apply HQ. }
  apply (safe_bind tables_discipline), (read_safe d X (X ∖ {[k]})).
  - intros s1 Hok1 Hl. split_and!; [done|done|done|by apply release_ok|]. intros k'.
    pose proof (release_in_refs k (active_tables s1) k') as Hrel.
    change (holders k' (release_pubkey k s1).1) with (holders k' s1).
    change (refs k' (release_pubkey k s1).1) with (refs_in k' (release_in k (active_tables s1))).
    change (refs k' s1) with (refs_in k' (active_tables s1)).
    assert (has k' (X ∖ {[k]}) + has k' {[k]} = has k' X); [|lia].
    assert (k ∈ X) by (apply HX; left). unfold has. repeat case_decide; set_solver.
  - intros _ s1 Hok1. apply IH. intros k'. rewrite elem_of_difference, HX, elem_of_singleton, elem_of_cons.
    split; [naive_solver|]. intros Hin. split; [by right|]. by intros ->.
Qed.

Lemma drop_lookup_cons {A} i (l : list A) x r : drop i l = x :: r -> l !! i = Some x /\ drop (S i) l = r.
Proof.
  intros Hd. split.
  - rewrite <- (Nat.add_0_r i), <- lookup_drop, Hd. done.
  - rewrite <- Nat.add_1_r, <- drop_drop, Hd. done.
Qed.
Lemma drop_delete {A} i (l : list A) x r : drop i l = x :: r -> drop i (delete i l) = r.
Proof.
  intros Hd. destruct (drop_lookup_cons i l x r Hd) as [Hi Hr]. assert (i < length l) by by eapply lookup_lt_Some.
  rewrite (delete_take_drop l i), drop_app_length' by (rewrite length_take; lia). done.
Qed.

Lemma drain_safe i ts s :
  drop i (active_tables s) = ts ->
  wsafe false (fun _ h _ => h = W ∅) (drain_unreserved i ts) (W ∅) s.
Proof.
  revert i s. induction ts as [|t ts IH]; intros i s Hd; cbn [drain_unreserved]; [by intros s1 _ Hok1|].
  destruct (has_reservations t) eqn:Ht; [by apply IH; eapply drop_lookup_cons|].
  intros s1 [Ha _] Hok1. cbn in Ha. specialize (Ha eq_refl). split_and!; [done|..].
  - destruct (released_locked s1) eqn:Hl; [|done]. intros _. by split; [|right].
  - intros s2 []. destruct (released_locked s1) eqn:Hl; [done|]. intros [= <-]. exists (W ∅).
    rewrite <- Ha in Hd. split; [|apply IH; cbn; by eapply drop_delete].
    destruct (drop_lookup_cons _ _ _ _ Hd) as [Hi _].
    apply (tguar_intro (W ∅)); cbn; auto.
    + intros [Hok2 Hok3]. split; cbn; [by apply Forall_delete|]. apply Forall_app. split; [done|by constructor].
    + intros k. pose proof (refs_delete k i (active_tables s1) t Hi (has_reservations_count t Ht k)) as Hrefs.
      cut (holders k s1 + has k ∅ + refs_in k (active_tables s1) <=
           holders k s1 + has k ∅ + refs_in k (delete i (active_tables s1))); [done|lia].
Qed.

Lemma release_pubkeys_safe (Q : unit -> TableRes -> Tables -> Prop) id s :
  (forall a s, tables_ok s -> Q a (U ∅) s) -> tsafe false Q (release_pubkeys id) (U ∅) s.
Proof.
  intros HQ. unfold release_pubkeys. apply (safe_bind tables_discipline). intros s1 _ Hok1.
  set (X := (take_held id s1).2). exists (U X). split.
  { apply (tguar_intro (U ∅)); cbn; auto. intros k. pose proof (holders_take id k s1) as Hh. rewrite has_empty.
    cut (holders k (take_held id s1).1 + has k (take_held id s1).2 + refs k s1 <= holders k s1 + 0 + refs k s1); [done|lia]. }
  intros s2 _ Hok2. apply (safe_bind tables_discipline), (release_each_safe false X).
  { rewrite key_order_perm. apply NoDup_elements. }
  { intros k. by rewrite key_order_perm, elem_of_elements. }
  intros _ s3 Hok3. apply (write_safe false ∅ ∅); [|done]. intros s4 Hok4.
  apply (safe_bind tables_discipline). intros s5 _ Hok5. exists (W ∅). split; [by apply extends_guar|].
  intros s6 [Ha _] Hok6. apply drain_safe. cbn. by apply Ha.
Qed.

(** ** The collector *)

Abbreviation R := (mkRes ∅ false true).
Abbreviation csafe Q := (safe tables_ok trely tguar tstarts tasks tblocks
  (fun h s s' => tdrop false h s (unlock_released s')) Q).

Lemma released_safe {A} (Q : A -> TableRes -> Tables -> Prop) (body : F A) s :
  (forall s, tables_ok s -> csafe (fun _ h _ => h = R) body R s) ->
  (forall a s, tables_ok s -> Q a (U ∅) s) -> tsafe false Q (with_released body) (U ∅) s.
Proof.
  intros Hbody HQ. apply (safe_bind tables_discipline). intros s1 _ Hok1. split_and!; [done|..].
  - destruct (released_locked s1) eqn:Hl; [|done]. intros _. by split; [|right].
  - intros s2 []. destruct (released_locked s1) eqn:Hl; [done|]. intros [= <-]. exists R. split.
    { split_and!; cbn; [done| |by rewrite Hl|done]. by destruct (active_locked s1). }
    intros s3 _ Hok3. apply (safe_bind tables_discipline).
    apply (safe_protect _ (fun h s s' => tdrop false h s (unlock_released s'))); [done|].
    eapply safe_mono; [by apply Hbody|done|]. cbn. intros a h s4 Hok4 -> s5 _ Hok5. exists (U ∅). split.
    + split_and!; cbn; [done| |done|done]. by destruct (active_locked s5).
    + intros s6 _ Hok6. by apply HQ.
Qed.
Lemma in_released_safe {A} (Q : A -> TableRes -> Tables -> Prop) (f : Tables -> Tables * A) s :
  (forall s, exists ts, (f s).1 = set_released ts s /\ (tables_ok s -> Forall (fun t => has_reservations t = false) ts)) ->
  (forall a s, tables_ok s -> Q a (U ∅) s) -> tsafe false Q (in_released f) (U ∅) s.
Proof.
  intros Hf HQ s1 _ Hok1. split_and!; [done|..].
  - destruct (released_locked s1) eqn:Hl; [|done]. intros _. by split; [|right].
  - intros s2 b. destruct (released_locked s1) eqn:Hl; [done|]. intros [= Heq]. exists (U ∅).
    destruct (Hf s1) as (ts & Hts & Hok). rewrite Heq in Hts. cbn in Hts. subst s2. split.
    + apply (tguar_intro (U ∅)); cbn; auto. intros [? ?]. split; [done|]. by apply Hok.
    + intros s3 _ Hok3. by apply HQ.
Qed.
Lemma set_released_id s : s = set_released (released_tables s) s.
Proof. by destruct s. Qed.

(** A part that leaves the tables alone, for a table that was read under the lock. *)
Lemma quiet_calls {A} rs C (m : F A) s :
  frames eq (fun _ => False) C m ->
  (forall c s, released_tables s = rs -> C c -> tasks c R s) ->
  released_tables s = rs -> csafe (fun _ h s => h = R /\ released_tables s = rs) m R s.
Proof.
  intros Hm HC Hrs. apply (safe_frames_keep _ _ (fun s => released_tables s = rs) eq (fun _ => False) C); try done.
  - intros s1 s2 H1 [_ H2] _. by rewrite H2.
  - intros s1 s2 _ H1 <-. split_and!; [|done|done]. apply tguar_refl.
  - intros c s1 _ H1 Hc. by apply HC.
Qed.

Lemma deactivate_safe payer i t rs s :
  released_tables s = rs -> rs !! i = Some t -> deactivate_triggered t = false ->
  csafe (fun _ h s => h = R /\ drop (S i) (released_tables s) = drop (S i) rs) (deactivate payer i t) R s.
Proof.
  intros Hrs Hi Ht. unfold deactivate. apply (safe_bind tables_discipline). eapply safe_mono.
  { apply (quiet_calls rs (fun c => c = GetLatestBlockhashCall \/ c = SendDeactivate (table_address t) (table_auth t) payer)).
    - apply frames_send; [apply _|by left|frames_steps; by right|done].
    - intros c s1 H1 [-> | ->]; [done|]. exists t. rewrite H1. split_and!; [|done|done].
      by eapply list_elem_of_lookup_2.
    - exact Hrs. }
  { done. }
  cbn. intros [sig|e] h s1 Hok1 [-> H1]; [|intros s2 [_ H2] Hok2; split; [done|]; by rewrite H2, H1].
  intros s2 [_ H2] Hok2. split_and!; [done|done|]. intros [slot|e].
  2:{ intros s3 [_ H3] Hok3. split; [done|]. by rewrite H3, H2, H1. }
  intros s3 [_ H3] Hok3. exists R. split.
  - apply (tguar_intro R); cbn; auto. intros [Ha Hr]. split; cbn; [done|].
    apply Forall_insert; done.
  - intros s4 [_ H4] Hok4. split; [done|]. rewrite H4 by done. cbn. rewrite drop_insert_lt by lia.
    by rewrite H3, H2, H1.
Qed.
Lemma deactivate_each_safe payer i ts s :
  drop i (released_tables s) = ts -> csafe (fun _ h _ => h = R) (deactivate_each payer i ts) R s.
Proof.
  revert i s. induction ts as [|t ts IH]; intros i s Hd; cbn [deactivate_each]; [by intros s1 _ Hok1|].
  destruct (drop_lookup_cons _ _ _ _ Hd) as [Hi Hr].
  destruct (deactivate_triggered t) eqn:Ht; [by apply IH|]. apply (safe_bind tables_discipline). eapply safe_mono.
  { by apply (deactivate_safe payer i t (released_tables s)). }
  { done. }
  cbn. intros _ h s1 Hok1 [-> Hd1]. apply IH. by rewrite Hd1.
Qed.

Lemma deactivate_tables_safe payer s (Q : unit -> TableRes -> Tables -> Prop) :
  (forall a s, tables_ok s -> Q a (U ∅) s) -> tsafe false Q (deactivate_tables payer) (U ∅) s.
Proof.
  intros HQ. apply (safe_bind tables_discipline), in_released_safe.
  { intros s1. exists (released_tables s1). split; [apply set_released_id|]. by intros [_ ?]. }
  intros _ s1 Hok1. apply released_safe; [|done]. intros s2 Hok2. apply (safe_bind tables_discipline).
  intros s3 _ Hok3. exists R. split; [apply tguar_refl|].
  intros s4 [_ H4] Hok4. apply deactivate_each_safe. by apply H4.
Qed.

Lemma close_each_frames payer slot ts :
  frames eq (fun _ => False)
    (fun c => plain c \/ exists t a p, t ∈ ts /\ deactivate_triggered t = true /\ c = SendClose (table_address t) a p)
    (close_each payer slot ts).
Proof.
  assert (forall ts', (forall t, t ∈ ts' -> t ∈ ts) -> frames eq (fun _ => False)
    (fun c => plain c \/ exists t a p, t ∈ ts /\ deactivate_triggered t = true /\ c = SendClose (table_address t) a p)
    (close_each payer slot ts')) as Hgen; [|by apply Hgen].
  induction ts' as [|t ts' IH]; intros Hin; cbn [close_each]; [done|].
  assert (forall t, t ∈ ts' -> t ∈ ts) as Hin' by (intros; apply Hin; by right).
  destruct (deactivate_triggered t) eqn:Ht; [|by apply IH].
  apply frames_bind; [|intros r; apply frames_bind; [by apply IH|done]].
  unfold close, is_closed. frames_steps; try by left. right. exists t. do 2 eexists.
  split_and!; [apply Hin; left|done|done].
Qed.

Lemma close_tables_safe payer s (Q : unit -> TableRes -> Tables -> Prop) :
  (forall a s, tables_ok s -> Q a (U ∅) s) -> tsafe false Q (close_tables payer) (U ∅) s.
Proof.
  intros HQ. assert (forall s1 : Tables, exists ts, s1 = set_released ts s1 /\
    (tables_ok s1 -> Forall (fun t => has_reservations t = false) ts)) as Hid.
  { intros s1. exists (released_tables s1). split; [apply set_released_id|]. by intros [_ ?]. }
  apply (safe_bind tables_discipline), in_released_safe; [done|].
  intros any s1 Hok1. destruct (negb any); [by intros s2 _ Hok2; apply HQ|].
  apply (safe_bind tables_discipline), in_released_safe; [done|]. intros _ s2 Hok2.
  apply (safe_bind tables_discipline). intros s3 _ Hok3. split_and!; [done|done|].
  intros [slot|e] s3' _ Hok3'; [|by intros s4 _ Hok4; apply HQ].
  apply (safe_bind tables_discipline), released_safe.
  - intros s4 Hok4. apply (safe_bind tables_discipline). intros s5 _ Hok5. exists R.
    split; [apply tguar_refl|]. cbn [fst snd].
    intros s6 [_ H6] Hok6. eapply safe_mono.
    { apply (quiet_calls (released_tables s5) _ _ _ (close_each_frames payer slot (released_tables s5))); [|by apply H6].
      intros c s7 H7 [Hc|(t & a & p & Hin & Ht & ->)]; [by destruct c|]. exists t. by rewrite H7. }
    { done. }
    by intros a h s7 _ [-> _].
  - intros closed s4 Hok4. apply in_released_safe; [|done]. intros s5. eexists. split; [done|].
    intros [_ Hr]. rewrite Forall_forall in Hr |- *. intros t [_ Ht]%list_elem_of_filter. by apply Hr.
Qed.

(** ** Readers *)

(** Time passes. *)
Definition passes (s s' : Tables) : Prop := s' = s \/ exists ms, s' = advance ms s.
#[local] Instance passes_refl : Reflexive passes.
Proof. by left. Qed.

Lemma frames_read {A} (P : Tables -> Tables -> Prop) `{!Reflexive P} C (f : Tables -> Tables * A) :
  (forall s, P s (f s).1) -> frames P (fun s => active_locked s = true) C (with_read f).
Proof.
  intros Hf. apply frames_wait; [done|..].
  - intros s. by destruct (active_locked s).
  - intros s s' b Hs. destruct (active_locked s); [done|]. specialize (Hf s). by simplify_eq/=; rewrite Hs in Hf.
Qed.
Lemma frames_sleep Bl ms : frames passes Bl plain (table_sleep ms).
Proof. unfold table_sleep. frames_steps. right. eauto. Qed.

Lemma wait_local_frames rounds ks start wait :
  frames passes (fun s => active_locked s = true) plain (wait_for_local_tables rounds ks start wait).
Proof.
  induction rounds as [|rounds IH]; cbn [wait_for_local_tables]; [exact I|].
  apply frames_bind; [by apply frames_read; [apply _|]|]. intros m.
  frames_steps; [apply frames_sleep|apply IH].
Qed.
Lemma wait_remote_frames rounds m addresses start wait :
  frames passes (fun s => active_locked s = true) plain (wait_for_remote_tables rounds m addresses start wait).
Proof.
  induction rounds as [|rounds IH]; cbn [wait_for_remote_tables]; [exact I|].
  frames_steps; [apply frames_sleep|apply IH].
Qed.
Lemma get_tables_frames rounds ks wait_local wait_remote :
  frames passes (fun s => active_locked s = true) plain
    (try_get_active_address_lookup_table_accounts rounds ks wait_local wait_remote).
Proof.
  unfold try_get_active_address_lookup_table_accounts, wait_until_remote_readiness_target.
  frames_steps; [apply wait_local_frames|apply frames_sleep|apply wait_remote_frames..].
Qed.

Lemma passes_guar d s s' : passes s s' -> tguar (U ∅) (U ∅) s s' /\ tdrop d (U ∅) s s'.
Proof.
  intros Hp. assert (tguar (U ∅) (U ∅) s s') as Hg; [|by split; [|intros _ _]].
  destruct Hp as [->|[ms ->]]; [apply tguar_refl|]. by apply (tguar_intro (U ∅)); cbn; auto.
Qed.
Lemma get_tables_safe d (Q : option (TableResult (list (Pubkey * list Pubkey))) -> TableRes -> Tables -> Prop)
    rounds ks wait_local wait_remote s :
  (forall a s, tables_ok s -> Q a (U ∅) s) ->
  tsafe d Q (try_get_active_address_lookup_table_accounts rounds ks wait_local wait_remote) (U ∅) s.
Proof.
  intros HQ. eapply safe_frames; [apply get_tables_frames|..]; [|..|exact HQ].
  - intros s1 s2 _. apply passes_guar.
  - intros s1 _ Hl. split; [done|by left].
  - intros c s1 _ Hc. by destruct c.
Qed.

Lemma ensure_safe d (Q : option (TableResult unit) -> TableRes -> Tables -> Prop) own rounds authority ks s :
  (forall a s, tables_ok s -> Q a (U ∅) s) -> tsafe d Q (ensure_pubkeys_table own rounds authority ks) (U ∅) s.
Proof.
  intros HQ. apply (safe_bind tables_discipline), (read_safe d ∅ ∅); [by intros s1 Hok1 Hl|].
  intros remaining s1 Hok1. case_decide; [by intros s2 _ Hok2; apply HQ|]. by apply reserve_new_safe.
Qed.

Lemma table_jobs_safe own j s :
  tables_ok s -> tsafe (table_droppable j) (returns_res no_res) (table_job own j) no_res s.
Proof.
  intros Hok.
  assert (forall (a : unit) s, tables_ok s -> returns_res no_res a (U ∅) s) as HQ by done.
  assert (forall A d (a : A) s, tables_ok s -> tsafe d (returns_res no_res) (Ready tt : F unit) (U ∅) s) as HQ'.
  { intros A d a s1 _ s2 _ Hok2. done. }
  destruct j as [rounds id authority ks|rounds authority ks|id|rounds ks wl wr|payer|payer|ms]; cbn [table_job].
  - apply (safe_bind tables_discipline). apply (safe_bind tables_discipline), reserve_existing_safe.
    intros remaining s1 Hok1. apply reserve_new_safe. exact (HQ' _ _).
  - apply (safe_bind tables_discipline), ensure_safe. exact (HQ' _ _).
  - by apply release_pubkeys_safe.
  - apply (safe_bind tables_discipline), get_tables_safe. exact (HQ' _ _).
  - by apply deactivate_tables_safe.
  - by apply close_tables_safe.
  - intros s1 _ Hok1. exists (U ∅). split; [|by intros s2 _ Hok2].
    refine (proj1 (passes_guar false _ _ _)). right. by eexists.
Qed.

Lemma tworld_init : tworld [] tables_init.
Proof.
  assert (locked_by res_write [] false /\ locked_by res_released [] false) as [Hw Hr].
  { by split; (split; [split; [done|by intros (i & h & ? & _)]|by intros]). }
  split_and!; [by split; constructor|done|done|done].
Qed.
Lemma tables_sys_safe own y : tables_reachable own drops y ->
  sys_safe no_res tables_ok trely tguar tworld tstarts tasks tblocks drops y.
Proof.
  eapply (reachable_safe _ _ _ _ _ _ _ _ _ _ (H := tables_discipline)).
  - intros j s Hok _. by apply table_jobs_safe.
  - done.
  - apply tworld_init.
Qed.
End safety.
