(* ===== verification/TableLive.v ===== *)
(** * Lookup tables: reservations count, and everything ends

    What the discipline of [TableSafety] gives for the table manager as a whole, with any
    number of attempts, releases and collector runs at once: reserved keys stay in active
    tables, only tables without reservations are deactivated and closed, and the tasks
    come to rest with both locks free. *)

From stdpp Require Import base relations gmap sets list strings.
From Stdlib Require Import ZArith Lia.
From S2P Require Import Prelude Intent RpcClient ExecErrors Concurrent Tables TableSafety.

Abbreviation TableSys := (@Sys Tables TableJob TableCall TableReply).

(** ** A small chain, for examples *)

Definition small_tables : TableEnv := {|
  derive_keypair authority slot sub := (authority + Z.to_N (slot * 10 + sub))%N;
  lookup_table_address auth slot := auth;
  key_order := elements;
  key_order_perm X := reflexivity (elements X) |}.
(** Transactions land, in slot [slot]. *)
Definition table_answer (slot : Z) (c : TableCall) : TableReply c :=
  match c return TableReply c with
  | GetSlotCall => Ok slot
  | GetLatestBlockhashCall => Ok tt
  | SendInit _ _ _ _ | SendExtend _ _ _ _ | SendDeactivate _ _ _ | SendClose _ _ _ =>
      Ok (mkSendOutcome 5%N None None)
  | AccountExists _ => Ok false
  | GetTableAddresses _ => Ok None
  | GetFinalizedTables addresses => Ok (map (fun _ => Some [7%N; 8%N]) addresses)
  | TableSleep _ => 0
  end.
Abbreviation TableChoice := (@choice TableJob TableCall TableReply).
Definition table_steps (i n : nat) (slot : Z) : list TableChoice := replicate n (Run i (table_answer slot)).
Definition table_run (chs : list TableChoice) : TableSys :=
  run (@table_job small_tables 1%N) table_droppable chs tables_init.
Lemma table_run_reachable drops chs :
  Forall (choice_ok (fun _ => True) drops) chs -> @tables_reachable small_tables 1%N drops (table_run chs).
Proof. apply run_reachable. Qed.

(** ** Reservations *)

Lemma refs_in_positive k ts : 0 < refs_in k ts -> exists t, t ∈ ts /\ 0 < table_count k t.
Proof.
  induction ts as [|t ts IH]; cbn; [lia|]. intros Hp. destruct (decide (0 < table_count k t)) as [Ht|Ht].
  - exists t. split; [left|done].
  - destruct IH as (t' & Hin & Ht'); [unfold refs_in; lia|]. exists t'. split; [by right|done].
Qed.
Lemma holders_positive id X k s : held s !! id = Some X -> k ∈ X -> 0 < holders k s.
Proof.
  intros Hid Hk. unfold holders.
  assert (filter (fun p : nat * gset Pubkey => k ∈ p.2) (held s) !! id = Some X) as Hf by (by apply map_lookup_filter_Some).
  destruct (decide (size (filter (fun p : nat * gset Pubkey => k ∈ p.2) (held s)) = 0)) as [H0|]; [|lia].
  apply map_size_empty_iff in H0. by rewrite H0, lookup_empty in Hf.
Qed.

(** C13: whatever attempts to prepare transactions, releases, cleanups of dropped attempts
    and runs of the collector are in flight at once, a key that some attempt has reserved
    is in an active table that counts a reservation of it; the tables count every key at
    least as often as attempts have it reserved, and a released table counts none. *)
Theorem reserved_keys_stay_active `{TableEnv} own drops (y : TableSys) id X k :
  tables_reachable own drops y -> held (shared y) !! id = Some X -> k ∈ X ->
  (exists t e, Active t ∈ active_tables (shared y) /\ at_pubkeys t !! k = Some e /\ 0 < refcount e) /\
  holders k (shared y) <= refs k (shared y) /\
  Forall (fun t => has_reservations t = false) (released_tables (shared y)).
Proof.
  intros Hr Hid Hk. destruct (tables_sys_safe _ _ _ Hr) as (hs & _ & (Hok & _ & _ & Hc) & _).
  specialize (Hc k). pose proof (holders_positive _ _ _ _ Hid Hk) as Hp. destruct Hok as [Ha Hrel].
  split_and!; [|lia|done]. destruct (refs_in_positive k (active_tables (shared y))) as (t & Hin & Ht).
  { unfold refs in Hc. lia. }
  destruct t as [t|]; [|cbn in Ht; lia]. unfold table_count, key_count in Ht. cbn in Ht.
  destruct (at_pubkeys t !! k) as [e|] eqn:He; [|lia]. eauto 10.
Qed.

(** Two keys are reserved by one attempt, and one of them by another one. *)
Definition two_attempts : list TableChoice :=
  Start (ReserveJob 8 0 1%N {[7%N; 8%N]}) :: table_steps 0 14 10 ++
  Start (ReserveJob 8 1 1%N {[8%N]}) :: table_steps 1 1 10.
Lemma reserved_keys_stay_active_witness :
  let y := table_run two_attempts in
  held (shared y) !! 1 = Some {[8%N]} /\ holders 8%N (shared y) = 2 /\ 2 <= refs 8%N (shared y).
Proof.
  intros y. split_and!; [by vm_compute|by vm_compute|].
  destruct (reserved_keys_stay_active (H := small_tables) 1%N false y 1 {[8%N]} 8%N) as (_ & Hc & _).
  - apply table_run_reachable. by repeat constructor.
  - by vm_compute.
  - by vm_compute.
  - exact Hc.
Defined.

(** A table is deactivated on chain only when it was released, none of its keys is
    reserved and no deactivation of it has been recorded; it is closed only after that. *)
Theorem collects_only_unreserved `{TableEnv} own drops (y : TableSys) i d drop c k :
  tables_reachable own drops y -> futures y !! i = Some (d, Ask drop c k) ->
  match c with
  | SendDeactivate address _ _ =>
      exists t, t ∈ released_tables (shared y) /\ table_address t = address /\
        has_reservations t = false /\ deactivate_triggered t = false
  | SendClose address _ _ =>
      exists t, t ∈ released_tables (shared y) /\ table_address t = address /\ deactivate_triggered t = true
  | _ => True
  end.
Proof.
  intros Hr Hi. destruct (tables_sys_safe _ _ _ Hr) as (hs & Hlen & Hw & Hall).
  destruct (lookup_lt_is_Some_2 hs i) as [h Hh].
  { rewrite Hlen. by eapply lookup_lt_Some. }
  pose proof (Hall _ _ _ _ Hi Hh) as Hs. destruct Hw as (Hok & _).
  destruct (Hs (shared y)) as (_ & Hask & _); [by split|done|]. destruct c; try done.
  destruct Hask as (t & Hin & Ha & Ht). exists t. split_and!; try done.
  destruct Hok as [_ Hrel]. rewrite Forall_forall in Hrel. by apply Hrel.
Qed.

(** The keys are released again, and the collector runs as far as the deactivation. *)
Definition reserve_and_release : list TableChoice :=
  Start (ReserveJob 8 0 1%N {[7%N; 8%N]}) :: table_steps 0 14 10 ++
  Start (ReleasePubkeysJob 0) :: table_steps 1 7 10 ++
  Start (DeactivateJob 1%N) :: table_steps 2 5 10.
Definition next_call (t : bool * F unit) : option TableCall := match t.2 with Ask _ c _ => Some c | _ => None end.
Lemma next_call_Some (y : TableSys) i c :
  futures y !! i ≫= next_call = Some c -> exists d drop k, futures y !! i = Some (d, Ask drop c k).
Proof.
  destruct (futures y !! i) as [[d [| | |drop c' k|]]|]; cbn; intros Hc; simplify_eq. eauto.
Qed.
Lemma collects_only_unreserved_witness :
  let y := table_run reserve_and_release in
  futures y !! 2 ≫= next_call = Some (SendDeactivate 101%N 101%N 1%N) /\
  exists t, t ∈ released_tables (shared y) /\ table_address t = 101%N /\ has_reservations t = false.
Proof.
  intros y. assert (@tables_reachable small_tables 1%N false y) as Hr.
  { apply table_run_reachable. by repeat constructor. }
  assert (futures y !! 2 ≫= next_call = Some (SendDeactivate 101%N 101%N 1%N)) as Hc by by vm_compute.
  split; [exact Hc|]. destruct (next_call_Some _ _ _ Hc) as (d & drop & k & Hf).
  destruct (collects_only_unreserved (H := small_tables) 1%N false y 2 d drop (SendDeactivate 101%N 101%N 1%N) k Hr Hf)
    as (t & Hin & Ha & Ht & _).
  exact (ex_intro _ t (conj Hin (conj Ha Ht))).
Defined.

(** ** Everything ends *)

Section live.
Context `{TableEnv} (own : Pubkey).
Abbreviation table_step := (progress (table_job own) table_droppable).
Abbreviation quiet m := (frames (fun _ _ => True) (fun _ => True) (fun _ => True) m).

#[local] Instance anything_refl : Reflexive (fun _ _ : Tables => True).
Proof. done. Qed.

Lemma quiet_wait {A} (f : Tables -> option (Tables * A)) : quiet (fwait f : F A).
Proof. by apply frames_wait; [apply _|..]. Qed.
Lemma quiet_protect {A} cleanup (m : F A) : quiet m -> quiet (protect cleanup m).
Proof. intros Hm. by apply frames_protect. Qed.
Lemma quiet_mono {A} P B C (m : F A) : frames P B C m -> quiet m.
Proof. intros Hm. induction m; cbn in Hm |- *; naive_solver. Qed.

Ltac quiet_steps :=
  repeat first
    [ frames_step
    | lazymatch goal with
      | |- frames _ _ _ (fwait _) => apply quiet_wait
      | |- frames _ _ _ (protect _ _) => apply quiet_protect
      | |- frames _ _ _ (with_write _) => unfold with_write
      | |- frames _ _ _ (with_read _) => unfold with_read
      | |- frames _ _ _ (with_released _) => unfold with_released
      | |- frames _ _ _ (in_released _) => unfold in_released
      end ]; try done.

Lemma quiet_rounds reserved action authority rounds errors remaining :
  quiet (reserve_rounds reserved action authority rounds errors remaining).
Proof.
  revert errors remaining. induction rounds as [|rounds IH]; intros errors [|k ks]; cbn [reserve_rounds]; try done.
  unfold use_last_table, use_new_table. quiet_steps.
  all: try apply IH; try by eapply quiet_mono, extend_table_frames.
  all: by eapply quiet_mono, create_frames.
Qed.
Lemma quiet_new rounds reserved action authority ks : quiet (reserve_new_pubkeys own rounds reserved action authority ks).
Proof. unfold reserve_new_pubkeys. case_decide; [done|apply quiet_rounds]. Qed.
Lemma quiet_existing id ks : quiet (reserve_existing id ks).
Proof. induction ks as [|k ks IH]; cbn [reserve_existing]; quiet_steps. Qed.
Lemma quiet_release_each ks : quiet (release_each_key ks).
Proof. induction ks as [|k ks IH]; cbn [release_each_key]; quiet_steps. Qed.
Lemma quiet_drain i ts : quiet (drain_unreserved i ts).
Proof. revert i. induction ts as [|t ts IH]; intros i; cbn [drain_unreserved]; quiet_steps; apply IH. Qed.
Lemma quiet_deactivate payer i ts : quiet (deactivate_each payer i ts).
Proof.
  revert i. induction ts as [|t ts IH]; intros i; cbn [deactivate_each]; unfold deactivate, send_table_tx; quiet_steps;
    apply IH.
Qed.

Lemma table_jobs_rank j : spawns_below (fun _ => 0) 0 (table_job own j).
Proof.
  assert (quiet (table_job own j)) as Hq; [|by eapply frames_spawns].
  destruct j; cbn [table_job]; unfold reserve_pubkeys, ensure_pubkeys_table, release_pubkeys, deactivate_tables, close_tables;
    quiet_steps; eauto using quiet_existing, quiet_new, quiet_release_each, quiet_drain, quiet_deactivate.
  - eapply quiet_mono, get_tables_frames.
  - eapply quiet_mono, close_each_frames.
Qed.

Lemma table_replies c : inhabited (TableReply c).
Proof. destruct c; repeat constructor; exact RpcTimedOut || exact (Ok tt) || exact None || idtac. Qed.

Section at_rest.
Context (drops : bool) (y : TableSys) (Hr : tables_reachable own drops y)
  (Hstuck : forall y', ~ table_step y y').

(** At rest a future has no lock, or waits for one it has not. *)
Lemma rest_res : exists hs, length hs = length (futures y) /\ tworld hs (shared y) /\
  forall i h, hs !! i = Some h -> exists d m, futures y !! i = Some (d, m) /\
    ((finished m /\ h = no_res) \/ tblocks h (shared y)).
Proof using Hr Hstuck.
  destruct (tables_sys_safe _ _ _ Hr) as (hs & Hlen & Hw & Hall). exists hs. split_and!; [done|done|].
  intros i h Hh. destruct (lookup_lt_is_Some_2 (futures y) i) as [[d m] Hi].
  { rewrite <- Hlen. by eapply lookup_lt_Some. }
  exists d, m. split; [done|]. pose proof (Hall _ _ _ _ Hi Hh) as Hs.
  assert (trely h (shared y) (shared y)) as Hrely by done. assert (tables_ok (shared y)) as Hok by apply Hw.
  destruct (stuck_blocked _ _ y i d m table_replies Hstuck Hi) as [Hf|(B & drop & f & c & -> & Hf)].
  - left. split; [done|]. destruct m; try done. exact (Hs (shared y) Hrely Hok).
  - right. destruct (Hs (shared y) Hrely Hok) as (_ & Hb & _). by apply Hb.
Qed.

Lemma tables_rest :
  active_locked (shared y) = false /\ released_locked (shared y) = false /\
  Forall (fun t => finished t.2) (futures y).
Proof using Hr Hstuck.
  destruct rest_res as (hs & Hlen & (_ & [Ha _] & [Hl _] & _) & Hres).
  assert (released_locked (shared y) = false) as Hrel.
  { destruct (released_locked (shared y)); [|done]. destruct (proj1 Hl eq_refl) as (i & h & Hh & Hm).
    destruct (Hres _ _ Hh) as (d & m & _ & [[_ ->]|[Hb _]]); [done|congruence]. }
  assert (active_locked (shared y) = false) as Hact.
  { destruct (active_locked (shared y)); [|done]. destruct (proj1 Ha eq_refl) as (i & h & Hh & Hm).
    destruct (Hres _ _ Hh) as (d & m & _ & [[_ ->]|[_ [[Hb _]|Hb]]]); [done|congruence..]. }
  split_and!; [done|done|]. apply Forall_lookup. intros i [d m] Hi.
  destruct (lookup_lt_is_Some_2 hs i) as [h Hh].
  { rewrite Hlen. by eapply lookup_lt_Some. }
  destruct (Hres _ _ Hh) as (d' & m' & Hi' & [[Hf _]|[_ [[_ Hb]|Hb]]]); [|congruence..].
  rewrite Hi in Hi'. by simplify_eq.
Qed.
End at_rest.
End live.

(** Attempts, releases, readers and the collector never block each other for ever:
    they come to rest after finitely many steps whatever the chain answers and whichever
    attempts were dropped halfway, and at rest all have returned and both locks of the
    table manager are free. *)
Theorem table_tasks_end `{TableEnv} own drops (y : TableSys) :
  tables_reachable own drops y ->
  Acc (flip (progress (table_job own) table_droppable)) y /\
  forall z, rtc (progress (table_job own) table_droppable) y z ->
    (forall z', ~ progress (table_job own) table_droppable z z') ->
    active_locked (shared z) = false /\ released_locked (shared z) = false /\
    Forall (fun t => finished t.2) (futures z).
Proof.
  intros Hr. split.
  { eapply (progress_terminates _ _ (fun _ => 0)); [exact (table_jobs_rank own)|].
    eapply reachable_bounded; [exact (table_jobs_rank own)|exact Hr]. }
  intros z Hz Hstuck. apply (tables_rest own drops); [|done].
  unfold tables_reachable, reachable in *. etrans; [exact Hr|]. eapply rtc_subrel; [|exact Hz].
  intros a b Hab. by apply step_progress.
Qed.

(** An attempt that holds the write lock, one that waits for it, and the collector. *)
Definition attempts_race : list TableChoice :=
  Start (ReserveJob 8 0 1%N {[7%N; 8%N]}) :: table_steps 0 8 10 ++
  Start (ReserveJob 8 1 1%N {[8%N]}) :: [Start (DeactivateJob 1%N)] ++ table_steps 2 3 10.
Lemma table_tasks_end_witness :
  let y := table_run attempts_race in
  active_locked (shared y) = true /\ released_locked (shared y) = true /\
  Acc (flip (progress (@table_job small_tables 1%N) table_droppable)) y.
Proof.
  intros y. split_and!; [by vm_compute|by vm_compute|].
  apply (table_tasks_end (H := small_tables) 1%N false y). apply table_run_reachable. by repeat constructor.
Defined.
