(* ===== verification/TableMatch.v ===== *)
(** * Lookup tables: what callers get

    An attempt that reserved its keys holds a reservation of each of them, and the rounds
    it needs are bounded; who asks for the tables of its keys gets, within the time given,
    finalized tables that have all of them. The statements follow one call ([returns])
    while others change the tables in between, as far as its first argument lets them. *)

From stdpp Require Import base relations gmap sets list strings.
From Stdlib Require Import ZArith Lia.
From S2P Require Import Prelude Intent RpcClient ExecErrors Concurrent Tables TableSafety TableLive.

(** ** Following a call *)

Section follow.
Context (I : Tables -> Tables -> Prop) `{!PreOrder I}.
Abbreviation F A := (Future Tables TableJob TableCall TableReply A).

Lemma returns_do {A} (f : Tables -> Tables * A) s a s' :
  returns I (fdo f : F A) s a s' -> exists s1, I s s1 /\ a = (f s1).2 /\ I (f s1).1 s'.
Proof. by intros (s1 & HI & -> & HI'); exists s1. Qed.
Lemma returns_get {A} (f : Tables -> A) s a s' :
  returns I (fget f : F A) s a s' -> exists s1, I s s1 /\ a = f s1 /\ I s1 s'.
Proof. apply returns_do. Qed.
Lemma returns_ask c s a s' : returns I (fask c : F (TableReply c)) s a s' -> I s s'.
Proof. intros (s1 & r & HI & -> & HI'). by etrans. Qed.
Lemma returns_read {A} (f : Tables -> Tables * A) s a s' :
  returns I (with_read f) s a s' -> exists s1, I s s1 /\ a = (f s1).2 /\ I (f s1).1 s'.
Proof.
  intros (s1 & s2 & b & HI & Hf & -> & HI'). exists s1. destruct (active_locked s1); [done|].
  injection Hf as Hf. by rewrite Hf.
Qed.
Lemma returns_write {A} (body : F A) s a s' :
  returns I (with_write body) s a s' ->
  exists s1 s2, I s s1 /\ returns I body (set_table_locks true (released_locked s1) s1) a s2 /\ I (unlock_active s2) s'.
Proof.
  intros (t1 & t2 & Hw & Hb)%(returns_bind I). apply (returns_bind I) in Hb as (a' & t3 & Hb & Hu).
  apply (returns_bind I) in Hu as (t4 & t5 & Hu & -> & Hend). apply returns_protect in Hb.
  destruct Hw as (s1 & s2 & b & HI & Hf & _ & HI'). destruct (active_locked s1); [done|]. injection Hf as <-.
  apply returns_do in Hu as (s3 & HI3 & _ & HI4). exists s1, s3. split_and!; [done| |by etrans].
  eapply returns_after; [done| |done]. by eapply returns_before.
Qed.
End follow.

(** ** The tables of the keys one asks for *)

(** Every key asked for is left over, or in a table that matched. *)
Lemma match_tables_cover ts acc k :
  NoDup (map table_address ts) -> (forall t, t ∈ ts -> snd acc !! table_address t = None) ->
  k ∈ fst acc \/ (exists a r, snd acc !! a = Some r /\ k ∈ local_keys r) ->
  let res := foldl match_table acc ts in
  k ∈ fst res \/ exists a r, snd res !! a = Some r /\ k ∈ local_keys r.
Proof.
  revert acc. induction ts as [|t ts IH]; intros acc Hnd Hfresh Hk; cbn [foldl]; [done|].
  apply NoDup_cons in Hnd as [Ht Hnd]. apply IH; [done|..]; unfold match_table; case_decide as Hm; cbn [fst snd].
  - intros t' Hin. apply Hfresh. by right.
  - intros t' Hin. rewrite lookup_insert_ne; [apply Hfresh; by right|].
    intros Heq. apply Ht. rewrite Heq. by apply list_elem_of_fmap_2.
  - done.
  - destruct Hk as [Hk|(a & r & Ha & Hk)].
    + destruct (decide (k ∈ match_pubkeys t (fst acc))) as [Hin|Hin]; [|left; set_solver].
      right. eexists _, _. by rewrite lookup_insert_eq.
    + right. exists a, r. rewrite lookup_insert_ne; [done|]. intros <-. rewrite Hfresh in Ha by left. done.
Qed.

Definition distinct_addresses (s : Tables) : Prop := NoDup (map table_address (active_tables s)).
(** The keys of [ks] are in the tables of [m]. *)
Definition all_matched (ks : gset Pubkey) (m : gmap Pubkey MatchingTableReadiness) : Prop :=
  forall k, k ∈ ks -> exists a r, m !! a = Some r /\ k ∈ local_keys r.

Section get_tables.
Context `{TableEnv} (I : Tables -> Tables -> Prop) `{!PreOrder I}.
(** Others keep the addresses distinct, and time does not run backwards. *)
Hypothesis I_distinct : forall s s', I s s' -> distinct_addresses s -> distinct_addresses s'.
Hypothesis I_time : forall s s', I s s' -> (tables_now s <= tables_now s')%Z.

Lemma returns_sleep ms s s' :
  returns I (table_sleep ms) s tt s' ->
  (distinct_addresses s -> distinct_addresses s') /\ (tables_now s + ms <= tables_now s')%Z.
Proof.
  intros (more & s1 & Ha%(returns_ask I) & Hd)%(returns_bind I).
  apply returns_do in Hd as (s2 & H2 & _ & H3). assert (I s s2) as H1 by by etrans. split.
  - intros Hs. by apply (I_distinct _ _ H3), (I_distinct s s2).
  - apply I_time in H1, H3. cbn in H3. lia.
Qed.

Lemma wait_local_returns rounds ks start wait s a s' :
  returns I (wait_for_local_tables rounds ks start wait) s a s' -> distinct_addresses s ->
  (a = None -> (tables_now s - start + LOCAL_TABLE_POLL_INTERVAL * (Z.of_nat rounds - 1) <= wait)%Z \/ rounds = 0) /\
  (forall m, a = Some (Ok m) -> all_matched ks m).
Proof.
  revert s. induction rounds as [|rounds IH]; intros s; cbn [wait_for_local_tables].
  { intros [-> _] _. split; [by right|done]. }
  intros (m & s1 & Hm & Hr)%(returns_bind I) Hs. apply returns_read in Hm as (s0 & H0 & -> & H1).
  cbn [fst snd] in H1, Hr. assert (distinct_addresses s0) as Hs0 by eauto. case_decide as Hall.
  - destruct Hr as [-> _]. split; [done|]. intros m [= <-] k Hk.
    destruct (match_tables_cover (active_tables s0) (ks, ∅) k Hs0) as [Hf|?]; [done|by left| |done].
    unfold match_tables in Hall. rewrite Hall in Hf. set_solver.
  - apply (returns_bind I) in Hr as (now & s2 & Hn & Hr). apply returns_get in Hn as (s3 & H3 & -> & H4).
    destruct (wait <? _)%Z eqn:Hlt; [destruct Hr as [-> _]; done|]. apply Z.ltb_ge in Hlt.
    apply (returns_bind I) in Hr as ([] & s4 & [Hd Ht]%returns_sleep & Hr).
    assert (distinct_addresses s2) as Hs2 by eauto. destruct (IH s4 Hr (Hd Hs2)) as [IH1 IH2]. split; [|done].
    intros Ha. left. apply I_time in H0, H1, H3, H4. unfold LOCAL_TABLE_POLL_INTERVAL in *.
    destruct (IH1 Ha) as [?| ->]; lia.
Qed.

Lemma wait_remote_returns rounds m addresses start wait s a s' :
  returns I (wait_for_remote_tables rounds m addresses start wait) s a s' ->
  (a = None -> (tables_now s - start + REMOTE_TABLE_FALLBACK_POLL_INTERVAL * (Z.of_nat rounds - 1) <= wait)%Z \/ rounds = 0) /\
  (forall remote, a = Some (Ok remote) -> all_matches_are_remote m remote = true).
Proof.
  revert s. induction rounds as [|rounds IH]; intros s; cbn [wait_for_remote_tables].
  { intros [-> _]. split; [by right|done]. }
  intros (answer & s1 & H0%(returns_ask I) & Hr)%(returns_bind I).
  destruct answer as [answer|e]; [|by destruct Hr as [-> _]]. cbv zeta in Hr.
  destruct ((size _ =? size m) && _) eqn:Hall.
  { destruct Hr as [-> _]. split; [done|]. intros remote [= <-]. by apply andb_true_iff in Hall as [_ Hall]. }
  apply (returns_bind I) in Hr as (now & s2 & Hn & Hr). apply returns_get in Hn as (s3 & H3 & -> & H4).
  destruct (wait <? _)%Z eqn:Hlt; [destruct Hr as [-> _]; done|]. apply Z.ltb_ge in Hlt.
  apply (returns_bind I) in Hr as ([] & s4 & [_ Ht]%returns_sleep & Hr). destruct (IH s4 Hr) as [IH1 IH2].
  split; [|done]. intros Ha. left. apply I_time in H0, H3, H4. unfold REMOTE_TABLE_FALLBACK_POLL_INTERVAL in *.
  destruct (IH1 Ha) as [?| ->]; lia.
Qed.

Lemma wait_until_time deadline wait s s' :
  (0 <= wait)%Z -> returns I (wait_until_remote_readiness_target deadline wait) s tt s' ->
  (tables_now s <= tables_now s')%Z.
Proof.
  intros Hw. destruct deadline as [deadline|]; [|intros [_ HI]; by apply I_time].
  intros (now & s1 & Hn & Hr)%(returns_bind I). apply returns_get in Hn as (s2 & H2 & -> & H3).
  apply I_time in H2, H3. destruct (deadline <=? _)%Z eqn:Hd.
  - destruct Hr as [_ Hr]. apply I_time in Hr. lia.
  - apply Z.leb_gt in Hd. apply returns_sleep in Hr as [_ Hr]. lia.
Qed.

Lemma lookup_accounts_cover ks m remote accounts :
  all_matched ks m -> all_matches_are_remote m remote = true ->
  lookup_table_accounts (key_order (dom m)) remote = Ok accounts ->
  forall k, k ∈ ks -> exists address addresses, (address, addresses) ∈ accounts /\ k ∈ addresses.
Proof.
  intros Hm Hr Hacc k Hk. destruct (Hm k Hk) as (a & r & Ha & Hkr).
  unfold all_matches_are_remote in Hr. rewrite forallb_forall in Hr.
  specialize (Hr (a, r)). cbn [fst snd] in Hr.
  assert (In (a, r) (map_to_list m)) as Hin by by apply list_elem_of_In, elem_of_map_to_list.
  specialize (Hr Hin). destruct (remote !! a) as [addresses|] eqn:Hra; [|done]. rewrite forallb_forall in Hr.
  exists a, addresses. split.
  - unfold lookup_table_accounts in Hacc. apply try_collect_Ok in Hacc.
    assert (a ∈ key_order (dom m)) as Hao by (rewrite key_order_perm, elem_of_elements; by apply elem_of_dom_2 in Ha).
    apply list_elem_of_lookup in Hao as [i Hi]. destruct (Forall2_lookup_l _ _ _ _ _ Hacc Hi) as (p & Hp & Hf).
    rewrite Hra in Hf. injection Hf as <-. by eapply list_elem_of_lookup_2.
  - apply (bool_decide_eq_true _), Hr. by apply list_elem_of_In, elem_of_elements.
Qed.
End get_tables.

(** Who asks for the lookup tables of a set of keys is answered, whatever others do to
    the tables meanwhile, as long as addresses stay distinct and time does not run
    backwards; the rounds are bounded by the two waiting times; and the tables it gets
    have, as finalized on chain, every key it asked for. *)
Theorem tables_cover_keys `{TableEnv} (I : Tables -> Tables -> Prop) `{!PreOrder I}
    rounds ks wait_local wait_remote s answer s' :
  (forall s s', I s s' -> distinct_addresses s -> distinct_addresses s') ->
  (forall s s', I s s' -> (tables_now s <= tables_now s')%Z) -> distinct_addresses s ->
  (wait_local < LOCAL_TABLE_POLL_INTERVAL * (Z.of_nat rounds - 1))%Z ->
  (0 <= wait_remote < REMOTE_TABLE_FALLBACK_POLL_INTERVAL * (Z.of_nat rounds - 1))%Z ->
  returns I (try_get_active_address_lookup_table_accounts rounds ks wait_local wait_remote) s answer s' ->
  answer <> None /\
  forall accounts, answer = Some (Ok accounts) ->
    forall k, k ∈ ks -> exists address addresses, (address, addresses) ∈ accounts /\ k ∈ addresses.
Proof.
  intros Hd Ht Hs Hl Hr (start & s1 & Hn & Hret)%(returns_bind I).
  assert (rounds <> 0) as Hr0 by (intros ->; unfold REMOTE_TABLE_FALLBACK_POLL_INTERVAL in Hr; lia).
  apply returns_get in Hn as (s2 & H2 & -> & H3). apply (returns_bind I) in Hret as (m & s4 & Hm & Hret).
  destruct (wait_local_returns I Hd Ht _ _ _ _ _ _ _ Hm) as [Hm1 Hm2]; [eauto|]. apply Ht in H3.
  destruct m as [[m|e]|]; [|by destruct Hret as [-> _]|destruct (Hm1 eq_refl); [lia|done]].
  specialize (Hm2 m eq_refl). cbv zeta in Hret.
  apply (returns_bind I) in Hret as (start & s5 & Hn & Hret). apply returns_get in Hn as (s6 & H6 & -> & H7).
  apply (returns_bind I) in Hret as ([] & s8 & Hw & Hret).
  apply (wait_until_time I Hd Ht) in Hw; [|lia]. apply Ht in H7.
  apply (returns_bind I) in Hret as (remote & s9 & Hrem & -> & _).
  destruct (wait_remote_returns I Hd Ht _ _ _ _ _ _ _ _ Hrem) as [Hr1 Hr2].
  destruct remote as [[remote|e]|]; [|done|destruct (Hr1 eq_refl); [lia|done]].
  split; [done|]. intros accounts [= Hacc]. by eapply lookup_accounts_cover; [..|apply Hr2|].
Qed.

(** A table with two keys that was finalized a while ago. *)
Definition one_table : Tables :=
  mkTables [Active (mkActive 101%N 101%N (refcounted_new [7%N; 8%N] 0) 10 0 5%N [] true)] []
    false false ∅ 10 0 20000.
Lemma tables_cover_keys_witness :
  exists accounts s',
    returns eq (@try_get_active_address_lookup_table_accounts small_tables 3 {[7%N; 8%N]} 300 900)
      one_table (Some (Ok accounts)) s' /\
    exists address addresses, (address, addresses) ∈ accounts /\ 8%N ∈ addresses.
Proof.
  assert (returns eq (@try_get_active_address_lookup_table_accounts small_tables 3 {[7%N; 8%N]} 300 900)
            one_table (Some (Ok [(101%N, [7%N; 8%N])])) one_table) as Hr.
  { apply (alone_returns eq (table_answer 10)). by vm_compute. }
  exists [(101%N, [7%N; 8%N])], one_table. split; [exact Hr|].
  destruct (tables_cover_keys (H := small_tables) eq 3 {[7%N; 8%N]} 300 900 one_table
              (Some (Ok [(101%N, [7%N; 8%N])])) one_table) as [_ Hc].
  - by intros s s' ->.
  - by intros s s' ->.
  - repeat constructor; set_solver.
  - done.
  - done.
  - exact Hr.
  - apply (Hc _ eq_refl). set_solver.
Defined.
