(* ===== verification/TableReserve.v ===== *)
(** * Lookup tables: reserving keys

    A call of [reserve_pubkeys] that succeeds has reserved every key, whether it was in a
    table before, another task brought it there meanwhile, the call stored it, or the
    chain stored it although the transaction seemed to fail; and undisturbed it needs no
    more rounds than there are keys, and errors it tolerates. *)

From stdpp Require Import base relations gmap sets list strings.
From Stdlib Require Import ZArith Lia.
From S2P Require Import Prelude Intent RpcClient ExecErrors Concurrent Tables TableSafety TableLive TableMatch.

Definition held_of (id : nat) (s : Tables) : gset Pubkey := default ∅ (held s !! id).
Definition keeps (id : nat) (s s' : Tables) : Prop := held_of id s ⊆ held_of id s'.
#[export] Instance keeps_preorder id : PreOrder (keeps id).
Proof. split; [by intros s k|by intros s1 s2 s3 H1 H2 k Hk; apply H2, H1]. Qed.

(** Of [ks] the keys of [rest] are left to do. *)
Definition covered (id : nat) (ks rest : list Pubkey) (s : Tables) : Prop :=
  forall k, k ∈ ks -> k ∈ rest \/ k ∈ held_of id s.
Lemma covered_refl id ks s : covered id ks ks s.
Proof. by left. Qed.
Lemma covered_keeps id ks rest s s' : covered id ks rest s -> keeps id s s' -> covered id ks rest s'.
Proof. intros Hc Hk k Hin. destruct (Hc k Hin) as [?|?]; [by left|right; by apply Hk]. Qed.
Lemma covered_trans id ks ks' rest s s' :
  covered id ks ks' s -> keeps id s s' -> covered id ks' rest s' -> covered id ks rest s'.
Proof.
  intros H1 Hk H2 k Hin. destruct (H1 k Hin) as [Hin'|Hin']; [by apply H2|right; by apply Hk].
Qed.

Lemma record_keeps id reserved ks s : keeps id s (record_reserved reserved ks s).
Proof.
  destruct reserved as [id'|]; [|done]. intros k. unfold held_of. cbn.
  destruct (decide (id' = id)) as [->|Hne]; [rewrite lookup_insert_eq; cbn; set_solver|by rewrite lookup_insert_ne].
Qed.
Lemma update_keeps id reserved ks i f s : keeps id s (record_reserved reserved ks (update_table i f s)).
Proof. exact (record_keeps id reserved ks (update_table i f s)). Qed.
Lemma record_held id ks s k : k ∈ ks -> k ∈ held_of id (record_reserved (Some id) ks s).
Proof. intros Hk. unfold held_of. cbn. rewrite lookup_insert_eq. cbn. set_solver. Qed.

Lemma filter_one_held id i k s :
  let p := filter_one (Some id) Reserve i k s in
  keeps id s p.1 /\ (p.2 = false -> k ∈ held_of id p.1).
Proof.
  cbv zeta. unfold filter_one. destruct (active_tables s !! i) as [[t|]|]; [|by split..].
  destruct (rc_reserve k (at_pubkeys t)) as [m|]; [|by split]. split; cbn [fst snd].
  - apply update_keeps.
  - intros _. apply record_held. by left.
Qed.
Lemma filter_present_held id i ks s :
  let p := filter_pubkeys_present_in_table (Some id) Reserve i ks s in
  keeps id s p.1 /\ covered id ks p.2 p.1.
Proof.
  revert s. induction ks as [|k ks IH]; intros s; cbn; [split; [done|apply covered_refl]|].
  destruct (filter_one_held id i k s) as [H1 H2]. destruct (filter_one (Some id) Reserve i k s) as [s1 b].
  specialize (IH s1). destruct (filter_pubkeys_present_in_table (Some id) Reserve i ks s1) as [s2 ks2].
  cbn in *. destruct IH as [IH1 IH2]. split; [by etrans|]. intros k' Hk'.
  apply elem_of_cons in Hk' as [->|Hk'].
  - destruct b; [by left; left|]. right. by apply IH1, H2.
  - destruct (IH2 k' Hk') as [?|?]; [left|by right]. destruct b; [by right|done].
Qed.

Lemma refcounted_new_elem ks at_ k : is_Some (refcounted_new ks at_ !! k) <-> k ∈ ks.
Proof.
  unfold refcounted_new. assert (forall m : RefcountedPubkeys,
    is_Some (foldl (fun m k => <[k := mkEntry 1 at_]> m) m ks !! k) <-> k ∈ ks \/ is_Some (m !! k)) as Hgen.
  { induction ks as [|k' ks IH]; intros m; cbn [foldl]; [set_solver|]. rewrite IH, elem_of_cons.
    destruct (decide (k = k')) as [->|Hne]; [rewrite lookup_insert_eq; naive_solver|].
    rewrite lookup_insert_ne by done. naive_solver. }
  rewrite Hgen, lookup_empty. split; [by intros [?|[? ?]]|by left].
Qed.

Lemma filter_length_le {A} (P : A -> Prop) `{forall x, Decision (P x)} l : length (filter P l) <= length l.
Proof. induction l as [|x l IH]; [done|]. rewrite filter_cons. case_decide; cbn; lia. Qed.
Lemma filter_length_lt {A} (P : A -> Prop) `{forall x, Decision (P x)} l x :
  x ∈ l -> ~ P x -> length (filter P l) < length l.
Proof.
  intros Hx HP. induction l as [|y l IH]; [by apply not_elem_of_nil in Hx|]. rewrite filter_cons.
  apply elem_of_cons in Hx as [<-|Hx].
  - rewrite decide_False by done. cbn. pose proof (filter_length_le P l). lia.
  - specialize (IH Hx). case_decide; cbn; lia.
Qed.

(** ** A call that succeeds *)

Section covers.
Context `{TableEnv} (I : Tables -> Tables -> Prop) `{!PreOrder I} (id : nat).
Hypothesis I_keeps : forall s s', I s s' -> keeps id s s'.
Abbreviation F A := (Future Tables TableJob TableCall TableReply A).

Lemma frames_keeps {A} Bl C (m : F A) s a s' : frames (keeps id) Bl C m -> returns I m s a s' -> keeps id s s'.
Proof. intros Hm. by apply (returns_frames I (keeps id) (keeps id) Bl C). Qed.

Lemma send_returns {A} (ask : F (RpcResult SendOutcome)) (landed : Z -> Signature -> Tables -> Tables * A) s r s' :
  (forall s a s', returns I ask s a s' -> I s s') ->
  returns I (send_table_tx ask landed) s r s' ->
  (exists e, r = Err e /\ I s s') \/
  exists sent_at sig s1, I s s1 /\ r = Ok (landed sent_at sig s1).2 /\ I (landed sent_at sig s1).1 s'.
Proof.
  intros Hask (b & s1 & H1%(returns_ask I) & Hr)%(returns_bind I).
  destruct b as [b|e]; [|destruct Hr as [-> Hr]; left; eexists; split; [done|by etrans]].
  apply (returns_bind I) in Hr as (now & s2 & Hn & Hr). apply returns_get in Hn as (s3 & H3 & -> & H4).
  apply (returns_bind I) in Hr as (o & s5 & H5%Hask & Hr). assert (I s s5) as Hs5 by (do 3 (etrans; [done|]); done).
  destruct o as [o|e]; [|destruct Hr as [-> Hr]; left; eexists; split; [done|by etrans]].
  destruct (into_result o) as [sig|e]; [|destruct Hr as [-> Hr]; left; eexists; split; [done|by etrans]].
  apply (returns_bind I) in Hr as (a & s6 & Hd & -> & Hr). apply returns_do in Hd as (s7 & H7 & -> & H8).
  right. exists (tables_now s3), sig, s7. split_and!; [by etrans|done|by etrans].
Qed.

Lemma extend_held payer i t extra s r s' :
  returns I (extend (Some id) payer i t extra) s r s' ->
  keeps id s s' /\ (r = Ok tt -> forall k, k ∈ extra -> k ∈ held_of id s').
Proof.
  unfold extend. destruct (check_max_pubkeys extra); [|intros [-> HI]; split; [by apply I_keeps|done]].
  intros [(e & -> & HI)|(sent_at & sig & s1 & H1 & -> & H2)]%send_returns.
  - split; [by apply I_keeps|done].
  - apply I_keeps in H1, H2. cbn [fst] in H2. split.
    + etrans; [exact H1|]. etrans; [|exact H2]. apply update_keeps.
    + intros _ k Hk. apply H2. by apply record_held.
  - intros s1 a s2. apply (returns_ask I).
Qed.

Lemma extend_capacity_held payer i t ks s r s' :
  returns I (extend_respecting_capacity (Some id) payer i t ks) s r s' ->
  keeps id s s' /\ (forall l, r = Ok l -> forall k, k ∈ l -> k ∈ held_of id s').
Proof.
  destruct t as [t|]; [|intros [-> HI]; split; [by apply I_keeps|done]]. cbn [extend_respecting_capacity]. cbv zeta.
  destruct (_ =? 0).
  { intros [-> HI]. split; [by apply I_keeps|]. intros l [= <-]. set_solver. }
  intros (res & s1 & Hx & -> & HI)%(returns_bind I). apply I_keeps in HI. apply extend_held in Hx as [Hk Hx].
  split; [by etrans|]. intros l Hl k Hin. destruct res as [[]|e]; [|done]. injection Hl as <-. by apply HI, Hx.
Qed.

Lemma reconcile_frames Bl C i t : (forall c, C c) -> frames (keeps id) Bl C (reconcile_with_chain i t).
Proof. intros HC. unfold reconcile_with_chain. frames_steps; by try intros k. Qed.

Lemma extend_table_held payer i t remaining s p s' :
  returns I (extend_table (Some id) Reserve payer i t remaining) s p s' ->
  keeps id s s' /\ covered id remaining p.2 s'.
Proof.
  unfold extend_table. destruct (deactivate_triggered t).
  { intros [-> HI]. split; [by apply I_keeps|apply covered_refl]. }
  cbv zeta. intros (stored & s1 & [H1 H2]%extend_capacity_held & Hr)%(returns_bind I). destruct stored as [l|e].
  - destruct Hr as [-> HI%I_keeps]. split; [by etrans|]. intros k Hk. cbn [snd].
    destruct (decide (k ∈ l)) as [Hl|Hl]; [right; by apply HI, (H2 l)|left]. by apply list_elem_of_filter.
  - apply (returns_bind I) in Hr as (rec & s2 & Hrec & Hr).
    eapply (frames_keeps (fun _ => True) (fun _ => True)) in Hrec; [|by apply reconcile_frames].
    apply (returns_bind I) in Hr as (rem & s3 & Hf & -> & HI%I_keeps). cbn [snd]. destruct rec as [u|e'].
    + apply returns_do in Hf as (s4 & H4%I_keeps & -> & H5%I_keeps).
      destruct (filter_present_held id i remaining s4) as [H6 H7]. split; [do 5 (etrans; [done|]); done|].
      eapply covered_keeps; [done|]. by etrans.
    + destruct Hf as [-> H4%I_keeps]. split; [do 3 (etrans; [done|]); done|apply covered_refl].
Qed.

Lemma create_held authority limit ks s r s' :
  returns I (create_new_table_and_extend (Some id) authority limit ks) s r s' ->
  keeps id s s' /\ forall rest, r = Ok rest -> covered id ks rest s'.
Proof.
  intros (slot & s1 & H1%(returns_ask I)%I_keeps & Hr)%(returns_bind I).
  destruct slot as [slot|e]; [|destruct Hr as [-> Hr%I_keeps]; split; [by etrans|done]].
  apply (returns_bind I) in Hr as (sub & s2 & Hd & Hr). apply returns_do in Hd as (s3 & H3%I_keeps & _ & H4%I_keeps).
  assert (keeps id s s2) as Hs2. { etrans; [exact H1|]. etrans; [exact H3|exact H4]. }
  cbv zeta in Hr. destruct (check_max_pubkeys _); [|destruct Hr as [-> Hr%I_keeps]; split; [by etrans|done]].
  apply send_returns in Hr as [(e & -> & HI%I_keeps)|(sent_at & sig & s5 & H5%I_keeps & -> & H6%I_keeps)].
  - split; [by etrans|done].
  - cbn [fst snd] in *. match type of H6 with keeps _ (record_reserved _ ?init (set_active ?ts _)) _ =>
      pose proof (record_keeps id (Some id) init (set_active ts s5)) as H7;
      pose proof (record_held id init (set_active ts s5)) as H8 end.
    split; [do 2 (etrans; [done|]); etrans; [exact H7|done]|]. intros rest [= <-] k Hk.
    match goal with |- context [contains_key _ ?t] => destruct (contains_key k t) eqn:Hin end.
    + right. apply H6, H8. unfold contains_key in Hin. cbn [table_pubkeys at_pubkeys] in Hin.
      by apply bool_decide_eq_true, refcounted_new_elem in Hin.
    + left. apply list_elem_of_filter. by rewrite Hin.
  - intros t1 a t2. apply (returns_ask I).
Qed.

Lemma lock_keeps a b s : keeps id s (set_table_locks a b s).
Proof. by intros k. Qed.
Lemma write_keeps {A} (body : F A) (Q : A -> Tables -> Prop) s a s' :
  (forall a s s', Q a s -> keeps id s s' -> Q a s') ->
  (forall s a s', returns I body s a s' -> keeps id s s' /\ Q a s') ->
  returns I (with_write body) s a s' -> keeps id s s' /\ Q a s'.
Proof.
  intros HQ Hb (s1 & s2 & H1%I_keeps & [H2 H3]%Hb & H4%I_keeps)%(returns_write I).
  assert (keeps id s2 s') as H5 by (etrans; [apply lock_keeps|exact H4]).
  split; [|by eapply HQ]. etrans; [exact H1|]. etrans; [apply lock_keeps|]. by etrans.
Qed.

Lemma use_last_held authority errors remaining s r s' :
  returns I (use_last_table (Some id) Reserve authority errors remaining) s r s' ->
  keeps id s s' /\ forall rd, r = Ok rd -> covered id remaining (rd_remaining rd) s'.
Proof.
  apply (write_keeps _ (fun r s' => forall rd, r = Ok rd -> covered id remaining (rd_remaining rd) s')).
  { intros a s1 s2 Hc Hk rd Hrd. eapply covered_keeps; [by apply Hc|done]. }
  clear s r s'. intros s r s' (o & s1 & Hn & Hr)%(returns_bind I). apply returns_get in Hn as (s2 & H2%I_keeps & _ & H3%I_keeps).
  assert (keeps id s s1) as H1 by by etrans. destruct o as [[i t]|].
  2:{ destruct Hr as [-> Hr%I_keeps]. split; [by etrans|]. intros rd [= <-]. apply covered_refl. }
  apply (returns_bind I) in Hr as ([r' rem] & s4 & [H4 H5]%extend_table_held & Hr). cbn [snd] in H5.
  destruct r' as [u|e].
  { destruct Hr as [-> Hr%I_keeps]. split; [do 2 (etrans; [done|]); done|]. intros rd [= <-]. by eapply covered_keeps. }
  destruct (handle_extend_table_error e errors) as [[| |] errors'].
  - apply (returns_bind I) in Hr as ([] & s5 & Hd & -> & Hr%I_keeps). apply returns_do in Hd as (s6 & H6%I_keeps & _ & H7%I_keeps).
    assert (keeps id s4 s') as H8.
    { etrans; [exact H6|]. etrans; [|exact Hr]. etrans; [|exact H7]. by intros k. }
    split; [do 2 (etrans; [done|]); done|]. intros rd [= <-]. by eapply covered_keeps.
  - destruct Hr as [-> Hr%I_keeps]. split; [do 2 (etrans; [done|]); done|]. intros rd [= <-]. by eapply covered_keeps.
  - destruct Hr as [-> Hr%I_keeps]. split; [do 2 (etrans; [done|]); done|done].
Qed.
Lemma use_new_held authority force remaining s r s' :
  returns I (use_new_table (Some id) authority force remaining) s r s' ->
  keeps id s s' /\ forall rest, r = Ok rest -> covered id remaining rest s'.
Proof.
  apply (write_keeps _ (fun r s' => forall rest, r = Ok rest -> covered id remaining rest s')).
  { intros a s1 s2 Hc Hk rd Hrd. eapply covered_keeps; [by apply Hc|done]. }
  clear s r s'. intros s r s' (b & s1 & Hn & Hr)%(returns_bind I). apply returns_get in Hn as (s2 & H2%I_keeps & _ & H3%I_keeps).
  assert (keeps id s s1) as H1 by by etrans. destruct b.
  - destruct Hr as [-> Hr%I_keeps]. split; [by etrans|]. intros rest [= <-]. apply covered_refl.
  - apply create_held in Hr as [H4 H5]. split; [by etrans|done].
Qed.

Lemma rounds_keeps authority rounds errors remaining s r s' :
  returns I (reserve_rounds (Some id) Reserve authority rounds errors remaining) s r s' -> keeps id s s'.
Proof.
  revert errors remaining s. induction rounds as [|rounds IH]; intros errors [|k ks] s; cbn [reserve_rounds];
    [by intros [_ HI%I_keeps]..|].
  intros (rd & s1 & [H1 _]%use_last_held & Hr)%(returns_bind I).
  destruct rd as [rd|e]; [|destruct Hr as [_ HI%I_keeps]; by etrans].
  destruct (rd_stored rd || is_nil (rd_remaining rd)); [etrans; [exact H1|by eapply IH]|].
  apply (returns_bind I) in Hr as (created & s2 & [H3 _]%use_new_held & Hr). etrans; [exact H1|]. etrans; [exact H3|].
  destruct created as [rem|e]; [by eapply IH|destruct Hr as [_ HI%I_keeps]; done].
Qed.
Lemma rounds_held authority rounds errors remaining s s' :
  returns I (reserve_rounds (Some id) Reserve authority rounds errors remaining) s (Some (Ok tt)) s' ->
  covered id remaining [] s'.
Proof.
  revert errors remaining s. induction rounds as [|rounds IH]; intros errors [|k ks] s; cbn [reserve_rounds];
    [intros _; apply covered_refl|by intros [? _]|intros _; apply covered_refl|].
  intros (r & s1 & [H1 H2]%use_last_held & Hr)%(returns_bind I). destruct r as [rd|e]; [|by destruct Hr].
  specialize (H2 rd eq_refl).
  assert (forall errors rem s2, covered id (k :: ks) rem s2 ->
    returns I (reserve_rounds (Some id) Reserve authority rounds errors rem) s2 (Some (Ok tt)) s' ->
    keeps id s2 s' -> covered id (k :: ks) [] s') as Hnext.
  { intros errors2 rem s2 Hc Hr2 Hk. eapply covered_trans; [exact Hc|exact Hk|]. by eapply IH. }
  destruct (rd_stored rd || is_nil (rd_remaining rd)).
  - eapply Hnext; [exact H2|exact Hr|]. by eapply rounds_keeps.
  - apply (returns_bind I) in Hr as (created & s2 & [H3 H4]%use_new_held & Hr).
    destruct created as [rem|e]; [|by destruct Hr]. specialize (H4 rem eq_refl).
    eapply Hnext; [by eapply covered_trans|exact Hr|]. by eapply rounds_keeps.
Qed.

Lemma existing_held ks s rest s' :
  returns I (reserve_existing id ks) s rest s' -> keeps id s s' /\ covered id ks rest s'.
Proof.
  revert s rest s'. induction ks as [|k ks IH]; intros s rest s'; cbn [reserve_existing].
  { intros [-> HI%I_keeps]. split; [done|apply covered_refl]. }
  intros (found & s1 & Hf & Hr)%(returns_bind I). apply returns_read in Hf as (s2 & H2%I_keeps & -> & H3%I_keeps).
  apply (returns_bind I) in Hr as (rest' & s4 & [H4 H5]%IH & -> & HI%I_keeps).
  unfold reserve_pubkey in *. destruct (reserve_in k (active_tables s2)) as [ts|]; cbn [fst snd] in *.
  - pose proof (record_keeps id (Some id) [k] (set_active ts s2)) as H6.
    pose proof (record_held id [k] (set_active ts s2) k ltac:(by left)) as H7.
    split; [do 2 (etrans; [done|]); etrans; [exact H3|by etrans]|]. intros k' Hk'.
    apply elem_of_cons in Hk' as [->|Hk']; [right; by apply HI, H4, H3|].
    destruct (H5 k' Hk') as [?|?]; [by left|right; by apply HI].
  - split; [do 3 (etrans; [done|]); done|]. intros k' Hk'.
    apply elem_of_cons in Hk' as [->|Hk']; [by left; left|].
    destruct (H5 k' Hk') as [?|?]; [by left; right|right; by apply HI].
Qed.
End covers.

(** ** Enough rounds *)

Section enough.
Context `{TableEnv} (I : Tables -> Tables -> Prop) `{!PreOrder I}.
(** No one else changes the tables between the steps of the call. *)
Hypothesis I_same : forall s s', I s s' -> active_tables s' = active_tables s.
Abbreviation F A := (Future Tables TableJob TableCall TableReply A).

(** The table at [i] is the last one, and still active. *)
Definition last_active (i : nat) (s : Tables) : Prop := S i = length (active_tables s) /\ is_active_at i s.
Definition keeps_last (i : nat) (s s' : Tables) : Prop := last_active i s -> last_active i s'.
#[local] Instance keeps_last_preorder i : PreOrder (keeps_last i).
Proof. split; [by intros s Hs|intros s1 s2 s3 H1 H2 Hs; auto]. Qed.

Lemma same_keeps_last i s s' : active_tables s' = active_tables s -> keeps_last i s s'.
Proof. intros Heq. unfold keeps_last, last_active, is_active_at. by rewrite Heq. Qed.
Lemma record_keeps_last i reserved ks s s' : keeps_last i s s' -> keeps_last i s (record_reserved reserved ks s').
Proof. intros Hk. etrans; [exact Hk|]. apply same_keeps_last. by destruct reserved. Qed.
Lemma update_keeps_last i j f s : keeps_last i s (update_table j f s).
Proof.
  intros [Hl Hi]. split; [cbn; by rewrite length_alter|by apply update_at].
Qed.
Lemma filter_present_last i reserved action ks s :
  let p := filter_pubkeys_present_in_table reserved action i ks s in
  keeps_last i s p.1 /\ length p.2 <= length ks.
Proof.
  revert s. induction ks as [|k ks IH]; intros s; cbn; [done|].
  assert (keeps_last i s (filter_one reserved action i k s).1) as H1.
  { unfold filter_one. destruct (active_tables s !! i) as [[t|]|]; [|done..].
    destruct action; [|done]. destruct (rc_reserve k (at_pubkeys t)); [|done].
    apply record_keeps_last, update_keeps_last. }
  destruct (filter_one reserved action i k s) as [s1 b]. specialize (IH s1).
  destruct (filter_pubkeys_present_in_table reserved action i ks s1) as [s2 ks2]. cbn in *.
  destruct IH as [IH1 IH2]. split; [by etrans|]. destruct b; cbn; lia.
Qed.

Lemma extend_last_frames i reserved payer t ks Bl C :
  (forall c, C c) -> frames (keeps_last i) Bl C (extend_respecting_capacity reserved payer i t ks).
Proof.
  intros HC. destruct t as [t|]; [|done]. unfold extend_respecting_capacity, extend, send_table_tx.
  frames_steps; try done. apply record_keeps_last, update_keeps_last.
Qed.
Lemma reconcile_last_frames i t Bl C : (forall c, C c) -> frames (keeps_last i) Bl C (reconcile_with_chain i t).
Proof. intros HC. unfold reconcile_with_chain. frames_steps; try done. apply update_keeps_last. Qed.

Lemma returns_last {A} i (m : F A) s a s' :
  frames (keeps_last i) (fun _ => True) (fun _ => True) m -> returns I m s a s' -> keeps_last i s s'.
Proof.
  intros Hm. apply (returns_frames I (keeps_last i) (keeps_last i) _ _ _ _ _ _ Hm); [|done].
  intros s1 s2 HI. by apply same_keeps_last, I_same.
Qed.

(** Storing in a table that has room does store something. *)
Lemma extend_capacity_stores reserved payer i t ks s l s' :
  has_more_capacity t = true -> ks <> [] ->
  returns I (extend_respecting_capacity reserved payer i t ks) s (Ok l) s' -> exists k, k ∈ l /\ k ∈ ks.
Proof.
  intros Hcap Hks. destruct t as [t|]; [|done]. unfold has_more_capacity in Hcap. apply andb_true_iff in Hcap as [_ Hcap%Nat.ltb_lt].
  cbn [extend_respecting_capacity]. cbv zeta. destruct (_ =? 0) eqn:H0; [apply Nat.eqb_eq in H0; lia|].
  intros (res & s1 & _ & Hl & _)%(returns_bind I). destruct res; [|done]. injection Hl as ->.
  destruct ks as [|k ks]; [done|]. exists k. split; [|left]. apply Nat.eqb_neq in H0.
  destruct (_ <=? _); [|left]. destruct (_ - _); [done|]. left.
Qed.

Lemma extend_table_shrinks reserved action payer i t remaining s r rest s' :
  has_more_capacity t = true -> remaining <> [] ->
  returns I (extend_table reserved action payer i t remaining) s (r, rest) s' ->
  keeps_last i s s' /\ length rest <= length remaining /\ (forall u, r = Ok u -> length rest < length remaining).
Proof.
  intros Hcap Hne. unfold extend_table. destruct (deactivate_triggered t) eqn:Hd; [by destruct t|]. cbv zeta.
  intros (stored & s1 & Hx & Hr)%(returns_bind I).
  pose proof (returns_last i _ _ _ _ (extend_last_frames i reserved payer t _ _ (fun _ => True) ltac:(done)) Hx) as H1.
  destruct stored as [l|e].
  - destruct Hr as [[= -> ->] HI]. split; [by etrans; [|by apply same_keeps_last, I_same]|].
    eapply extend_capacity_stores in Hx as (k & Hk & Hin); [|done|by destruct remaining].
    assert (length (filter (fun k => k ∉ l) remaining) < length remaining) as Hlt; [|by split; [lia|]].
    apply (filter_length_lt _ _ k); [|by intros ?]. apply elem_of_take in Hin as (j & Hj & _). by eapply list_elem_of_lookup_2.
  - apply (returns_bind I) in Hr as (rec & s2 & Hrec & Hr).
    pose proof (returns_last i _ _ _ _ (reconcile_last_frames i t _ (fun _ => True) ltac:(done)) Hrec) as H2.
    apply (returns_bind I) in Hr as (rem & s3 & Hf & [= -> ->] & HI). apply I_same, (same_keeps_last i) in HI.
    assert (keeps_last i s2 s3 /\ length rem <= length remaining) as [H3 Hlen].
    { destruct rec as [u|e'].
      - apply returns_do in Hf as (s4 & H4 & -> & H5). apply I_same, (same_keeps_last i) in H4, H5.
        destruct (filter_present_last i reserved action remaining s4) as [H6 H7].
        split; [|done]. etrans; [exact H4|]. by etrans.
      - destruct Hf as [-> H4]. by split; [apply same_keeps_last, I_same|]. }
    split_and!; [|done|done]. do 3 (etrans; [eassumption|]). done.
Qed.

(** ** One round *)

Lemma open_table_same s s' : active_tables s' = active_tables s -> open_table s' = open_table s.
Proof. intros Heq. unfold open_table. by rewrite Heq. Qed.
Lemma open_table_last s i t : open_table s = Some (i, t) -> has_more_capacity t = true /\ last_active i s.
Proof.
  unfold open_table, is_full. destruct (last (active_tables s)) as [t'|] eqn:Hl; [|done].
  destruct (has_more_capacity t') eqn:Hc; cbn; [|done]. intros [= <- <-]. split; [done|].
  apply last_Some in Hl as [ts Hts]. unfold last_active, is_active_at. rewrite Hts, length_app. cbn. split; [lia|].
  destruct t' as [t'|]; [|done]. exists t'. rewrite lookup_app_r by lia.
  by replace (length ts + 1 - 1 - length ts) with 0 by lia.
Qed.
Lemma marked_not_open i s : last_active i s -> open_table (update_table i mark_non_extendable s) = None.
Proof.
  intros [Hl (t & Ht)]. unfold open_table, update_table. cbn [active_tables set_active].
  rewrite last_lookup, length_alter, <- Hl. cbn [pred]. by rewrite list_lookup_alter_eq, Ht.
Qed.

Lemma use_last_shrinks reserved action authority errors remaining s rd s' :
  remaining <> [] ->
  returns I (use_last_table reserved action authority errors remaining) s (Ok rd) s' ->
  length (rd_remaining rd) <= length remaining /\
  if rd_stored rd then rd_errors rd = errors /\ length (rd_remaining rd) < length remaining
  else (rd_errors rd = errors /\ open_table s' = None) \/
       (rd_errors rd = S errors /\ errors < MAX_ALLOWED_EXTEND_ERRORS).
Proof.
  intros Hne (s1 & s2 & H1 & Hb & H3)%(returns_write I). apply I_same in H1, H3.
  assert (open_table s' = open_table s2) as Hs' by by apply open_table_same. rewrite Hs'. clear Hs' H3 s'.
  apply (returns_bind I) in Hb as (o & s4 & Hn & Hr). apply returns_get in Hn as (s5 & H5%I_same & -> & H6%I_same).
  destruct (open_table s5) as [[i t]|] eqn:Ho.
  2:{ destruct Hr as [[= ->] HI%I_same]. cbn. split; [done|]. left. split; [done|].
      by rewrite (open_table_same s4 s2), (open_table_same s5 s4). }
  destruct (open_table_last _ _ _ Ho) as [Hcap Hlast].
  apply (returns_bind I) in Hr as ([r rem] & s6 & Hx & Hr).
  apply extend_table_shrinks in Hx as (Hk & Hle & Hlt); [|done..].
  destruct r as [u|e]; [destruct Hr as [[= ->] _]; cbn; eauto|].
  unfold handle_extend_table_error in Hr. destruct (is_sent_transaction_invalid_instruction_data_at _ e).
  - apply (returns_bind I) in Hr as ([] & s7 & Hd & [= ->] & HI%I_same).
    apply returns_do in Hd as (s8 & H8%I_same & _ & H9%I_same). cbn [rd_remaining rd_stored rd_errors fst] in *.
    split; [done|]. left. split; [done|].
    rewrite (open_table_same s7 s2), (open_table_same (update_table i mark_non_extendable s8) s7) by done.
    apply marked_not_open. apply (same_keeps_last i s6 s8 H8), Hk. by apply (same_keeps_last i s5 s4 H6).
  - destruct (errors <? MAX_ALLOWED_EXTEND_ERRORS) eqn:He; [|by destruct Hr].
    destruct Hr as [[= ->] _]. split; [done|]. right. cbn [rd_errors]. split; [done|]. by apply Nat.ltb_lt.
Qed.

Lemma create_shrinks reserved authority limit ks s rest s' :
  0 < limit -> ks <> [] ->
  returns I (create_new_table_and_extend reserved authority limit ks) s (Ok rest) s' -> length rest < length ks.
Proof.
  intros Hlim Hne (slot & s1 & _ & Hr)%(returns_bind I). destruct slot as [slot|e]; [|by destruct Hr].
  apply (returns_bind I) in Hr as (sub & s2 & _ & Hr). cbv zeta in Hr.
  destruct (check_max_pubkeys _); [|by destruct Hr].
  apply (send_returns I) in Hr as [(e & ? & _)|(sent_at & sig & s3 & _ & [= ->] & _)]; [done| |].
  - destruct ks as [|k ks]; [done|]. apply (filter_length_lt _ _ k); [left|].
    assert (contains_key k (Active (mkActive (derive_keypair authority slot sub)
      (lookup_table_address (derive_keypair authority slot sub) slot)
      (refcounted_new (take (length (k :: ks) `min` limit `min` MAX_ENTRIES_AS_PART_OF_EXTEND) (k :: ks)) sent_at)
      slot sub sig [] true)) = true) as ->; [|by intros ?].
    unfold contains_key. cbn [table_pubkeys at_pubkeys length]. rewrite bool_decide_eq_true, refcounted_new_elem.
    destruct (S (length ks) `min` limit `min` MAX_ENTRIES_AS_PART_OF_EXTEND) eqn:Hn; [|left].
    unfold MAX_ENTRIES_AS_PART_OF_EXTEND in Hn. lia.
  - intros t1 a t2. apply (returns_ask I).
Qed.
Lemma use_new_shrinks reserved authority force remaining s rest s' :
  remaining <> [] ->
  returns I (use_new_table reserved authority force remaining) s (Ok rest) s' ->
  length rest <= length remaining /\ (open_table s = None -> length rest < length remaining).
Proof.
  intros Hne (s1 & s2 & H1%I_same & Hb & _)%(returns_write I).
  apply (returns_bind I) in Hb as (b & s3 & Hn & Hr). apply returns_get in Hn as (s4 & H4%I_same & -> & _).
  destruct (match open_table s4 with Some _ => _ | None => _ end) eqn:Hagain.
  - destruct Hr as [[= ->] _]. split; [done|]. intros Ho.
    by rewrite (open_table_same s s4), Ho in Hagain by (rewrite H4; exact H1).
  - apply create_shrinks in Hr; [by split; [lia|]| |done].
    unfold FALLBACK_NEW_TABLE_INIT_PUBKEYS, MAX_ENTRIES_AS_PART_OF_EXTEND. destruct force; lia.
Qed.

Lemma rounds_enough reserved action authority rounds errors remaining s s' :
  returns I (reserve_rounds reserved action authority rounds errors remaining) s None s' ->
  rounds < length remaining + (MAX_ALLOWED_EXTEND_ERRORS - errors).
Proof.
  revert errors remaining s. induction rounds as [|rounds IH]; intros errors [|k ks] s; cbn [reserve_rounds];
    [by intros [? _]|cbn [length]; lia|by intros [? _]|].
  intros (r & s1 & Hl & Hr)%(returns_bind I). destruct r as [rd|e]; [|by destruct Hr].
  apply use_last_shrinks in Hl as [Hle Hl]; [|done].
  destruct (rd_stored rd); cbn [orb] in Hr; [destruct Hl as [He Hlt]; apply IH in Hr; rewrite He in Hr; lia|].
  destruct (rd_remaining rd) as [|k' rem] eqn:Hrem; cbn [is_nil] in Hr.
  { destruct rounds; by destruct Hr. }
  apply (returns_bind I) in Hr as (created & s2 & Hn & Hr). destruct created as [rest|e]; [|by destruct Hr].
  apply use_new_shrinks in Hn as [Hle2 Hlt2]; [|done]. apply IH in Hr.
  destruct Hl as [[He Ho]|[He Hlt]]; rewrite He in Hr; [specialize (Hlt2 Ho)|]; lia.
Qed.
End enough.

Lemma list_to_set_size_le (l : list Pubkey) : size (list_to_set l : gset Pubkey) <= length l.
Proof.
  induction l as [|k l IH]; cbn [list_to_set length]; [by rewrite size_empty|].
  pose proof (size_union_alt ({[k]} : gset Pubkey) (list_to_set l)) as Hu. rewrite size_singleton in Hu.
  assert (size (list_to_set l ∖ {[k]} : gset Pubkey) <= size (list_to_set l : gset Pubkey)) by (apply subseteq_size; set_solver).
  lia.
Qed.
Lemma existing_length (I : Tables -> Tables -> Prop) `{!PreOrder I} id ks s rest s' :
  returns I (reserve_existing id ks) s rest s' -> length rest <= length ks.
Proof.
  revert s rest s'. induction ks as [|k ks IH]; intros s rest s'; cbn [reserve_existing]; [by intros [-> _]|].
  intros (found & s1 & _ & Hr)%(returns_bind I). apply (returns_bind I) in Hr as (rest' & s2 & Hlen%IH & -> & _).
  destruct found; cbn; lia.
Qed.

(** A call to [reserve_pubkeys] that succeeds has reserved every key it was given,
    whatever other tasks do to the tables meanwhile, as long as they leave its own
    reservations alone; and where they leave the active tables alone, it returns within as
    many rounds as it has keys, and extend errors it tolerates. *)
Theorem reserve_pubkeys_reserves `{TableEnv} (I : Tables -> Tables -> Prop) `{!PreOrder I}
    own rounds id authority ks s answer s' :
  (forall s s', I s s' -> keeps id s s') ->
  returns I (reserve_pubkeys own rounds id authority ks) s answer s' ->
  (answer = Some (Ok tt) -> ks ⊆ held_of id s') /\
  ((forall s s', I s s' -> active_tables s' = active_tables s) ->
   size ks + MAX_ALLOWED_EXTEND_ERRORS <= rounds -> answer <> None).
Proof.
  intros Hk (rest & s1 & He & Hr)%(returns_bind I). unfold reserve_new_pubkeys in Hr.
  destruct (existing_held I id Hk _ _ _ _ He) as [_ Hc]. split.
  - intros ->. case_decide; [by destruct Hr|].
    pose proof (rounds_keeps I id Hk _ _ _ _ _ _ _ Hr) as Hks. apply (rounds_held I id Hk) in Hr. intros k Hin.
    destruct (Hc k) as [Hrest|Hh]; [by rewrite key_order_perm, elem_of_elements| |by apply Hks].
    destruct (Hr k) as [Hn|]; [|by apply not_elem_of_nil in Hn|done].
    by rewrite key_order_perm, elem_of_elements, elem_of_list_to_set.
  - intros Hsame Hrounds ->. case_decide; [by destruct Hr|]. apply (rounds_enough I Hsame) in Hr.
    apply existing_length in He; [|done]. rewrite key_order_perm in Hr, He. change (length (elements ks)) with (size ks) in He.
    assert (size (list_to_set rest : gset Pubkey) <= length rest) as Hsize by apply list_to_set_size_le.
    change (length (elements (list_to_set rest))) with (size (list_to_set rest : gset Pubkey)) in Hr. lia.
Qed.

(** Two keys are reserved in a table that has one of them. *)
Lemma reserve_pubkeys_reserves_witness :
  let m := @reserve_pubkeys small_tables 1%N 7 0 1%N {[8%N; 9%N]} in
  exists answer s', returns eq m one_table answer s' /\ answer <> None /\
    (answer = Some (Ok tt) -> {[8%N; 9%N]} ⊆ held_of 0 s') /\ answer = Some (Ok tt).
Proof.
  intros m. destruct (alone (table_answer 12) m one_table) as [[answer s']|] eqn:Ha; [|by vm_compute in Ha].
  assert (returns eq m one_table answer s') as Hr by by apply (alone_returns eq (table_answer 12)).
  destruct (reserve_pubkeys_reserves (H := small_tables) eq 1%N 7 0 1%N {[8%N; 9%N]} one_table answer s') as [H1 H2].
  - by intros s1 s2 ->.
  - exact Hr.
  - exists answer, s'. split_and!; [exact Hr| |exact H1|].
    + apply H2; [by intros s1 s2 ->|by vm_compute].
    + vm_compute in Ha. by injection Ha as <- _.
Defined.
